(* ===== verification/_CoqProject ===== *)
-Q . S2P
Prelude.v
Errors.v
GoTime.v
Utf8.v
Row.v
Chunk.v
Truncate.v
Store.v
Float64.v
FloatFmt.v
Event.v
Duration.v
Json.v
EventRow.v
EventTheorems.v
Query.v
StoreTheorems.v
Trino.v
Prune.v
Sha256.v
ClickHouse.v
Metrics.v
Buffer.v
BufferSpec.v
BufferTheorems.v
TrinoTheorems.v
ClickHouseTheorems.v
Ingest.v
IngestTheorems.v
Url.v
Format.v
FormatTheorems.v
Api.v
ApiTheorems.v
Cache.v
CacheTheorems.v
Sql.v
SqlTheorems.v
ClickHouseSql.v
EndToEnd.v
Config.v
ConfigTheorems.v
Redis.v
Backend.v
Main.v
MainTheorems.v
Server.v
ServerTheorems.v
Flag.v
QueryCli.v
QueryCliTheorems.v
