(* ===== verification/Prelude.v ===== *)
(** * The Trino query-log sink

    A verification development of the sink: a Go service that receives Trino's
    query-completed events over HTTP, batches them into a table (Iceberg through
    Trino, or ClickHouse), and serves them back to a dashboard, a JSON API and a
    command-line client.

    ** Parts and how they interact

    A request body is decoded, checked and turned into a row by the ingest
    handler ([internal/server/ingest.go]), which hands the row to the buffer
    ([internal/ingest/buffer.go]).  The buffer's one flusher goroutine collects
    batches, splits them with the store's [SplitBatch] and sends them with
    [InsertBatch], retrying what a partial commit left over.  The stores
    ([internal/store/trino.go], [clickhouse.go]) share the row, chunking,
    truncation and query code of [internal/store].  Reads go from the API and
    the pages ([api.go], [ui.go]), through the cache ([cache.go], over Redis)
    when one is configured, to the same stores.  [main.go] reads the
    configuration, opens a store, wires these parts together, and shuts them down
    in order; it also runs the maintenance commands.  [internal/querycli] is a
    client of the JSON API.

    ** Files

    Foundations: this file; [Errors] (Go error chains, [errors.go]); [GoTime],
    [Utf8], [Sha256], [Float64], [FloatFmt], [Url], [Flag] and [Json] (the parts
    of Go's standard library the source leans on).

    Writing: [Event] and [Duration] ([internal/event]), [Row], [Chunk],
    [Truncate] and [Store] ([store.go], [chunk.go], [truncate.go]), [EventRow]
    ([row.go]), [Trino], [ClickHouse], [Metrics] ([metrics.go]), [Buffer],
    [Ingest].  The contract between the buffer and a store is the class
    [Store.Writer].  Its laws come in two strengths: [Store.WriterLaws] is the
    contract [store.go] documents, word for word; [Store.WriterLedger] is the same
    over a ledger that also knows of rows whose fate is open, because a call that
    failed (a timeout, a lost answer) may have written them.  The buffer's
    invariant is proved over a ledger, so it holds for both; [Trino] discharges
    the second, since Trino has nothing that would tell such a write from a
    failure.  ClickHouse has its deduplication tokens, and is taken on its own.

    Reading: [Query] ([query.go], [identifier.go]; the class [Query.Reader] is
    what a store is to its readers), [Cache], [Redis], [Api] ([api.go],
    [ui.go]), [Format] (both [format.go]), [Server] ([server.go]), [QueryCli].

    The database: [Sql] reads the texts the Trino store writes and says what they
    mean on a table of rows; [SqlTheorems] puts the store on top of it,
    [ClickHouseSql] does the same for the reads of the ClickHouse store, and
    [EndToEnd] the whole path from a received event to the API's answers.

    Around them: [Config] ([config.go]), [Backend] ([factory.go] and the opening
    of both stores), [Prune] ([prune.go] and the windows of [main.go]), [Main]
    ([main.go], [log.go]).

    Components have their theorems in a file of their own ([BufferTheorems],
    [TrinoTheorems], and so on); [BufferSpec] is the abstract account of the
    buffer, a history of rows accepted, written and lost, that its machine
    refines.

    ** How state and steps correspond to the code

    The buffer is a step machine ([Buffer.step]): a label is one atomic action of
    a goroutine (a channel operation, the choice of a [select], a timer, one
    attempt to insert), the state holds the channel, the flusher's local
    variables as a program counter ([Buffer.pc]), the metrics and the backend's
    world.  Concurrent requests are the two steps of [Ingest.handleIngest] around
    [Add], so every interleaving of handlers, flusher and shutdown is a run.  The
    readiness loop is a second such machine ([Server.rstep]) with a clock.  All
    other code is a function: a store operation takes and returns the world of
    its driver, errors are values of [Errors.gerror], and a field or variable
    keeps its Go width ([wrap64] where an addition can overflow).

    ** What the theorems show

    - The write path: [buffer_exactly_once], [buffer_counters],
      [close_accounts_for_all] and [ingest_accounting] for any store that keeps the
      documented contract; [close_terminates] and [non_retryable_stops] for any
      store at all.  [insert_batch_commits], [buffer_over_trino] and
      [sink_over_trino] for a Trino whose errors may hide a write: every row
      counted as flushed is in the table once, and besides them only rows of such
      writes, at most one per attempt; the hypothesis [nothing_hidden] names the
      case without them.  [ch_insert_contract], [dedup_exactly_once],
      [batch_token_identifies] and [flush_lands_once] for a ClickHouse whose errors
      may hide a write: the token makes a retried batch land exactly once.
    - Limits: [clamp_row_contract], [split_batch_contract],
      [chunk_rows_optimal], [truncate_contract], and end to end from the
      environment [configured_statements_fit].
    - Configuration: [load_reports_everything], [loaded_config_serves].
    - Reading: [row_roundtrip]; [trino_listing], [trino_lookup], [ch_listing] and
      [ch_lookup] on the table itself; [links_lead_to], and [events_come_back] from
      the request that brought an event to the pages that show it; [cache_fails_open], [list_key_identifies] and
      [cached_answers_are_fresh] for the cache; [get_over_the_wire] and
      [list_over_the_wire] for the client and the server joined.
    - Retention: [ch_prune_exact], [prune_command_keeps].
    - Readiness: [readiness_follows_store], [not_ready_after_stop].
    - What the code does against its intent: [add_after_exit_is_lost],
      [api_walk_stalls], and the example [millisecond_lost].

    ** Bounds and fuel

    The clamp of a row runs at most 1000 rounds, as in the source, and
    [clamp_row_contract] shows these are enough for fields below 2^47 bytes (a
    loaded configuration caps fields, so the hypothesis of the end-to-end theorem
    is only that [MAX_FIELD_BYTES] is below 2^47).  The loops over a text
    ([iso_loop], [duration_loop], [dec_loop], UTF-8 decoding) take the length of
    the text as fuel and consume at least one byte a round; [id_loop] takes one
    more than the number of arguments, and [id_among_flags] shows that it never
    runs out.  [scale_loop] and [cli_scale] have 7 and 6 rounds: a size below
    2^64 is at most exbibytes, and the client's units end at pebibytes.  [walk],
    a client following pages, is not code of the repository; its theorems ask for
    more fuel than there are rows, and give each request its own time, which the
    server reads.  The listing must be the same at each of them: nothing is
    written meanwhile, and no row enters or leaves the range asked for.

    ** Not modelled, and why

    Code outside the repository is a parameter with its documented behaviour as
    hypotheses: the Trino and ClickHouse drivers and servers (laws
    [trino_exec_laws], [sql_server], [typed_server], [dedup_laws],
    [partition_laws]), go-redis,
    HTML templates, [http.Client.Do], the JSON decoder and [strconv.Quote].
    A statement or block is carried out as a whole or not at all, but an error
    does not say which: deadlines, lost connections and lost answers are all
    errors after which either may be the case, and the table of a law is read as
    holding what the statements sent so far come to.  What a column keeps of a
    value is a parameter too ([stored_as]: the times of a row are stored at a
    microsecond next to them, since the columns are [timestamp(6)]).  The
    deduplication window of ClickHouse, 1000 blocks, is taken as unbounded: it
    is used for the retries of one batch.  Deadlines and cancellation appear only as failures of the calls that have
    them, and as labels of the two machines.  Log records, usage texts, the
    status writer behind the request log, connection-pool sizes and the
    compression of the ClickHouse connection have no effect on the state that is
    modelled and are left out.  Certificates are opaque texts.

    ** Still to do

    The decoding half of [encoding/json] for the event (unknown fields, numbers,
    the tolerant durations in place), which would make the ingest handler
    closed. *)

(** ** Prelude

    Go's strings, slices and integers as they are used below, generic lemmas on
    them, and the automation of the development. *)

From Stdlib Require Export ZArith Lia.
From Stdlib Require Export Strings.Byte Strings.String.
From stdpp Require Export base tactics numbers list countable gmap sorting.

#[global] Open Scope Z_scope.
#[global] Set Default Proof Using "Type".

(** Go's [string] and [[]byte]: finite byte sequences. *)
Abbreviation gostring := (list byte).

(** String literals of the source. *)
Definition bs (s : string) : gostring := list_byte_of_string s.

#[export] Instance byte_eq_dec : EqDecision byte := Byte.byte_eq_dec.

#[export] Program Instance byte_countable : Countable byte :=
  inj_countable Byte.to_N Byte.of_N _.
Next Obligation. intros b. apply Byte.of_to_N. Qed.

(** The numeric value of a byte, and the byte of a value in 0..255. *)
Definition bv (b : byte) : Z := Z.of_N (Byte.to_N b).
Definition byte_of (z : Z) : byte := default x00 (Byte.of_N (Z.to_N z)).

(** Go's built-in [len] on strings and slices. *)
Definition len {A} (l : list A) : Z := Z.of_nat (length l).

(** [s[:n]] and [s[n:]] for an index known to be in range. *)
Definition slice_to {A} (l : list A) (n : Z) : list A := take (Z.to_nat n) l.
Definition slice_from {A} (l : list A) (n : Z) : list A := drop (Z.to_nat n) l.

(** Two's-complement wrap-around of Go's [int]/[int64] (64 bits). *)
Definition wrap64 (z : Z) : Z := (z + 2 ^ 63) mod 2 ^ 64 - 2 ^ 63.
Definition int64 (z : Z) : Prop := - 2 ^ 63 <= z < 2 ^ 63.
Definition max_int64 : Z := 2 ^ 63 - 1.
Definition min_int64 : Z := - 2 ^ 63.

Definition sumZ (l : list Z) : Z := foldr Z.add 0 l.

(** [strings.Count(s, c)] for a one-byte pattern. *)
Definition count_byte (c : byte) (s : gostring) : Z :=
  len (filter (fun b => b = c) s).

(** [strings.Join]. *)
Fixpoint join (sep : gostring) (l : list gostring) : gostring :=
  match l with
  | [] => []
  | [x] => x
  | x :: rest => x ++ sep ++ join sep rest
  end.

(** [strings.ReplaceAll(s, c, new)] for a one-byte [c]. *)
Definition replace_byte (c : byte) (new : gostring) (s : gostring) : gostring :=
  mjoin ((fun b => if decide (b = c) then new else [b]) <$> s).

(** [strings.HasPrefix]. *)
Fixpoint has_prefix (s p : gostring) : bool :=
  match p, s with
  | [], _ => true
  | _ :: _, [] => false
  | c :: p', d :: s' => if decide (c = d) then has_prefix s' p' else false
  end.

(** [strings.Contains]. *)
Fixpoint contains (s p : gostring) : bool :=
  has_prefix s p || match s with [] => false | _ :: s' => contains s' p end.

(** The part before the first [c] and the part after it ([strings.Cut] on a
    one-byte separator), and all the parts ([strings.Split], and the [Cut]
    loops that walk over them). *)
Fixpoint cut (c : byte) (s : gostring) : gostring * option gostring :=
  match s with
  | [] => ([], None)
  | b :: t => if decide (b = c) then ([], Some t) else let '(x, y) := cut c t in (b :: x, y)
  end.

Fixpoint split_byte (c : byte) (s : gostring) : list gostring :=
  match s with
  | [] => [[]]
  | b :: t =>
      if decide (b = c) then [] :: split_byte c t
      else match split_byte c t with [] => [[b]] | x :: l => (b :: x) :: l end
  end.

(** Go's [<] on strings: byte-wise lexicographic. *)
Fixpoint str_ltb (a b : gostring) : bool :=
  match a, b with
  | _, [] => false
  | [], _ :: _ => true
  | x :: a', y :: b' => if bv x <? bv y then true else if bv y <? bv x then false else str_ltb a' b'
  end.

(** [slices.Sort] on strings, by [<=]. *)
Definition str_le (a b : gostring) : Prop := str_ltb b a = false.
#[export] Instance str_le_dec : RelDecision str_le := fun a b => decide (str_ltb b a = false).
Definition sort_strings (l : list gostring) : list gostring := merge_sort str_le l.

(** Decimal digits: [strconv.Itoa], [strconv.FormatInt(_, 10)] and [%d]. *)
Definition digit (d : Z) : byte := byte_of (48 + d).

Fixpoint dec_loop (fuel : nat) (n : Z) (acc : gostring) : gostring :=
  match fuel with
  | O => acc
  | S f =>
      let acc' := digit (n mod 10) :: acc in
      if n <? 10 then acc' else dec_loop f (n / 10) acc'
  end.

Definition udec (n : Z) : gostring := dec_loop (S (Z.to_nat (Z.log2 n))) n [].
Definition itoa (n : Z) : gostring :=
  if n <? 0 then x2d :: udec (- n) else udec n.

Definition is_digit (b : byte) : bool := (48 <=? bv b) && (bv b <=? 57).
Definition dec_val (s : gostring) : Z := foldl (fun a b => a * 10 + (bv b - 48)) 0 s.

(** [strconv.Atoi] on a 64-bit platform: optional sign, at least one digit,
    nothing else, and a value that fits an int64. *)
Definition atoi (s : gostring) : option Z :=
  let '(neg, ds) :=
    match s with
    | x2d :: t => (true, t)
    | x2b :: t => (false, t)
    | _ => (false, s)
    end in
  match ds with
  | [] => None
  | _ =>
      if forallb is_digit ds then
        let v := if (neg : bool) then - dec_val ds else dec_val ds in
        if (min_int64 <=? v) && (v <=? max_int64) then Some v else None
      else None
  end.

(** ** Automation *)

Create HintDb sink.

(** [lia] with [len] exposed and lengths normalised. *)
Ltac len_norm :=
  unfold len, slice_to, slice_from in *;
  repeat first
    [ rewrite length_app in * | rewrite length_take in * | rewrite length_drop in *
    | rewrite length_fmap in * | rewrite length_replicate in * | progress simpl length in * ].
Ltac llia := len_norm; lia.

(** Case analysis on the boolean comparisons of the code. *)
Ltac bcase :=
  repeat match goal with
  | |- context [Z.ltb ?a ?b] => destruct (Z.ltb_spec a b)
  | |- context [Z.leb ?a ?b] => destruct (Z.leb_spec a b)
  | |- context [Z.eqb ?a ?b] => destruct (Z.eqb_spec a b)
  end.

(** ** Generic lemmas *)

Section lists.
Context {A : Type}.
Implicit Types l : list A.

Lemma len_nonneg l : 0 <= len l.
Proof. llia. Qed.

Lemma len_nil : len (@nil A) = 0.
Proof. reflexivity. Qed.

Lemma len_cons x l : len (x :: l) = 1 + len l.
Proof. llia. Qed.

Lemma len_app l1 l2 : len (l1 ++ l2) = len l1 + len l2.
Proof. llia. Qed.

Lemma len_zero l : len l = 0 -> l = [].
Proof. destruct l; [done|]. rewrite len_cons. pose proof (len_nonneg l). lia. Qed.

Lemma len_slice_to l n : 0 <= n <= len l -> len (slice_to l n) = n.
Proof. intros. llia. Qed.

Lemma len_slice_from l n : 0 <= n <= len l -> len (slice_from l n) = len l - n.
Proof. intros. llia. Qed.

Lemma slice_to_from l n : slice_to l n ++ slice_from l n = l.
Proof. apply take_drop. Qed.

Lemma slice_to_all l n : len l <= n -> slice_to l n = l.
Proof. intros. apply take_ge. llia. Qed.
End lists.

Lemma len_fmap {A B} (f : A -> B) (l : list A) : len (f <$> l) = len l.
Proof. llia. Qed.

(** The first [k] of several chunks, as a part of all their elements. *)
Lemma slice_to_join {A} (cs : list (list A)) k : slice_to (mjoin cs) (len (mjoin (take k cs))) = mjoin (take k cs).
Proof.
  rewrite <- (take_drop k cs) at 1. unfold slice_to, len. by rewrite join_app, Nat2Z.id, take_app_length.
Qed.

Lemma slice_from_join {A} (cs : list (list A)) k : slice_from (mjoin cs) (len (mjoin (take k cs))) = mjoin (drop k cs).
Proof.
  rewrite <- (take_drop k cs) at 1. unfold slice_from, len. by rewrite join_app, Nat2Z.id, drop_app_length.
Qed.

Lemma len_join_take {A} (cs : list (list A)) k : 0 <= len (mjoin (take k cs)) <= len (mjoin cs).
Proof. rewrite <- (slice_to_join cs k). unfold slice_to, len. rewrite length_take. lia. Qed.

Lemma join_take_S {A} (cs : list (list A)) k c : cs !! k = Some c -> mjoin (take (S k) cs) = mjoin (take k cs) ++ c.
Proof. intros Hc. rewrite (take_S_r _ _ _ Hc), join_app. cbn. by rewrite app_nil_r. Qed.

Lemma join_drop_sub {A} (cs : list (list A)) k c : cs !! k = Some c -> c ⊆+ mjoin (drop k cs).
Proof. intros Hc. rewrite (drop_S _ _ _ Hc). cbn. by apply submseteq_inserts_r. Qed.

(** [n] copies of a list, and what is contained in how many of them. *)
Definition copies {A} (n : nat) (l : list A) : list A := mjoin (replicate n l).

Lemma copies_app {A} n (l1 l2 : list A) : copies n (l1 ++ l2) ≡ₚ copies n l1 ++ copies n l2.
Proof.
  induction n as [|n IH]; [done|]. unfold copies in *. cbn [replicate]. cbn. rewrite IH. solve_Permutation.
Qed.

Lemma copies_le {A} n m (l : list A) : (n <= m)%nat -> copies n l ⊆+ copies m l.
Proof.
  intros Hn. replace m with (n + (m - n))%nat by lia. unfold copies. rewrite replicate_add, join_app.
  by apply submseteq_inserts_r.
Qed.

Lemma copies_sub {A} n (l1 l2 : list A) : l1 ⊆+ l2 -> copies n l1 ⊆+ copies n l2.
Proof. intros Hl. induction n as [|n IH]; [done|]. unfold copies in *. cbn. by apply submseteq_app. Qed.

Lemma elem_of_copies {A} n (l : list A) x : x ∈ copies n l -> x ∈ l.
Proof.
  induction n as [|n IH]; [by intros []%elem_of_nil|]. unfold copies in *. cbn. rewrite elem_of_app. naive_solver.
Qed.

Lemma submseteq_fmap_inv {A B} (f : A -> B) (k : list B) (l : list A) :
  k ⊆+ f <$> l -> exists k', k' ⊆+ l /\ k = f <$> k'.
Proof.
  intros Hk. apply submseteq_Permutation in Hk as [k2 Hp].
  symmetry in Hp. apply Permutation_map_inv in Hp as (l3 & Hl & Hp). symmetry in Hl.
  apply (fmap_app_inv f l3) in Hl as (k' & k2' & -> & _ & ->).
  exists k'. split; [|done]. rewrite Hp. by apply submseteq_inserts_r.
Qed.

Lemma sumZ_app l1 l2 : sumZ (l1 ++ l2) = sumZ l1 + sumZ l2.
Proof. induction l1 as [|x l1 IH]; simpl; lia. Qed.

Lemma sumZ_nonneg l : Forall (fun z => 0 <= z) l -> 0 <= sumZ l.
Proof. induction 1; simpl; lia. Qed.

Lemma sumZ_fmap_cons {A} (f : A -> Z) x l : sumZ (f <$> x :: l) = f x + sumZ (f <$> l).
Proof. reflexivity. Qed.

Lemma sumZ_fmap_ext {A} (f g : A -> Z) l :
  (forall x, x ∈ l -> f x = g x) -> sumZ (f <$> l) = sumZ (g <$> l).
Proof.
  induction l as [|x l IH]; [done|]. intros H. rewrite !sumZ_fmap_cons.
  rewrite (H x), IH; [done| |by left]. intros y Hy. apply H. by right.
Qed.

Lemma sumZ_fmap_le {A} (f g : A -> Z) l :
  (forall x, x ∈ l -> f x <= g x) -> sumZ (f <$> l) <= sumZ (g <$> l).
Proof.
  induction l as [|x l IH]; [done|]. intros H. rewrite !sumZ_fmap_cons.
  pose proof (H x ltac:(by left)). specialize (IH ltac:(intros y Hy; apply H; by right)). lia.
Qed.

Lemma sumZ_fmap_const {A} (c : Z) (l : list A) : sumZ ((fun _ => c) <$> l) = c * len l.
Proof.
  induction l as [|x l IH]; [change (len (@nil A)) with 0; simpl; lia|].
  rewrite sumZ_fmap_cons, IH, len_cons. lia.
Qed.

Lemma count_byte_app c s1 s2 : count_byte c (s1 ++ s2) = count_byte c s1 + count_byte c s2.
Proof. unfold count_byte. rewrite filter_app. apply len_app. Qed.

Lemma count_byte_cons c b s : count_byte c (b :: s) = (if decide (b = c) then 1 else 0) + count_byte c s.
Proof. unfold count_byte. rewrite filter_cons. case_decide; [rewrite len_cons|]; lia. Qed.

Lemma count_byte_nonneg c s : 0 <= count_byte c s.
Proof. apply len_nonneg. Qed.

Lemma count_byte_le c s : count_byte c s <= len s.
Proof. unfold count_byte, len. pose proof (length_filter (fun b => b = c) s). lia. Qed.

(** [join] adds one separator between neighbours. *)
Lemma join_cons2 sep x y l : join sep (x :: y :: l) = x ++ sep ++ join sep (y :: l).
Proof. reflexivity. Qed.

Lemma join_sum (g : gostring -> Z) sep l :
  (forall a b, g (a ++ b) = g a + g b) -> g [] = 0 -> l <> [] ->
  g (join sep l) = sumZ (g <$> l) + g sep * (len l - 1).
Proof.
  intros Happ Hnil Hne. destruct l as [|x l]; [done|]. clear Hne. revert x.
  induction l as [|y l IH]; intros x.
  - simpl. change (len [x]) with 1. lia.
  - rewrite join_cons2, !Happ, IH, !sumZ_fmap_cons, !len_cons. lia.
Qed.

Lemma mjoin_len {A} (l : list (list A)) : len (mjoin l) = sumZ (len <$> l).
Proof. induction l as [|x l IH]; [done|]. rewrite sumZ_fmap_cons, <- IH. apply len_app. Qed.

Lemma mjoin_cons {A} (x : list A) l : mjoin (x :: l) = x ++ mjoin l.
Proof. reflexivity. Qed.

Lemma replace_byte_cons c new b s :
  replace_byte c new (b :: s) = (if decide (b = c) then new else [b]) ++ replace_byte c new s.
Proof. reflexivity. Qed.

Lemma list_filter_iff' {A} (P Q : A -> Prop) `{!forall x, Decision (P x)} `{!forall x, Decision (Q x)} (l : list A) :
  (forall x, x ∈ l -> P x <-> Q x) -> filter P l = filter Q l.
Proof.
  induction l as [|x l IH]; intros Hpq; [done|]. rewrite !filter_cons.
  assert (Hx : P x <-> Q x) by (apply Hpq; left). rewrite IH by (intros y Hy; apply Hpq; by right).
  destruct (decide (P x)), (decide (Q x)); done || tauto.
Qed.

Lemma has_prefix_app p t : has_prefix (p ++ t) p = true.
Proof. induction p as [|b p IH]; [by destruct t|]. cbn. by rewrite decide_True. Qed.

Lemma wrap64_id z : int64 z -> wrap64 z = z.
Proof. unfold int64, wrap64. intros. rewrite Z.mod_small; lia. Qed.

Lemma wrap64_range z : int64 (wrap64 z).
Proof.
  unfold int64, wrap64.
  pose proof (Z.mod_pos_bound (z + 2 ^ 63) (2 ^ 64)). lia.
Qed.

Lemma wrap64_add a b : wrap64 (wrap64 a + b) = wrap64 (a + b).
Proof.
  unfold wrap64. f_equal.
  replace ((a + 2 ^ 63) mod 2 ^ 64 - 2 ^ 63 + b + 2 ^ 63) with ((a + 2 ^ 63) mod 2 ^ 64 + b) by lia.
  rewrite Zplus_mod_idemp_l. f_equal. lia.
Qed.

Lemma wrap64_sum3 a b c d e :
  wrap64 (a + wrap64 b + wrap64 c + wrap64 d + e) = wrap64 (a + b + c + d + e).
Proof.
  replace (a + wrap64 b + wrap64 c + wrap64 d + e) with (wrap64 b + (wrap64 c + (wrap64 d + (a + e)))) by lia.
  rewrite wrap64_add. replace (b + (wrap64 c + (wrap64 d + (a + e)))) with (wrap64 c + (wrap64 d + (a + b + e))) by lia.
  rewrite wrap64_add. replace (c + (wrap64 d + (a + b + e))) with (wrap64 d + (a + b + c + e)) by lia.
  rewrite wrap64_add. f_equal. lia.
Qed.

(** ** Bytes and digits *)

Lemma bv_range b : 0 <= bv b <= 255.
Proof. unfold bv. pose proof (Byte.to_N_bounded b). lia. Qed.

Lemma bv_inj b c : bv b = bv c -> b = c.
Proof.
  unfold bv. intros H%N2Z.inj.
  pose proof (Byte.of_to_N b) as Hb. pose proof (Byte.of_to_N c) as Hc.
  rewrite H in Hb. congruence.
Qed.

Lemma bv_byte_of z : 0 <= z <= 255 -> bv (byte_of z) = z.
Proof.
  intros Hz. unfold bv, byte_of.
  destruct (Byte.of_N (Z.to_N z)) as [b|] eqn:E.
  - apply Byte.to_of_N in E. simpl. rewrite E. lia.
  - apply Byte.of_N_None_iff in E. lia.
Qed.

Lemma bv_digit d : 0 <= d <= 9 -> bv (digit d) = 48 + d.
Proof. intros. apply bv_byte_of. lia. Qed.

Lemma is_digit_digit d : 0 <= d <= 9 -> is_digit (digit d) = true.
Proof. intros. unfold is_digit. rewrite bv_digit by done. lia. Qed.

Lemma dec_loop_acc f n acc : dec_loop f n acc = dec_loop f n [] ++ acc.
Proof.
  revert n acc. induction f as [|f IH]; intros n acc; simpl; [done|].
  destruct (n <? 10); [done|].
  rewrite (IH _ (_ :: acc)), (IH _ [_]), <- app_assoc. done.
Qed.

Lemma dec_loop_fuel f1 f2 n :
  0 <= n < 2 ^ Z.of_nat f1 -> 0 <= n < 2 ^ Z.of_nat f2 -> (0 < f1)%nat -> (0 < f2)%nat ->
  dec_loop f1 n [] = dec_loop f2 n [].
Proof.
  revert f2 n. induction f1 as [|f1 IH]; intros [|f2] n H1 H2 ? ?; try lia.
  simpl. destruct (Z.ltb_spec n 10) as [|Hn]; [done|].
  rewrite (dec_loop_acc f1), (dec_loop_acc f2). f_equal.
  rewrite Nat2Z.inj_succ, Z.pow_succ_r in H1, H2 by lia.
  assert (n / 10 * 2 <= n) by (pose proof (Z.mul_div_le n 10); lia).
  assert (0 <= n / 10) by (apply Z.div_pos; lia).
  apply IH; try lia.
  - destruct f1; simpl in *; lia.
  - destruct f2; simpl in *; lia.
Qed.

Lemma udec_small n : 0 <= n < 10 -> udec n = [digit n].
Proof.
  intros. unfold udec. simpl. rewrite Z.mod_small by lia.
  destruct (Z.ltb_spec n 10); [done|lia].
Qed.

Lemma lt_pow2_log2 n : 0 <= n -> n < 2 ^ Z.of_nat (S (Z.to_nat (Z.log2 n))).
Proof.
  intros. pose proof (Z.log2_nonneg n).
  destruct (decide (n = 0)) as [->|]; [done|].
  pose proof (Z.log2_spec n). rewrite Nat2Z.inj_succ, Z2Nat.id by lia. lia.
Qed.

Lemma udec_step n : 10 <= n -> udec n = udec (n / 10) ++ [digit (n mod 10)].
Proof.
  intros. unfold udec at 1. cbn [dec_loop].
  destruct (Z.ltb_spec n 10); [lia|].
  rewrite dec_loop_acc. f_equal.
  assert (0 < n / 10) by (apply Z.div_str_pos; lia).
  assert (n / 10 * 2 <= n) by (pose proof (Z.mul_div_le n 10); lia).
  pose proof (lt_pow2_log2 n). rewrite Nat2Z.inj_succ, Z.pow_succ_r in * by lia.
  assert (0 < Z.log2 n) by (apply Z.log2_pos; lia).
  apply dec_loop_fuel; try lia.
  split; [lia|]. apply lt_pow2_log2. lia.
Qed.

(** Induction on the number of decimal digits. *)
Lemma dec_ind (P : Z -> Prop) :
  (forall n, 0 <= n < 10 -> P n) ->
  (forall n, 10 <= n -> P (n / 10) -> P n) ->
  forall n, 0 <= n -> P n.
Proof.
  intros Hs Hl n Hn. revert Hn. induction n as [n IH] using (well_founded_induction (Z.lt_wf 0)).
  intros Hn. destruct (decide (n < 10)); [by apply Hs|].
  apply Hl; [lia|]. apply IH; [|apply Z.div_pos; lia].
  split; [apply Z.div_pos; lia|]. apply Z.div_lt; lia.
Qed.

Lemma div_mod_10 n : n = 10 * (n / 10) + n mod 10 /\ 0 <= n mod 10 < 10.
Proof. split; [apply Z.div_mod; lia | apply Z.mod_pos_bound; lia]. Qed.

Lemma dec_val_app s1 s2 : dec_val (s1 ++ s2) = foldl (fun a b => a * 10 + (bv b - 48)) (dec_val s1) s2.
Proof. unfold dec_val. by rewrite foldl_app. Qed.

Lemma dec_val_nonneg s : forallb is_digit s = true -> 0 <= dec_val s.
Proof.
  unfold dec_val. assert (Hg : forall a, 0 <= a -> forallb is_digit s = true ->
    0 <= foldl (fun a b => a * 10 + (bv b - 48)) a s); [|intros; by apply Hg].
  induction s as [|b s IH]; intros a Ha; [done|]. cbn. intros [Hb Hs]%andb_prop. apply IH; [|done].
  unfold is_digit in Hb. apply andb_prop in Hb as [Hb%Z.leb_le _]. lia.
Qed.

Lemma dec_val_snoc s b : dec_val (s ++ [b]) = dec_val s * 10 + (bv b - 48).
Proof. by rewrite dec_val_app. Qed.

Lemma dec_val_lt s : forallb is_digit s = true -> dec_val s < 10 ^ len s.
Proof.
  induction s as [|b s IH] using rev_ind; [done|]. rewrite forallb_app. intros [Hs Hb]%andb_prop.
  rewrite dec_val_snoc, len_app, Z.pow_add_r by llia. specialize (IH Hs). simpl in Hb.
  unfold is_digit in Hb. rewrite andb_true_r, andb_true_iff, !Z.leb_le in Hb.
  change (10 ^ len [b]) with 10. lia.
Qed.

(** Digit strings of one length are determined by their value. *)
Lemma dec_val_inj s t :
  length s = length t -> forallb is_digit s = true -> forallb is_digit t = true -> dec_val s = dec_val t -> s = t.
Proof.
  revert t. induction s as [|b s IH] using rev_ind; intros t Hl Hs Ht Hv.
  { destruct t; [done|discriminate Hl]. }
  destruct t as [|c t _] using rev_ind; [rewrite length_app in Hl; simpl in Hl; lia|].
  rewrite !length_app in Hl. simpl in Hl. rewrite forallb_app in Hs, Ht. apply andb_prop in Hs as [Hs Hb], Ht as [Ht Hc].
  rewrite !dec_val_snoc in Hv. simpl in Hb, Hc. unfold is_digit in Hb, Hc.
  rewrite andb_true_r, andb_true_iff, !Z.leb_le in Hb, Hc.
  rewrite (IH t), (bv_inj b c); [done|lia|lia|done|done|lia].
Qed.

Lemma dec_val_udec n : 0 <= n -> dec_val (udec n) = n.
Proof.
  revert n. apply dec_ind.
  - intros n Hn. rewrite udec_small by done. cbn. rewrite bv_digit; lia.
  - intros n Hn IH. rewrite udec_step, dec_val_snoc, IH by done.
    pose proof (div_mod_10 n). rewrite bv_digit; lia.
Qed.

Lemma udec_digits n : 0 <= n -> forallb is_digit (udec n) = true.
Proof.
  revert n. apply dec_ind.
  - intros n Hn. rewrite udec_small by done. cbn. rewrite is_digit_digit; [done|lia].
  - intros n Hn IH. pose proof (div_mod_10 n).
    rewrite udec_step, forallb_app, IH by done. cbn. rewrite is_digit_digit; [done|lia].
Qed.

Lemma udec_nonempty n : 0 <= n -> udec n <> [].
Proof.
  intros Hn. destruct (decide (n < 10)).
  - by rewrite udec_small by lia.
  - rewrite udec_step by lia. by destruct (udec (n / 10)).
Qed.

Lemma udec_len_pos n : 0 <= n -> 1 <= len (udec n).
Proof.
  intros Hn. pose proof (udec_nonempty n Hn). destruct (udec n); [done|].
  rewrite len_cons. pose proof (len_nonneg l). lia.
Qed.

Lemma udec_len_mono a b : 0 <= a <= b -> len (udec a) <= len (udec b).
Proof.
  intros [Ha Hb]. assert (Hb0 : 0 <= b) by lia. revert b Hb0 a Ha Hb.
  refine (dec_ind _ _ _).
  - intros b Hb a Ha Hab. rewrite !udec_small by lia. done.
  - intros b Hb IH a Ha Hab. rewrite (udec_step b), len_app by done. change (len [_]) with 1.
    assert (0 < b / 10) by (apply Z.div_str_pos; lia).
    destruct (decide (a < 10)).
    + rewrite udec_small by lia. change (len [_]) with 1. pose proof (udec_len_pos (b / 10)). lia.
    + rewrite udec_step, len_app by lia. change (len [_]) with 1.
      specialize (IH (a / 10)). pose proof (Z.div_pos a 10).
      pose proof (Z.div_le_mono a b 10). lia.
Qed.

Lemma udec_len_pow k n : (0 < k)%nat -> 0 <= n < 10 ^ Z.of_nat k -> len (udec n) <= Z.of_nat k.
Proof.
  revert n. induction k as [|k IH]; intros n ? Hn; [lia|].
  destruct (decide (n < 10)).
  - rewrite udec_small by lia. change (len [_]) with 1. lia.
  - rewrite udec_step, len_app by lia. change (len [_]) with 1.
    rewrite Nat2Z.inj_succ, Z.pow_succ_r in Hn by lia.
    assert (0 <= n / 10 < 10 ^ Z.of_nat k).
    { split; [apply Z.div_pos; lia|]. apply Z.div_lt_upper_bound; lia. }
    destruct k; [simpl in *; lia|]. specialize (IH (n / 10)). lia.
Qed.

Lemma itoa_len_int64 n : int64 n -> len (itoa n) <= 20.
Proof.
  unfold int64, itoa. intros Hn. destruct (Z.ltb_spec n 0).
  - rewrite len_cons. pose proof (udec_len_pow 19 (- n)). lia.
  - pose proof (udec_len_pow 19 n). lia.
Qed.

Lemma count_byte_digits c s : is_digit c = false -> forallb is_digit s = true -> count_byte c s = 0.
Proof.
  intros Hc. unfold count_byte. induction s as [|b s IH]; simpl; [done|].
  intros [Hb Hs]%andb_true_iff. rewrite filter_cons.
  destruct (decide (b = c)) as [->|]; [congruence|]. by apply IH.
Qed.

(** The head of a digit string is a digit, so [atoi] sees no sign. *)
Lemma atoi_itoa n : int64 n -> atoi (itoa n) = Some n.
Proof.
  intros Hn. unfold atoi, itoa, int64 in *.
  destruct (Z.ltb_spec n 0) as [Hlt|Hge].
  - pose proof (udec_nonempty (- n)) as Hne. pose proof (udec_digits (- n)) as Hd.
    pose proof (dec_val_udec (- n)) as Hv.
    destruct (udec (- n)) as [|b s] eqn:E; [by destruct Hne; [lia|]|].
    rewrite Hd, Hv by lia. unfold min_int64, max_int64.
    destruct (Z.leb_spec (- 2 ^ 63) (- - n)); [|lia].
    destruct (Z.leb_spec (- - n) (2 ^ 63 - 1)); [|lia]. simpl. f_equal. lia.
  - pose proof (udec_nonempty n Hge) as Hne. pose proof (udec_digits n Hge) as Hd.
    pose proof (dec_val_udec n Hge) as Hv.
    destruct (udec n) as [|b s] eqn:E; [done|].
    assert (Hb : b <> x2d /\ b <> x2b).
    { simpl in Hd. apply andb_true_iff in Hd as [Hd _]. split; intros ->; discriminate. }
    destruct Hb as [Hb1 Hb2].
    assert (Hm : match b :: s with
                 | x2d :: t => (true, t) | x2b :: t => (false, t) | _ => (false, b :: s) end
                 = (false, b :: s)) by (destruct b; done).
    rewrite Hm, Hd, Hv. unfold min_int64, max_int64.
    destruct (Z.leb_spec (- 2 ^ 63) n); [|lia]. destruct (Z.leb_spec n (2 ^ 63 - 1)); [done|lia].
Qed.

Lemma udec_inj a b : 0 <= a -> 0 <= b -> udec a = udec b -> a = b.
Proof. intros Ha Hb E. by rewrite <- (dec_val_udec a), <- (dec_val_udec b), E. Qed.

(** ** String order *)

Lemma str_ltb_irrefl a : str_ltb a a = false.
Proof. induction a as [|x a IH]; simpl; [done|]. bcase; [lia|done]. Qed.

Lemma str_ltb_app a b x y :
  length a = length b -> str_ltb (a ++ x) (b ++ y) = str_ltb a b || (bool_decide (a = b) && str_ltb x y).
Proof.
  revert b. induction a as [|c a IH]; intros [|d b] Hl; try done. simpl.
  injection Hl as Hl. destruct (Z.ltb_spec (bv c) (bv d)) as [|H1]; [done|].
  destruct (Z.ltb_spec (bv d) (bv c)) as [|H2].
  - rewrite bool_decide_eq_false_2; [done|]. intros [= -> _]. lia.
  - assert (c = d) as -> by (apply bv_inj; lia). rewrite IH by done. f_equal. f_equal.
    apply bool_decide_ext. split; [by intros ->|by intros [=]].
Qed.

(** On digit strings of one width the order of strings is that of numbers. *)
Lemma str_ltb_digits a b :
  length a = length b -> forallb is_digit a = true -> forallb is_digit b = true ->
  str_ltb a b = (dec_val a <? dec_val b) /\ (a = b <-> dec_val a = dec_val b).
Proof.
  revert b. induction a as [|x a IH] using rev_ind; intros b Hl Ha Hb.
  { destruct b; [done|discriminate]. }
  destruct b as [|y b _] using rev_ind; [by rewrite length_app in Hl; simpl in Hl; lia|].
  rewrite !length_app in Hl; simpl in Hl. assert (length a = length b) as Hl' by lia.
  rewrite !forallb_app in Ha, Hb. simpl in Ha, Hb.
  apply andb_true_iff in Ha as [Ha Hx], Hb as [Hb Hy]. rewrite andb_true_r in Hx, Hy.
  destruct (IH b Hl' Ha Hb) as [IHlt IHeq].
  rewrite str_ltb_app, IHlt, !dec_val_snoc by done.
  unfold is_digit in Hx, Hy. simpl. split.
  - destruct (Z.ltb_spec (dec_val a) (dec_val b)); simpl; [destruct (Z.ltb_spec (dec_val a * 10 + (bv x - 48)) (dec_val b * 10 + (bv y - 48))); lia|].
    destruct (bool_decide_reflect (a = b)) as [->|Hne]; simpl.
    + bcase; lia || done.
    + assert (dec_val a <> dec_val b) by (by intros E; apply Hne, IHeq).
      symmetry. apply Z.ltb_ge. lia.
  - split; [by intros [-> ->]%app_inj_tail|]. intros E.
    assert (dec_val a = dec_val b) as E1 by lia. apply IHeq in E1 as ->.
    f_equal. f_equal. apply bv_inj. lia.
Qed.

(** Go's order on strings is a total order. *)
Lemma str_ltb_trans a b c : str_le a b -> str_le b c -> str_le a c.
Proof.
  unfold str_le. revert b c. induction a as [|x a IH]; intros [|y b] [|z c]; cbn; try done.
  repeat match goal with |- context [?p <? ?q] => destruct (Z.ltb_spec p q) end; try done; try lia. apply IH.
Qed.

Lemma str_le_total a b : str_ltb a b = true -> str_le a b.
Proof.
  unfold str_le. revert b. induction a as [|x a IH]; intros [|y b]; cbn; try done.
  repeat match goal with |- context [?p <? ?q] => destruct (Z.ltb_spec p q) end; try done; try lia. apply IH.
Qed.

Lemma str_le_antisym a b : str_le a b -> str_le b a -> a = b.
Proof.
  unfold str_le. revert b. induction a as [|x a IH]; intros [|y b]; cbn; try done.
  repeat match goal with |- context [?p <? ?q] => destruct (Z.ltb_spec p q) end; try done; try lia.
  intros H1 H2. f_equal; [apply bv_inj; lia|by apply IH].
Qed.

#[export] Instance str_le_preorder : PreOrder str_le.
Proof. split; [exact str_ltb_irrefl|exact str_ltb_trans]. Qed.
#[export] Instance str_le_anti : AntiSymm (=) str_le.
Proof. exact str_le_antisym. Qed.
#[export] Instance str_le_tot : Total str_le.
Proof. intros a b. unfold str_le at 1. destruct (str_ltb b a) eqn:E; [right; by apply str_le_total|by left]. Qed.

Lemma sort_strings_perm l : sort_strings l ≡ₚ l.
Proof. apply merge_sort_Permutation. Qed.

(** ** Splitting *)

Lemma cut_app c s t : c ∉ s -> cut c (s ++ c :: t) = (s, Some t).
Proof.
  induction s as [|b s IH]; intros Hs; cbn; [by rewrite decide_True|].
  apply not_elem_of_cons in Hs as [Hb Hs]. rewrite decide_False by done. by rewrite IH.
Qed.

Lemma cut_none c s : c ∉ s -> cut c s = (s, None).
Proof.
  induction s as [|b s IH]; intros Hs; cbn; [done|].
  apply not_elem_of_cons in Hs as [Hb Hs]. rewrite decide_False by done. by rewrite IH.
Qed.

Lemma split_byte_app c s t : c ∉ s -> split_byte c (s ++ c :: t) = s :: split_byte c t.
Proof.
  induction s as [|b s IH]; intros Hs; cbn; [by rewrite decide_True|].
  apply not_elem_of_cons in Hs as [Hb Hs]. rewrite decide_False by done. by rewrite IH.
Qed.

Lemma split_byte_none c s : c ∉ s -> split_byte c s = [s].
Proof.
  induction s as [|b s IH]; intros Hs; cbn; [done|].
  apply not_elem_of_cons in Hs as [Hb Hs]. rewrite decide_False by done. by rewrite IH.
Qed.

Lemma split_byte_join c l : l <> [] -> Forall (fun s => c ∉ s) l -> split_byte c (join [c] l) = l.
Proof.
  induction l as [|x l IH]; [done|]. intros _ H. apply Forall_cons in H as [Hx H].
  destruct l as [|y l]; [by apply split_byte_none|].
  rewrite join_cons2. change (x ++ [c] ++ join [c] (y :: l)) with (x ++ c :: join [c] (y :: l)).
  rewrite split_byte_app by done. f_equal. by apply IH.
Qed.
