(* ===== verification/Errors.v ===== *)
(** * Errors: Go error chains and [internal/store/errors.go]

    A Go [error] is a tree: a leaf, a value wrapped with a prefix by
    [fmt.Errorf("...: %w")], two wrapped values ([%w: %w]), a
    [PartialCommitError], or an [errors.Join].  [errors.Is] and [errors.As]
    walk the tree in pre-order. *)

From S2P Require Import Prelude.

(** Leaves the code tells apart.  [ETrino name text] and [EClickHouse code text]
    are the drivers' structured errors, [EText] any other. *)
Inductive leaf :=
| ENonRetryable
| ECacheMiss
| EInvalidEvent
| ENotFound
| EUsage
| EHelp
| ETrino (name text : gostring)
| EClickHouse (code : Z) (text : gostring)
| EText (text : gostring).

#[export] Instance leaf_eq_dec : EqDecision leaf.
Proof. solve_decision. Defined.

Inductive gerror :=
| Leaf (l : leaf)
| Wrap (prefix : gostring) (e : gerror)
| Wrap2 (e1 e2 : gerror)
| PartialCommitError (Committed : Z) (Err : gerror)
| Joined (es : list gerror).

Section traversal.
Context (l : leaf).
(** [errors.Is(err, l)] for a sentinel [l]. *)
Fixpoint errors_Is (e : gerror) : bool :=
  match e with
  | Leaf l' => bool_decide (l = l')
  | Wrap _ e => errors_Is e
  | Wrap2 e1 e2 => errors_Is e1 || errors_Is e2
  | PartialCommitError _ e => errors_Is e
  | Joined es => existsb errors_Is es
  end.
End traversal.

Section errors_as.
Context {A : Type} (at_leaf : leaf -> option A).
(** [errors.As] for a driver error type: the first leaf, in pre-order, that
    has the type. *)
Fixpoint errors_As_leaf (e : gerror) : option A :=
  match e with
  | Leaf l => at_leaf l
  | Wrap _ e => errors_As_leaf e
  | Wrap2 e1 e2 =>
      match errors_As_leaf e1 with Some a => Some a | None => errors_As_leaf e2 end
  | PartialCommitError _ e => errors_As_leaf e
  | Joined es =>
      (fix go es := match es with
       | [] => None
       | e :: es' => match errors_As_leaf e with Some a => Some a | None => go es' end
       end) es
  end.
End errors_as.

(** [errors.As(err, &pce)]: the count of the first [PartialCommitError]. *)
Fixpoint errors_As_partial (e : gerror) : option Z :=
  match e with
  | Leaf _ => None
  | Wrap _ e => errors_As_partial e
  | Wrap2 e1 e2 =>
      match errors_As_partial e1 with Some a => Some a | None => errors_As_partial e2 end
  | PartialCommitError n _ => Some n
  | Joined es =>
      (fix go es := match es with
       | [] => None
       | e :: es' => match errors_As_partial e with Some a => Some a | None => go es' end
       end) es
  end.

Definition CommittedRows (e : gerror) : Z := default 0 (errors_As_partial e).

Definition leaf_text (l : leaf) : gostring :=
  match l with
  | ENonRetryable => bs "non-retryable"
  | ECacheMiss => bs "cache: miss"
  | EInvalidEvent => bs "invalid query completed event"
  | ENotFound => bs "query not found"
  | EUsage => bs "usage"
  | EHelp => bs "flag: help requested"
  | ETrino _ t => t
  | EClickHouse _ t => t
  | EText t => t
  end.

(** [err.Error()]. *)
Fixpoint error_text (e : gerror) : gostring :=
  match e with
  | Leaf l => leaf_text l
  | Wrap p e => p ++ error_text e
  | Wrap2 e1 e2 => error_text e1 ++ bs ": " ++ error_text e2
  | PartialCommitError n e => itoa n ++ bs " rows committed before failure: " ++ error_text e
  | Joined es => join [x0a] (error_text <$> es)
  end.

(** [errors.Join]: [nil] when every argument is [nil]. *)
Definition errors_Join (es : list gerror) : option gerror :=
  match es with [] => None | _ => Some (Joined es) end.

Definition errText (s : string) : gerror := Leaf (EText (bs s)).
