(* ===== verification/GoTime.v ===== *)
(** * GoTime: the part of package [time] the sink uses

    An instant is its distance in nanoseconds from the Unix epoch; every
    operation the code applies to one first converts to UTC, so the location is
    not kept.  Calendar dates follow the proleptic Gregorian calendar. *)

From S2P Require Import Prelude.

Abbreviation time := Z (only parsing).
Abbreviation Duration := Z (only parsing).

Definition Nanosecond : Duration := 1.
Definition Microsecond : Duration := 1000 * Nanosecond.
Definition Millisecond : Duration := 1000 * Microsecond.
Definition Second : Duration := 1000 * Millisecond.
Definition Minute : Duration := 60 * Second.
Definition Hour : Duration := 60 * Minute.
Definition Day : Duration := 24 * Hour.

(** [Duration.Milliseconds] and [d / time.Millisecond]: truncated division. *)
Definition Milliseconds (d : Duration) : Z := Z.quot d Millisecond.

Record date := mkDate { dyear : Z; dmonth : Z; dday : Z }.

(** Days from 1970-01-01 to a civil date, and back.  Years start in March, so
    that the leap day is the last of its year; 1 March 0000 is day -719468. *)
Definition march_year (y m : Z) : Z := if m <=? 2 then y - 1 else y.
Definition march_month (m : Z) : Z := if m <=? 2 then m + 9 else m - 3.
Definition year_start (y : Z) : Z := 365 * y + y / 4 - y / 100 + y / 400.
Definition month_start (mp : Z) : Z := (153 * mp + 2) / 5.

Definition days_of_civil (y m d : Z) : Z :=
  year_start (march_year y m) + month_start (march_month m) + (d - 1) - 719468.

(** The 400-, 100-, 4- and 1-year cycles are cut off one after the other; the
    last 100-year and 1-year cycle may be one day longer. *)
Definition march_of_days (s : Z) : Z * Z :=
  let n400 := s / 146097 in
  let r := s mod 146097 in
  let n100 := r / 36524 - r / 36524 / 4 in
  let r1 := r - 36524 * n100 in
  let n4 := r1 / 1461 in
  let r2 := r1 - 1461 * n4 in
  let n1 := r2 / 365 - r2 / 365 / 4 in
  (400 * n400 + 100 * n100 + 4 * n4 + n1, r2 - 365 * n1).

Definition civil_of_days (z : Z) : date :=
  let '(y, doy) := march_of_days (z + 719468) in
  let mp := (5 * doy + 2) / 153 in
  let m := if mp <? 10 then mp + 3 else mp - 9 in
  mkDate (if m <=? 2 then y + 1 else y) m (doy - month_start mp + 1).

Definition is_leap (y : Z) : bool :=
  (y mod 4 =? 0) && (negb (y mod 100 =? 0) || (y mod 400 =? 0)).

Definition days_in (m y : Z) : Z :=
  if (m =? 2) then (if is_leap y then 29 else 28)
  else if (m =? 4) || (m =? 6) || (m =? 9) || (m =? 11) then 30 else 31.

(** [time.Date(y, m, d, 0, 0, 0, 0, time.UTC)]: the month is normalised into
    the year and the day may be out of range. *)
Definition Date (y m d : Z) : time :=
  let m0 := m - 1 in
  (days_of_civil (y + m0 / 12) (m0 mod 12 + 1) 1 + (d - 1)) * Day.

Definition utc_days (t : time) : Z := t / Day.
Definition utc_date (t : time) : date := civil_of_days (utc_days t).

(** [t.AddDate(0, 0, n)] on a UTC time: the date is taken apart, the day is
    shifted and the clock kept. *)
Definition AddDays (t : time) (n : Z) : time :=
  let c := utc_date t in
  Date (dyear c) (dmonth c) (dday c + n) + t mod Day.

(** The zero [time.Time], 0001-01-01 00:00 UTC. *)
Definition zero_time : time := Date 1 1 1.
Definition IsZero (t : time) : bool := t =? zero_time.

(** Decimal with at least [w] digits, zero padded (the width of [appendInt]). *)
Definition pad_dec (w : nat) (n : Z) : gostring :=
  let s := udec (Z.abs n) in
  (if n <? 0 then [x2d] else []) ++ replicate (w - length s) x30 ++ s.

(** [t.UTC().Format("20060102")]. *)
Definition format_date (d : date) : gostring :=
  pad_dec 4 (dyear d) ++ pad_dec 2 (dmonth d) ++ pad_dec 2 (dday d).
Definition format_yyyymmdd (t : time) : gostring := format_date (utc_date t).

(** The clock of an instant: seconds of the day, and nanoseconds. *)
Definition clock_sec (t : time) : Z := t mod Day / Second.
Definition clock_nano (t : time) : Z := t mod Second.

(** [Format("2006-01-02 15:04:05")] on a UTC time, with [sep] between date and
    clock. *)
Definition format_datetime (sep : gostring) (t : time) : gostring :=
  let c := utc_date t in
  let s := clock_sec t in
  pad_dec 4 (dyear c) ++ bs "-" ++ pad_dec 2 (dmonth c) ++ bs "-" ++ pad_dec 2 (dday c) ++ sep
  ++ pad_dec 2 (s / 3600) ++ bs ":" ++ pad_dec 2 (s / 60 mod 60) ++ bs ":" ++ pad_dec 2 (s mod 60).

(** [time.RFC3339] on a UTC time, and the layouts that end in ".000" and
    ".000000". *)
Definition format_rfc3339 (t : time) : gostring := format_datetime (bs "T") t ++ bs "Z".
Definition format_millis (t : time) : gostring :=
  format_datetime (bs " ") t ++ bs "." ++ pad_dec 3 (clock_nano t / 1000000).
Definition format_micros (t : time) : gostring :=
  format_datetime (bs " ") t ++ bs "." ++ pad_dec 6 (clock_nano t / 1000).

(** A time cut to microseconds. *)
Definition micros (t : time) : time := t - t mod 1000.

(** [time.Parse("20060102", s)]: four digits of year, two of month, two of day,
    nothing after them, month and day in range. *)
Definition parse_yyyymmdd (s : gostring) : option time :=
  match s with
  | [y1; y2; y3; y4; m1; m2; d1; d2] =>
      if forallb is_digit s then
        let y := dec_val [y1; y2; y3; y4] in
        let m := dec_val [m1; m2] in
        let d := dec_val [d1; d2] in
        if (m <=? 0) || (12 <? m) then None
        else if (d <? 1) || (days_in m y <? d) then None
        else Some (Date y m d)
      else None
  | _ => None
  end.

(** [t.Sub(u)] saturates at the int64 bounds. *)
Definition Sub (t u : time) : Duration := Z.max min_int64 (Z.min max_int64 (t - u)).

(** [t.Truncate(d)]: multiples of [d] since the zero time. *)
Definition Truncate (t : time) (d : Duration) : time :=
  if d <=? 0 then t else t - (t - zero_time) mod d.

(** A date that exists. *)
Definition valid_date (c : date) : Prop :=
  1 <= dmonth c <= 12 /\ 1 <= dday c <= days_in (dmonth c) (dyear c).

Definition days_of_date (c : date) : Z := days_of_civil (dyear c) (dmonth c) (dday c).

(** The order of dates: year, then month, then day. *)
Definition date_lt (a b : date) : Prop :=
  dyear a < dyear b \/
  (dyear a = dyear b /\ (dmonth a < dmonth b \/ (dmonth a = dmonth b /\ dday a < dday b))).

(** ** The calendar round trips *)

Ltac divmod := Z.div_mod_to_equations; lia.

Lemma march_of_days_spec s y doy :
  march_of_days s = (y, doy) ->
  year_start y + doy = s /\ 0 <= doy <= 365 /\ (doy = 365 -> is_leap (y + 1) = true).
Proof.
  unfold march_of_days, year_start. intros [= <- <-].
  assert (Hs := Z.div_mod s 146097). assert (Hr := Z.mod_pos_bound s 146097).
  set (n400 := s / 146097) in *. set (r := s mod 146097) in *.
  set (n100 := r / 36524 - r / 36524 / 4).
  assert (H100 : 0 <= n100 <= 3 /\ 0 <= r - 36524 * n100 <= 36524
                 /\ (r - 36524 * n100 = 36524 -> n100 = 3)) by (unfold n100; divmod).
  set (r1 := r - 36524 * n100) in *. set (n4 := r1 / 1461).
  assert (H4 : 0 <= n4 <= 24 /\ 0 <= r1 - 1461 * n4 <= 1460
               /\ (r1 - 1461 * n4 = 1460 -> n4 = 24 -> n100 = 3)) by (unfold n4; divmod).
  set (r2 := r1 - 1461 * n4) in *. set (n1 := r2 / 365 - r2 / 365 / 4).
  assert (H1 : 0 <= n1 <= 3 /\ 0 <= r2 - 365 * n1 <= 365
               /\ (r2 - 365 * n1 = 365 -> n1 = 3 /\ r2 = 1460)) by (unfold n1; divmod).
  set (y := 400 * n400 + 100 * n100 + 4 * n4 + n1).
  assert (E4 : y / 4 = 100 * n400 + 25 * n100 + n4) by (unfold y; divmod).
  assert (E100 : y / 100 = 4 * n400 + n100) by (unfold y; divmod).
  assert (E400 : y / 400 = n400) by (unfold y; divmod).
  rewrite E4, E100, E400. split; [unfold y; lia|]. split; [lia|].
  intros H365. destruct H1 as (_ & _ & H1). destruct (H1 H365) as [-> Hr2].
  unfold is_leap. apply andb_true_iff. split.
  - apply Z.eqb_eq. unfold y. divmod.
  - apply orb_true_iff. destruct (decide (n4 = 24)) as [E|E].
    + right. apply Z.eqb_eq. unfold y. destruct H4 as (_ & _ & H4). specialize (H4 Hr2 E). divmod.
    + left. apply negb_true_iff, Z.eqb_neq. unfold y. divmod.
Qed.

(** The month that holds a day of a March year. *)
Definition month_ok (doy : Z) : bool :=
  let mp := (5 * doy + 2) / 153 in
  let m := if mp <? 10 then mp + 3 else mp - 9 in
  let d := doy - month_start mp + 1 in
  (march_month m =? mp) && (1 <=? m) && (m <=? 12) && (1 <=? d)
  && (d <=? (if m =? 2 then (if doy =? 365 then 29 else 28) else days_in m 1)).

Fixpoint all_below (n : nat) (z : Z) (p : Z -> bool) : bool :=
  match n with O => true | S n' => p z && all_below n' (z + 1) p end.

Lemma all_below_spec n z p : all_below n z p = true -> forall x, z <= x < z + Z.of_nat n -> p x = true.
Proof.
  revert z. induction n as [|n IH]; intros z H x Hx; [lia|].
  simpl in H. apply andb_true_iff in H as [Hp H].
  destruct (decide (x = z)) as [->|]; [done|]. apply (IH (z + 1)); [done|lia].
Qed.

Lemma month_ok_all doy : 0 <= doy <= 365 -> month_ok doy = true.
Proof.
  intros. apply (all_below_spec 366 0); [vm_compute; done|lia].
Qed.

Lemma days_in_not_feb m y1 y2 : m <> 2 -> days_in m y1 = days_in m y2.
Proof. intros. unfold days_in. destruct (Z.eqb_spec m 2); done. Qed.

Lemma civil_of_days_spec z :
  days_of_date (civil_of_days z) = z /\ valid_date (civil_of_days z).
Proof.
  unfold civil_of_days. destruct (march_of_days (z + 719468)) as [y doy] eqn:E.
  apply march_of_days_spec in E as (Hs & Hd & Hleap).
  pose proof (month_ok_all doy Hd) as Hm. unfold month_ok in Hm; cbv zeta in Hm.
  set (mp := (5 * doy + 2) / 153) in *.
  set (m := if mp <? 10 then mp + 3 else mp - 9) in *.
  rewrite !andb_true_iff, Z.eqb_eq, !Z.leb_le in Hm. destruct Hm as ((((Hmm & H1) & H12) & Hd1) & Hd2).
  unfold days_of_date, valid_date, days_of_civil, march_year; simpl. split.
  - rewrite Hmm. destruct (Z.leb_spec m 2); [replace (y + 1 - 1) with y by lia|]; lia.
  - split; [done|]. split; [done|]. destruct (Z.eqb_spec m 2) as [E2|E2].
    + rewrite E2. cbn. destruct (Z.eqb_spec doy 365) as [E3|].
      * by rewrite Hleap.
      * destruct (is_leap (y + 1)); lia.
    + erewrite days_in_not_feb; done.
Qed.

Lemma div_succ y k : 0 < k -> (y + 1) / k = y / k + (if (y + 1) mod k =? 0 then 1 else 0).
Proof.
  intros. pose proof (Z.div_mod y k). pose proof (Z.mod_pos_bound y k).
  pose proof (Z.div_mod (y + 1) k). pose proof (Z.mod_pos_bound (y + 1) k).
  destruct (Z.eqb_spec ((y + 1) mod k) 0); nia.
Qed.

Lemma year_start_step y : year_start (y + 1) = year_start y + (if is_leap (y + 1) then 366 else 365).
Proof.
  unfold year_start, is_leap. rewrite !div_succ by lia.
  assert ((y + 1) mod 100 = 0 -> (y + 1) mod 4 = 0) by divmod.
  assert ((y + 1) mod 400 = 0 -> (y + 1) mod 100 = 0) by divmod.
  destruct (Z.eqb_spec ((y + 1) mod 4) 0), (Z.eqb_spec ((y + 1) mod 100) 0),
    (Z.eqb_spec ((y + 1) mod 400) 0); cbn [andb orb negb]; lia.
Qed.

Lemma year_start_mono a b : a <= b -> year_start a <= year_start b.
Proof.
  intros Hab. replace b with (a + (b - a)) by lia.
  assert (0 <= b - a) as Hn by lia. revert Hn. generalize (b - a).
  apply natlike_ind; [by rewrite Z.add_0_r|]. intros n Hn IH.
  rewrite <- Z.add_1_r, Z.add_assoc, year_start_step. destruct (is_leap _); lia.
Qed.

(** A valid date lies inside its March year and its month. *)
Lemma march_day_bound m d y :
  1 <= m <= 12 -> 1 <= d <= days_in m y ->
  0 <= month_start (march_month m) + (d - 1)
  /\ (march_month m < 11 -> month_start (march_month m) + (d - 1) < month_start (march_month m + 1))
  /\ (march_month m = 11 -> month_start 11 + (d - 1) < if is_leap y then 366 else 365).
Proof.
  intros Hm Hd.
  assert (m = 1 \/ m = 2 \/ m = 3 \/ m = 4 \/ m = 5 \/ m = 6 \/ m = 7 \/ m = 8 \/ m = 9 \/ m = 10
          \/ m = 11 \/ m = 12) as Hcase by lia.
  repeat (destruct Hcase as [->|Hcase]); try subst m; unfold days_in, march_month in *;
    repeat match goal with
    | |- context [month_start ?k] => let v := eval vm_compute in (month_start k) in change (month_start k) with v
    end; cbn [Z.eqb Z.leb Z.compare Pos.compare Pos.compare_cont Pos.eqb orb] in *;
    destruct (is_leap y); lia.
Qed.

Lemma month_start_mono a b : a <= b -> month_start a <= month_start b.
Proof. intros. unfold month_start. divmod. Qed.

(** Where a valid date sits in its March year: before the next year starts. *)
Lemma march_doy_bound c :
  valid_date c ->
  0 <= month_start (march_month (dmonth c)) + (dday c - 1)
  /\ month_start (march_month (dmonth c)) + (dday c - 1)
     < year_start (march_year (dyear c) (dmonth c) + 1) - year_start (march_year (dyear c) (dmonth c)).
Proof.
  intros [Hm Hd]. pose proof (march_day_bound _ _ _ Hm Hd) as (H0 & Hlt & Hl).
  split; [done|]. rewrite year_start_step.
  assert (Hmm : march_month (dmonth c) < 11 \/ march_month (dmonth c) = 11)
    by (unfold march_month; bcase; lia).
  destruct Hmm as [Hmm|Hmm].
  - specialize (Hlt Hmm). pose proof (month_start_mono (march_month (dmonth c) + 1) 11 ltac:(lia)) as Hms.
    change (month_start 11) with 337 in Hms.
    destruct (is_leap (march_year (dyear c) (dmonth c) + 1)); lia.
  - assert (dmonth c = 2) as E by (unfold march_month in Hmm; destruct (Z.leb_spec (dmonth c) 2); lia).
    specialize (Hl Hmm). rewrite Hmm. unfold march_year. rewrite E. simpl.
    replace (dyear c - 1 + 1) with (dyear c) by lia. destruct (is_leap (dyear c)); lia.
Qed.

Lemma days_of_date_mono a b :
  valid_date a -> valid_date b -> date_lt a b -> days_of_date a < days_of_date b.
Proof.
  intros Ha Hb Hlt. pose proof (march_doy_bound a Ha) as [Ha0 Ha1].
  pose proof (march_doy_bound b Hb) as [Hb0 Hb1].
  destruct Ha as [Hma Hda], Hb as [Hmb Hdb].
  pose proof (march_day_bound _ _ _ Hma Hda) as (_ & Hsa & _).
  unfold days_of_date, days_of_civil.
  assert (Hy : march_year (dyear a) (dmonth a) < march_year (dyear b) (dmonth b)
    \/ (march_year (dyear a) (dmonth a) = march_year (dyear b) (dmonth b)
        /\ (march_month (dmonth a) < march_month (dmonth b)
            \/ (march_month (dmonth a) = march_month (dmonth b) /\ dday a < dday b)))).
  { unfold march_year, march_month, date_lt in *.
    destruct (Z.leb_spec (dmonth a) 2), (Z.leb_spec (dmonth b) 2); lia. }
  destruct Hy as [Hy|[-> [Hm|[-> Hd]]]].
  - pose proof (year_start_mono (march_year (dyear a) (dmonth a) + 1) (march_year (dyear b) (dmonth b))). lia.
  - pose proof (month_start_mono (march_month (dmonth a) + 1) (march_month (dmonth b))).
    assert (march_month (dmonth b) <= 11) by (unfold march_month; bcase; lia). lia.
  - lia.
Qed.

Lemma date_trichotomy a b : date_lt a b \/ a = b \/ date_lt b a.
Proof.
  destruct a as [y m d], b as [y' m' d']. unfold date_lt; simpl.
  destruct (Z.lt_total y y') as [|[->|]]; [lia| |lia].
  destruct (Z.lt_total m m') as [|[->|]]; [lia| |lia].
  destruct (Z.lt_total d d') as [|[->|]]; [lia| |lia]. auto.
Qed.

Lemma civil_of_days_of_date c : valid_date c -> civil_of_days (days_of_date c) = c.
Proof.
  intros Hc. destruct (civil_of_days_spec (days_of_date c)) as [E Hv].
  destruct (date_trichotomy (civil_of_days (days_of_date c)) c) as [H|[H|H]]; [|done|];
    apply days_of_date_mono in H; auto; lia.
Qed.

Lemma civil_of_days_lt a b : a < b <-> date_lt (civil_of_days a) (civil_of_days b).
Proof.
  destruct (civil_of_days_spec a) as [Ea Ha], (civil_of_days_spec b) as [Eb Hb]. split.
  - intros Hlt. destruct (date_trichotomy (civil_of_days a) (civil_of_days b)) as [H|[H|H]]; [done| |].
    + rewrite H in Ea. lia.
    + apply days_of_date_mono in H; auto. lia.
  - intros H. apply days_of_date_mono in H; auto. lia.
Qed.

(** ** Operations on instants *)

Lemma Day_pos : 0 < Day.
Proof. reflexivity. Qed.

Lemma Date_valid c : valid_date c -> Date (dyear c) (dmonth c) (dday c) = days_of_date c * Day.
Proof.
  intros [Hm Hd]. unfold Date, days_of_date, days_of_civil.
  replace ((dmonth c - 1) / 12) with 0 by divmod.
  replace ((dmonth c - 1) mod 12 + 1) with (dmonth c) by divmod.
  rewrite !Z.add_0_r. lia.
Qed.

Lemma Date_shift y m d n : Date y m (d + n) = Date y m d + n * Day.
Proof. unfold Date. lia. Qed.

Lemma AddDays_add t n : AddDays t n = t + n * Day.
Proof.
  unfold AddDays, utc_date, utc_days. rewrite Date_shift, Date_valid by apply civil_of_days_spec.
  rewrite (proj1 (civil_of_days_spec _)).
  pose proof (Z.div_mod t Day ltac:(done)). lia.
Qed.

Lemma start_of_day t : Date (dyear (utc_date t)) (dmonth (utc_date t)) (dday (utc_date t)) = t / Day * Day.
Proof.
  unfold utc_date, utc_days. rewrite Date_valid by apply civil_of_days_spec.
  by rewrite (proj1 (civil_of_days_spec _)).
Qed.

(** ** The YYYYMMDD form *)

Lemma pad_dec_small w n :
  0 <= n < 10 ^ Z.of_nat w -> (0 < w)%nat ->
  length (pad_dec w n) = w /\ forallb is_digit (pad_dec w n) = true /\ dec_val (pad_dec w n) = n.
Proof.
  intros Hn Hw. unfold pad_dec. rewrite Z.abs_eq by lia.
  destruct (Z.ltb_spec n 0); [lia|]. simpl app.
  pose proof (udec_len_pow w n Hw Hn) as Hl. unfold len in Hl. split; [|split].
  - rewrite length_app, length_replicate. lia.
  - rewrite forallb_app, udec_digits, andb_true_r by lia.
    generalize (w - length (udec n))%nat. induction n0; simpl; done.
  - rewrite dec_val_app.
    assert (dec_val (replicate (w - length (udec n)) x30) = 0) as ->.
    { generalize (w - length (udec n))%nat. induction n0 as [|k IH]; [done|].
      rewrite replicate_S_end, dec_val_snoc, IH. done. }
    change (dec_val (udec n) = n). apply dec_val_udec. lia.
Qed.

(** A date whose year has four digits. *)
Definition year4 (c : date) : Prop := 0 <= dyear c <= 9999.

Lemma days_in_le m y : days_in m y <= 31.
Proof. unfold days_in. repeat case_match; lia. Qed.

Lemma valid_date_bounds c : valid_date c -> 1 <= dmonth c <= 12 /\ 1 <= dday c <= 31.
Proof. intros [? ?]. pose proof (days_in_le (dmonth c) (dyear c)). lia. Qed.

Lemma parse_format_date c :
  valid_date c -> year4 c -> parse_yyyymmdd (format_date c) = Some (days_of_date c * Day).
Proof.
  intros Hv Hy. pose proof (valid_date_bounds c Hv) as [Hm Hd]. unfold year4 in Hy.
  destruct (pad_dec_small 4 (dyear c)) as (Ly & Dy & Vy); [lia|lia|].
  destruct (pad_dec_small 2 (dmonth c)) as (Lm & Dm & Vm); [lia|lia|].
  destruct (pad_dec_small 2 (dday c)) as (Ld & Dd & Vd); [lia|lia|].
  assert (Hdig : forallb is_digit (format_date c) = true)
    by (unfold format_date; by rewrite !forallb_app, Dy, Dm, Dd).
  unfold format_date in *.
  destruct (pad_dec 4 (dyear c)) as [|y1 [|y2 [|y3 [|y4 [|]]]]]; try discriminate Ly.
  destruct (pad_dec 2 (dmonth c)) as [|m1 [|m2 [|]]]; try discriminate Lm.
  destruct (pad_dec 2 (dday c)) as [|d1 [|d2 [|]]]; try discriminate Ld.
  cbn [app] in *. unfold parse_yyyymmdd. rewrite Hdig, Vy, Vm, Vd.
  destruct Hv as [_ Hdd]. bcase; simpl; try lia. by rewrite Date_valid.
Qed.

Lemma pad_dec_of_digits s w :
  length s = w -> (0 < w)%nat -> forallb is_digit s = true -> pad_dec w (dec_val s) = s.
Proof.
  intros Hl Hw Hs. pose proof (dec_val_nonneg s Hs). pose proof (dec_val_lt s Hs) as Hlt.
  destruct (pad_dec_small w (dec_val s)) as (L & D & V); [unfold len in Hlt; rewrite Hl in Hlt; lia|done|].
  apply dec_val_inj; congruence.
Qed.

(** Only the form of a date parses. *)
Lemma parse_yyyymmdd_inv s t :
  parse_yyyymmdd s = Some t -> exists c, valid_date c /\ year4 c /\ s = format_date c.
Proof.
  unfold parse_yyyymmdd. destruct s as [|y1 [|y2 [|y3 [|y4 [|m1 [|m2 [|d1 [|d2 [|]]]]]]]]]; try done.
  destruct (forallb is_digit _) eqn:Hd; [|done].
  change [y1; y2; y3; y4; m1; m2; d1; d2] with ([y1; y2; y3; y4] ++ [m1; m2] ++ [d1; d2]) in *.
  set (ys := [y1; y2; y3; y4]) in *. set (ms := [m1; m2]) in *. set (ds := [d1; d2]) in *.
  rewrite !forallb_app, !andb_true_iff in Hd. destruct Hd as (Hy & Hm & Hdd).
  destruct (_ || _) eqn:E1; [done|]. destruct (_ || _) eqn:E2 in |- *; [done|]. intros _.
  apply orb_false_iff in E1 as [E1a%Z.leb_gt E1b%Z.ltb_ge], E2 as [E2a%Z.ltb_ge E2b%Z.ltb_ge].
  exists (mkDate (dec_val ys) (dec_val ms) (dec_val ds)). split_and!.
  - split; cbn [dyear dmonth dday]; lia.
  - pose proof (dec_val_nonneg ys Hy). pose proof (dec_val_lt ys Hy) as Hlt.
    change (10 ^ len ys) with 10000 in Hlt. unfold year4. cbn [dyear]. lia.
  - unfold format_date. cbn [dyear dmonth dday]. by rewrite !pad_dec_of_digits by (done || lia).
Qed.

Lemma format_date_lt a b :
  valid_date a -> valid_date b -> year4 a -> year4 b ->
  str_ltb (format_date a) (format_date b) = true <-> date_lt a b.
Proof.
  intros Ha Hb Hya Hyb. unfold year4 in *.
  pose proof (valid_date_bounds a Ha) as [Hma Hda]. pose proof (valid_date_bounds b Hb) as [Hmb Hdb].
  destruct (pad_dec_small 4 (dyear a)) as (L1 & D1 & V1); [lia|lia|].
  destruct (pad_dec_small 2 (dmonth a)) as (L2 & D2 & V2); [lia|lia|].
  destruct (pad_dec_small 2 (dday a)) as (L3 & D3 & V3); [lia|lia|].
  destruct (pad_dec_small 4 (dyear b)) as (L4 & D4 & V4); [lia|lia|].
  destruct (pad_dec_small 2 (dmonth b)) as (L5 & D5 & V5); [lia|lia|].
  destruct (pad_dec_small 2 (dday b)) as (L6 & D6 & V6); [lia|lia|].
  unfold format_date. rewrite !str_ltb_app by congruence.
  destruct (str_ltb_digits (pad_dec 4 (dyear a)) (pad_dec 4 (dyear b))) as [-> E1]; [congruence|done..|].
  destruct (str_ltb_digits (pad_dec 2 (dmonth a)) (pad_dec 2 (dmonth b))) as [-> E2]; [congruence|done..|].
  destruct (str_ltb_digits (pad_dec 2 (dday a)) (pad_dec 2 (dday b))) as [-> E3]; [congruence|done..|].
  rewrite V1, V4 in *. rewrite V2, V5 in *. rewrite V3, V6.
  unfold date_lt. rewrite !orb_true_iff, !andb_true_iff, !Z.ltb_lt, !bool_decide_eq_true, E1.
  rewrite orb_true_iff, andb_true_iff, Z.ltb_lt, bool_decide_eq_true, E2, Z.ltb_lt. lia.
Qed.

(** The YYYYMMDD form orders instants by their UTC day. *)
Lemma format_yyyymmdd_lt a b :
  year4 (utc_date a) -> year4 (utc_date b) ->
  str_ltb (format_yyyymmdd a) (format_yyyymmdd b) = true <-> utc_days a < utc_days b.
Proof.
  intros Ha Hb. unfold format_yyyymmdd. rewrite format_date_lt; try done;
    [|apply civil_of_days_spec..].
  symmetry. apply civil_of_days_lt.
Qed.
