(* ===== verification/Utf8.v ===== *)
(** * Utf8: the part of package [unicode/utf8] the sink uses

    Decoding of one rune, validity, and the rune-start test; the conversions
    between strings and runes that [[]rune(s)] and [string(r)] perform. *)

From S2P Require Import Prelude.

Definition rune_error : Z := 65533.

Definition in_range (lo hi z : Z) : bool := (lo <=? z) && (z <=? hi).
Definition is_cont (b : byte) : bool := in_range 128 191 (bv b).

(** [utf8.RuneStart]: the byte is not a continuation byte. *)
Definition RuneStart (b : byte) : bool := negb (Z.land (bv b) 192 =? 128).

(** The range allowed for the second byte, by the first (the accept table). *)
Definition second_ok (x : Z) (b : byte) : bool :=
  if x =? 224 then in_range 160 191 (bv b)
  else if x =? 237 then in_range 128 159 (bv b)
  else if x =? 240 then in_range 144 191 (bv b)
  else if x =? 244 then in_range 128 143 (bv b)
  else is_cont b.

(** A well-formed encoding at the head of [s]: its rune and its width. *)
Definition decode1 (s : gostring) : option (Z * nat) :=
  match s with
  | [] => None
  | b0 :: t =>
      let x := bv b0 in
      if x <? 128 then Some (x, 1%nat)
      else if in_range 194 223 x then
        match t with
        | b1 :: _ =>
            if is_cont b1 then Some (Z.lor (Z.shiftl (Z.land x 31) 6) (Z.land (bv b1) 63), 2%nat) else None
        | _ => None
        end
      else if in_range 224 239 x then
        match t with
        | b1 :: b2 :: _ =>
            if second_ok x b1 && is_cont b2 then
              Some (Z.lor (Z.shiftl (Z.land x 15) 12)
                      (Z.lor (Z.shiftl (Z.land (bv b1) 63) 6) (Z.land (bv b2) 63)), 3%nat)
            else None
        | _ => None
        end
      else if in_range 240 244 x then
        match t with
        | b1 :: b2 :: b3 :: _ =>
            if second_ok x b1 && is_cont b2 && is_cont b3 then
              Some (Z.lor (Z.shiftl (Z.land x 7) 18)
                      (Z.lor (Z.shiftl (Z.land (bv b1) 63) 12)
                        (Z.lor (Z.shiftl (Z.land (bv b2) 63) 6) (Z.land (bv b3) 63))), 4%nat)
            else None
        | _ => None
        end
      else None
  end.

(** [utf8.DecodeRuneInString] on a non-empty string. *)
Definition decode_rune (s : gostring) : Z * nat := default (rune_error, 1%nat) (decode1 s).

(** [utf8.ValidString]. *)
Fixpoint valid_fuel (fuel : nat) (s : gostring) : bool :=
  match s with
  | [] => true
  | _ =>
      match fuel with
      | O => false
      | S f => match decode1 s with None => false | Some (_, w) => valid_fuel f (drop w s) end
      end
  end.
Definition ValidString (s : gostring) : bool := valid_fuel (length s) s.

(** The runes of a string with their byte widths: [for _, r := range s] and
    [[]rune(s)]; an ill-formed byte is one [rune_error]. *)
Fixpoint runes_fuel (fuel : nat) (s : gostring) : list (Z * gostring) :=
  match s, fuel with
  | [], _ | _, O => []
  | _, S f => let '(r, w) := decode_rune s in (r, take w s) :: runes_fuel f (drop w s)
  end.
Definition runes (s : gostring) : list (Z * gostring) := runes_fuel (length s) s.

(** [string(r)] for a rune. *)
Definition encode_rune (r : Z) : gostring :=
  if in_range 0 127 r then [byte_of r]
  else if in_range 128 2047 r then
    [byte_of (192 + Z.shiftr r 6); byte_of (128 + Z.land r 63)]
  else if (1114111 <? r) || in_range 55296 57343 r || (r <? 0) then [xef; xbf; xbd]
  else if r <=? 65535 then
    [byte_of (224 + Z.shiftr r 12); byte_of (128 + Z.land (Z.shiftr r 6) 63); byte_of (128 + Z.land r 63)]
  else
    [byte_of (240 + Z.shiftr r 18); byte_of (128 + Z.land (Z.shiftr r 12) 63);
     byte_of (128 + Z.land (Z.shiftr r 6) 63); byte_of (128 + Z.land r 63)].

(** ** Lemmas *)

Lemma cont_not_start b : is_cont b = true -> RuneStart b = false.
Proof. destruct b; vm_compute; congruence. Qed.

Lemma second_cont x b : second_ok x b = true -> is_cont b = true.
Proof.
  unfold second_ok, is_cont, in_range.
  destruct (x =? 224), (x =? 237), (x =? 240), (x =? 244); lia.
Qed.

(** A head encoding: its bytes decode alone, whatever follows, and all but the
    first are continuation bytes. *)
Lemma decode1_split s r w :
  decode1 s = Some (r, w) ->
  exists b e t, s = (b :: e) ++ t /\ w = S (length e) /\ (length e <= 3)%nat
    /\ Forall (fun c => is_cont c = true) e
    /\ forall t', decode1 ((b :: e) ++ t') = Some (r, w).
Proof.
  destruct s as [|b0 t]; [done|]. unfold decode1 at 1.
  destruct (bv b0 <? 128) eqn:E0.
  { intros [= <- <-]. exists b0, [], t. repeat split; try done; try (simpl; lia).
    intros t'. simpl. by rewrite E0. }
  destruct (in_range 194 223 (bv b0)) eqn:E1.
  { destruct t as [|b1 t]; [done|]. destruct (is_cont b1) eqn:C1; [|done].
    intros [= <- <-]. exists b0, [b1], t. repeat split; try done; try (by repeat constructor); try (simpl; lia).
    intros t'. simpl. by rewrite E0, E1, C1. }
  destruct (in_range 224 239 (bv b0)) eqn:E2.
  { destruct t as [|b1 [|b2 t]]; [done..|].
    destruct (second_ok (bv b0) b1) eqn:C1; [|done]. destruct (is_cont b2) eqn:C2; [|done].
    cbn [andb]. intros [= <- <-]. exists b0, [b1; b2], t.
    pose proof (second_cont _ _ C1).
    repeat split; try done; try (by repeat constructor); try (simpl; lia).
    intros t'. cbn [app decode1]. rewrite E0, E1, E2, C1, C2. done. }
  destruct (in_range 240 244 (bv b0)) eqn:E3; [|done].
  destruct t as [|b1 [|b2 [|b3 t]]]; [done..|].
  destruct (second_ok (bv b0) b1) eqn:C1; [|done]. destruct (is_cont b2) eqn:C2; [|done].
  destruct (is_cont b3) eqn:C3; [|done].
  cbn [andb]. intros [= <- <-]. exists b0, [b1; b2; b3], t.
  pose proof (second_cont _ _ C1).
  repeat split; try done; try (by repeat constructor); try (simpl; lia).
  intros t'. cbn [app decode1]. rewrite E0, E1, E2, E3, C1, C2, C3. done.
Qed.

Lemma valid_fuel_mono f1 f2 s : (f1 <= f2)%nat -> valid_fuel f1 s = true -> valid_fuel f2 s = true.
Proof.
  revert f2 s. induction f1 as [|f1 IH]; intros f2 [|b s] Hf; try done; try (by destruct f2).
  destruct f2 as [|f2]; [lia|]. cbn [valid_fuel]. destruct (decode1 (b :: s)) as [[r w]|]; [|done].
  apply IH. lia.
Qed.

Lemma valid_fuel_tight f s : valid_fuel f s = true -> ValidString s = true.
Proof.
  unfold ValidString. revert s. induction f as [|f IH]; intros [|b s]; try done. cbn [valid_fuel length].
  destruct (decode1 (b :: s)) as [[r w]|] eqn:E; [|done]. intros H.
  apply decode1_split in E as (b' & e & t & E & -> & _ & _). injection E as -> ->.
  rewrite skipn_cons in *. eapply valid_fuel_mono; [|by apply IH].
  rewrite length_drop. lia.
Qed.

(** The structure of valid strings, one encoding at a time. *)
Lemma valid_cons s r w :
  decode1 s = Some (r, w) -> ValidString (drop w s) = true -> ValidString s = true.
Proof.
  intros E H. apply (valid_fuel_tight (S (length (drop w s)))).
  destruct s as [|b s]; [done|]. cbn [valid_fuel]. rewrite E. exact H.
Qed.

Lemma valid_inv s : ValidString s = true -> s <> [] ->
  exists r w, decode1 s = Some (r, w) /\ ValidString (drop w s) = true.
Proof.
  intros H Hne. destruct s as [|b s]; [done|]. unfold ValidString in H. cbn [length valid_fuel] in H.
  destruct (decode1 (b :: s)) as [[r w]|]; [|done]. exists r, w. split; [done|].
  by apply valid_fuel_tight in H.
Qed.

(** Induction over the encodings of a valid string. *)
Lemma valid_ind (P : gostring -> Prop) :
  P [] ->
  (forall e t, (exists r, decode1 (e ++ t) = Some (r, length e)
                /\ forall t', decode1 (e ++ t') = Some (r, length e)) ->
     e <> [] -> Forall (fun c => is_cont c = true) (tail e) ->
     ValidString t = true -> P t -> P (e ++ t)) ->
  forall s, ValidString s = true -> P s.
Proof.
  intros Hnil Hcons s.
  induction s as [s IH] using (well_founded_induction (well_founded_ltof _ length)).
  intros Hv. destruct (decide (s = [])) as [->|Hne]; [done|].
  apply valid_inv in Hv as (r & w & E & Hv); [|done].
  pose proof E as (b & e & t & -> & -> & _ & He & Hd)%decode1_split.
  replace (drop (S (length e)) ((b :: e) ++ t)) with t in Hv
    by (symmetry; by apply (drop_app_length (b :: e))).
  apply Hcons; [|done|done|done|].
  - exists r. split; [done|]. exact Hd.
  - apply IH; [|done]. unfold ltof. rewrite length_app. simpl. lia.
Qed.

Lemma valid_app s t : ValidString s = true -> ValidString t = true -> ValidString (s ++ t) = true.
Proof.
  intros Hs Ht. revert s Hs. apply valid_ind; [done|].
  intros e u [r [E Hd]] He _ _ IH. rewrite <- app_assoc.
  eapply valid_cons; [apply Hd|]. by rewrite drop_app_length.
Qed.

(** Cutting a valid string before a byte that starts a rune leaves it valid. *)
Lemma valid_take s n b :
  ValidString s = true -> s !! n = Some b -> RuneStart b = true -> ValidString (take n s) = true.
Proof.
  intros Hs. revert s Hs n.
  refine (valid_ind (fun s => forall n, s !! n = Some b -> _ -> ValidString (take n s) = true) _ _); [done|].
  intros e t [r [E Hd]] He Hc Ht IH n Hn Hb.
  destruct (decide (n < length e)%nat) as [Hlt|Hge].
  - destruct n as [|n]; [done|]. exfalso. rewrite lookup_app_l in Hn by lia.
    destruct e as [|c e]; [done|]. simpl in Hn, Hc.
    rewrite Forall_lookup in Hc. apply Hc, cont_not_start in Hn. congruence.
  - rewrite take_app_ge by lia. eapply valid_cons; [apply Hd|].
    rewrite drop_app_length. apply IH; [|done]. rewrite lookup_app_r in Hn by lia. done.
Qed.

Lemma valid_ascii s : forallb (fun b => bv b <? 128) s = true -> ValidString s = true.
Proof.
  induction s as [|b s IH]; [done|]. simpl. intros [Hb Hs]%andb_true_iff.
  apply (valid_cons _ (bv b) 1); [by simpl; rewrite Hb|]. by apply IH.
Qed.
