(* ===== verification/Row.v ===== *)
(** * Row: the table schema and the row type of [internal/store/store.go]

    The 41 columns, the row record, the argument list an INSERT sends, the
    destinations a SELECT scans into, the list summary, and the sort keys and
    filter of a listing.  Pointers to fields ([&r.QueryID]) are names of fields. *)

From S2P Require Import Prelude GoTime.

Record column := mkColumn { name : gostring; sqlType : gostring }.
Definition col (n t : string) : column := mkColumn (bs n) (bs t).

Definition schemaColumns : list column :=
  [
    col "query_id" "varchar"; col "query_state" "varchar"; col "query_type" "varchar";
    col "user_name" "varchar"; col "source" "varchar"; col "principal" "varchar";
    col "client_tags" "varchar"; col "catalog" "varchar"; col "schema_name" "varchar";
    col "query_text" "varchar"; col "query_preview" "varchar"; col "update_type" "varchar";
    col "create_time" "timestamp(6) with time zone";
    col "execution_start_time" "timestamp(6) with time zone";
    col "end_time" "timestamp(6) with time zone"; col "queued_ms" "bigint";
    col "analysis_ms" "bigint"; col "planning_ms" "bigint"; col "execution_ms" "bigint";
    col "wall_ms" "bigint"; col "cpu_ms" "bigint"; col "peak_user_memory_bytes" "bigint";
    col "peak_total_memory_bytes" "bigint"; col "physical_input_bytes" "bigint";
    col "physical_input_rows" "bigint"; col "processed_input_bytes" "bigint";
    col "processed_input_rows" "bigint"; col "output_bytes" "bigint";
    col "output_rows" "bigint"; col "written_bytes" "bigint"; col "written_rows" "bigint";
    col "completed_splits" "bigint"; col "error_code" "varchar"; col "error_type" "varchar";
    col "error_message" "varchar"; col "plan" "varchar"; col "json_plan" "varchar";
    col "inputs_json" "varchar"; col "resource_group" "varchar";
    col "server_version" "varchar"; col "environment" "varchar"
  ].

Record Row := mkRow {
  QueryID : gostring;
  QueryState : gostring;
  QueryType : gostring;
  UserName : gostring;
  Source : gostring;
  Principal : gostring;
  ClientTags : gostring;
  Catalog : gostring;
  SchemaName : gostring;
  QueryText : gostring;
  QueryPreview : gostring;
  UpdateType : gostring;
  CreateTime : time;
  ExecutionStartTime : option time;
  EndTime : option time;
  QueuedMS : Z;
  AnalysisMS : Z;
  PlanningMS : Z;
  ExecutionMS : Z;
  WallMS : Z;
  CPUMS : Z;
  PeakUserMemoryBytes : Z;
  PeakTotalMemoryBytes : Z;
  PhysicalInputBytes : Z;
  PhysicalInputRows : Z;
  ProcessedInputBytes : Z;
  ProcessedInputRows : Z;
  OutputBytes : Z;
  OutputRows : Z;
  WrittenBytes : Z;
  WrittenRows : Z;
  CompletedSplits : Z;
  ErrorCode : gostring;
  ErrorType : gostring;
  ErrorMessage : gostring;
  Plan : gostring;
  JSONPlan : gostring;
  InputsJSON : gostring;
  ResourceGroup : gostring;
  ServerVersion : gostring;
  Environment : gostring
}.

(** Pointers to the fields of a row, by the type they point to. *)
Inductive str_field :=
| FQueryID | FQueryState | FQueryType | FUserName | FSource | FPrincipal | FClientTags
| FCatalog | FSchemaName | FQueryText | FQueryPreview | FUpdateType | FErrorCode | FErrorType
| FErrorMessage | FPlan | FJSONPlan | FInputsJSON | FResourceGroup | FServerVersion
| FEnvironment.
Inductive int_field :=
| FQueuedMS | FAnalysisMS | FPlanningMS | FExecutionMS | FWallMS | FCPUMS
| FPeakUserMemoryBytes | FPeakTotalMemoryBytes | FPhysicalInputBytes | FPhysicalInputRows
| FProcessedInputBytes | FProcessedInputRows | FOutputBytes | FOutputRows | FWrittenBytes
| FWrittenRows | FCompletedSplits.
Inductive time_field := | FCreateTime | FExecutionStartTime | FEndTime.
Inductive field := PStr (f : str_field) | PInt (f : int_field) | PTime (f : time_field).

#[export] Instance str_field_eq_dec : EqDecision str_field.
Proof. solve_decision. Defined.
#[export] Instance int_field_eq_dec : EqDecision int_field.
Proof. solve_decision. Defined.
#[export] Instance time_field_eq_dec : EqDecision time_field.
Proof. solve_decision. Defined.
#[export] Instance field_eq_dec : EqDecision field.
Proof. solve_decision. Defined.

(** [*p] and [*p = v] for a pointer to a string field. *)
Definition get_str (f : str_field) (r : Row) : gostring :=
  match f with
  | FQueryID => QueryID r
  | FQueryState => QueryState r
  | FQueryType => QueryType r
  | FUserName => UserName r
  | FSource => Source r
  | FPrincipal => Principal r
  | FClientTags => ClientTags r
  | FCatalog => Catalog r
  | FSchemaName => SchemaName r
  | FQueryText => QueryText r
  | FQueryPreview => QueryPreview r
  | FUpdateType => UpdateType r
  | FErrorCode => ErrorCode r
  | FErrorType => ErrorType r
  | FErrorMessage => ErrorMessage r
  | FPlan => Plan r
  | FJSONPlan => JSONPlan r
  | FInputsJSON => InputsJSON r
  | FResourceGroup => ResourceGroup r
  | FServerVersion => ServerVersion r
  | FEnvironment => Environment r
  end.

Definition get_int (f : int_field) (r : Row) : Z :=
  match f with
  | FQueuedMS => QueuedMS r
  | FAnalysisMS => AnalysisMS r
  | FPlanningMS => PlanningMS r
  | FExecutionMS => ExecutionMS r
  | FWallMS => WallMS r
  | FCPUMS => CPUMS r
  | FPeakUserMemoryBytes => PeakUserMemoryBytes r
  | FPeakTotalMemoryBytes => PeakTotalMemoryBytes r
  | FPhysicalInputBytes => PhysicalInputBytes r
  | FPhysicalInputRows => PhysicalInputRows r
  | FProcessedInputBytes => ProcessedInputBytes r
  | FProcessedInputRows => ProcessedInputRows r
  | FOutputBytes => OutputBytes r
  | FOutputRows => OutputRows r
  | FWrittenBytes => WrittenBytes r
  | FWrittenRows => WrittenRows r
  | FCompletedSplits => CompletedSplits r
  end.

Definition set_str (f : str_field) (v : gostring) (r : Row) : Row :=
  mkRow
    (if decide (f = FQueryID) then v else QueryID r)
    (if decide (f = FQueryState) then v else QueryState r)
    (if decide (f = FQueryType) then v else QueryType r)
    (if decide (f = FUserName) then v else UserName r)
    (if decide (f = FSource) then v else Source r)
    (if decide (f = FPrincipal) then v else Principal r)
    (if decide (f = FClientTags) then v else ClientTags r)
    (if decide (f = FCatalog) then v else Catalog r)
    (if decide (f = FSchemaName) then v else SchemaName r)
    (if decide (f = FQueryText) then v else QueryText r)
    (if decide (f = FQueryPreview) then v else QueryPreview r)
    (if decide (f = FUpdateType) then v else UpdateType r) (CreateTime r)
    (ExecutionStartTime r) (EndTime r) (QueuedMS r) (AnalysisMS r) (PlanningMS r)
    (ExecutionMS r) (WallMS r) (CPUMS r) (PeakUserMemoryBytes r) (PeakTotalMemoryBytes r)
    (PhysicalInputBytes r) (PhysicalInputRows r) (ProcessedInputBytes r)
    (ProcessedInputRows r) (OutputBytes r) (OutputRows r) (WrittenBytes r) (WrittenRows r)
    (CompletedSplits r) (if decide (f = FErrorCode) then v else ErrorCode r)
    (if decide (f = FErrorType) then v else ErrorType r)
    (if decide (f = FErrorMessage) then v else ErrorMessage r)
    (if decide (f = FPlan) then v else Plan r)
    (if decide (f = FJSONPlan) then v else JSONPlan r)
    (if decide (f = FInputsJSON) then v else InputsJSON r)
    (if decide (f = FResourceGroup) then v else ResourceGroup r)
    (if decide (f = FServerVersion) then v else ServerVersion r)
    (if decide (f = FEnvironment) then v else Environment r).

Definition set_int (f : int_field) (v : Z) (r : Row) : Row :=
  mkRow
    (QueryID r) (QueryState r) (QueryType r) (UserName r) (Source r) (Principal r)
    (ClientTags r) (Catalog r) (SchemaName r) (QueryText r) (QueryPreview r) (UpdateType r)
    (CreateTime r) (ExecutionStartTime r) (EndTime r)
    (if decide (f = FQueuedMS) then v else QueuedMS r)
    (if decide (f = FAnalysisMS) then v else AnalysisMS r)
    (if decide (f = FPlanningMS) then v else PlanningMS r)
    (if decide (f = FExecutionMS) then v else ExecutionMS r)
    (if decide (f = FWallMS) then v else WallMS r)
    (if decide (f = FCPUMS) then v else CPUMS r)
    (if decide (f = FPeakUserMemoryBytes) then v else PeakUserMemoryBytes r)
    (if decide (f = FPeakTotalMemoryBytes) then v else PeakTotalMemoryBytes r)
    (if decide (f = FPhysicalInputBytes) then v else PhysicalInputBytes r)
    (if decide (f = FPhysicalInputRows) then v else PhysicalInputRows r)
    (if decide (f = FProcessedInputBytes) then v else ProcessedInputBytes r)
    (if decide (f = FProcessedInputRows) then v else ProcessedInputRows r)
    (if decide (f = FOutputBytes) then v else OutputBytes r)
    (if decide (f = FOutputRows) then v else OutputRows r)
    (if decide (f = FWrittenBytes) then v else WrittenBytes r)
    (if decide (f = FWrittenRows) then v else WrittenRows r)
    (if decide (f = FCompletedSplits) then v else CompletedSplits r) (ErrorCode r)
    (ErrorType r) (ErrorMessage r) (Plan r) (JSONPlan r) (InputsJSON r) (ResourceGroup r)
    (ServerVersion r) (Environment r).

(** [CreateTime] is a [time.Time]; the other two are [*time.Time]. *)
Definition set_time (f : time_field) (v : option time) (r : Row) : Row :=
  mkRow
    (QueryID r) (QueryState r) (QueryType r) (UserName r) (Source r) (Principal r)
    (ClientTags r) (Catalog r) (SchemaName r) (QueryText r) (QueryPreview r) (UpdateType r)
    (if decide (f = FCreateTime) then default (CreateTime r) v else CreateTime r)
    (if decide (f = FExecutionStartTime) then v else ExecutionStartTime r)
    (if decide (f = FEndTime) then v else EndTime r) (QueuedMS r) (AnalysisMS r)
    (PlanningMS r) (ExecutionMS r) (WallMS r) (CPUMS r) (PeakUserMemoryBytes r)
    (PeakTotalMemoryBytes r) (PhysicalInputBytes r) (PhysicalInputRows r)
    (ProcessedInputBytes r) (ProcessedInputRows r) (OutputBytes r) (OutputRows r)
    (WrittenBytes r) (WrittenRows r) (CompletedSplits r) (ErrorCode r) (ErrorType r)
    (ErrorMessage r) (Plan r) (JSONPlan r) (InputsJSON r) (ResourceGroup r) (ServerVersion r)
    (Environment r).

(** The zero [Row]. *)
Definition zero_row : Row :=
  mkRow
    [] [] [] [] [] [] [] [] [] [] [] [] zero_time None None 0 0 0 0 0 0 0 0 0 0 0 0 0 0 0 0 0
    [] [] [] [] [] [] [] [] [].

(** A value handed to, or read from, the driver: Go's [any] restricted to the
    types the code passes. *)
Inductive arg := AStr (s : gostring) | AInt (z : Z) | ATime (t : time) | ANil.

Definition timeArg (t : option time) : arg :=
  match t with None => ANil | Some t => ATime t end.

Definition args (r : Row) : list arg :=
  [
    AStr (QueryID r); AStr (QueryState r); AStr (QueryType r); AStr (UserName r);
    AStr (Source r); AStr (Principal r); AStr (ClientTags r); AStr (Catalog r);
    AStr (SchemaName r); AStr (QueryText r); AStr (QueryPreview r); AStr (UpdateType r);
    ATime (CreateTime r); timeArg (ExecutionStartTime r); timeArg (EndTime r);
    AInt (QueuedMS r); AInt (AnalysisMS r); AInt (PlanningMS r); AInt (ExecutionMS r);
    AInt (WallMS r); AInt (CPUMS r); AInt (PeakUserMemoryBytes r);
    AInt (PeakTotalMemoryBytes r); AInt (PhysicalInputBytes r); AInt (PhysicalInputRows r);
    AInt (ProcessedInputBytes r); AInt (ProcessedInputRows r); AInt (OutputBytes r);
    AInt (OutputRows r); AInt (WrittenBytes r); AInt (WrittenRows r);
    AInt (CompletedSplits r); AStr (ErrorCode r); AStr (ErrorType r); AStr (ErrorMessage r);
    AStr (Plan r); AStr (JSONPlan r); AStr (InputsJSON r); AStr (ResourceGroup r);
    AStr (ServerVersion r); AStr (Environment r)
  ].

Definition scanDests : list field :=
  [
    PStr FQueryID; PStr FQueryState; PStr FQueryType; PStr FUserName; PStr FSource;
    PStr FPrincipal; PStr FClientTags; PStr FCatalog; PStr FSchemaName; PStr FQueryText;
    PStr FQueryPreview; PStr FUpdateType; PTime FCreateTime; PTime FExecutionStartTime;
    PTime FEndTime; PInt FQueuedMS; PInt FAnalysisMS; PInt FPlanningMS; PInt FExecutionMS;
    PInt FWallMS; PInt FCPUMS; PInt FPeakUserMemoryBytes; PInt FPeakTotalMemoryBytes;
    PInt FPhysicalInputBytes; PInt FPhysicalInputRows; PInt FProcessedInputBytes;
    PInt FProcessedInputRows; PInt FOutputBytes; PInt FOutputRows; PInt FWrittenBytes;
    PInt FWrittenRows; PInt FCompletedSplits; PStr FErrorCode; PStr FErrorType;
    PStr FErrorMessage; PStr FPlan; PStr FJSONPlan; PStr FInputsJSON; PStr FResourceGroup;
    PStr FServerVersion; PStr FEnvironment
  ].

(** Assigning one column value through one destination pointer: the value has
    the destination's type, and only a [**time.Time] accepts NULL. *)
Definition assign (p : field) (v : arg) (r : Row) : option Row :=
  match p, v with
  | PStr f, AStr s => Some (set_str f s r)
  | PInt f, AInt z => Some (set_int f z r)
  | PTime f, ATime t => Some (set_time f (Some t) r)
  | PTime FExecutionStartTime, ANil => Some (set_time FExecutionStartTime None r)
  | PTime FEndTime, ANil => Some (set_time FEndTime None r)
  | _, _ => None
  end.

(** [rows.Scan(dests...)]: positional, and the counts must agree. *)
Fixpoint scan_into (ps : list field) (vs : list arg) (r : Row) : option Row :=
  match ps, vs with
  | [], [] => Some r
  | p :: ps, v :: vs => match assign p v r with Some r' => scan_into ps vs r' | None => None end
  | _, _ => None
  end.

Definition scan_row (vs : list arg) : option Row := scan_into scanDests vs zero_row.

Record QuerySummary := mkSummary {
  qs_QueryID : gostring;
  qs_CreateTime : time;
  qs_ExecutionStartTime : option time;
  qs_UserName : gostring;
  qs_Source : gostring;
  qs_Catalog : gostring;
  qs_QueryState : gostring;
  qs_QueryType : gostring;
  qs_QueryPreview : gostring;
  qs_WallMS : Z;
  qs_CPUMS : Z;
  qs_PhysicalInputBytes : Z;
  qs_PeakUserMemoryBytes : Z;
  qs_OutputRows : Z;
  qs_ProcessedInputRows : Z;
  qs_ErrorCode : gostring
}.

Definition zero_summary : QuerySummary :=
  mkSummary [] zero_time None [] [] [] [] [] [] 0 0 0 0 0 0 [].

(** [QuerySummary.scanDests]: a destination is the setter of one field. *)
Inductive sum_field :=
| SQueryID | SCreateTime | SExecutionStartTime | SUserName | SSource | SCatalog | SQueryState
| SQueryType | SQueryPreview | SWallMS | SCPUMS | SPhysicalInputBytes | SPeakUserMemoryBytes
| SOutputRows | SProcessedInputRows | SErrorCode.

#[export] Instance sum_field_eq_dec : EqDecision sum_field.
Proof. solve_decision. Defined.

Definition summary_scanDests : list sum_field :=
  [
    SQueryID; SCreateTime; SExecutionStartTime; SUserName; SSource; SCatalog; SQueryState;
    SQueryType; SQueryPreview; SWallMS; SCPUMS; SPhysicalInputBytes; SPeakUserMemoryBytes;
    SOutputRows; SProcessedInputRows; SErrorCode
  ].

(** [*p = v] for each summary field; a type mismatch is a scan error. *)
Definition assign_summary (p : sum_field) (v : arg) (q : QuerySummary) : option QuerySummary :=
  let upd {A} (g : sum_field) (new : option A) (old : A) : option A :=
    if decide (p = g) then new else Some old in
  let s := match v with AStr s => Some s | _ => None end in
  let i := match v with AInt z => Some z | _ => None end in
  let t := match v with ATime t => Some t | _ => None end in
  let ot := match v with ATime t => Some (Some t) | ANil => Some None | _ => None end in
  upd SQueryID s (qs_QueryID q) ≫= fun xQueryID =>
  upd SCreateTime t (qs_CreateTime q) ≫= fun xCreateTime =>
  upd SExecutionStartTime ot (qs_ExecutionStartTime q) ≫= fun xExecutionStartTime =>
  upd SUserName s (qs_UserName q) ≫= fun xUserName =>
  upd SSource s (qs_Source q) ≫= fun xSource =>
  upd SCatalog s (qs_Catalog q) ≫= fun xCatalog =>
  upd SQueryState s (qs_QueryState q) ≫= fun xQueryState =>
  upd SQueryType s (qs_QueryType q) ≫= fun xQueryType =>
  upd SQueryPreview s (qs_QueryPreview q) ≫= fun xQueryPreview =>
  upd SWallMS i (qs_WallMS q) ≫= fun xWallMS =>
  upd SCPUMS i (qs_CPUMS q) ≫= fun xCPUMS =>
  upd SPhysicalInputBytes i (qs_PhysicalInputBytes q) ≫= fun xPhysicalInputBytes =>
  upd SPeakUserMemoryBytes i (qs_PeakUserMemoryBytes q) ≫= fun xPeakUserMemoryBytes =>
  upd SOutputRows i (qs_OutputRows q) ≫= fun xOutputRows =>
  upd SProcessedInputRows i (qs_ProcessedInputRows q) ≫= fun xProcessedInputRows =>
  upd SErrorCode s (qs_ErrorCode q) ≫= fun xErrorCode =>
  Some (mkSummary xQueryID xCreateTime xExecutionStartTime xUserName xSource xCatalog xQueryState xQueryType xQueryPreview xWallMS xCPUMS xPhysicalInputBytes xPeakUserMemoryBytes xOutputRows xProcessedInputRows xErrorCode).

Fixpoint scan_summary_into (ps : list sum_field) (vs : list arg) (q : QuerySummary) : option QuerySummary :=
  match ps, vs with
  | [], [] => Some q
  | p :: ps, v :: vs =>
      match assign_summary p v q with Some q' => scan_summary_into ps vs q' | None => None end
  | _, _ => None
  end.

Definition scan_summary (vs : list arg) : option QuerySummary :=
  scan_summary_into summary_scanDests vs zero_summary.

Definition summaryColumns : list gostring :=
  [
    bs "query_id"; bs "create_time"; bs "execution_start_time"; bs "user_name"; bs "source";
    bs "catalog"; bs "query_state"; bs "query_type"; bs "query_preview"; bs "wall_ms";
    bs "cpu_ms"; bs "physical_input_bytes"; bs "peak_user_memory_bytes"; bs "output_rows";
    bs "processed_input_rows"; bs "error_code"
  ].

(** Sort keys.  [SortKey] is a string type; the map is a lookup. *)
Definition sortColumns (k : gostring) : option gostring :=
  if decide (k = bs "start") then Some (bs "create_time")
  else if decide (k = bs "wall") then Some (bs "wall_ms")
  else if decide (k = bs "cpu") then Some (bs "cpu_ms")
  else if decide (k = bs "bytes") then Some (bs "physical_input_bytes")
  else if decide (k = bs "mem") then Some (bs "peak_user_memory_bytes")
  else if decide (k = bs "rows") then Some (bs "output_rows")
  else None.

Record QueryFilter := mkFilter {
  Since : time;
  Until : time;
  User : gostring;
  FilterCatalog : gostring;
  State : gostring;
  Sort : gostring;
  Desc : bool;
  Limit : Z;
  Offset : Z
}.

(** ** Specification: which field a column holds *)

Definition column_field (c : gostring) : option field :=
  if decide (c = bs "query_id") then Some (PStr FQueryID) else
  if decide (c = bs "query_state") then Some (PStr FQueryState) else
  if decide (c = bs "query_type") then Some (PStr FQueryType) else
  if decide (c = bs "user_name") then Some (PStr FUserName) else
  if decide (c = bs "source") then Some (PStr FSource) else
  if decide (c = bs "principal") then Some (PStr FPrincipal) else
  if decide (c = bs "client_tags") then Some (PStr FClientTags) else
  if decide (c = bs "catalog") then Some (PStr FCatalog) else
  if decide (c = bs "schema_name") then Some (PStr FSchemaName) else
  if decide (c = bs "query_text") then Some (PStr FQueryText) else
  if decide (c = bs "query_preview") then Some (PStr FQueryPreview) else
  if decide (c = bs "update_type") then Some (PStr FUpdateType) else
  if decide (c = bs "create_time") then Some (PTime FCreateTime) else
  if decide (c = bs "execution_start_time") then Some (PTime FExecutionStartTime) else
  if decide (c = bs "end_time") then Some (PTime FEndTime) else
  if decide (c = bs "queued_ms") then Some (PInt FQueuedMS) else
  if decide (c = bs "analysis_ms") then Some (PInt FAnalysisMS) else
  if decide (c = bs "planning_ms") then Some (PInt FPlanningMS) else
  if decide (c = bs "execution_ms") then Some (PInt FExecutionMS) else
  if decide (c = bs "wall_ms") then Some (PInt FWallMS) else
  if decide (c = bs "cpu_ms") then Some (PInt FCPUMS) else
  if decide (c = bs "peak_user_memory_bytes") then Some (PInt FPeakUserMemoryBytes) else
  if decide (c = bs "peak_total_memory_bytes") then Some (PInt FPeakTotalMemoryBytes) else
  if decide (c = bs "physical_input_bytes") then Some (PInt FPhysicalInputBytes) else
  if decide (c = bs "physical_input_rows") then Some (PInt FPhysicalInputRows) else
  if decide (c = bs "processed_input_bytes") then Some (PInt FProcessedInputBytes) else
  if decide (c = bs "processed_input_rows") then Some (PInt FProcessedInputRows) else
  if decide (c = bs "output_bytes") then Some (PInt FOutputBytes) else
  if decide (c = bs "output_rows") then Some (PInt FOutputRows) else
  if decide (c = bs "written_bytes") then Some (PInt FWrittenBytes) else
  if decide (c = bs "written_rows") then Some (PInt FWrittenRows) else
  if decide (c = bs "completed_splits") then Some (PInt FCompletedSplits) else
  if decide (c = bs "error_code") then Some (PStr FErrorCode) else
  if decide (c = bs "error_type") then Some (PStr FErrorType) else
  if decide (c = bs "error_message") then Some (PStr FErrorMessage) else
  if decide (c = bs "plan") then Some (PStr FPlan) else
  if decide (c = bs "json_plan") then Some (PStr FJSONPlan) else
  if decide (c = bs "inputs_json") then Some (PStr FInputsJSON) else
  if decide (c = bs "resource_group") then Some (PStr FResourceGroup) else
  if decide (c = bs "server_version") then Some (PStr FServerVersion) else
  if decide (c = bs "environment") then Some (PStr FEnvironment) else
  None.

(** The value of a field, as a column holds it. *)
Definition fetch (p : field) (r : Row) : arg :=
  match p with
  | PStr f => AStr (get_str f r)
  | PInt f => AInt (get_int f r)
  | PTime FCreateTime => ATime (CreateTime r)
  | PTime FExecutionStartTime => timeArg (ExecutionStartTime r)
  | PTime FEndTime => timeArg (EndTime r)
  end.

Definition column_value (r : Row) (c : gostring) : option arg :=
  (fun p => fetch p r) <$> column_field c.

(** The SQL type of a column admits the value. *)
Definition admits (c : column) (v : arg) : bool :=
  match v with
  | AStr _ => bool_decide (sqlType c = bs "varchar")
  | AInt _ => bool_decide (sqlType c = bs "bigint")
  | ATime _ => has_prefix (sqlType c) (bs "timestamp")
  | ANil => has_prefix (sqlType c) (bs "timestamp") && negb (bool_decide (name c = bs "create_time"))
  end.

Definition summary_of_row (r : Row) : QuerySummary :=
  mkSummary
    (QueryID r) (CreateTime r) (ExecutionStartTime r) (UserName r) (Source r) (Catalog r)
    (QueryState r) (QueryType r) (QueryPreview r) (WallMS r) (CPUMS r) (PhysicalInputBytes r)
    (PeakUserMemoryBytes r) (OutputRows r) (ProcessedInputRows r) (ErrorCode r).

(** ** Lemmas *)

Lemma get_set_eq f v r : get_str f (set_str f v r) = v.
Proof. destruct f; reflexivity. Qed.

Lemma get_set_ne f g v r : f <> g -> get_str g (set_str f v r) = get_str g r.
Proof.
  intros Hfg. destruct g; cbn [get_str set_str QueryID QueryState QueryType UserName Source
    Principal ClientTags Catalog SchemaName QueryText QueryPreview UpdateType ErrorCode ErrorType
    ErrorMessage Plan JSONPlan InputsJSON ResourceGroup ServerVersion Environment];
    case_decide; congruence.
Qed.

Lemma get_int_set_str f g v r : get_int g (set_str f v r) = get_int g r.
Proof. destruct g; reflexivity. Qed.

Lemma set_get f r : set_str f (get_str f r) r = r.
Proof. destruct f, r; reflexivity. Qed.

(** Every column of the schema has its field. *)
Lemma column_values r : mapM (column_value r) (name <$> schemaColumns) = Some (args r).
Proof. destruct r as []; vm_compute. reflexivity. Qed.

Lemma summary_values r :
  exists vs, mapM (column_value r) summaryColumns = Some vs /\ scan_summary vs = Some (summary_of_row r).
Proof.
  eexists. split; [vm_compute; reflexivity|].
  destruct r as [????????????? [] []]; vm_compute; reflexivity.
Qed.

Lemma scan_args r : scan_row (args r) = Some r.
Proof. destruct r as [????????????? [] []]; vm_compute; reflexivity. Qed.

Lemma schemaColumns_len : len schemaColumns = 41.
Proof. reflexivity. Qed.

Lemma args_len r : len (args r) = 41.
Proof. reflexivity. Qed.

(** Assigning through a destination changes what is read there, and only there. *)
Lemma assign_fetch p v r r1 : assign p v r = Some r1 -> fetch p r1 = v.
Proof.
  destruct p as [f|f|[]], v; cbn [assign]; intros [= <-]; try reflexivity; by destruct f.
Qed.

Lemma assign_other p q v r r1 : p <> q -> assign p v r = Some r1 -> fetch q r1 = fetch q r.
Proof.
  intros Hpq Ha.
  assert (H : (exists f s, p = PStr f /\ r1 = set_str f s r) \/ (exists f z, p = PInt f /\ r1 = set_int f z r)
    \/ (exists f t, p = PTime f /\ r1 = set_time f t r)).
  { destruct p as [f|f|[]], v; cbn [assign] in Ha; try discriminate Ha; injection Ha as <-;
      first [by left; eauto|by right; left; eauto|by right; right; eauto]. }
  destruct H as [(f & s & -> & ->)|[(f & z & -> & ->)|(f & t & -> & ->)]].
  - destruct q as [g|g|[]]; cbn [fetch]; [rewrite get_set_ne; congruence|by rewrite get_int_set_str|reflexivity..].
  - destruct q as [g|g|[]]; cbn [fetch]; [by destruct g| |reflexivity..].
    destruct f, g; try reflexivity; by destruct Hpq.
  - destruct q as [g|g|g]; cbn [fetch]; [by destruct f, g|by destruct f, g|].
    destruct f, g; try reflexivity; by destruct Hpq.
Qed.

Lemma scan_into_fetch ps vs r r' :
  NoDup ps -> scan_into ps vs r = Some r' ->
  (fun p => fetch p r') <$> ps = vs /\ forall q, q ∉ ps -> fetch q r' = fetch q r.
Proof.
  revert vs r. induction ps as [|p ps IH]; intros [|v vs] r Hnd Hs; try discriminate Hs.
  - injection Hs as <-. done.
  - apply NoDup_cons in Hnd as [Hp Hnd]. cbn [scan_into] in Hs. destruct (assign p v r) as [r1|] eqn:E; [|done].
    destruct (IH vs r1 Hnd Hs) as [Hvs Hq]. split.
    + rewrite fmap_cons, Hvs, (Hq p Hp). by rewrite (assign_fetch _ _ _ _ E).
    + intros q [Hqp Hqs]%not_elem_of_cons. rewrite (Hq q Hqs). by apply (assign_other p q v).
Qed.

Lemma scanDests_NoDup : NoDup scanDests.
Proof. apply (bool_decide_eq_true_1 _). vm_compute. reflexivity. Qed.
