(* ===== verification/Chunk.v ===== *)
(** * Chunk: [internal/store/chunk.go]

    The size estimate of one statement argument, and the greedy packing of rows
    into chunks under a byte budget.  [chunkRows] is shared by both stores, each
    with its own row estimate. *)

From S2P Require Import Prelude GoTime Row.

Definition stringArgOverhead : Z := 4.
Definition nullArgBytes : Z := 6.
Definition numericArgBytes : Z := 24.
Definition timestampArgBytes : Z := 64.

Definition quote1 : byte := x27.

Definition estimateArgBytes (a : arg) : Z :=
  match a with
  | AStr v => len v + count_byte quote1 v + stringArgOverhead
  | ANil => nullArgBytes
  | ATime _ => timestampArgBytes
  | AInt _ => numericArgBytes
  end.

Section chunks.
Context {A : Type} (budget : Z) (estimate : A -> Z).

(** The loop of [chunkRows] with its variables [chunks], [cur], [size]. *)
Fixpoint chunk_loop (rows : list A) (chunks : list (list A)) (cur : list A) (size : Z)
  : list (list A) :=
  match rows with
  | [] => if 0 <? len cur then chunks ++ [cur] else chunks
  | r :: rows =>
      let n := estimate r in
      if (0 <? len cur) && (budget <? size + n) then
        chunk_loop rows (chunks ++ [cur]) [r] n
      else chunk_loop rows chunks (cur ++ [r]) (size + n)
  end.

Definition chunkRows (rows : list A) : list (list A) := chunk_loop rows [] [] 0.

(** Specification: a chunk fits when its estimates sum to the budget at most,
    or when it is a single row. *)
Definition weight (l : list A) : Z := sumZ (estimate <$> l).
Definition fits (c : list A) : Prop := weight c <= budget \/ length c = 1%nat.

(** A division of [rows] into non-empty consecutive chunks that fit. *)
Record packing (rows : list A) (css : list (list A)) : Prop := {
  packing_concat : mjoin css = rows;
  packing_nonempty : Forall (fun c => c <> []) css;
  packing_fits : Forall fits css;
}.
End chunks.

(** ** Lemmas *)

Section chunk_lemmas.
Context {A : Type} (budget : Z) (estimate : A -> Z).
Hypothesis estimate_nonneg : forall a, 0 <= estimate a.
#[local] Abbreviation weight := (weight estimate).
#[local] Abbreviation fits := (fits budget estimate).
#[local] Abbreviation chunk_loop := (chunk_loop budget estimate).

Lemma weight_app l1 l2 : weight (l1 ++ l2) = weight l1 + weight l2.
Proof. unfold Chunk.weight. by rewrite fmap_app, sumZ_app. Qed.

Lemma weight_one a : weight [a] = estimate a.
Proof. unfold Chunk.weight. simpl. lia. Qed.

Lemma weight_nonneg l : 0 <= weight l.
Proof using estimate_nonneg.
  induction l as [|a l IH]; [done|]. change (0 <= estimate a + weight l).
  specialize (estimate_nonneg a). lia.
Qed.

Lemma len_pos (l : list A) : (0 <? len l) = bool_decide (l <> []).
Proof. destruct l; [done|]. rewrite len_cons. pose proof (len_nonneg l). by rewrite (proj2 (Z.ltb_lt _ _)) by lia. Qed.

Lemma chunk_loop_acc rows chunks cur size :
  chunk_loop rows chunks cur size = chunks ++ chunk_loop rows [] cur size.
Proof.
  revert chunks cur size. induction rows as [|r rows IH]; intros; simpl.
  - destruct (0 <? len cur); [done|]. by rewrite app_nil_r.
  - destruct ((0 <? len cur) && _); [|apply IH].
    rewrite IH, (IH [cur]), <- app_assoc. done.
Qed.

(** The two steps of the loop, with the accumulator taken out. *)
Lemma chunk_loop_step r rows cur :
  cur <> [] ->
  chunk_loop (r :: rows) [] cur (weight cur)
  = if budget <? weight (cur ++ [r]) then cur :: chunk_loop rows [] [r] (weight [r])
    else chunk_loop rows [] (cur ++ [r]) (weight (cur ++ [r])).
Proof.
  intros Hne. cbn [Chunk.chunk_loop]. rewrite len_pos, bool_decide_eq_true_2 by done. cbn [andb].
  rewrite weight_app, weight_one. destruct (budget <? weight cur + estimate r); [|done].
  by rewrite chunk_loop_acc.
Qed.

Lemma chunk_loop_last cur : cur <> [] -> chunk_loop [] [] cur (weight cur) = [cur].
Proof. intros Hne. cbn [Chunk.chunk_loop]. by rewrite len_pos, bool_decide_eq_true_2. Qed.

Lemma chunkRows_cons r rows : chunkRows budget estimate (r :: rows) = chunk_loop rows [] [r] (weight [r]).
Proof. unfold chunkRows. simpl. by rewrite weight_one. Qed.

Lemma fits_one a : fits [a].
Proof. by right. Qed.

Lemma chunk_loop_packing rows cur :
  cur <> [] -> fits cur ->
  packing budget estimate (cur ++ rows) (chunk_loop rows [] cur (weight cur)).
Proof.
  revert cur. induction rows as [|r rows IH]; intros cur Hne Hfit.
  - rewrite chunk_loop_last, app_nil_r by done.
    split; [apply app_nil_r|by apply Forall_singleton..].
  - rewrite chunk_loop_step by done. destruct (Z.ltb_spec budget (weight (cur ++ [r]))).
    + destruct (IH [r] ltac:(done) (fits_one r)) as [Hc Hn Hf].
      split; [|by constructor|by constructor]. 
      change (cur ++ mjoin (chunk_loop rows [] [r] (weight [r])) = cur ++ r :: rows).
      by rewrite Hc.
    + destruct (IH (cur ++ [r])) as [Hc Hn Hf]; [by destruct cur|by left|].
      split; [|done|done]. by rewrite Hc, <- app_assoc.
Qed.

Lemma chunkRows_packing rows : packing budget estimate rows (chunkRows budget estimate rows).
Proof.
  destruct rows as [|r rows]; [by split|]. rewrite chunkRows_cons.
  apply (chunk_loop_packing rows [r]); [done|apply fits_one].
Qed.

(** The chunks after the first are those of their own rows. *)
Lemma chunk_loop_rest rows cur c rest :
  cur <> [] -> chunk_loop rows [] cur (weight cur) = c :: rest -> chunkRows budget estimate (mjoin rest) = rest.
Proof.
  revert cur. induction rows as [|r rows IH]; intros cur Hne.
  - rewrite chunk_loop_last by done. by intros [= <- <-].
  - rewrite chunk_loop_step by done. destruct (budget <? weight (cur ++ [r])).
    + intros [= <- <-]. rewrite <- chunkRows_cons. by destruct (chunkRows_packing (r :: rows)) as [-> _ _].
    + apply IH. by destruct cur.
Qed.

Lemma chunkRows_drop k rows :
  chunkRows budget estimate (mjoin (drop k (chunkRows budget estimate rows)))
  = drop k (chunkRows budget estimate rows).
Proof.
  revert rows. induction k as [|k IH]; intros rows.
  { rewrite drop_0. by destruct (chunkRows_packing rows) as [-> _ _]. }
  destruct rows as [|r rows]; [done|]. destruct (chunkRows budget estimate (r :: rows)) as [|c rest] eqn:E; [done|].
  cbn [drop]. rewrite chunkRows_cons in E. apply chunk_loop_rest in E; [|done]. rewrite <- E. apply IH.
Qed.

Lemma fits_suffix pre l : l <> [] -> fits (pre ++ l) -> fits l.
Proof using estimate_nonneg.
  intros Hne [Hw|Hl].
  - left. rewrite weight_app in Hw. pose proof (weight_nonneg pre). lia.
  - right. rewrite length_app in Hl. destruct l; [done|]. simpl in *. lia.
Qed.

(** Greedy stays ahead: whatever packing continues from a suffix [suf] of the
    current chunk has as many chunks, or one less when it started later. *)
Lemma chunk_loop_ahead rows pre suf d ds :
  pre ++ suf <> [] -> suf <> [] ->
  Forall (fun c => c <> []) ds -> Forall fits ((suf ++ d) :: ds) -> d ++ mjoin ds = rows ->
  (length (chunk_loop rows [] (pre ++ suf) (weight (pre ++ suf)))
   <= S (length ds) + (if decide (pre = []) then 0 else 1))%nat.
Proof using estimate_nonneg.
  revert pre suf d ds. induction rows as [|r rows IH]; intros pre suf d ds Hne Hsuf Hds Hfit Heq.
  { rewrite chunk_loop_last by done. simpl. lia. }
  rewrite chunk_loop_step by done. apply Forall_cons in Hfit as [Hd Hfits].
  destruct d as [|r' d].
  - (* the other packing starts a chunk at [r] *)
    destruct ds as [|[|r' e] es]; [done|by apply Forall_cons in Hds as [? _]|].
    simpl in Heq. injection Heq as -> Heq. apply Forall_cons in Hds as [_ Hes].
    destruct (Z.ltb_spec budget (weight ((pre ++ suf) ++ [r]))) as [Hcut|Hnocut].
    + pose proof (IH [] [r] e es) as IH'. simpl in IH' |- *.
      etrans; [apply le_n_S, IH'; done|]. case_decide; lia.
    + pose proof (IH (pre ++ suf) [r] e es) as IH'. simpl in IH' |- *.
      etrans; [apply IH'; try done; by destruct (pre ++ suf)|].
      case_decide; case_decide; simpl; lia.
  - (* the other packing keeps [r] in its chunk *)
    simpl in Heq. injection Heq as -> Heq.
    destruct (Z.ltb_spec budget (weight ((pre ++ suf) ++ [r]))) as [Hcut|Hnocut].
    + case_decide as Hpre.
      * subst pre. exfalso. simpl in Hcut. destruct Hd as [Hd|Hd].
        -- change (r :: d) with ([r] ++ d) in Hd. rewrite app_assoc, weight_app in Hd.
           pose proof (weight_nonneg d). lia.
        -- rewrite length_app in Hd. destruct suf; [done|]. simpl in Hd. lia.
      * pose proof (IH [] [r] d ds) as IH'. simpl in IH' |- *.
        apply fits_suffix in Hd; [|done].
        etrans; [apply le_n_S, IH'; try done; by constructor|]. lia.
    + rewrite <- app_assoc. apply (IH pre (suf ++ [r]) d ds); try done.
      * by destruct pre, suf.
      * by destruct suf.
      * rewrite <- app_assoc. by constructor.
Qed.

Lemma chunkRows_fewest rows css :
  packing budget estimate rows css -> (length (chunkRows budget estimate rows) <= length css)%nat.
Proof using estimate_nonneg.
  intros [Hc Hn Hf]. destruct css as [|[|r d] ds].
  - simpl in Hc. subst rows. done.
  - by apply Forall_cons in Hn as [? _].
  - simpl in Hc. subst rows. rewrite chunkRows_cons.
    apply Forall_cons in Hn as [_ Hn].
    pose proof (chunk_loop_ahead (d ++ mjoin ds) [] [r] d ds) as H. simpl in H |- *.
    etrans; [by apply H|]. lia.
Qed.

(** A chunk that fits is not divided again. *)
Lemma chunk_loop_whole rows cur :
  cur <> [] -> weight (cur ++ rows) <= budget ->
  chunk_loop rows [] cur (weight cur) = [cur ++ rows].
Proof using estimate_nonneg.
  revert cur. induction rows as [|r rows IH]; intros cur Hne Hw.
  - rewrite chunk_loop_last, app_nil_r by done. done.
  - rewrite chunk_loop_step by done. change (r :: rows) with ([r] ++ rows) in *.
    rewrite app_assoc in *. rewrite weight_app in Hw. pose proof (weight_nonneg rows).
    destruct (Z.ltb_spec budget (weight (cur ++ [r]))); [lia|].
    apply IH; [by destruct cur|]. by rewrite weight_app.
Qed.

Lemma chunkRows_whole c : c <> [] -> fits c -> chunkRows budget estimate c = [c].
Proof using estimate_nonneg.
  intros Hne Hfit. destruct c as [|r c]; [done|]. rewrite chunkRows_cons.
  destruct Hfit as [Hw|Hl].
  - by apply (chunk_loop_whole c [r]).
  - destruct c; [|done]. by apply chunk_loop_last.
Qed.
End chunk_lemmas.

Lemma estimateArgBytes_nonneg a : 0 <= estimateArgBytes a.
Proof.
  destruct a as [s| | |]; unfold estimateArgBytes, numericArgBytes, timestampArgBytes, nullArgBytes,
    stringArgOverhead; try lia.
  pose proof (len_nonneg s). pose proof (count_byte_nonneg quote1 s). lia.
Qed.
