(* ===== verification/Truncate.v ===== *)
(** * Truncate: [internal/store/truncate.go]

    Rune-safe truncation of one string, and of the string fields of a row. *)

From S2P Require Import Prelude GoTime Utf8 Row.

Definition maxSmallFieldBytes : Z := 16384.

(** [fmt.Sprintf("\n…[truncated %d bytes]", n)]. *)
Definition marker (n : Z) : gostring :=
  [x0a; xe2; x80; xa6] ++ bs "[truncated " ++ itoa n ++ bs " bytes]".

(** The loop of [runeSafeCut], on an index below [len(s)]. *)
Fixpoint rune_safe_cut (s : gostring) (cut : nat) : nat :=
  match cut with
  | O => O
  | S c =>
      match s !! cut with
      | Some b => if RuneStart b then cut else rune_safe_cut s c
      | None => cut
      end
  end.

Definition runeSafeCut (s : gostring) (cut : Z) : Z :=
  if cut <=? 0 then cut else Z.of_nat (rune_safe_cut s (Z.to_nat cut)).

Definition truncate (s : gostring) (max : Z) : gostring :=
  if len s <=? max then s
  else if max <=? 0 then []
  else
    let cut := max - len (marker (len s)) in
    if cut <=? 0 then slice_to s (runeSafeCut s max)
    else
      let cut := runeSafeCut s cut in
      slice_to s cut ++ marker (len s - cut).

Definition largeFields : list str_field := [FPlan; FJSONPlan; FQueryText; FErrorMessage; FInputsJSON].

Definition smallFields : list str_field :=
  [FQueryID; FQueryState; FQueryType; FUserName; FSource; FPrincipal;
   FClientTags; FCatalog; FSchemaName; FQueryPreview; FUpdateType; FErrorCode; FErrorType;
   FResourceGroup; FServerVersion; FEnvironment].

Definition stringFields : list str_field := largeFields ++ smallFields.

(** [for _, f := range fs { *f = truncate( *f, max) }]. *)
Definition truncate_all (fs : list str_field) (max : Z) (r : Row) : Row :=
  foldl (fun r f => set_str f (truncate (get_str f r) max) r) r fs.

Definition TruncateFields (r : Row) (max : Z) : Row :=
  if max <=? 0 then r
  else
    let small := Z.min max maxSmallFieldBytes in
    truncate_all smallFields small (truncate_all largeFields max r).

(** Specification: the cap of one field. *)
Definition field_limit (f : str_field) (max : Z) : Z :=
  if decide (f ∈ largeFields) then max else Z.min max maxSmallFieldBytes.

(** ** Lemmas *)

Lemma rune_safe_cut_le s n : (rune_safe_cut s n <= n)%nat.
Proof.
  induction n as [|n IH]; simpl; [done|].
  destruct (_ !! _); [|done]. case_match; lia.
Qed.

(** The cut lands on a rune start, or at the front of the string. *)
Lemma rune_safe_cut_start s n :
  (n < length s)%nat ->
  rune_safe_cut s n = 0%nat \/ exists b, s !! rune_safe_cut s n = Some b /\ RuneStart b = true.
Proof.
  induction n as [|n IH]; intros Hn; [by left|]. cbn [rune_safe_cut].
  destruct (s !! S n) as [b|] eqn:E; [|apply lookup_ge_None in E; lia].
  destruct (RuneStart b) eqn:Eb; [right; eauto|]. apply IH. lia.
Qed.

Lemma runeSafeCut_range s cut : 0 <= cut -> 0 <= runeSafeCut s cut <= cut.
Proof.
  intros. unfold runeSafeCut. bcase; [lia|].
  pose proof (rune_safe_cut_le s (Z.to_nat cut)). lia.
Qed.

Lemma valid_runeSafeCut s cut :
  ValidString s = true -> 0 <= cut < len s -> ValidString (slice_to s (runeSafeCut s cut)) = true.
Proof.
  intros Hv Hc. unfold runeSafeCut, slice_to. destruct (Z.leb_spec cut 0).
  { replace (Z.to_nat cut) with 0%nat by lia. done. }
  rewrite Nat2Z.id. unfold len in Hc.
  destruct (rune_safe_cut_start s (Z.to_nat cut)) as [->|(b & Hb & Hs)]; [lia|done|].
  by eapply valid_take.
Qed.

Lemma marker_len_eq n : len (marker n) = 22 + len (itoa n).
Proof. unfold marker. rewrite !len_app. change (len [x0a; xe2; x80; xa6]) with 4.
  change (len (bs "[truncated ")) with 11. change (len (bs " bytes]")) with 7. lia. Qed.

Lemma marker_len_mono a b : 0 <= a <= b -> len (marker a) <= len (marker b).
Proof.
  intros. rewrite !marker_len_eq. unfold itoa. bcase; try lia.
  pose proof (udec_len_mono a b). lia.
Qed.

Lemma itoa_nonneg n : 0 <= n -> itoa n = udec n.
Proof. intros. unfold itoa. bcase; [lia|done]. Qed.

Lemma marker_no_quote n : 0 <= n -> count_byte x27 (marker n) = 0.
Proof.
  intros. unfold marker. rewrite !count_byte_app, itoa_nonneg by done.
  rewrite (count_byte_digits _ (udec n)); [done|done|by apply udec_digits].
Qed.

Lemma marker_valid n : 0 <= n -> ValidString (marker n) = true.
Proof.
  intros. unfold marker. rewrite itoa_nonneg by done.
  repeat apply valid_app; try (vm_compute; reflexivity).
  apply valid_ascii. pose proof (udec_digits n ltac:(done)) as Hd. revert Hd.
  generalize (udec n) as s. induction s as [|b s IH]; [done|]. cbn [forallb].
  intros [Hb Hs]%andb_true_iff. rewrite (IH Hs), andb_true_r. unfold is_digit in Hb. lia.
Qed.

(** The three shapes of a truncated string. *)
Lemma truncate_cases s max :
  (len s <= max /\ truncate s max = s)
  \/ (max < len s /\ exists k, 0 <= k <= Z.max 0 max /\ k <= len s /\ truncate s max = slice_to s k
        /\ (ValidString s = true -> ValidString (slice_to s k) = true))
  \/ (max < len s /\ exists k, 0 <= k /\ k + len (marker (len s - k)) <= max /\ k <= len s
        /\ truncate s max = slice_to s k ++ marker (len s - k)
        /\ (ValidString s = true -> ValidString (slice_to s k) = true)).
Proof.
  unfold truncate. destruct (Z.leb_spec (len s) max) as [|Hlt]; [by left|right].
  destruct (Z.leb_spec max 0) as [|Hpos].
  { left. split; [done|]. exists 0. pose proof (len_nonneg s). repeat split; try lia; done. }
  set (cut := max - len (marker (len s))).
  assert (cut < max) by (unfold cut; rewrite marker_len_eq; pose proof (len_nonneg (itoa (len s))); lia).
  destruct (Z.leb_spec cut 0) as [|Hcut].
  - left. split; [done|]. exists (runeSafeCut s max).
    pose proof (runeSafeCut_range s max). repeat split; try lia.
    intros. apply valid_runeSafeCut; [done|lia].
  - right. split; [done|]. exists (runeSafeCut s cut).
    pose proof (runeSafeCut_range s cut).
    pose proof (marker_len_mono (len s - runeSafeCut s cut) (len s)).
    repeat split; try lia. intros. apply valid_runeSafeCut; [done|lia].
Qed.

Lemma truncate_len s max : len (truncate s max) <= Z.max 0 max.
Proof.
  destruct (truncate_cases s max) as [[? ->]|[(? & k & ? & ? & -> & _)|(? & k & ? & ? & ? & -> & _)]].
  - lia.
  - rewrite len_slice_to by lia. lia.
  - rewrite len_app, len_slice_to by lia. lia.
Qed.

Lemma truncate_len_le s max : len (truncate s max) <= len s.
Proof.
  pose proof (truncate_len s max). pose proof (len_nonneg s).
  destruct (truncate_cases s max) as [[? ->]|[(? & _)|(? & _)]]; lia.
Qed.

Lemma truncate_valid s max : ValidString s = true -> ValidString (truncate s max) = true.
Proof.
  intros Hv.
  destruct (truncate_cases s max) as [[? ->]|[(? & k & ? & ? & -> & H)|(? & k & ? & ? & ? & -> & H)]];
    [done|by apply H|].
  apply valid_app; [by apply H|]. apply marker_valid. lia.
Qed.

Lemma truncate_short s max : len s <= max -> truncate s max = s.
Proof. intros. unfold truncate. by rewrite (proj2 (Z.leb_le _ _)). Qed.

(** Truncation never adds quotes, so the statement estimate of a field drops
    by at least the bytes removed. *)
Lemma truncate_quotes s max : count_byte x27 (truncate s max) <= count_byte x27 s.
Proof.
  assert (Hpre : forall k, count_byte x27 (slice_to s k) <= count_byte x27 s).
  { intros k. rewrite <- (slice_to_from s k) at 2. rewrite count_byte_app.
    pose proof (count_byte_nonneg x27 (slice_from s k)). lia. }
  destruct (truncate_cases s max) as [[? ->]|[(? & k & ? & ? & -> & H)|(? & k & ? & ? & ? & -> & H)]];
    [lia|apply Hpre|].
  rewrite count_byte_app, marker_no_quote by lia. specialize (Hpre k). lia.
Qed.

(** Each field is truncated once, to the limit of its list. *)
Lemma truncate_all_get fs max r f :
  NoDup fs ->
  get_str f (truncate_all fs max r)
  = if decide (f ∈ fs) then truncate (get_str f r) max else get_str f r.
Proof.
  unfold truncate_all. revert r. induction fs as [|g fs IH]; intros r Hnd; [done|].
  apply NoDup_cons in Hnd as [Hg Hnd]. cbn [foldl]. rewrite IH by done.
  destruct (decide (f = g)) as [->|Hne].
  - rewrite decide_False, decide_True by (done || by left). by rewrite get_set_eq.
  - rewrite get_set_ne by done.
    destruct (decide (f ∈ fs)), (decide (f ∈ g :: fs)); try done; exfalso; set_solver.
Qed.

Lemma truncate_all_int fs max r f : get_int f (truncate_all fs max r) = get_int f r.
Proof.
  unfold truncate_all. revert r. induction fs as [|g fs IH]; intros r; [done|].
  cbn [foldl]. rewrite IH. apply get_int_set_str.
Qed.

Lemma stringFields_NoDup : NoDup stringFields.
Proof. apply (bool_decide_eq_true_1 _). vm_compute. reflexivity. Qed.

Lemma stringFields_all f : f ∈ stringFields.
Proof. destruct f; apply (bool_decide_eq_true_1 _); vm_compute; reflexivity. Qed.

Lemma largeFields_NoDup : NoDup largeFields.
Proof. pose proof stringFields_NoDup as H. by apply NoDup_app in H as [? _]. Qed.

Lemma smallFields_NoDup : NoDup smallFields.
Proof. pose proof stringFields_NoDup as H. by apply NoDup_app in H as (_ & _ & ?). Qed.

Lemma TruncateFields_get r max f :
  0 < max -> get_str f (TruncateFields r max) = truncate (get_str f r) (field_limit f max).
Proof.
  intros Hmax. unfold TruncateFields, field_limit. bcase; [lia|].
  rewrite (truncate_all_get smallFields) by apply smallFields_NoDup.
  rewrite (truncate_all_get largeFields) by apply largeFields_NoDup.
  destruct f; reflexivity.
Qed.
