(* ===== verification/Store.v ===== *)
(** * Store: the persistence contract of [internal/store/store.go]

    What a backend promises to the ingest buffer.  [Writer] is the pair of
    operations the buffer calls ([Writer] and [batchSplitter] of
    [internal/ingest/buffer.go]); [WriterLaws] is the documented contract of
    [Store.InsertBatch] and [SplitBatch] over an abstract table.
    [WriterLedger] is the same contract over a ledger instead of a table: what
    was reported as written, and what was sent in calls whose error leaves its
    fate open.  The loop that both backends run over the chunks of a batch is
    shared here, with the effect of a single chunk left to them. *)

From S2P Require Import Prelude Errors GoTime Row.

(** What the columns of the table keep of a row: the times are
    [timestamp(6)], so each is stored at a microsecond next to it. *)
Definition stored_time (t u : time) : Prop := Z.abs (u - t) < 1000 /\ u mod 1000 = 0.

Record stored_as (r q : Row) : Prop := {
  stored_str : forall f, get_str f q = get_str f r;
  stored_int : forall f, get_int f q = get_int f r;
  stored_create : stored_time (CreateTime r) (CreateTime q);
  stored_start : option_Forall2 stored_time (ExecutionStartTime r) (ExecutionStartTime q);
  stored_end : option_Forall2 stored_time (EndTime r) (EndTime q);
}.

(** One way to do it: the nanoseconds are cut off. *)
Definition micros_row (r : Row) : Row :=
  set_time FEndTime (micros <$> EndTime r)
    (set_time FExecutionStartTime (micros <$> ExecutionStartTime r)
       (set_time FCreateTime (Some (micros (CreateTime r))) r)).

Lemma micros_stored t : stored_time t (micros t).
Proof. unfold stored_time, micros. Z.div_mod_to_equations. lia. Qed.

Lemma micros_row_stored r : stored_as r (micros_row r).
Proof.
  assert (Ho : forall o : option time, option_Forall2 stored_time o (micros <$> o)).
  { intros [t|]; constructor. apply micros_stored. }
  split.
  - intros []; reflexivity.
  - intros []; reflexivity.
  - apply micros_stored.
  - apply Ho.
  - apply Ho.
Qed.

(** The operations, over the state [W] of the outside world. *)
Class Writer (W : Type) := {
  InsertBatch : list Row -> W -> W * option gerror;
  SplitBatch : option (list Row -> list (list Row));
}.

(** How many rows the caller may take as written. *)
Definition committed_of (rows : list Row) (e : option gerror) : Z :=
  match e with None => len rows | Some err => CommittedRows err end.

(** The contract, for rows the backend accepts ([row_ok]): the table grows by
    exactly the committed prefix, each row in the form [norm] the backend writes
    it in; splitting keeps rows and order. *)
Class WriterLaws (W : Type) `{Writer W} (table : W -> list Row) (norm : Row -> Row) (row_ok : Row -> Prop) := {
  insert_commits : forall rows w w' e,
    Forall row_ok rows -> InsertBatch rows w = (w', e) ->
    0 <= committed_of rows e <= len rows
    /\ table w' = table w ++ (norm <$> slice_to rows (committed_of rows e));
  split_rows : forall split rows,
    SplitBatch = Some split -> Forall row_ok rows -> mjoin (split rows) = norm <$> rows;
  norm_idem : forall r, row_ok r -> norm (norm r) = norm r;
  norm_ok : forall r, row_ok r -> row_ok (norm r);
}.

(** The contract over a ledger: [told] are the rows reported as written, [open]
    those of failed calls that were not, which a timeout or a lost answer may
    have written all the same. *)
Class WriterLedger (W : Type) `{Writer W} (ledger : list Row -> list Row -> W -> Prop)
    (norm : Row -> Row) (row_ok : Row -> Prop) := {
  insert_ledger : forall rows w w' e,
    Forall row_ok rows -> InsertBatch rows w = (w', e) ->
    0 <= committed_of rows e <= len rows
    /\ forall told open, ledger told open w ->
         ledger (told ++ (norm <$> slice_to rows (committed_of rows e)))
           (open ++ (norm <$> slice_from rows (committed_of rows e))) w';
  ledger_open : forall told open open' w, ledger told open w -> open ⊆+ open' -> ledger told open' w;
  ledger_split : forall split rows,
    SplitBatch = Some split -> Forall row_ok rows -> mjoin (split rows) = norm <$> rows;
  ledger_norm_idem : forall r, row_ok r -> norm (norm r) = norm r;
  ledger_norm_ok : forall r, row_ok r -> row_ok (norm r);
}.

(** The ledger of a backend that keeps the contract to the letter: what was
    told is in the table, and nothing else is. *)
Definition exact_ledger {W} (table : W -> list Row) (w0 : W) (told open : list Row) (w : W) : Prop :=
  table w = table w0 ++ told.

Lemma exact_ledger_laws {W} `{Writer W} {table norm row_ok} `{!WriterLaws W table norm row_ok} w0 :
  WriterLedger W (exact_ledger table w0) norm row_ok.
Proof.
  unfold exact_ledger. split; [|done|apply split_rows|apply norm_idem|apply norm_ok].
  intros rows w w' e Hok E. apply insert_commits in E as [Hr ->]; [|done]. split; [done|].
  intros told open ->. by rewrite <- app_assoc.
Qed.

(** The ledger of a table whose failed statements may have been carried out:
    besides what was told, the table holds some of the open rows; none of them
    when [sure] failures are failures.  [keep] is what a row is once stored. *)
Definition table_ledger {W} (table : W -> list Row) (keep : Row -> Row) (sure : Prop) (w0 : W)
    (told open : list Row) (w : W) : Prop :=
  exists hidden,
    hidden ⊆+ open
    /\ table w ≡ₚ table w0 ++ (keep <$> told ++ hidden)
    /\ (sure -> hidden = [] /\ table w = table w0 ++ (keep <$> told)).

(** [InsertBatch] of both stores: chunk after chunk, stopping at the first
    failure, which reports the rows of the chunks before it. *)
Section insert_chunks.
Context {W : Type} (insertChunk : list Row -> W -> W * option gerror).

Fixpoint insert_chunks (chunks : list (list Row)) (committed : Z) (w : W) : W * option gerror :=
  match chunks with
  | [] => (w, None)
  | chunk :: rest =>
      match insertChunk chunk w with
      | (w', Some err) => (w', Some (if 0 <? committed then PartialCommitError committed err else err))
      | (w', None) => insert_chunks rest (committed + len chunk) w'
      end
  end.

(** Chunks that were all sent without an error. *)
Fixpoint all_sent (chunks : list (list Row)) (w w' : W) : Prop :=
  match chunks with
  | [] => w' = w
  | chunk :: rest => exists w1, insertChunk chunk w = (w1, None) /\ all_sent rest w1 w'
  end.

(** The error of a single chunk is not a partial commit. *)
Hypothesis chunk_error : forall rows w w' err, insertChunk rows w = (w', Some err) -> CommittedRows err = 0.

(** The loop sends the chunks in order, up to the first that fails, and reports
    the rows before that one. *)
Lemma insert_chunks_run chunks before w w' e :
  insert_chunks chunks (len before) w = (w', e) ->
  exists k wk, all_sent (take k chunks) w wk
    /\ match e with
       | None => k = length chunks /\ w' = wk
       | Some err => CommittedRows err = len (before ++ mjoin (take k chunks))
           /\ exists c cause, chunks !! k = Some c /\ insertChunk c wk = (w', Some cause)
       end.
Proof using chunk_error.
  revert before w. induction chunks as [|c chunks IH]; intros before w; cbn [insert_chunks].
  - intros [= <- <-]. by exists 0%nat, w.
  - destruct (insertChunk c w) as [w1 [err|]] eqn:E.
    + intros [= <- <-]. exists 0%nat, w. split; [done|]. split; [|by exists c, err].
      cbn. rewrite app_nil_r. destruct (Z.ltb_spec 0 (len before)); [done|].
      pose proof (len_nonneg before). apply chunk_error in E. lia.
    + rewrite <- len_app. intros H. apply IH in H as (k & wk & Hs & He). exists (S k), wk. split.
      * cbn. eauto.
      * destruct e as [err|]; [|by destruct He as [-> ->]]. destruct He as [-> He]. split; [|exact He].
        cbn [take]. by rewrite mjoin_cons, app_assoc.
Qed.
End insert_chunks.
