(* ===== verification/Float64.v ===== *)
(** * Float64: the IEEE double arithmetic the duration parser uses

    Finite doubles as [m * 2^e], rounding to nearest with ties to even, the
    decimal syntax of [strconv.ParseFloat], one multiplication by an int64
    constant and the conversion to int64.  The sign of zero is not kept: only
    conversions to integers observe the values. *)

From S2P Require Import Prelude.

Inductive float :=
| Finite (neg : bool) (m e : Z)
| Inf (neg : bool).

(** The nearest [m * 2^e] to [n / d], for [0 <= n] and [0 < d], with
    [2^52 <= m <= 2^53] unless the value is subnormal. *)
Definition exponent (n d : Z) : Z :=
  let k := Z.log2 n - Z.log2 d in
  let fl := if n * 2 ^ Z.max 0 (- k) <? d * 2 ^ Z.max 0 k then k - 1 else k in
  Z.max (- 1074) (fl - 52).
Definition half_even (num den : Z) : Z :=
  let q := num / den in
  let r := num mod den in
  if den <? 2 * r then q + 1
  else if (2 * r =? den) && Z.odd q then q + 1
  else q.
Definition mantissa (n d e : Z) : Z := half_even (n * 2 ^ Z.max 0 (- e)) (d * 2 ^ Z.max 0 e).
Definition round (neg : bool) (n d : Z) : float :=
  let e := exponent n d in
  let m := mantissa n d e in
  if (971 <? e) || ((e =? 971) && (m =? 2 ^ 53)) then Inf neg else Finite neg m e.

(** The product with a non-negative integer that is a double. *)
Definition mul_int (f : float) (z : Z) : float :=
  match f with
  | Finite neg m e => round neg (m * z * 2 ^ Z.max 0 e) (2 ^ Z.max 0 (- e))
  | Inf neg => Inf neg
  end.

Fixpoint span_digits (s : gostring) : gostring * gostring :=
  match s with
  | [] => ([], [])
  | b :: t => if is_digit b then let '(ds, rest) := span_digits t in (b :: ds, rest) else ([], s)
  end.

Definition span_sign (s : gostring) : bool * gostring :=
  match s with
  | x2d :: t => (true, t)
  | x2b :: t => (false, t)
  | _ => (false, s)
  end.

(** The decimal value of a mantissa [ip.fp] with exponent [x]. *)
Definition decimal (neg : bool) (ip fp : gostring) (x : Z) : float :=
  let p := x - len fp in
  round neg (dec_val (ip ++ fp) * 10 ^ Z.max 0 p) (10 ^ Z.max 0 (- p)).

(** [strconv.ParseFloat(s, 64)] on the decimal syntax; [None] is an error, a
    syntax error or a value out of range. *)
Definition ParseFloat (s : gostring) : option float :=
  let '(neg, s) := span_sign s in
  let '(ip, s) := span_digits s in
  let '(fp, s) := match s with x2e :: t => span_digits t | _ => ([], s) end in
  match ip ++ fp with
  | [] => None
  | _ =>
      let finish x := match decimal neg ip fp x with Inf _ => None | f => Some f end in
      match s with
      | [] => finish 0
      | b :: t =>
          if bool_decide (b = x65) || bool_decide (b = x45) then
            let '(xneg, t) := span_sign t in
            match span_digits t with
            | ([], _) => None
            | (ds, []) => finish (if (xneg : bool) then - dec_val ds else dec_val ds)
            | _ => None
            end
          else None
      end
  end.

(** [int64(f)]: truncation; the language leaves the result open when it does
    not fit ([too_large]). *)
Definition trunc (f : float) : option Z :=
  match f with
  | Finite neg m e => Some (if neg then - Z.shiftl m e else Z.shiftl m e)
  | Inf _ => None
  end.
Definition to_int64 (too_large : float -> Z) (f : float) : Z :=
  match trunc f with
  | Some z => if (min_int64 <=? z) && (z <=? max_int64) then z else too_large f
  | None => too_large f
  end.

Definition scaled (m e : Z) : Z := m * 2 ^ (e + 1074).

(** ** Rounding error *)

Lemma half_even_spec num den :
  0 < den -> 2 * Z.abs (half_even num den * den - num) <= den.
Proof.
  intros Hd. unfold half_even. pose proof (Z.div_mod num den ltac:(lia)) as Hq.
  pose proof (Z.mod_pos_bound num den Hd).
  destruct (Z.ltb_spec den (2 * (num mod den))); [nia|].
  destruct ((2 * (num mod den) =? den) && Z.odd (num / den)) eqn:E; [|nia].
  apply andb_prop in E as [E%Z.eqb_eq _]. nia.
Qed.

Lemma half_even_exact q den : 0 < den -> half_even (q * den) den = q.
Proof.
  intros Hd. unfold half_even. rewrite Z.mod_mul, Z.div_mul, Z.mul_0_r by lia.
  destruct (Z.ltb_spec den 0); [lia|]. destruct (Z.eqb_spec 0 den); [lia|]. done.
Qed.

Lemma half_even_nonneg num den : 0 < den -> 0 <= num -> 0 <= half_even num den.
Proof.
  intros Hd Hn. unfold half_even. pose proof (Z.div_pos num den Hn Hd).
  destruct (_ <? _); [lia|]. destruct (_ && _); lia.
Qed.

(** Powers of two with the two signs of an exponent apart. *)
Lemma pow2_split e c : 0 <= c -> 0 <= e + c -> 2 ^ Z.max 0 e * 2 ^ c = 2 ^ (e + c) * 2 ^ Z.max 0 (- e).
Proof. intros. rewrite <- !Z.pow_add_r by lia. f_equal. lia. Qed.

(** Scaled by a power of two, [n] and [d] have the same leading bit. *)
Lemma aligned n d :
  0 < n -> 0 < d ->
  let k := Z.log2 n - Z.log2 d in
  let A := n * 2 ^ Z.max 0 (- k) in
  let B := d * 2 ^ Z.max 0 k in
  A < 2 * B /\ B < 2 * A.
Proof.
  intros Hn Hd k A B.
  pose proof (Z.log2_spec n Hn) as Hln. pose proof (Z.log2_spec d Hd) as Hld.
  pose proof (Z.log2_nonneg n). pose proof (Z.log2_nonneg d).
  rewrite Z.pow_succ_r in Hln, Hld by lia.
  assert (Hp : 2 ^ Z.log2 n * 2 ^ Z.max 0 (- k) = 2 ^ Z.log2 d * 2 ^ Z.max 0 k).
  { rewrite <- !Z.pow_add_r by lia. f_equal. lia. }
  pose proof (Z.pow_pos_nonneg 2 (Z.max 0 (- k))). pose proof (Z.pow_pos_nonneg 2 (Z.max 0 k)).
  unfold A, B. nia.
Qed.

(** The exponent places [n / d] between [2^52] and [2^53] units. *)
Lemma exponent_normal n d :
  0 < n -> 0 < d -> d <= n * 2 ^ 1022 ->
  let e := exponent n d in
  - 1074 <= e /\ 2 ^ 52 * (d * 2 ^ (e + 1074)) <= n * 2 ^ 1074 < 2 ^ 53 * (d * 2 ^ (e + 1074)).
Proof.
  intros Hn Hd Hnd e. unfold e, exponent. clear e. destruct (aligned n d Hn Hd) as [HA HB].
  set (k := Z.log2 n - Z.log2 d) in *. set (A := n * 2 ^ Z.max 0 (- k)) in *. set (B := d * 2 ^ Z.max 0 k) in *.
  assert (Hc : 0 < 2 ^ Z.max 0 (- k)) by (apply Z.pow_pos_nonneg; lia).
  assert (Hk : - 1022 <= (if A <? B then k - 1 else k)).
  { destruct (Z.le_gt_cases (- 1021) k); [destruct (A <? B); lia|].
    unfold A, B in *. rewrite (Z.max_l 0 k), (Z.max_r 0 (- k)), Z.pow_0_r, Z.mul_1_r in * by lia.
    destruct (Z.ltb_spec (n * 2 ^ (- k)) d).
    - assert (2 ^ 1022 <= 2 ^ (- k)) by (apply Z.pow_le_mono_r; lia). nia.
    - destruct (Z.le_gt_cases (- 1022) k); [lia|].
      assert (2 ^ 1023 <= 2 ^ (- k)) by (apply Z.pow_le_mono_r; lia).
      change (2 ^ 1023) with (2 * 2 ^ 1022) in *. nia. }
  assert (HBk : B * 2 ^ 1074 = d * 2 ^ (k + 1074) * 2 ^ Z.max 0 (- k)).
  { unfold B. rewrite <- !Z.mul_assoc. f_equal. apply pow2_split; destruct (A <? B); lia. }
  assert (HAk : A * 2 ^ 1074 = n * 2 ^ 1074 * 2 ^ Z.max 0 (- k)) by (unfold A; lia).
  assert (Hp : 0 < 2 ^ 1074) by (apply Z.pow_pos_nonneg; lia).
  rewrite Z.max_r by lia. split; [destruct (A <? B); lia|].
  destruct (Z.ltb_spec A B) as [Hab|Hab].
  - assert (E : 2 ^ 53 * (d * 2 ^ (k - 1 - 52 + 1074)) = d * 2 ^ (k + 1074)).
    { rewrite Z.mul_comm, <- Z.mul_assoc, <- Z.pow_add_r by lia. do 2 f_equal. lia. }
    change (2 ^ 53) with (2 * 2 ^ 52) in *. generalize dependent (2 ^ 1074). intros P **. nia.
  - assert (E : 2 ^ 52 * (d * 2 ^ (k - 52 + 1074)) = d * 2 ^ (k + 1074)).
    { rewrite Z.mul_comm, <- Z.mul_assoc, <- Z.pow_add_r by lia. do 2 f_equal. lia. }
    change (2 ^ 53) with (2 * 2 ^ 52) in *. generalize dependent (2 ^ 1074). intros P **. nia.
Qed.

Lemma exponent_zero d : 0 < d -> - 1074 <= exponent 0 d <= 0.
Proof.
  intros Hd. unfold exponent. change (Z.log2 0) with 0. pose proof (Z.log2_nonneg d).
  destruct (_ <? _); lia.
Qed.

Lemma mantissa_error n d e :
  0 < d -> - 1074 <= e ->
  2 * Z.abs (scaled (mantissa n d e) e * d - n * 2 ^ 1074) <= d * 2 ^ (e + 1074).
Proof.
  intros Hd He. unfold mantissa, scaled.
  assert (Hc : 0 < 2 ^ Z.max 0 e) by (apply Z.pow_pos_nonneg; lia).
  pose proof (half_even_spec (n * 2 ^ Z.max 0 (- e)) (d * 2 ^ Z.max 0 e) ltac:(nia)) as Hh.
  set (m := half_even _ _) in *.
  (* both sides scaled by [2^max(0,-e)] are the bound of [half_even] times [2^1074] *)
  assert (Hs : 2 ^ Z.max 0 e * 2 ^ 1074 = 2 ^ (e + 1074) * 2 ^ Z.max 0 (- e)) by (apply pow2_split; lia).
  assert (Hb : 0 < 2 ^ Z.max 0 (- e)) by (apply Z.pow_pos_nonneg; lia).
  assert (HP : 0 < 2 ^ 1074) by (apply Z.pow_pos_nonneg; lia).
  generalize dependent (2 ^ 1074). intros P HPs HP.
  set (a := 2 ^ Z.max 0 e) in *. set (b := 2 ^ Z.max 0 (- e)) in *. set (c := 2 ^ (e + 1074)) in *.
  apply (Z.mul_le_mono_pos_r _ _ b); [done|].
  assert (E : (m * c * d - n * P) * b = (m * (d * a) - n * b) * P).
  { transitivity (m * d * (c * b) - n * P * b); [ring|]. rewrite <- HPs. ring. }
  apply (f_equal Z.abs) in E. rewrite !Z.abs_mul, (Z.abs_eq P), (Z.abs_eq b) in E by lia.
  rewrite <- Z.mul_assoc, E. nia.
Qed.

Lemma mantissa_zero d e : 0 < d -> mantissa 0 d e = 0.
Proof.
  intros Hd. unfold mantissa. pose proof (Z.pow_pos_nonneg 2 (Z.max 0 e)).
  replace (0 * 2 ^ Z.max 0 (- e)) with (0 * (d * 2 ^ Z.max 0 e)) by lia. apply half_even_exact. nia.
Qed.

(** One rounding of a normal value errs by at most [2^-53] of it. *)
Lemma round_error neg n d :
  0 < d -> n = 0 \/ 0 < n /\ d <= n * 2 ^ 1022 -> n < d * 2 ^ 1022 ->
  exists m e, round neg n d = Finite neg m e /\ - 1074 <= e /\ 0 <= m
    /\ 2 ^ 53 * Z.abs (scaled m e * d - n * 2 ^ 1074) <= n * 2 ^ 1074.
Proof.
  intros Hd Hn Hlt. exists (mantissa n d (exponent n d)), (exponent n d). unfold round.
  assert (Hm : 0 <= mantissa n d (exponent n d)).
  { apply half_even_nonneg; [|destruct Hn; subst; [done|]];
      pose proof (Z.pow_pos_nonneg 2 (Z.max 0 (exponent n d)));
      pose proof (Z.pow_pos_nonneg 2 (Z.max 0 (- exponent n d))); nia. }
  destruct Hn as [->|[Hn Hnd]].
  - pose proof (exponent_zero d Hd) as He. destruct (Z.ltb_spec 971 (exponent 0 d)); [lia|].
    destruct (Z.eqb_spec (exponent 0 d) 971); [lia|]. split_and!; [done|lia|done|].
    rewrite mantissa_zero by done. done.
  - destruct (exponent_normal n d Hn Hd Hnd) as (He & Hlo & Hhi).
    pose proof (mantissa_error n d (exponent n d) Hd He) as Herr. set (e := exponent n d) in *.
    assert (He' : e < 971).
    { apply Z.nle_gt. intros Hge. assert (2 ^ (971 + 1074) <= 2 ^ (e + 1074)) by (apply Z.pow_le_mono_r; lia).
      change (2 ^ (971 + 1074)) with (2 ^ 971 * 2 ^ 1074) in *. change (2 ^ 1022) with (2 ^ 51 * 2 ^ 971) in *.
      assert (0 < 2 ^ 1074) by done. assert (0 < 2 ^ 971) by done.
      generalize dependent (2 ^ 1074). intros P **. generalize dependent (2 ^ 971). intros Q **. nia. }
    destruct (Z.ltb_spec 971 e); [lia|]. destruct (Z.eqb_spec e 971); [lia|].
    split_and!; [done|lia|done|]. lia.
Qed.

(** A value [a * 2^k] with [a < 2^53] is a double. *)
Lemma round_exact neg n d a k :
  0 < d -> 0 <= a < 2 ^ 53 -> 0 <= k <= 900 -> n = a * 2 ^ k * d ->
  exists m e, round neg n d = Finite neg m e /\ - 1074 <= e /\ 0 <= m /\ scaled m e = a * 2 ^ k * 2 ^ 1074.
Proof.
  intros Hd Ha Hk ->. exists (mantissa (a * 2 ^ k * d) d (exponent (a * 2 ^ k * d) d)), (exponent (a * 2 ^ k * d) d).
  pose proof (Z.pow_pos_nonneg 2 k ltac:(lia) ltac:(lia)) as Hpk.
  set (n := a * 2 ^ k * d). set (e := exponent n d).
  assert (He : - 1074 <= e <= k).
  { destruct (decide (a = 0)) as [Hz|Hz].
    - unfold e, n. rewrite Hz, !Z.mul_0_l. pose proof (exponent_zero d Hd). lia.
    - assert (Hn : 0 < n) by (unfold n; nia).
      assert (Hnd : d <= n * 2 ^ 1022).
      { assert (0 < 2 ^ 1022) by done. assert (1 <= a * 2 ^ k) by nia. unfold n.
        generalize dependent (2 ^ 1022). intros Q HQ. generalize dependent (a * 2 ^ k). intros x Hx. nia. }
      destruct (exponent_normal n d Hn Hd Hnd) as (He & Hlo & _). fold e in He, Hlo. split; [done|].
      apply Z.nlt_ge. intros Hgt.
      assert (Hmono : 2 ^ (k + 1 + 1074) <= 2 ^ (e + 1074)) by (apply Z.pow_le_mono_r; lia).
      rewrite (Z.pow_add_r 2 (k + 1)), Z.pow_add_r in Hmono by lia.
      change (2 ^ 1) with 2 in Hmono. change (2 ^ 53) with (2 * 2 ^ 52) in *.
      unfold n in Hlo. assert (HP : 0 < 2 ^ 1074) by done.
      generalize dependent (2 ^ 1074). intros P Hlo Hmono HP. generalize dependent (2 ^ (e + 1074)). intros E Hlo Hmono.
      assert (H1 : 2 ^ 52 * (d * (2 ^ k * 2 * P)) <= 2 ^ 52 * (d * E)) by nia.
      assert (H2 : a * (2 ^ k * d * P) < 2 * 2 ^ 52 * (2 ^ k * d * P)); [|lia].
      apply Z.mul_lt_mono_pos_r; [|lia]. nia. }
  assert (Hm : mantissa n d e = a * 2 ^ (k - e)).
  { unfold mantissa, n. pose proof (Z.pow_pos_nonneg 2 (Z.max 0 e)).
    replace (a * 2 ^ k * d * 2 ^ Z.max 0 (- e)) with (a * 2 ^ (k - e) * (d * 2 ^ Z.max 0 e));
      [apply half_even_exact; nia|].
    assert (E : 2 ^ k * 2 ^ Z.max 0 (- e) = 2 ^ (k - e) * 2 ^ Z.max 0 e).
    { rewrite <- !Z.pow_add_r by lia. f_equal. lia. }
    transitivity (a * d * (2 ^ (k - e) * 2 ^ Z.max 0 e)); [ring|]. rewrite <- E. ring. }
  unfold round. fold e. rewrite Hm. destruct (Z.ltb_spec 971 e); [lia|]. destruct (Z.eqb_spec e 971); [lia|].
  pose proof (Z.pow_pos_nonneg 2 (k - e)). split_and!; [done|lia|nia|].
  unfold scaled. rewrite <- !Z.mul_assoc, <- !Z.pow_add_r by lia. do 2 f_equal. lia.
Qed.

Lemma trunc_scaled neg m e :
  - 1074 <= e -> trunc (Finite neg m e) = Some ((if neg then Z.opp else id) (scaled m e / 2 ^ 1074)).
Proof.
  intros He. cbn [trunc]. assert (Hs : Z.shiftl m e = scaled m e / 2 ^ 1074).
  { unfold scaled. destruct (Z.le_gt_cases 0 e).
    - rewrite Z.shiftl_mul_pow2, Z.pow_add_r, Z.mul_assoc, Z.div_mul by (try done; lia). done.
    - rewrite Z.shiftl_div_pow2 by lia. replace 1074 with (e + 1074 + - e) at 2 by lia.
      rewrite (Z.pow_add_r 2 (e + 1074)) by lia.
      assert (0 < 2 ^ (e + 1074)) by (apply Z.pow_pos_nonneg; lia).
      assert (0 < 2 ^ (- e)) by (apply Z.pow_pos_nonneg; lia).
      rewrite <- Z.div_div, Z.div_mul by lia. done. }
  rewrite Hs. by destruct neg.
Qed.

(** A product with a double's scaled value [X = scaled m e * z]. *)
Lemma mul_int_error neg m e z :
  - 1074 <= e -> 0 <= m -> 0 < z ->
  let X := scaled m e * z in
  X = 0 \/ 2 ^ 52 <= X -> X < 2 ^ 1022 * 2 ^ 1074 ->
  exists m' e', mul_int (Finite neg m e) z = Finite neg m' e' /\ - 1074 <= e' /\ 0 <= m'
    /\ 2 ^ 53 * Z.abs (scaled m' e' - X) <= X.
Proof.
  intros He Hm Hz X HX HXu. cbn [mul_int].
  set (n := m * z * 2 ^ Z.max 0 e). set (d := 2 ^ Z.max 0 (- e)).
  assert (Hd : 0 < d) by (apply Z.pow_pos_nonneg; lia).
  assert (HnX : n * 2 ^ 1074 = X * d).
  { unfold n, X, d, scaled. pose proof (pow2_split e 1074 ltac:(lia) ltac:(lia)) as Hs.
    transitivity (m * z * (2 ^ Z.max 0 e * 2 ^ 1074)); [ring|]. rewrite Hs. ring. }
  assert (HP : 0 < 2 ^ 1074) by done.
  destruct (round_error neg n d) as (m' & e' & Hr & He' & Hm' & Herr); [done| | |].
  - destruct HX as [HX|HX]; [left|right].
    + rewrite HX in HnX. generalize dependent (2 ^ 1074). intros. nia.
    + change (2 ^ 1074) with (2 ^ 1022 * 2 ^ 52) in HnX, HP. assert (HQ : 0 < 2 ^ 1022) by done.
      generalize dependent (2 ^ 1022). intros Q _ HnX HQP HQ. nia.
  - generalize dependent (2 ^ 1074). intros P HXu HnX HP. generalize dependent (2 ^ 1022). intros Q HXu. nia.
  - exists m', e'. split_and!; [done|done|done|]. rewrite HnX in Herr.
    rewrite <- Z.mul_sub_distr_r, Z.abs_mul, (Z.abs_eq d) in Herr by lia. nia.
Qed.

(** The product of a decimal numeral with up to nine digits after the point by
    [10^9] (seconds to nanoseconds): the truncated double is the exact integer
    or one less. *)
Lemma nanoseconds_close too_large ip fp T :
  len fp <= 9 -> T = dec_val (ip ++ fp) * 10 ^ (9 - len fp) -> 0 <= T < 2 ^ 51 ->
  exists m e, decimal false ip fp 0 = Finite false m e
    /\ Z.max 0 (T - 1) <= to_int64 too_large (mul_int (Finite false m e) (10 ^ 9)) <= T.
Proof.
  intros Hk HT HTb. unfold decimal. pose proof (len_nonneg fp).
  rewrite Z.max_l, Z.max_r, Z.mul_1_r by lia. replace (- (0 - len fp)) with (len fp) by lia.
  set (N := dec_val (ip ++ fp)) in *. set (d := 10 ^ len fp). set (c := 10 ^ (9 - len fp)) in *.
  assert (Hc : 0 < c) by (apply Z.pow_pos_nonneg; lia). assert (Hd : 0 < d) by (apply Z.pow_pos_nonneg; lia).
  assert (Hcd : c * d = 10 ^ 9) by (unfold c, d; rewrite <- Z.pow_add_r by lia; f_equal; lia).
  assert (HN : 0 <= N) by nia. assert (HP : 2 ^ 53 < 2 ^ 1074) by done.
  destruct (round_error false N d) as (m & e & Hr & He & Hm & Herr).
  - done.
  - destruct (decide (N = 0)); [by left|right]. split; [lia|].
    assert (d <= 10 ^ 9) by nia. assert (10 ^ 9 < 2 ^ 1022) by done. nia.
  - assert (HQ : 2 ^ 51 < 2 ^ 1022) by done. generalize dependent (2 ^ 1022). intros Q HQ. nia.
  - exists m, e. split; [done|]. set (X := scaled m e * 10 ^ 9).
    assert (HX : 2 ^ 53 * Z.abs (X - T * 2 ^ 1074) <= T * 2 ^ 1074).
    { assert (E : X - T * 2 ^ 1074 = (scaled m e * d - N * 2 ^ 1074) * c).
      { unfold X. rewrite HT, <- Hcd. ring. }
      rewrite E, Z.abs_mul, (Z.abs_eq c), HT by lia. generalize dependent (2 ^ 1074). intros. nia. }
    destruct (mul_int_error false m e (10 ^ 9) He Hm ltac:(done)) as (m' & e' & -> & He' & Hm' & Herr').
    + fold X. destruct (decide (T = 0)) as [->|]; [left; lia|right].
      generalize dependent (2 ^ 1074). intros P HP **. nia.
    + fold X. assert (HQ : 2 ^ 52 < 2 ^ 1022) by done. generalize dependent (2 ^ 1022). intros Q HQ.
      generalize dependent (2 ^ 1074). intros P **. nia.
    + fold X in Herr'. unfold to_int64. rewrite trunc_scaled by done. cbn [id].
      set (V := scaled m' e') in *.
      assert (Hq : Z.max 0 (T - 1) <= V / 2 ^ 1074 <= T).
      { assert (0 <= V) by (unfold V, scaled; pose proof (Z.pow_pos_nonneg 2 (e' + 1074)); nia).
        generalize dependent (2 ^ 1074). intros P HP **.
        assert (Hlo : (T - 1) * P < V) by nia. assert (Hhi : V < (T + 1) * P) by nia.
        pose proof (Z.div_pos V P ltac:(lia) ltac:(lia)).
        pose proof (Z.div_le_lower_bound V P (T - 1) ltac:(lia) ltac:(nia)).
        pose proof (Z.div_lt_upper_bound V P (T + 1) ltac:(lia) ltac:(nia)). lia. }
      generalize dependent (V / 2 ^ 1074). intros q Hq. clear -Hq HTb.
      assert (Hb : (min_int64 <=? q) && (q <=? max_int64) = true); [|by rewrite Hb].
      apply andb_true_intro. unfold min_int64, max_int64. rewrite !Z.leb_le. lia.
Qed.

(** The product of two integers is exact while its odd part fits in 53 bits. *)
Lemma mul_int_exact too_large m e N o j :
  - 1074 <= e -> scaled m e = N * 2 ^ 1074 -> 0 <= N -> 0 < o -> 0 <= j <= 900 ->
  N * o < 2 ^ 53 -> N * (o * 2 ^ j) <= max_int64 ->
  to_int64 too_large (mul_int (Finite false m e) (o * 2 ^ j)) = N * (o * 2 ^ j).
Proof.
  intros He Hs HN Ho Hj Hb Hmax. cbn [mul_int].
  assert (Hd : 0 < 2 ^ Z.max 0 (- e)) by (apply Z.pow_pos_nonneg; lia).
  assert (Hm : m * 2 ^ Z.max 0 e = N * 2 ^ Z.max 0 (- e)).
  { pose proof (pow2_split e 1074 ltac:(lia) ltac:(lia)) as Hp. unfold scaled in Hs.
    assert (HP : 0 < 2 ^ 1074) by done. generalize dependent (2 ^ 1074). intros P Hs Hp HP.
    apply (Z.mul_reg_r _ _ P); [lia|]. transitivity (m * (2 ^ Z.max 0 e * P)); [ring|].
    rewrite Hp. transitivity (m * 2 ^ (e + 1074) * 2 ^ Z.max 0 (- e)); [ring|]. rewrite Hs. ring. }
  destruct (round_exact false (m * (o * 2 ^ j) * 2 ^ Z.max 0 e) (2 ^ Z.max 0 (- e)) (N * o) j)
    as (m' & e' & -> & He' & Hm' & Hs'); [done|nia|done| |].
  - transitivity (m * 2 ^ Z.max 0 e * (o * 2 ^ j)); [ring|]. rewrite Hm. ring.
  - unfold to_int64. rewrite trunc_scaled, Hs', Z.div_mul by done. cbn [id].
    rewrite Z.mul_assoc in *. assert (0 <= N * o * 2 ^ j) by (pose proof (Z.pow_pos_nonneg 2 j); nia).
    assert (Hr : (min_int64 <=? N * o * 2 ^ j) && (N * o * 2 ^ j <=? max_int64) = true); [|by rewrite Hr].
    apply andb_true_intro. rewrite !Z.leb_le. unfold min_int64. lia.
Qed.

(** ** Numerals *)

Lemma span_digits_app ds rest :
  forallb is_digit ds = true -> match rest with [] => True | b :: _ => is_digit b = false end ->
  span_digits (ds ++ rest) = (ds, rest).
Proof.
  intros Hd Hr. induction ds as [|b ds IH].
  - destruct rest as [|c rest]; [done|]. cbn. by rewrite Hr.
  - cbn in Hd. apply andb_prop in Hd as [Hb Hd]. cbn. by rewrite Hb, IH.
Qed.

Lemma span_sign_digits ds rest :
  ds <> [] -> forallb is_digit ds = true -> span_sign (ds ++ rest) = (false, ds ++ rest).
Proof. intros Hne Hd. destruct ds as [|b ds]; [done|]. by destruct b. Qed.

(** A plain decimal, with and without a fraction. *)
Lemma ParseFloat_decimal ip fp :
  ip <> [] -> forallb is_digit ip = true -> forallb is_digit fp = true ->
  ParseFloat (ip ++ match fp with [] => [] | _ => x2e :: fp end)
  = match decimal false ip fp 0 with Inf _ => None | f => Some f end.
Proof.
  intros Hne Hip Hfp. unfold ParseFloat. rewrite span_sign_digits by done. destruct fp as [|b fp].
  - rewrite span_digits_app, app_nil_r by done. by destruct ip.
  - rewrite span_digits_app by done. cbn iota beta.
    pose proof (span_digits_app (b :: fp) [] Hfp I) as Hs. rewrite app_nil_r in Hs. rewrite Hs.
    by destruct ip.
Qed.

Lemma ParseFloat_nat n :
  0 <= n < 2 ^ 53 ->
  exists m e, ParseFloat (udec n) = Some (Finite false m e) /\ - 1074 <= e /\ 0 <= m /\ scaled m e = n * 2 ^ 1074.
Proof.
  intros Hn. pose proof (ParseFloat_decimal (udec n) [] (udec_nonempty n ltac:(lia)) (udec_digits n ltac:(lia)) eq_refl) as H.
  rewrite app_nil_r in H. unfold decimal in H. rewrite app_nil_r, dec_val_udec in H by lia.
  change (ParseFloat (udec n) = match round false (n * 1) 1 with Inf _ => None | f => Some f end) in H.
  destruct (round_exact false (n * 1) 1 n 0) as (m & e & Hr & He & Hm & Hs); [done|lia|lia|lia|].
  rewrite Hr in H. exists m, e. by rewrite Z.pow_0_r, Z.mul_1_r in Hs.
Qed.
