(* ===== verification/FloatFmt.v ===== *)
(** * FloatFmt: float arithmetic and formatting of durations and sizes

    What [time.Duration.Seconds] and its siblings compute, division of doubles,
    and [%.Nf].  A finite double is its scaled value over [2^1074], so the
    arithmetic is exact rational arithmetic followed by one rounding.  All
    values formatted by the source are finite. *)

From S2P Require Import Prelude GoTime Float64.

Definition denom : Z := 2 ^ 1074.

(** [float64(z)]. *)
Definition of_int (z : Z) : float := round (z <? 0) (Z.abs z) 1.

Definition signed (neg : bool) (m e : Z) : Z := if neg then - scaled m e else scaled m e.

(** [a + b] and, for a divisor other than zero, [a / b]. *)
Definition fadd (a b : float) : float :=
  match a, b with
  | Finite n1 m1 e1, Finite n2 m2 e2 =>
      let s := signed n1 m1 e1 + signed n2 m2 e2 in round (s <? 0) (Z.abs s) denom
  | Inf n, _ => Inf n
  | _, Inf n => Inf n
  end.
Definition fdiv (a b : float) : float :=
  match a, b with
  | Finite n1 m1 e1, Finite n2 m2 e2 => round (xorb n1 n2) (scaled m1 e1) (scaled m2 e2)
  | Inf n1, Finite n2 _ _ => Inf (xorb n1 n2)
  | _, Inf n2 => Finite false 0 (- 1074)
  end.
(** [a >= b]. *)
Definition fge (a b : float) : bool :=
  match a, b with
  | Finite n1 m1 e1, Finite n2 m2 e2 => signed n2 m2 e2 <=? signed n1 m1 e1
  | Inf n, Inf m => negb n || m
  | Inf n, _ => negb n
  | _, Inf n => n
  end.

(** [d.Seconds()], [d.Minutes()] and [d.Hours()]: whole units plus the rest. *)
Definition in_units (u : Duration) (d : Duration) : float :=
  fadd (of_int (Z.quot d u)) (fdiv (of_int (Z.rem d u)) (of_int u)).
Definition Seconds : Duration -> float := in_units Second.
Definition Minutes : Duration -> float := in_units Minute.
Definition Hours : Duration -> float := in_units Hour.

(** [int(f)] for a value that fits. *)
Definition int_of (f : float) : Z := default 0 (trunc f).

(** [%.Nf] of a finite value, for [0 < N]: the exact value rounded to [N]
    decimals, ties to even. *)
Definition fixed (prec : nat) (f : float) : gostring :=
  match f with
  | Finite neg m e =>
      let q := half_even (scaled m e * 10 ^ Z.of_nat prec) denom in
      (if neg then [x2d] else []) ++ udec (q / 10 ^ Z.of_nat prec) ++ bs "."
      ++ pad_dec prec (q mod 10 ^ Z.of_nat prec)
  | Inf neg => if neg then bs "-Inf" else bs "+Inf"
  end.

(** ** Exactness *)

Lemma denom_pos : 0 < denom.
Proof. done. Qed.

(** A rational [a * 2^k] with [a < 2^53] is a double, [k] negative included. *)
Lemma round_scaled neg n d a k :
  0 < d -> 0 <= a < 2 ^ 53 -> - 1022 <= k <= 900 -> n * 2 ^ 1074 = a * 2 ^ (k + 1074) * d ->
  exists m e, round neg n d = Finite neg m e /\ - 1074 <= e /\ 0 <= m /\ scaled m e = a * 2 ^ (k + 1074).
Proof.
  intros Hd Ha Hk Hn. exists (mantissa n d (exponent n d)), (exponent n d).
  assert (HK : 2 ^ 52 <= 2 ^ (k + 1074)) by (apply Z.pow_le_mono_r; lia).
  assert (HP : 0 < 2 ^ 1074) by done. assert (HPQ : 2 ^ 1074 = 2 ^ 1022 * 2 ^ 52) by done.
  assert (HQ : 0 < 2 ^ 1022) by done. assert (Hc : 0 < 2 ^ 52) by done.
  set (e := exponent n d).
  assert (He : - 1074 <= e <= Z.max 0 k /\ (a <> 0 -> e <= k)).
  { destruct (decide (a = 0)) as [-> | Hz].
    - assert (n = 0) as -> by nia. pose proof (exponent_zero d Hd). unfold e. lia.
    - assert (Hn0 : 0 < n). { apply (Z.mul_pos_cancel_r n (2 ^ 1074)); [done|]. rewrite Hn. repeat apply Z.mul_pos_pos; lia. }
      assert (Hnd : d <= n * 2 ^ 1022).
      { apply (Z.mul_le_mono_pos_r _ _ (2 ^ 52)); [done|]. rewrite <- Z.mul_assoc, <- HPQ, Hn.
        transitivity (d * (a * 2 ^ (k + 1074))); [|lia]. apply Z.mul_le_mono_nonneg_l; [lia|].
        transitivity (1 * 2 ^ (k + 1074)); [lia|]. apply Z.mul_le_mono_nonneg_r; lia. }
      destruct (exponent_normal n d Hn0 Hd Hnd) as (He & Hlo & _). fold e in He, Hlo.
      assert (e <= k); [|lia]. apply Z.nlt_ge. intros Hgt.
      assert (Hmono : 2 * 2 ^ (k + 1074) <= 2 ^ (e + 1074)).
      { change 2 with (2 ^ 1) at 1. rewrite <- Z.pow_add_r by lia. apply Z.pow_le_mono_r; lia. }
      rewrite Hn in Hlo. change (2 ^ 53) with (2 * 2 ^ 52) in Ha.
      clear HP HPQ HQ Hn Hnd. generalize dependent (2 ^ (k + 1074)). intros K **.
      generalize dependent (2 ^ (e + 1074)). intros E **. generalize dependent (2 ^ 52). intros c **.
      assert (H1 : c * (d * (2 * K)) <= c * (d * E)) by (do 2 (apply Z.mul_le_mono_nonneg_l; [lia|]); lia).
      assert (HKd : 0 < K * d) by (apply Z.mul_pos_pos; lia).
      assert (H2 : a * (K * d) < 2 * c * (K * d)) by (apply Z.mul_lt_mono_pos_r; lia). lia. }
  destruct He as [He Hek].
  assert (Hm : mantissa n d e * 2 ^ (e + 1074) = a * 2 ^ (k + 1074) /\ 0 <= mantissa n d e).
  { destruct (decide (a = 0)) as [-> | Hz].
    { assert (n = 0) as -> by nia. by rewrite mantissa_zero. }
    specialize (Hek Hz).
    assert (E : mantissa n d e = a * 2 ^ (k - e)).
    { unfold mantissa. assert (0 < 2 ^ Z.max 0 e) by (apply Z.pow_pos_nonneg; lia).
      replace (n * 2 ^ Z.max 0 (- e)) with (a * 2 ^ (k - e) * (d * 2 ^ Z.max 0 e)); [apply half_even_exact; nia|].
      apply (Z.mul_reg_r _ _ (2 ^ 1074)); [done|].
      transitivity (n * 2 ^ 1074 * 2 ^ Z.max 0 (- e)); [|ring]. rewrite Hn.
      assert (F : 2 ^ (k - e) * 2 ^ Z.max 0 e * 2 ^ 1074 = 2 ^ (k + 1074) * 2 ^ Z.max 0 (- e)).
      { rewrite <- !Z.pow_add_r by lia. f_equal. lia. }
      transitivity (a * d * (2 ^ (k - e) * 2 ^ Z.max 0 e * 2 ^ 1074)); [ring|]. rewrite F. ring. }
    rewrite E. split; [|apply Z.mul_nonneg_nonneg; [lia|apply Z.pow_nonneg; lia]].
    rewrite <- Z.mul_assoc, <- Z.pow_add_r by lia. do 2 f_equal. lia. }
  unfold round. fold e. destruct (Z.ltb_spec 971 e); [lia|]. destruct (Z.eqb_spec e 971); [lia|].
  split_and!; [done|lia|apply Hm|apply Hm].
Qed.

(** The value of a finite non-negative double, scaled. *)
Definition is_val (f : float) (v : Z) : Prop :=
  exists m e, f = Finite false m e /\ - 1074 <= e /\ 0 <= m /\ scaled m e = v.

Lemma of_int_exact z : 0 <= z < 2 ^ 53 -> is_val (of_int z) (z * denom).
Proof.
  intros Hz. unfold of_int. rewrite Z.abs_eq by lia. destruct (Z.ltb_spec z 0); [lia|].
  destruct (round_scaled false z 1 z 0) as (m & e & -> & He & Hm & Hs); [done|done|lia|lia|].
  by exists m, e.
Qed.

Lemma val_unique f v w : is_val f v -> is_val f w -> v = w.
Proof. intros (m & e & -> & _ & _ & <-) (m' & e' & [= <- <-] & _ & _ & <-). done. Qed.

Lemma int_of_val f v : is_val f v -> int_of f = v / denom.
Proof. intros (m & e & -> & He & Hm & <-). unfold int_of. by rewrite trunc_scaled. Qed.

Lemma fixed_val prec f g v : is_val f v -> is_val g v -> fixed prec f = fixed prec g.
Proof. intros (m & e & -> & _ & _ & H1) (m' & e' & -> & _ & _ & H2). unfold fixed. by rewrite H1, H2. Qed.

(** ** Two roundings *)

Lemma val_of_round n d :
  0 <= n -> 0 < d -> n = 0 \/ d <= n * 2 ^ 1022 -> n < d * 2 ^ 1022 ->
  exists v, is_val (round false n d) v /\ 0 <= v /\ 2 ^ 53 * Z.abs (v * d - n * denom) <= n * denom.
Proof.
  intros Hn Hd Hlo Hhi. destruct (round_error false n d Hd) as (m & e & -> & He & Hm & Herr); [|done|].
  { destruct (decide (n = 0)); [by left|right]. destruct Hlo; [done|]. lia. }
  exists (scaled m e). split; [by exists m, e|]. split; [|done].
  apply Z.mul_nonneg_nonneg; [done|apply Z.pow_nonneg; lia].
Qed.

Lemma scale_le a b c k : 0 <= c -> a <= b * k -> a * c <= b * c * k.
Proof. intros Hc H. replace (b * c * k) with (b * k * c) by ring. by apply Z.mul_le_mono_nonneg_r. Qed.

(** A proper fraction of two integers, as a double. *)
Lemma fdiv_near r u :
  0 < r <= u -> u < 2 ^ 53 ->
  exists v, is_val (fdiv (of_int r) (of_int u)) v /\ 0 <= v /\ 2 ^ 53 * Z.abs (v * u - r * denom) <= r * denom.
Proof.
  intros Hr Hu. pose proof denom_pos as HP.
  destruct (of_int_exact r ltac:(lia)) as (mr & er & -> & _ & _ & Er).
  destruct (of_int_exact u ltac:(lia)) as (mu & eu & -> & _ & _ & Eu).
  cbn [fdiv xorb]. rewrite Er, Eu. assert (HK : 2 ^ 53 <= 2 ^ 1022) by (by apply Z.pow_le_mono_r).
  destruct (val_of_round (r * denom) (u * denom)) as (v & Hv & Hv0 & Herr).
  - apply Z.mul_nonneg_nonneg; lia.
  - apply Z.mul_pos_pos; lia.
  - right. apply scale_le; [lia|]. transitivity (1 * 2 ^ 1022); [lia|]. apply Z.mul_le_mono_nonneg_r; lia.
  - apply Z.lt_le_trans with (u * denom * 2).
    + assert (r * denom <= u * denom) by (apply Z.mul_le_mono_nonneg_r; lia).
      assert (0 < u * denom) by (apply Z.mul_pos_pos; lia). lia.
    + apply Z.mul_le_mono_nonneg_l; [apply Z.mul_nonneg_nonneg; lia|lia].
  - exists v. split; [done|]. split; [done|]. apply (Z.mul_le_mono_pos_r _ _ denom HP).
    replace (v * (u * denom) - r * denom * denom) with ((v * u - r * denom) * denom) in Herr by ring.
    rewrite Z.abs_mul, (Z.abs_eq denom) in Herr by lia. lia.
Qed.

Lemma fadd_near f g q v :
  0 <= q < 2 ^ 53 -> is_val f (q * denom) -> is_val g v -> denom <= v * 2 ^ 53 -> v <= denom * 2 ->
  exists w, is_val (fadd f g) w /\ 2 ^ 53 * Z.abs (w - (q * denom + v)) <= q * denom + v.
Proof.
  intros Hq (m1 & e1 & -> & _ & _ & E1) (m2 & e2 & -> & _ & _ & E2) Hlo Hhi. pose proof denom_pos as HP.
  cbn [fadd signed]. rewrite E1, E2. assert (Hs : 0 <= q * denom) by (apply Z.mul_nonneg_nonneg; lia).
  rewrite Z.abs_eq by lia. destruct (Z.ltb_spec (q * denom + v) 0); [lia|].
  assert (HK : 2 ^ 55 <= 2 ^ 1022) by (by apply Z.pow_le_mono_r).
  destruct (val_of_round (q * denom + v) denom) as (w & Hw & Hw0 & Herr); [lia|done| | |].
  - right. assert (v * 2 ^ 53 <= (q * denom + v) * 2 ^ 1022); [|lia]. apply Z.mul_le_mono_nonneg; lia.
  - apply Z.lt_le_trans with (denom * 2 ^ 55); [|apply Z.mul_le_mono_nonneg_l; lia].
    assert (q * denom <= 2 ^ 53 * denom) by (apply Z.mul_le_mono_nonneg_r; lia). lia.
  - exists w. split; [done|]. apply (Z.mul_le_mono_pos_r _ _ denom HP).
    rewrite <- Z.mul_sub_distr_r, Z.abs_mul, (Z.abs_eq denom) in Herr by lia. lia.
Qed.

Lemma fadd_zero f g q :
  0 <= q < 2 ^ 53 -> is_val f (q * denom) -> is_val g 0 -> is_val (fadd f g) (q * denom).
Proof.
  intros Hq (m1 & e1 & -> & _ & _ & E1) (m2 & e2 & -> & _ & _ & E2). pose proof denom_pos as HP.
  cbn [fadd signed]. rewrite E1, E2, Z.add_0_r. assert (Hs : 0 <= q * denom) by (apply Z.mul_nonneg_nonneg; lia).
  rewrite Z.abs_eq by lia. destruct (Z.ltb_spec (q * denom) 0); [lia|].
  destruct (round_scaled false (q * denom) denom q 0) as (m & e & -> & He & Hm & Hv); [done|done|lia|by rewrite Z.add_0_l|].
  exists m, e. by rewrite Z.add_0_l in Hv.
Qed.

Lemma fdiv_zero u : 0 < u < 2 ^ 53 -> is_val (fdiv (of_int 0) (of_int u)) 0.
Proof.
  intros Hu. destruct (of_int_exact 0 ltac:(lia)) as (mr & er & -> & _ & _ & Er).
  destruct (of_int_exact u ltac:(lia)) as (mu & eu & -> & _ & _ & Eu). cbn [fdiv xorb]. rewrite Er, Eu.
  destruct (round_scaled false (0 * denom) (u * denom) 0 0) as (m & e & -> & He & Hm & Hv);
    [apply Z.mul_pos_pos; [lia|done]|lia|lia|lia|]. by exists m, e.
Qed.

(** The whole part of [q + r / u] survives when the fraction is not within
    [2^-22] of an integer. *)
Lemma int_of_sum q r u :
  0 <= q < 2 ^ 28 -> 0 < u < 2 ^ 53 -> r = 0 \/ u <= r * 2 ^ 22 <= u * (2 ^ 22 - 1) ->
  int_of (fadd (of_int q) (fdiv (of_int r) (of_int u))) = q.
Proof.
  intros Hq Hu Hr. pose proof denom_pos as HP. pose proof (of_int_exact q ltac:(lia)) as Eq.
  destruct Hr as [-> | [Hlo Hhi]].
  - rewrite (int_of_val _ (q * denom)); [by rewrite Z.div_mul|]. apply fadd_zero; [lia|done|by apply fdiv_zero].
  - destruct (fdiv_near r u) as (v & Hv & Hv0 & Hve); [lia|lia|].
    assert (HuP : u * denom <= r * 2 ^ 22 * denom) by (apply Z.mul_le_mono_nonneg_r; lia).
    assert (HrP : r * 2 ^ 22 * denom <= u * (2 ^ 22 - 1) * denom) by (apply Z.mul_le_mono_nonneg_r; lia).
    assert (HuP0 : 0 < u * denom) by (apply Z.mul_pos_pos; lia).
    assert (Hvlo : denom <= v * 2 ^ 23) by (apply (Z.mul_le_mono_pos_r _ _ u); lia).
    assert (Hvhi : 2 ^ 75 * v <= (2 ^ 53 + 1) * (2 ^ 22 - 1) * denom) by (apply (Z.mul_le_mono_pos_r _ _ u); lia).
    destruct (fadd_near (of_int q) _ q v ltac:(lia) Eq Hv) as (w & Hw & Hwe); [lia|lia|].
    assert (HqP : q * denom <= 2 ^ 28 * denom) by (apply Z.mul_le_mono_nonneg_r; lia).
    assert (HqP0 : 0 <= q * denom) by (apply Z.mul_nonneg_nonneg; lia).
    rewrite (int_of_val _ w Hw). symmetry. apply (Z.div_unique_pos w denom q (w - denom * q)); lia.
Qed.

(** Whole units of a duration in milliseconds. *)
Lemma int_of_units u ms :
  u = Second \/ u = Minute \/ u = Hour -> 0 <= ms * Millisecond < u * 2 ^ 28 ->
  int_of (in_units u (ms * Millisecond)) = ms * Millisecond / u.
Proof.
  intros Hu Hd. set (d := ms * Millisecond) in *.
  assert (Hub : (Millisecond | u) /\ Second <= u <= Hour).
  { destruct Hu as [-> | [-> | ->]]; (split; [by apply Z.mod_divide|by vm_compute]). }
  destruct Hub as (Hum & Hub). change Second with 1000000000 in Hub. change Hour with 3600000000000 in Hub.
  unfold in_units. rewrite Z.quot_div_nonneg, Z.rem_mod_nonneg by lia.
  pose proof (Z.mod_pos_bound d u ltac:(lia)) as Hr.
  apply int_of_sum; [|lia|].
  - split; [apply Z.div_pos; lia|]. apply Z.div_lt_upper_bound; lia.
  - assert (E : (d mod u) mod Millisecond = 0).
    { rewrite Z.mod_mod_divide by done. unfold d. by rewrite Z.mod_mul. }
    apply Z.mod_divide in E as [x Hx]; [|done]. destruct Hum as [y Hy].
    change Millisecond with 1000000 in *. lia.
Qed.

(** ** Powers of two *)

(** An int64 as a double: a 53-bit integer times a power of two, between the
    same powers of two as the integer. *)
Lemma of_int_form n :
  0 < n < 2 ^ 63 ->
  exists a k, 0 <= a < 2 ^ 53 /\ 0 <= k <= 12 /\ is_val (of_int n) (a * 2 ^ k * denom)
    /\ 2 ^ Z.log2 n <= a * 2 ^ k /\ (n < 2 ^ 53 -> a * 2 ^ k = n).
Proof.
  intros Hn. destruct (Z.lt_ge_cases n (2 ^ 53)) as [Hs|Hl].
  { exists n, 0. rewrite Z.mul_1_r. pose proof (Z.log2_spec n). split_and!; try lia. apply of_int_exact. lia. }
  assert (H53 : 53 <= Z.log2 n < 63).
  { split; [apply (Z.log2_le_pow2 n 53); lia|apply (Z.log2_lt_pow2 n 63); lia]. }
  set (e := Z.log2 n - 52). pose proof (Z.log2_spec n ltac:(lia)) as [Hlo Hhi].
  assert (Ee : exponent n 1 = e).
  { unfold exponent. change (Z.log2 1) with 0. rewrite Z.sub_0_r, Z.mul_1_l.
    rewrite (Z.max_r 0 (Z.log2 n)), (Z.max_l 0 (- Z.log2 n)), Z.mul_1_r by lia.
    destruct (Z.ltb_spec n (2 ^ Z.log2 n)); unfold e; lia. }
  assert (Hp : 2 ^ Z.log2 n = 2 ^ 52 * 2 ^ e) by (rewrite <- Z.pow_add_r by lia; f_equal; lia).
  assert (Hpe : 0 < 2 ^ e) by (apply Z.pow_pos_nonneg; lia).
  assert (Hb : 2 ^ 52 <= mantissa n 1 e <= 2 ^ 53).
  { unfold mantissa. rewrite (Z.max_l 0 (- e)), (Z.max_r 0 e), Z.mul_1_r, Z.mul_1_l by (unfold e; lia).
    pose proof (half_even_spec n (2 ^ e) Hpe). rewrite Z.pow_succ_r in Hhi by lia. nia. }
  assert (Hv : is_val (of_int n) (mantissa n 1 e * 2 ^ e * denom)).
  { unfold of_int. rewrite Z.abs_eq by lia. destruct (Z.ltb_spec n 0); [lia|]. unfold round. rewrite Ee.
    destruct (Z.ltb_spec 971 e); [lia|]. destruct (Z.eqb_spec e 971); [lia|].
    exists (mantissa n 1 e), e. split_and!; [done|lia|lia|]. unfold scaled, denom. rewrite Z.pow_add_r by lia. ring. }
  destruct (decide (mantissa n 1 e = 2 ^ 53)) as [Em|Em].
  - exists (2 ^ 52), (e + 1). rewrite Em in Hv. rewrite Z.pow_add_r by lia. change (2 ^ 1) with 2. split_and!; try lia.
    by replace (2 ^ 52 * (2 ^ e * 2) * denom) with (2 ^ 53 * 2 ^ e * denom) by (change (2 ^ 53) with (2 ^ 52 * 2); ring).
  - exists (mantissa n 1 e), e. split_and!; try lia; [done|]. rewrite Hp. apply Z.mul_le_mono_nonneg_r; lia.
Qed.

(** Division by a power of two is exact. *)
Lemma fdiv_pow2 f a k j :
  is_val f (a * 2 ^ (k + 1074)) -> 0 <= a < 2 ^ 53 -> 0 <= j < 53 -> - 900 <= k <= 900 ->
  is_val (fdiv f (of_int (2 ^ j))) (a * 2 ^ (k - j + 1074)).
Proof.
  intros (m & e & -> & He & Hm & Hv) Ha Hj Hk.
  destruct (of_int_exact (2 ^ j)) as (m2 & e2 & -> & _ & _ & Hv2).
  { split; [apply Z.pow_nonneg; lia|apply Z.pow_lt_mono_r; lia]. }
  assert (Hpj : 0 < 2 ^ j) by (apply Z.pow_pos_nonneg; lia).
  cbn [fdiv xorb]. rewrite Hv, Hv2.
  destruct (round_scaled false (a * 2 ^ (k + 1074)) (2 ^ j * denom) a (k - j)) as (m3 & e3 & -> & He3 & Hm3 & Hv3);
    [by apply Z.mul_pos_pos|done|lia| |by exists m3, e3].
  unfold denom. assert (E : 2 ^ (k + 1074) = 2 ^ (k - j + 1074) * 2 ^ j) by (rewrite <- Z.pow_add_r by lia; f_equal; lia).
  rewrite E. ring.
Qed.

Lemma fge_val f g v w : is_val f v -> is_val g w -> fge f g = (w <=? v).
Proof. intros (m & e & -> & _ & _ & <-) (m' & e' & -> & _ & _ & <-). done. Qed.

Lemma fge_total a b : fge a b = true \/ fge b a = true.
Proof. destruct a as [? ? ?|[]], b as [? ? ?|[]]; cbn [fge negb orb]; rewrite ?Z.leb_le; auto; lia. Qed.

Lemma fge_trans a b c : fge a b = true -> fge b c = true -> fge a c = true.
Proof.
  destruct a as [? ? ?|[]], b as [? ? ?|[]], c as [? ? ?|[]]; cbn [fge negb orb]; rewrite ?Z.leb_le; try done; lia.
Qed.
