(* ===== verification/Event.v ===== *)
(** * Event: [internal/event/event.go]

    The decoded [QueryCompletedEvent].  A pointer field is an [option]; a slice
    that the JSON encoder tells apart from nil is an [option] of a list. *)

From S2P Require Import Prelude GoTime Errors.

Record Metadata := mkMetadata {
  md_QueryID : gostring;
  md_TransactionID : option gostring;
  md_Query : gostring;
  md_UpdateType : option gostring;
  md_PreparedQuery : option gostring;
  md_QueryState : gostring;
  md_URI : gostring;
  md_Plan : option gostring;
  md_JSONPlan : option gostring
}.

Record Statistics := mkStatistics {
  st_CPUTime : Duration;
  st_WallTime : Duration;
  st_QueuedTime : Duration;
  st_AnalysisTime : Duration;
  st_PlanningTime : Duration;
  st_ExecutionTime : Duration;
  st_PeakUserMemoryBytes : Z;
  st_PeakTaskTotalMemory : Z;
  st_PhysicalInputBytes : Z;
  st_PhysicalInputRows : Z;
  st_ProcessedInputBytes : Z;
  st_ProcessedInputRows : Z;
  st_OutputBytes : Z;
  st_OutputRows : Z;
  st_WrittenBytes : Z;
  st_WrittenRows : Z;
  st_CompletedSplits : Z
}.

Record Context_ := mkContext {
  cx_User : gostring;
  cx_Principal : option gostring;
  cx_Source : option gostring;
  cx_Catalog : option gostring;
  cx_Schema : option gostring;
  cx_ClientTags : list gostring;
  cx_ResourceGroupID : list gostring;
  cx_QueryType : option gostring;
  cx_ServerVersion : gostring;
  cx_Environment : gostring
}.

Record InputColumn := mkInputColumn { ic_Name : gostring; ic_Type : gostring }.

Record InputMetadata := mkInputMetadata {
  in_CatalogName : gostring;
  in_Schema : gostring;
  in_Table : gostring;
  in_Columns : option (list InputColumn);
  in_PhysicalInputBytes : option Z;
  in_PhysicalInputRows : option Z
}.

Record IOMetadata := mkIOMetadata { io_Inputs : list InputMetadata }.

Record ErrorCode_ := mkErrorCode { ec_Code : Z; ec_Name : gostring; ec_Type : gostring }.

Record FailureInfo := mkFailureInfo {
  fi_ErrorCode : ErrorCode_;
  fi_FailureType : option gostring;
  fi_FailureMessage : option gostring
}.

Record Event := mkEvent {
  ev_Metadata : Metadata;
  ev_Statistics : Statistics;
  ev_Context : Context_;
  ev_IOMetadata : IOMetadata;
  ev_FailureInfo : option FailureInfo;
  ev_CreateTime : option time;
  ev_ExecutionStartTime : option time;
  ev_EndTime : option time
}.

(** [(e *Event) Validate()]; [None] is a nil error. *)
Definition Validate (e : Event) : option gerror :=
  if decide (md_QueryID (ev_Metadata e) = []) then
    Some (Wrap (bs "missing metadata.queryId: ") (Leaf EInvalidEvent))
  else
    match ev_CreateTime e with
    | None => Some (Wrap (bs "missing createTime: ") (Leaf EInvalidEvent))
    | Some _ => None
    end.

Definition SourceValue (e : Event) : gostring :=
  match cx_Source (ev_Context e) with None => [] | Some s => s end.

(** [Duration.Millis] of [duration.go]. *)
Definition Millis (d : Duration) : Z := Z.quot d Millisecond.
