(* ===== verification/Duration.v ===== *)
(** * Duration: [internal/event/duration.go]

    The tolerant decoder of the statistics' durations: ISO-8601 text or a
    number of seconds, through a double. *)

From S2P Require Import Prelude GoTime Float64 Event.

Section conversion.
(** What [int64(f)] gives for a value out of range (left to the platform). *)
Context (too_large : float -> Z).

Definition is_num_char (b : byte) : bool := bool_decide (b = x2e) || bool_decide (b = x2d) || is_digit b.

Fixpoint span_num (s : gostring) : gostring * gostring :=
  match s with
  | [] => ([], [])
  | b :: t => if is_num_char b then let '(n, rest) := span_num t in (b :: n, rest) else ([], s)
  end.

(** The [switch unit]. *)
Definition unit_scale (unit : byte) (inTime : bool) : option Duration :=
  match unit with
  | x44 => Some (24 * Hour)
  | x48 => if inTime then Some Hour else None
  | x4d => if inTime then Some Minute else None
  | x53 => if inTime then Some Second else None
  | _ => None
  end.

(** The loop over [s[i:]]; every pass consumes at least one byte. *)
Fixpoint iso_loop (fuel : nat) (s : gostring) (inTime : bool) (total : Duration) : option Duration :=
  match fuel, s with
  | _, [] => Some total
  | O, _ => None
  | S fuel, b :: t =>
      if decide (b = x54) then iso_loop fuel t true total
      else
        match span_num s with
        | ([], _) | (_, []) => None
        | (num_text, unit :: rest) =>
            match ParseFloat num_text with
            | None => None
            | Some num =>
                match unit_scale unit inTime with
                | None => None
                | Some scale =>
                    iso_loop fuel rest inTime (wrap64 (total + to_int64 too_large (mul_int num scale)))
                end
            end
        end
  end.

Definition parseISO8601Duration (s : gostring) : option Duration :=
  match s with
  | [] => Some 0
  | _ =>
      let '(neg, s) := span_sign s in
      match s with
      | x50 :: s =>
          match iso_loop (length s) s false 0 with
          | Some total => Some (if (neg : bool) then wrap64 (- total) else total)
          | None => None
          end
      | _ => None
      end
  end.

(** The JSON value handed to [UnmarshalJSON], as [json.Unmarshal] sees it: a
    string is decoded, a number is its literal. *)
Inductive json_token :=
| JNull
| JString (s : gostring)
| JNumber (literal : gostring)
| JOther.

Definition UnmarshalJSON (b : json_token) : Duration :=
  match b with
  | JNull => 0
  | JString s => match parseISO8601Duration s with Some d => d | None => 0 end
  | JNumber lit =>
      match ParseFloat lit with
      | Some secs => to_int64 too_large (mul_int secs Second)
      | None => 0
      end
  | JOther => 0
  end.
End conversion.

(** ** Lemmas *)

Section lemmas.
Context (too_large : float -> Z).

Lemma span_num_length s n rest : span_num s = (n, rest) -> s = n ++ rest.
Proof.
  revert n rest. induction s as [|b s IH]; intros n rest; cbn; [by intros [= <- <-]|].
  destruct (is_num_char b); [|by intros [= <- <-]]. destruct (span_num s) as [n' r'].
  intros [= <- <-]. cbn. f_equal. by apply IH.
Qed.

Lemma span_num_app n rest :
  forallb is_num_char n = true -> match rest with [] => True | b :: _ => is_num_char b = false end ->
  span_num (n ++ rest) = (n, rest).
Proof.
  intros Hn Hr. induction n as [|b n IH].
  - destruct rest as [|c rest]; [done|]. cbn. by rewrite Hr.
  - cbn in Hn. apply andb_prop in Hn as [Hb Hn]. cbn. by rewrite Hb, IH.
Qed.

(** The fuel is enough: more of it changes nothing. *)
Lemma iso_loop_fuel f1 f2 s inTime total :
  (length s <= f1)%nat -> (length s <= f2)%nat ->
  iso_loop too_large f1 s inTime total = iso_loop too_large f2 s inTime total.
Proof.
  revert f2 s inTime total. induction f1 as [|f1 IH]; intros f2 s inTime total H1 H2.
  { destruct s; [by destruct f2|]. simpl in H1. lia. }
  destruct s as [|b t]; [by destruct f2|]. destruct f2 as [|f2]; [simpl in H2; lia|].
  simpl in H1, H2. cbn [iso_loop]. destruct (decide (b = x54)); [apply IH; lia|].
  destruct (span_num (b :: t)) as [num rest] eqn:E. apply span_num_length in E.
  destruct num as [|c num]; [done|]. destruct rest as [|u rest]; [done|].
  destruct (ParseFloat (c :: num)); [|done]. destruct (unit_scale u inTime); [|done].
  apply (f_equal length) in E. simpl in E. rewrite length_app in E. simpl in E. apply IH; lia.
Qed.

Lemma iso_T fuel t inTime total :
  iso_loop too_large (S fuel) (x54 :: t) inTime total = iso_loop too_large fuel t true total.
Proof. done. Qed.

(** One component of the time part. *)
Lemma iso_step fuel n unit rest total num scale :
  n <> [] -> forallb is_num_char n = true -> is_num_char unit = false ->
  ParseFloat n = Some num -> unit_scale unit true = Some scale ->
  iso_loop too_large (S fuel) (n ++ unit :: rest) true total
  = iso_loop too_large fuel rest true (wrap64 (total + to_int64 too_large (mul_int num scale))).
Proof.
  intros Hne Hn Hu Hp Hs. destruct n as [|b n]; [done|]. cbn [app iso_loop].
  rewrite decide_False by (intros ->; by cbn in Hn).
  pose proof (span_num_app (b :: n) (unit :: rest) Hn Hu) as Hsp. cbn [app] in Hsp. by rewrite Hsp, Hp, Hs.
Qed.

Lemma digits_num_chars ds : forallb is_digit ds = true -> forallb is_num_char ds = true.
Proof.
  induction ds as [|b ds IH]; [done|]. cbn. intros [Hb Hd]%andb_prop. rewrite IH by done.
  unfold is_num_char. by rewrite Hb, orb_true_r.
Qed.

(** One integer component, [o * 2^j] being its scale. *)
Lemma iso_step_nat fuel n unit rest total o j :
  is_num_char unit = false -> unit_scale unit true = Some (o * 2 ^ j) ->
  0 <= n -> 0 < o -> 0 <= j <= 900 -> n * o < 2 ^ 53 -> n * (o * 2 ^ j) <= max_int64 ->
  iso_loop too_large (S fuel) (udec n ++ unit :: rest) true total
  = iso_loop too_large fuel rest true (wrap64 (total + n * (o * 2 ^ j))).
Proof.
  intros Hu Hs Hn Ho Hj Hb Hmax.
  destruct (ParseFloat_nat n) as (m & e & Hp & He & Hm & Hsc); [nia|].
  rewrite (iso_step _ _ _ _ _ _ _ (udec_nonempty n Hn) (digits_num_chars _ (udec_digits n Hn)) Hu Hp Hs).
  by rewrite (mul_int_exact too_large m e n o j).
Qed.
End lemmas.

(** ** Guarantees *)

(** A duration with whole hours, minutes and seconds, in the form
    [java.time.Duration] prints, is decoded exactly (while it fits in an int64). *)
Theorem parse_whole_duration too_large h m s :
  0 <= h -> 0 <= m -> 0 <= s < 2 ^ 32 -> h * Hour + m * Minute + s * Second <= max_int64 ->
  parseISO8601Duration too_large (bs "PT" ++ udec h ++ bs "H" ++ udec m ++ bs "M" ++ udec s ++ bs "S")
  = Some (h * Hour + m * Minute + s * Second).
Proof.
  intros Hh Hm Hs Hsum. change (bs "PT" ++ ?x) with (x50 :: x54 :: x).
  cbn [parseISO8601Duration span_sign].
  set (text := x54 :: _). rewrite (iso_loop_fuel too_large _ (S (S (S (S (length text)))))) by lia.
  unfold text at 2. rewrite iso_T.
  change Hour with (439453125 * 2 ^ 13) in *. change Minute with (29296875 * 2 ^ 11) in *.
  change Second with (1953125 * 2 ^ 9) in *. unfold max_int64 in *.
  change (bs "H" ++ ?x) with (x48 :: x). change (bs "M" ++ ?x) with (x4d :: x). change (bs "S") with [x53].
  rewrite (iso_step_nat too_large _ h x48 _ _ 439453125 13) by (try done; unfold max_int64; lia).
  rewrite (iso_step_nat too_large _ m x4d _ _ 29296875 11) by (try done; unfold max_int64; lia).
  rewrite (iso_step_nat too_large _ s x53 _ _ 1953125 9) by (try done; unfold max_int64; lia).
  cbn [iso_loop]. rewrite Z.add_0_l, (wrap64_id (h * _)), (wrap64_id (h * _ + _)) by (unfold int64; lia).
  by rewrite wrap64_id by (unfold int64; lia).
Qed.

(** C36. Seconds with up to nine decimals, as ISO-8601 text or as a JSON number,
    for durations below 2^51 ns (26 days, within which a double holds a
    nanosecond): both give the same nanoseconds, which are the exact value or one
    less, and so milliseconds that are exact or one less. *)
Theorem parse_fraction_close too_large ip fp T :
  ip <> [] -> forallb is_digit ip = true -> forallb is_digit fp = true -> len fp <= 9 ->
  T = dec_val (ip ++ fp) * 10 ^ (9 - len fp) -> T < 2 ^ 51 ->
  let text := ip ++ match fp with [] => [] | _ => x2e :: fp end in
  exists d, UnmarshalJSON too_large (JString (bs "PT" ++ text ++ bs "S")) = d
    /\ UnmarshalJSON too_large (JNumber text) = d
    /\ T - 1 <= d <= T /\ T / Millisecond - 1 <= Millis d <= T / Millisecond.
Proof.
  intros Hne Hip Hfp Hlen HT HTb text.
  assert (Hv : 0 <= dec_val (ip ++ fp)) by (apply dec_val_nonneg; rewrite forallb_app, Hip; done).
  destruct (nanoseconds_close too_large ip fp T Hlen HT) as (m & e & Hd & Hr).
  { split; [|done]. rewrite HT. apply Z.mul_nonneg_nonneg; [done|apply Z.pow_nonneg; lia]. }
  assert (Hp : ParseFloat text = Some (Finite false m e)) by (unfold text; by rewrite ParseFloat_decimal, Hd).
  exists (to_int64 too_large (mul_int (Finite false m e) (10 ^ 9))). split_and!.
  - change (bs "PT" ++ text ++ bs "S") with (x50 :: x54 :: text ++ [x53]).
    cbn [UnmarshalJSON parseISO8601Duration span_sign].
    set (t := x54 :: _). rewrite (iso_loop_fuel too_large _ (S (S (length t)))) by lia.
    unfold t at 2. rewrite iso_T. rewrite (iso_step too_large _ text x53 [] 0 (Finite false m e) Second).
    + change Second with (10 ^ 9). cbn [iso_loop]. rewrite Z.add_0_l, wrap64_id; [by destruct (length t)|].
      unfold int64. lia.
    + unfold text. by destruct ip.
    + unfold text. rewrite forallb_app, digits_num_chars by done. destruct fp as [|b fp]; [done|].
      change (is_num_char x2e && forallb is_num_char (b :: fp) = true). by rewrite digits_num_chars.
    + done.
    + done.
    + done.
  - cbn [UnmarshalJSON]. by rewrite Hp.
  - lia.
  - lia.
  - unfold Millis. change Millisecond with 1000000. rewrite Z.quot_div_nonneg by lia.
    generalize dependent (to_int64 too_large (mul_int (Finite false m e) (10 ^ 9))). intros d Hr.
    clear -Hr. Z.to_euclidean_division_equations. lia.
  - unfold Millis. change Millisecond with 1000000. rewrite Z.quot_div_nonneg by lia.
    generalize dependent (to_int64 too_large (mul_int (Finite false m e) (10 ^ 9))). intros d Hr.
    clear -Hr. Z.to_euclidean_division_equations. lia.
Qed.

(** The truncation of the double loses a millisecond on some values with
    exactly three decimals: 1.001 s is recorded as 1000 ms, 1.002 s as it is. *)
Example millisecond_lost too_large :
  Millis (UnmarshalJSON too_large (JString (bs "PT1.001S"))) = 1000
  /\ Millis (UnmarshalJSON too_large (JNumber (bs "1.001"))) = 1000
  /\ Millis (UnmarshalJSON too_large (JString (bs "PT1.002S"))) = 1002.
Proof. split_and!; vm_compute; reflexivity. Qed.

(** ** Instances *)

Lemma parse_whole_duration_witness :
  parseISO8601Duration (fun _ => 0) (bs "PT26H3M4S") = Some (26 * Hour + 3 * Minute + 4 * Second).
Proof. apply (parse_whole_duration (fun _ => 0) 26 3 4); [lia|lia|lia|reflexivity || (vm_compute; discriminate)]. Defined.

Lemma parse_fraction_close_witness :
  exists d, UnmarshalJSON (fun _ => 0) (JString (bs "PT12.345S")) = d
    /\ UnmarshalJSON (fun _ => 0) (JNumber (bs "12.345")) = d
    /\ 12345000000 - 1 <= d <= 12345000000 /\ 12345 - 1 <= Millis d <= 12345.
Proof.
  apply (parse_fraction_close (fun _ => 0) (bs "12") (bs "345") 12345000000);
    [discriminate|reflexivity|reflexivity|vm_compute; discriminate|reflexivity|reflexivity].
Defined.
