(* ===== verification/Json.v ===== *)
(** * Json: the encoding half of [encoding/json] on the types the sink encodes

    Strings are escaped the way [json.Marshal] does it, HTML escaping included;
    ill-formed UTF-8 becomes [\ufffd]. *)

From S2P Require Import Prelude Utf8 Event.

Definition dquote : byte := x22.
Definition backslash : byte := x5c.

Definition hex (n : Z) : byte := if n <? 10 then byte_of (48 + n) else byte_of (87 + n).

(** [\u00XX] for an ASCII byte. *)
Definition u00 (b : byte) : gostring := bs "\u00" ++ [hex (Z.shiftr (bv b) 4); hex (Z.land (bv b) 15)].

(** One byte below 128. *)
Definition json_ascii (b : byte) : gostring :=
  if decide (b = dquote) then [backslash; dquote]
  else if decide (b = backslash) then [backslash; backslash]
  else if decide (b = x08) then bs "\b"
  else if decide (b = x0c) then bs "\f"
  else if decide (b = x0a) then bs "\n"
  else if decide (b = x0d) then bs "\r"
  else if decide (b = x09) then bs "\t"
  else if (bv b <? 32) || bool_decide (b = x3c) || bool_decide (b = x3e) || bool_decide (b = x26) then u00 b
  else [b].

(** One rune with the bytes it was decoded from. *)
Definition json_rune (r : Z * gostring) : gostring :=
  let '(c, raw) := r in
  if c <? 128 then mjoin (json_ascii <$> raw)
  else if (c =? rune_error) && (len raw =? 1) then bs "\ufffd"
  else if c =? 8232 then bs "\u2028"
  else if c =? 8233 then bs "\u2029"
  else raw.

Definition json_string (s : gostring) : gostring :=
  [dquote] ++ mjoin (json_rune <$> runes s) ++ [dquote].

Definition json_null : gostring := bs "null".

Definition json_array {A} (enc : A -> gostring) (l : list A) : gostring :=
  bs "[" ++ join (bs ",") (enc <$> l) ++ bs "]".

Definition json_object (members : list (string * gostring)) : gostring :=
  bs "{" ++ join (bs ",") ((fun '(k, v) => json_string (bs k) ++ bs ":" ++ v) <$> members) ++ bs "}".

Definition json_opt_int (v : option Z) : gostring :=
  match v with None => json_null | Some z => itoa z end.

Definition json_column (c : InputColumn) : gostring :=
  json_object [("name"%string, json_string (ic_Name c)); ("type"%string, json_string (ic_Type c))].

(** [json.Marshal] of an [InputMetadata]: struct tags in declaration order, a
    nil slice and a nil pointer are [null]. *)
Definition json_input (i : InputMetadata) : gostring :=
  json_object
    [("catalogName"%string, json_string (in_CatalogName i));
     ("schema"%string, json_string (in_Schema i));
     ("table"%string, json_string (in_Table i));
     ("columns"%string, match in_Columns i with None => json_null | Some cs => json_array json_column cs end);
     ("physicalInputBytes"%string, json_opt_int (in_PhysicalInputBytes i));
     ("physicalInputRows"%string, json_opt_int (in_PhysicalInputRows i))].

(** [json.Marshal(inputs)] of a non-nil slice; it has no failing case. *)
Definition json_inputs (l : list InputMetadata) : gostring := json_array json_input l.
