(* ===== verification/EventRow.v ===== *)
(** * EventRow: [internal/store/row.go]

    A decoded event becomes a row; the plan policy and the query preview are
    applied to it before it is truncated and buffered. *)

From S2P Require Import Prelude GoTime Utf8 Event Json Row Truncate.

Definition deref (s : option gostring) : gostring := default [] s.

Definition RowFromEvent (e : Event) : Row :=
  let md := ev_Metadata e in
  let st := ev_Statistics e in
  let cx := ev_Context e in
  let inputs := io_Inputs (ev_IOMetadata e) in
  {|
    QueryID := md_QueryID md;
    QueryState := md_QueryState md;
    QueryType := deref (cx_QueryType cx);
    UserName := cx_User cx;
    Source := SourceValue e;
    Principal := deref (cx_Principal cx);
    ClientTags := join (bs ",") (cx_ClientTags cx);
    Catalog := deref (cx_Catalog cx);
    SchemaName := deref (cx_Schema cx);
    QueryText := md_Query md;
    QueryPreview := [];
    UpdateType := deref (md_UpdateType md);
    CreateTime := default zero_time (ev_CreateTime e);
    ExecutionStartTime := ev_ExecutionStartTime e;
    EndTime := ev_EndTime e;
    QueuedMS := Millis (st_QueuedTime st);
    AnalysisMS := Millis (st_AnalysisTime st);
    PlanningMS := Millis (st_PlanningTime st);
    ExecutionMS := Millis (st_ExecutionTime st);
    WallMS := Millis (st_WallTime st);
    CPUMS := Millis (st_CPUTime st);
    PeakUserMemoryBytes := st_PeakUserMemoryBytes st;
    PeakTotalMemoryBytes := st_PeakTaskTotalMemory st;
    PhysicalInputBytes := st_PhysicalInputBytes st;
    PhysicalInputRows := st_PhysicalInputRows st;
    ProcessedInputBytes := st_ProcessedInputBytes st;
    ProcessedInputRows := st_ProcessedInputRows st;
    OutputBytes := st_OutputBytes st;
    OutputRows := st_OutputRows st;
    WrittenBytes := st_WrittenBytes st;
    WrittenRows := st_WrittenRows st;
    CompletedSplits := st_CompletedSplits st;
    ErrorCode := match ev_FailureInfo e with None => [] | Some f => ec_Name (fi_ErrorCode f) end;
    ErrorType :=
      match ev_FailureInfo e with
      | None => []
      | Some f =>
          if decide (ec_Type (fi_ErrorCode f) = []) then deref (fi_FailureType f)
          else ec_Type (fi_ErrorCode f)
      end;
    ErrorMessage := match ev_FailureInfo e with None => [] | Some f => deref (fi_FailureMessage f) end;
    Plan := deref (md_Plan md);
    JSONPlan := deref (md_JSONPlan md);
    InputsJSON := if 0 <? len inputs then json_inputs inputs else [];
    ResourceGroup := join (bs ".") (cx_ResourceGroupID cx);
    ServerVersion := cx_ServerVersion cx;
    Environment := cx_Environment cx
  |}.

Definition PlanCaptureAll : gostring := bs "all".
Definition PlanCaptureSlowOrFailed : gostring := bs "slow_or_failed".
Definition PlanCaptureNone : gostring := bs "none".

Record PlanPolicy := mkPlanPolicy { Capture : gostring; MinWall : Duration }.

Definition keepsPlans (r : Row) (p : PlanPolicy) : bool :=
  if decide (Capture p = PlanCaptureNone) then false
  else if decide (Capture p = PlanCaptureSlowOrFailed) then
    negb (bool_decide (ErrorCode r = [])) || (Milliseconds (MinWall p) <=? WallMS r)
  else true.

Definition ApplyPlanPolicy (r : Row) (p : PlanPolicy) : Row :=
  if negb (keepsPlans r p) then set_str FJSONPlan [] (set_str FPlan [] r) else r.

(** [unicode.IsSpace]. *)
Definition IsSpace (r : Z) : bool :=
  in_range 9 13 r || (r =? 32) || (r =? 133) || (r =? 160) || (r =? 5760) || in_range 8192 8202 r
  || (r =? 8232) || (r =? 8233) || (r =? 8239) || (r =? 8287) || (r =? 12288).

(** [strings.Fields]: maximal runs of runes that are not spaces. *)
Fixpoint fields_loop (rs : list (Z * gostring)) (cur : gostring) : list gostring :=
  match rs with
  | [] => if decide (cur = []) then [] else [cur]
  | (r, raw) :: rs =>
      if IsSpace r then
        if decide (cur = []) then fields_loop rs [] else cur :: fields_loop rs []
      else fields_loop rs (cur ++ raw)
  end.
Definition Fields (s : gostring) : list gostring := fields_loop (runes s) [].

Definition WithPreview (r : Row) (maxBytes : Z) : Row :=
  let preview := join (bs " ") (Fields (QueryText r)) in
  let preview :=
    if (0 <? maxBytes) && (maxBytes <? len preview) then
      slice_to preview (runeSafeCut preview maxBytes)
    else preview in
  set_str FQueryPreview preview r.
