(* ===== verification/EventTheorems.v ===== *)
(** * EventTheorems: from a decoded event to the row that is buffered

    Validation, the plan policy and the query preview. *)

From S2P Require Import Prelude Errors GoTime Utf8 Event Json Row Truncate EventRow.

(** ** Runes of valid strings *)

Lemma runes_fuel_more f s : (length s <= f)%nat -> runes_fuel f s = runes s.
Proof.
  unfold runes. revert s. assert (H : forall n f1 f2 s, (length s <= n)%nat -> (length s <= f1)%nat -> (length s <= f2)%nat ->
    runes_fuel f1 s = runes_fuel f2 s).
  { induction n as [|n IH]; intros f1 f2 s Hn H1 H2; destruct s as [|b s]; try (by destruct f1, f2).
    - simpl in Hn. lia.
    - destruct f1 as [|f1]; [simpl in H1; lia|]. destruct f2 as [|f2]; [simpl in H2; lia|].
      cbn [runes_fuel]. destruct (decode_rune (b :: s)) as [r w] eqn:E. f_equal.
      assert (1 <= w)%nat.
      { unfold decode_rune in E. destruct (decode1 (b :: s)) as [[r' w']|] eqn:E'; [|simpl in E; injection E as <- <-; lia].
        simpl in E. injection E as <- <-. apply decode1_split in E' as (? & ? & ? & _ & -> & _). lia. }
      apply IH; rewrite length_drop; simpl in *; lia. }
  intros s Hs. by apply (H (length s)).
Qed.

Lemma runes_head e t r :
  e <> [] -> decode1 (e ++ t) = Some (r, length e) -> runes (e ++ t) = (r, e) :: runes t.
Proof.
  intros He Hd. destruct e as [|b e]; [done|]. unfold runes at 1. cbn [app length runes_fuel].
  unfold decode_rune. change (b :: e ++ t) with ((b :: e) ++ t). rewrite Hd. cbn [default from_option id].
  rewrite take_app_length, drop_app_length. f_equal. apply runes_fuel_more. rewrite length_app. lia.
Qed.

Lemma runes_app a b : ValidString a = true -> runes (a ++ b) = runes a ++ runes b.
Proof.
  revert a. apply valid_ind; [done|]. intros e t (r & E & Hd) He _ _ IH.
  rewrite <- app_assoc, !(runes_head e _ r) by (done || apply Hd). by rewrite IH.
Qed.

Lemma runes_text a : ValidString a = true -> mjoin (snd <$> runes a) = a.
Proof.
  revert a. apply valid_ind; [done|]. intros e t (r & E & Hd) He _ _ IH.
  rewrite (runes_head e _ r), fmap_cons, mjoin_cons, IH by (done || apply Hd). done.
Qed.

(** ** Fields *)

(** A valid text without white space. *)
Definition word (s : gostring) : Prop :=
  s <> [] /\ ValidString s = true /\ Forall (fun r => IsSpace (fst r) = false) (runes s).

Lemma fields_loop_word s rest cur :
  Forall (fun r => IsSpace (fst r) = false) (runes s) -> ValidString s = true ->
  fields_loop (runes s ++ rest) cur = fields_loop rest (cur ++ s).
Proof.
  intros Hs Hv. rewrite <- (runes_text s Hv) at 2. clear Hv. revert cur.
  induction Hs as [|[r e] l Hr _ IH]; intros cur; [by rewrite app_nil_r|].
  cbn [app fields_loop]. simpl in Hr. rewrite Hr, IH, fmap_cons, mjoin_cons. by rewrite app_assoc.
Qed.

Lemma runes_space t : runes (x20 :: t) = (32, [x20]) :: runes t.
Proof. by apply (runes_head [x20]). Qed.

(** Joining words by a space and splitting again gives the words. *)
Lemma fields_join ws : Forall word ws -> Fields (join (bs " ") ws) = ws.
Proof.
  unfold Fields. induction 1 as [|w ws (Hne & Hv & Hw) Hws IH]; [done|]. destruct ws as [|w' ws].
  - cbn [join]. pose proof (fields_loop_word w [] [] Hw Hv) as H. rewrite app_nil_r in H. rewrite H. cbn.
    by rewrite decide_False.
  - rewrite join_cons2. change (bs " ") with [x20] in *. rewrite runes_app by done.
    rewrite (fields_loop_word w _ []) by done. cbn [app]. rewrite runes_space.
    cbn [fields_loop]. change (IsSpace 32) with true. cbn [app]. rewrite decide_False by done. by rewrite IH.
Qed.

Lemma word_snoc cur e r :
  (cur = [] \/ word cur) -> e <> [] -> (forall t, decode1 (e ++ t) = Some (r, length e)) -> IsSpace r = false ->
  word (cur ++ e).
Proof.
  intros Hc He Hd Hr. assert (Hve : ValidString e = true).
  { apply (valid_cons e r (length e)); [rewrite <- (app_nil_r e) at 1; apply Hd|]. by rewrite drop_all. }
  assert (Hre : runes e = [(r, e)]).
  { pose proof (runes_head e [] r He (Hd [])) as H. by rewrite app_nil_r in H. }
  destruct Hc as [->|(Hne & Hv & Hw)].
  - split_and!; [done|done|]. cbn [app]. rewrite Hre. by apply Forall_singleton.
  - split_and!; [by destruct cur|by apply valid_app|]. rewrite runes_app, Hre by done.
    apply Forall_app. split; [done|]. by apply Forall_singleton.
Qed.

Lemma fields_words s : ValidString s = true -> Forall word (Fields s).
Proof.
  unfold Fields. intros Hs.
  enough (H : forall cur, cur = [] \/ word cur -> Forall word (fields_loop (runes s) cur)) by (by apply H; left).
  revert s Hs. apply (valid_ind (fun s => forall cur, cur = [] \/ word cur -> Forall word (fields_loop (runes s) cur))).
  - intros cur Hc. cbn. case_decide; [constructor|]. destruct Hc as [|Hc]; [done|]. by apply Forall_singleton.
  - intros e t (r & E & Hd) He _ _ IH cur Hc. rewrite (runes_head e _ r) by (done || apply Hd). cbn [fields_loop].
    destruct (IsSpace r) eqn:Hr.
    + case_decide; [apply IH; by left|]. destruct Hc as [|Hc]; [done|]. constructor; [done|]. apply IH. by left.
    + apply IH. right. by apply (word_snoc cur e r).
Qed.

Lemma join_valid ws : Forall word ws -> ValidString (join (bs " ") ws) = true.
Proof.
  induction 1 as [|w ws (Hne & Hv & Hw) _ IH]; [done|]. destruct ws as [|w' ws]; [done|].
  rewrite join_cons2. apply valid_app; [done|]. by apply valid_app.
Qed.

(** ** Guarantees *)

(** A validated event becomes a row with a non-empty query id and the
    event's own creation time (the partition column); every refusal is an
    [ErrInvalidEvent]. *)
Theorem validated_event_row e :
  match Validate e with
  | None => QueryID (RowFromEvent e) <> [] /\ ev_CreateTime e = Some (CreateTime (RowFromEvent e))
  | Some err => errors_Is EInvalidEvent err = true
                /\ (QueryID (RowFromEvent e) = [] \/ ev_CreateTime e = None)
  end.
Proof.
  unfold Validate. cbn [QueryID CreateTime RowFromEvent]. case_decide as Hq.
  - split; [reflexivity|by left].
  - destruct (ev_CreateTime e) as [t|]; [done|]. split; [reflexivity|by right].
Qed.

(** The plan policy: with ["none"] no plan is kept, with ["slow_or_failed"]
    exactly those of failed queries and of queries at or above the threshold,
    in whole milliseconds, otherwise all; both plans go together and no other
    field changes. *)
Theorem plan_policy_effect r p f :
  get_str f (ApplyPlanPolicy r p) =
    (if bool_decide (f = FPlan \/ f = FJSONPlan)
        && (bool_decide (Capture p = bs "none")
            || (bool_decide (Capture p = bs "slow_or_failed")
                && bool_decide (ErrorCode r = []) && (WallMS r <? Z.quot (MinWall p) 1000000)))
     then [] else get_str f r)
  /\ (forall g, get_int g (ApplyPlanPolicy r p) = get_int g r)
  /\ (forall g, fetch (PTime g) (ApplyPlanPolicy r p) = fetch (PTime g) r).
Proof.
  unfold ApplyPlanPolicy, keepsPlans, PlanCaptureNone, PlanCaptureSlowOrFailed.
  change (Milliseconds (MinWall p)) with (Z.quot (MinWall p) 1000000).
  split_and!.
  - destruct (decide (Capture p = bs "none")) as [->|Hn]; [|rewrite (bool_decide_eq_false_2 (Capture p = bs "none")) by done].
    + rewrite (bool_decide_eq_true_2 (bs "none" = bs "none")) by done. cbn [negb orb]. rewrite andb_true_r. by destruct f.
    + destruct (decide (Capture p = bs "slow_or_failed")) as [->|Hs];
        [|rewrite (bool_decide_eq_false_2 (Capture p = bs "slow_or_failed")) by done; cbn; by rewrite andb_false_r].
      rewrite (bool_decide_eq_true_2 (bs "slow_or_failed" = _)) by done. cbn [orb andb].
      rewrite Z.ltb_antisym. destruct (bool_decide (ErrorCode r = [])); cbn [negb orb andb]; [|by rewrite andb_false_r].
      destruct (_ <=? WallMS r); cbn [negb]; [by rewrite andb_false_r|]. rewrite andb_true_r. by destruct f.
  - intros g. case_match; [|done]. by rewrite !get_int_set_str.
  - intros g. case_match; [|done]. by destruct g.
Qed.

(** The preview of a valid query text is its words on one line, each
    followed by one space: splitting it gives back the words of the text.  With
    a positive limit it is a prefix of that line, cut before a rune, no longer
    than the limit; it is valid UTF-8, and no other field changes. *)
Theorem preview_contract r maxBytes :
  ValidString (QueryText r) = true ->
  let line := join (bs " ") (Fields (QueryText r)) in
  let p := QueryPreview (WithPreview r maxBytes) in
  Fields line = Fields (QueryText r)
  /\ (exists k, p = slice_to line k)
  /\ (maxBytes <= 0 \/ len line <= maxBytes -> p = line)
  /\ (0 < maxBytes -> len p <= maxBytes)
  /\ ValidString p = true
  /\ (forall f, f <> FQueryPreview -> get_str f (WithPreview r maxBytes) = get_str f r).
Proof.
  intros Hv line p. pose proof (fields_words _ Hv) as Hw.
  assert (Hl : ValidString line = true) by by apply join_valid.
  assert (Hp : p = if (0 <? maxBytes) && (maxBytes <? len line) then slice_to line (runeSafeCut line maxBytes) else line).
  { unfold p, WithPreview. fold line. apply (get_set_eq FQueryPreview). }
  split_and!.
  - by apply fields_join.
  - rewrite Hp. destruct (_ && _); [eauto|]. exists (len line). by rewrite slice_to_all.
  - intros Hs. rewrite Hp. destruct (Z.ltb_spec 0 maxBytes), (Z.ltb_spec maxBytes (len line)); try done; lia.
  - intros Hm. rewrite Hp. destruct (Z.ltb_spec 0 maxBytes); [|lia].
    destruct (Z.ltb_spec maxBytes (len line)); cbn [andb]; [|lia].
    pose proof (runeSafeCut_range line maxBytes). rewrite len_slice_to; lia.
  - rewrite Hp. destruct (Z.ltb_spec 0 maxBytes), (Z.ltb_spec maxBytes (len line)); cbn [andb]; try done.
    apply valid_runeSafeCut; [done|lia].
  - intros f Hf. unfold WithPreview. by rewrite get_set_ne.
Qed.

(** ** Instances *)

Lemma preview_contract_witness :
  let r := set_str FQueryText (bs "SELECT  1" ++ [x0a] ++ bs "FROM t") zero_row in
  QueryPreview (WithPreview r 8) = bs "SELECT 1"
  /\ Fields (join (bs " ") (Fields (QueryText r))) = Fields (QueryText r).
Proof.
  intros r. split; [vm_compute; reflexivity|].
  destruct (preview_contract r 8) as [H _]; [vm_compute; reflexivity|]. exact H.
Defined.
