(* ===== verification/Query.v ===== *)
(** * Query: [internal/store/query.go] and [internal/store/identifier.go]

    What both backends share when they read: quoted identifiers, the predicates
    of a listing, the partition window of a query id, ordering and paging. *)

From S2P Require Import Prelude Errors GoTime Row.

Definition dq : byte := x22.
Definition sq : byte := x27.

(** [q + strings.ReplaceAll(s, q, qq) + q] for a quote character [q]. *)
Definition enquote (q : byte) (s : gostring) : gostring := [q] ++ replace_byte q [q; q] s ++ [q].

Definition quoteIdent (s : gostring) : gostring := enquote dq s.

Definition qualifiedName (catalog schema table : gostring) : gostring :=
  quoteIdent catalog ++ bs "." ++ quoteIdent schema ++ bs "." ++ quoteIdent table.

Definition queryIDDay (queryID : gostring) : option time :=
  if len queryID <? 8 then None else parse_yyyymmdd (slice_to queryID 8).

Definition defaultListLimit : Z := 100.
Definition maxListLimit : Z := 5000.

Record predicate := mkPred { p_column : gostring; p_op : gostring; p_value : arg }.

Definition listPredicates (f : QueryFilter) : list predicate :=
  (if negb (IsZero (Since f)) then [mkPred (bs "create_time") (bs ">=") (ATime (Since f))] else []) ++
  (if negb (IsZero (Until f)) then [mkPred (bs "create_time") (bs "<") (ATime (Until f))] else []) ++
  (if decide (User f = []) then [] else [mkPred (bs "user_name") (bs "=") (AStr (User f))]) ++
  (if decide (FilterCatalog f = []) then [] else [mkPred (bs "catalog") (bs "=") (AStr (FilterCatalog f))]) ++
  (if decide (State f = []) then [] else [mkPred (bs "query_state") (bs "=") (AStr (State f))]).

Definition queryIDWindow (queryID : gostring) : option (time * time) :=
  match queryIDDay queryID with
  | None => None
  | Some day => Some (AddDays day (-1), AddDays day 2)
  end.

Definition queryIDPredicates (queryID : gostring) : option (list predicate) :=
  match queryIDWindow queryID with
  | None => None
  | Some (from, to) =>
      Some [mkPred (bs "query_id") (bs "=") (AStr queryID);
            mkPred (bs "create_time") (bs ">=") (ATime from);
            mkPred (bs "create_time") (bs "<") (ATime to)]
  end.

Definition sortColumn (f : QueryFilter) : gostring :=
  match sortColumns (Sort f) with Some col => col | None => bs "create_time" end.

Definition orderBy (f : QueryFilter) : gostring :=
  let dir := if Desc f then bs "DESC" else bs "ASC" in
  let col := sortColumn f in
  let clause := quoteIdent col ++ bs " " ++ dir in
  if decide (col = bs "query_id") then clause
  else clause ++ bs ", " ++ quoteIdent (bs "query_id") ++ bs " " ++ dir.

Definition pageLimit (f : QueryFilter) : Z :=
  if (Limit f <=? 0) || (maxListLimit <? Limit f) then defaultListLimit else Limit f.

(** ** Reading from a store *)

(** The reads of [store.Store]; a read may change the world (a cache does). *)
Class Reader (W : Type) := {
  ListQueries : QueryFilter -> W -> W * (list QuerySummary * option gerror);
  GetQuery : gostring -> W -> W * (option Row * option gerror);
}.

(** ** Specification *)

(** How SQL reads a quoted token: up to the first quote that is not doubled.
    The result is the quoted text and what follows the token. *)
Fixpoint read_quoted (q : byte) (s : gostring) : option (gostring * gostring) :=
  match s with
  | [] => None
  | b :: t =>
      if decide (b = q) then
        match t with
        | c :: t' =>
            if decide (c = q) then
              match read_quoted q t' with Some (x, r) => Some (q :: x, r) | None => None end
            else Some ([], t)
        | [] => Some ([], [])
        end
      else match read_quoted q t with Some (x, r) => Some (b :: x, r) | None => None end
  end.

Definition read_token (q : byte) (s : gostring) : option (gostring * gostring) :=
  match s with b :: t => if decide (b = q) then read_quoted q t else None | [] => None end.

(** The meaning of a predicate on a row. *)
Definition arg_eqb (a b : arg) : bool :=
  match a, b with
  | AStr x, AStr y => bool_decide (x = y)
  | AInt x, AInt y | ATime x, ATime y => x =? y
  | _, _ => false
  end.

Definition arg_ltb (a b : arg) : bool :=
  match a, b with
  | AStr x, AStr y => str_ltb x y
  | AInt x, AInt y | ATime x, ATime y => x <? y
  | _, _ => false
  end.

Definition pred_holds (r : Row) (p : predicate) : bool :=
  match column_value r (p_column p) with
  | None => false
  | Some v =>
      if decide (p_op p = bs "=") then arg_eqb v (p_value p)
      else if decide (p_op p = bs "<") then arg_ltb v (p_value p)
      else if decide (p_op p = bs ">=") then arg_eqb v (p_value p) || arg_ltb (p_value p) v
      else false
  end.

(** The rows a listing asks for, as the filter says it. *)
Definition filter_matches (f : QueryFilter) (r : Row) : bool :=
  (IsZero (Since f) || (Since f <=? CreateTime r))
  && (IsZero (Until f) || (CreateTime r <? Until f))
  && (bool_decide (User f = []) || bool_decide (UserName r = User f))
  && (bool_decide (FilterCatalog f = []) || bool_decide (Catalog r = FilterCatalog f))
  && (bool_decide (State f = []) || bool_decide (QueryState r = State f)).

(** ** Lemmas *)

(** A quoted token reads back as the text that was quoted, and the token ends
    where the quoting ended: the text cannot break out of its quotes. *)
Lemma read_enquote q s rest :
  head rest <> Some q -> read_token q (enquote q s ++ rest) = Some (s, rest).
Proof.
  intros Hrest. unfold enquote, read_token. cbn [app]. rewrite decide_True by done.
  rewrite <- app_assoc. cbn [app]. induction s as [|b s IH].
  - simpl. rewrite decide_True by done. destruct rest as [|c rest]; [done|].
    rewrite decide_False; [done|]. intros ->. by apply Hrest.
  - rewrite replace_byte_cons. destruct (decide (b = q)) as [->|Hb].
    + cbn [app read_quoted]. rewrite !decide_True by done. by rewrite IH.
    + cbn [app read_quoted]. rewrite decide_False by done. by rewrite IH.
Qed.

Lemma sortColumn_cases f :
  sortColumn f ∈ [bs "create_time"; bs "wall_ms"; bs "cpu_ms"; bs "physical_input_bytes";
                  bs "peak_user_memory_bytes"; bs "output_rows"].
Proof. unfold sortColumn, sortColumns. repeat case_decide; set_solver. Qed.

Lemma pageLimit_range f : 1 <= pageLimit f <= maxListLimit.
Proof. unfold pageLimit, maxListLimit, defaultListLimit. destruct (Z.leb_spec (Limit f) 0), (Z.ltb_spec 5000 (Limit f)); simpl; lia. Qed.

Lemma pageLimit_id f : 1 <= Limit f <= maxListLimit -> pageLimit f = Limit f.
Proof.
  unfold pageLimit. intros.
  destruct (Z.leb_spec (Limit f) 0), (Z.ltb_spec maxListLimit (Limit f)); simpl; lia.
Qed.

Lemma orderBy_eq f :
  orderBy f =
  quoteIdent (sortColumn f) ++ bs " " ++ (if Desc f then bs "DESC" else bs "ASC") ++ bs ", "
  ++ quoteIdent (bs "query_id") ++ bs " " ++ (if Desc f then bs "DESC" else bs "ASC").
Proof.
  unfold orderBy. rewrite decide_False.
  - by rewrite <- !app_assoc.
  - pose proof (sortColumn_cases f) as H. intros E. rewrite E in H. revert H.
    apply (bool_decide_eq_false_1 _). vm_compute. reflexivity.
Qed.

Lemma queryIDWindow_day c rest :
  valid_date c -> year4 c ->
  queryIDWindow (format_date c ++ rest)
  = Some ((days_of_date c - 1) * Day, (days_of_date c + 2) * Day).
Proof.
  intros Hv Hy. unfold queryIDWindow, queryIDDay.
  pose proof (valid_date_bounds c Hv) as [Hm Hd]. unfold year4 in Hy.
  assert (Hl : length (format_date c) = 8%nat).
  { unfold format_date. rewrite !length_app.
    destruct (pad_dec_small 4 (dyear c)) as [-> _]; [lia|lia|].
    destruct (pad_dec_small 2 (dmonth c)) as [-> _]; [lia|lia|].
    destruct (pad_dec_small 2 (dday c)) as [-> _]; [lia|lia|]. done. }
  destruct (Z.ltb_spec (len (format_date c ++ rest)) 8) as [H|_]; [exfalso; llia|].
  unfold slice_to. change (Z.to_nat 8) with 8%nat. rewrite take_app_length' by done.
  rewrite parse_format_date by done. rewrite !AddDays_add. f_equal. f_equal; lia.
Qed.

Lemma pred_string r c v w :
  column_value r c = Some (AStr v) -> pred_holds r (mkPred c (bs "=") (AStr w)) = bool_decide (v = w).
Proof. unfold pred_holds. cbn [p_column p_op p_value]. intros ->. done. Qed.

Lemma pred_since r t :
  pred_holds r (mkPred (bs "create_time") (bs ">=") (ATime t)) = (t <=? CreateTime r).
Proof.
  unfold pred_holds. cbn [p_column p_op p_value].
  change (column_value r (bs "create_time")) with (Some (ATime (CreateTime r))).
  cbn -[Z.eqb Z.ltb Z.leb]. bcase; try done; lia.
Qed.

Lemma pred_until r t :
  pred_holds r (mkPred (bs "create_time") (bs "<") (ATime t)) = (CreateTime r <? t).
Proof. reflexivity. Qed.

Lemma listPredicates_filter f r : forallb (pred_holds r) (listPredicates f) = filter_matches f r.
Proof.
  unfold listPredicates, filter_matches. rewrite !forallb_app, <- !andb_assoc.
  f_equal; [|f_equal; [|f_equal; [|f_equal]]].
  - destruct (IsZero (Since f)); [done|]. cbn [negb forallb orb]. by rewrite pred_since, andb_true_r.
  - destruct (IsZero (Until f)); [done|]. cbn [negb forallb orb]. by rewrite pred_until, andb_true_r.
  - case_decide as E; [by rewrite E|]. rewrite (bool_decide_eq_false_2 (User f = [])) by done.
    cbn [forallb orb]. by rewrite (pred_string r _ (UserName r)), andb_true_r.
  - case_decide as E; [by rewrite E|]. rewrite (bool_decide_eq_false_2 (FilterCatalog f = [])) by done.
    cbn [forallb orb]. by rewrite (pred_string r _ (Catalog r)), andb_true_r.
  - case_decide as E; [by rewrite E|]. rewrite (bool_decide_eq_false_2 (State f = [])) by done.
    cbn [forallb orb]. by rewrite (pred_string r _ (QueryState r)), andb_true_r.
Qed.
