(* ===== verification/StoreTheorems.v ===== *)
(** * StoreTheorems: the guarantees of the backend-independent store code

    Rows and columns, chunking, truncation, filters, ordering, the partition
    window of a query id, and the calendar the partitions use. *)

From S2P Require Import Prelude GoTime Utf8 Row Chunk Truncate Query.

(** ** Rows and columns *)

(** C30. Reading undoes writing: a list of values scans into a row exactly when
    it is what [args] writes for that row, NULL start and end times included.
    Each of those values is that of its column's field, in the order of the
    schema, and has the column's SQL type. *)
Theorem row_roundtrip vs r :
  (scan_row vs = Some r <-> vs = args r)
  /\ mapM (column_value r) (name <$> schemaColumns) = Some (args r)
  /\ Forall2 (fun c v => admits c v = true) schemaColumns (args r).
Proof.
  split_and!; [|apply column_values|destruct r as [????????????? [] []]; repeat constructor].
  split; [|intros ->; apply scan_args]. intros H.
  apply scan_into_fetch in H as [<- _]; [reflexivity|apply scanDests_NoDup].
Qed.

(** The columns a listing selects are scanned into the summary of the same
    row: each summary field holds the row's field of that name. *)
Theorem summary_projects_row r :
  exists vs, mapM (column_value r) summaryColumns = Some vs /\ scan_summary vs = Some (summary_of_row r).
Proof. apply summary_values. Qed.

(** ** Chunks *)

(** C33. [chunkRows] divides the rows, in order, into non-empty chunks that stay
    within the budget unless they are a single row, and no such division has
    fewer chunks. *)
Theorem chunk_rows_optimal {A} budget (estimate : A -> Z) rows :
  (forall a, 0 <= estimate a) ->
  packing budget estimate rows (chunkRows budget estimate rows)
  /\ forall css, packing budget estimate rows css ->
       (length (chunkRows budget estimate rows) <= length css)%nat.
Proof.
  intros He. split; [apply chunkRows_packing|]. intros css. by apply chunkRows_fewest.
Qed.

(** ** Truncation *)

(** C32. A truncated string is never longer than asked nor than the original; a
    string that fits is untouched; otherwise a prefix of it is left, alone or
    followed by a marker that counts exactly the bytes cut; and valid UTF-8
    stays valid. *)
Theorem truncate_contract s max :
  len (truncate s max) <= Z.max 0 max
  /\ len (truncate s max) <= len s
  /\ (len s <= max -> truncate s max = s)
  /\ (max < len s -> exists k, 0 <= k <= len s
        /\ (truncate s max = slice_to s k \/ truncate s max = slice_to s k ++ marker (len s - k)))
  /\ (ValidString s = true -> ValidString (truncate s max) = true).
Proof.
  split_and!; [apply truncate_len|apply truncate_len_le|apply truncate_short| |apply truncate_valid].
  intros Hlt. destruct (truncate_cases s max) as [[? _]|[(_ & k & Hk & Hl & -> & _)|(_ & k & Hk & Hl & Hl' & -> & _)]].
  - lia.
  - exists k. split; [lia|by left].
  - exists k. split; [lia|by right].
Qed.

(** [TruncateFields] caps every string field of a row: the large payload
    columns at the configured maximum, the others at 16 KiB as well; fields
    within their cap and all numbers and times are untouched, and valid UTF-8
    stays valid. *)
Theorem truncate_fields_caps r max f :
  0 < max ->
  len (get_str f (TruncateFields r max)) <= field_limit f max
  /\ (len (get_str f r) <= field_limit f max -> get_str f (TruncateFields r max) = get_str f r)
  /\ (ValidString (get_str f r) = true -> ValidString (get_str f (TruncateFields r max)) = true)
  /\ (forall g, get_int g (TruncateFields r max) = get_int g r)
  /\ (CreateTime (TruncateFields r max), ExecutionStartTime (TruncateFields r max), EndTime (TruncateFields r max))
     = (CreateTime r, ExecutionStartTime r, EndTime r).
Proof.
  intros Hmax. rewrite TruncateFields_get by done.
  assert (Hl : 0 <= field_limit f max) by (unfold field_limit, maxSmallFieldBytes; case_decide; lia).
  split_and!.
  - pose proof (truncate_len (get_str f r) (field_limit f max)). lia.
  - apply truncate_short.
  - apply truncate_valid.
  - intros g. unfold TruncateFields. bcase; [done|]. by rewrite !truncate_all_int.
  - unfold TruncateFields. bcase; [done|]. reflexivity.
Qed.

(** ** Reading *)

(** The predicates of a listing select exactly the rows the filter asks
    for, whatever combination of its fields is set. *)
Theorem list_predicates_mean_filter f r : forallb (pred_holds r) (listPredicates f) = filter_matches f r.
Proof. apply listPredicates_filter. Qed.

(** A listing is always ordered by one of the six sortable columns with the
    query id as a tie break in the same direction, and a page holds between 1
    and 5000 rows: the asked number when it is in that range, else 100. *)
Theorem order_and_page f :
  sortColumn f ∈ [bs "create_time"; bs "wall_ms"; bs "cpu_ms"; bs "physical_input_bytes";
                  bs "peak_user_memory_bytes"; bs "output_rows"]
  /\ orderBy f =
     quoteIdent (sortColumn f) ++ bs " " ++ (if Desc f then bs "DESC" else bs "ASC") ++ bs ", "
     ++ quoteIdent (bs "query_id") ++ bs " " ++ (if Desc f then bs "DESC" else bs "ASC")
  /\ 1 <= pageLimit f <= 5000
  /\ pageLimit f = (if decide (1 <= Limit f <= 5000) then Limit f else 100).
Proof.
  split_and!; [apply sortColumn_cases|apply orderBy_eq|apply pageLimit_range..|].
  unfold pageLimit, maxListLimit, defaultListLimit.
  destruct (Z.leb_spec (Limit f) 0), (Z.ltb_spec 5000 (Limit f)); simpl; case_decide; lia.
Qed.

(** No name can break out of the quotes [quoteIdent] puts around it: the
    qualified table name reads back, by the rules of SQL, as the three names it
    was made from, whatever bytes they hold. *)
Theorem qualified_name_reads_back catalog schema table rest :
  head rest <> Some dq ->
  exists t1 t2,
    read_token dq (qualifiedName catalog schema table ++ rest) = Some (catalog, bs "." ++ t1)
    /\ read_token dq t1 = Some (schema, bs "." ++ t2)
    /\ read_token dq t2 = Some (table, rest).
Proof.
  intros Hr. unfold qualifiedName, quoteIdent. rewrite <- !app_assoc.
  exists (enquote dq schema ++ bs "." ++ enquote dq table ++ rest), (enquote dq table ++ rest).
  split_and!; by apply read_enquote.
Qed.

(** The window [GetQuery] searches for an id stamped with a UTC date is that
    day and one day on either side: it holds an instant exactly when its UTC day
    is at most one away from the date. *)
Theorem query_id_window c rest t :
  valid_date c -> year4 c ->
  exists from to, queryIDWindow (format_date c ++ rest) = Some (from, to)
    /\ (from <= t < to <-> Z.abs (utc_days t - days_of_date c) <= 1).
Proof.
  intros Hv Hy. rewrite queryIDWindow_day by done. eexists _, _. split; [done|].
  pose proof (Z.div_mod t Day ltac:(done)) as Hd. pose proof (Z.mod_pos_bound t Day Day_pos) as Hm.
  unfold utc_days. unfold Day in *. nia.
Qed.

(** An id that does not begin with a calendar date has no window. *)
Theorem query_id_without_date id :
  queryIDWindow id = None <-> ~ exists c rest, valid_date c /\ year4 c /\ id = format_date c ++ rest.
Proof.
  split.
  - intros Hn (c & rest & Hv & Hy & ->). by rewrite queryIDWindow_day in Hn.
  - intros Hno. unfold queryIDWindow, queryIDDay. destruct (_ <? _); [done|].
    destruct (parse_yyyymmdd _) as [t|] eqn:E; [|done]. destruct Hno.
    apply parse_yyyymmdd_inv in E as (c & Hv & Hy & E). exists c, (slice_from id 8).
    by rewrite <- E, slice_to_from.
Qed.

(** ** The calendar *)

(** The civil date of an instant is a valid date, of the day the instant
    falls on, and adding days moves it by whole days. *)
Theorem civil_dates t n :
  valid_date (utc_date t) /\ days_of_date (utc_date t) = utc_days t
  /\ utc_days (AddDays t n) = utc_days t + n /\ AddDays t n mod Day = t mod Day.
Proof.
  pose proof (civil_of_days_spec (utc_days t)) as [? ?]. rewrite AddDays_add.
  split_and!; [done|done| |].
  - unfold utc_days. by rewrite Z.div_add.
  - by rewrite Z.mod_add.
Qed.

(** The [YYYYMMDD] form of a partition reads back as midnight of its day,
    and comparing two of them as text compares the days. *)
Theorem partition_text a b :
  year4 (utc_date a) -> year4 (utc_date b) ->
  parse_yyyymmdd (format_yyyymmdd a) = Some (utc_days a * Day)
  /\ (str_ltb (format_yyyymmdd a) (format_yyyymmdd b) = true <-> utc_days a < utc_days b).
Proof.
  intros Ha Hb. pose proof (civil_of_days_spec (utc_days a)) as [Hd Hv]. split.
  - unfold format_yyyymmdd, utc_date in *. rewrite parse_format_date by done. by rewrite Hd.
  - by apply format_yyyymmdd_lt.
Qed.

(** ** Instances *)

Lemma chunk_rows_optimal_witness :
  let rows := [3; 3; 2; 9] in
  chunkRows 5 Z.abs rows = [[3]; [3; 2]; [9]]
  /\ (packing 5 Z.abs rows (chunkRows 5 Z.abs rows)
      /\ forall css, packing 5 Z.abs rows css -> (length (chunkRows 5 Z.abs rows) <= length css)%nat).
Proof. split; [reflexivity|]. apply (chunk_rows_optimal 5 Z.abs). intros a. lia. Defined.

Lemma truncate_fields_caps_witness :
  let r := set_str FUserName (replicate (Z.to_nat 20000) x61) zero_row in
  len (get_str FUserName (TruncateFields r 524288)) <= field_limit FUserName 524288
  /\ field_limit FUserName 524288 = 16384.
Proof.
  intros r. split; [|reflexivity].
  destruct (truncate_fields_caps r 524288 FUserName) as [H _]; [lia|]. exact H.
Defined.

(** A table name with a quote and a dot in it. *)
Lemma qualified_name_reads_back_witness :
  exists t1 t2,
    read_token dq (qualifiedName (bs "c") (bs "s.t") [x61; dq; x62] ++ bs " VALUES") = Some (bs "c", bs "." ++ t1)
    /\ read_token dq t1 = Some (bs "s.t", bs "." ++ t2)
    /\ read_token dq t2 = Some ([x61; dq; x62], bs " VALUES").
Proof. apply qualified_name_reads_back. discriminate. Defined.

Lemma query_id_window_witness :
  exists from to, queryIDWindow (format_date (mkDate 2024 2 29) ++ bs "_101112_00042_abcde") = Some (from, to)
    /\ (from <= Date 2024 3 1 < to <-> Z.abs (utc_days (Date 2024 3 1) - days_of_date (mkDate 2024 2 29)) <= 1).
Proof.
  apply query_id_window.
  - split; vm_compute; split; discriminate.
  - split; vm_compute; discriminate.
Defined.

Lemma partition_text_witness :
  parse_yyyymmdd (format_yyyymmdd (Date 2023 12 31)) = Some (utc_days (Date 2023 12 31) * Day)
  /\ (str_ltb (format_yyyymmdd (Date 2023 12 31)) (format_yyyymmdd (Date 2024 1 1)) = true
      <-> utc_days (Date 2023 12 31) < utc_days (Date 2024 1 1)).
Proof. apply partition_text; split; vm_compute; discriminate. Defined.
