(* ===== verification/Trino.v ===== *)
(** * Trino: [internal/store/trino.go]

    The Trino backend: statement texts, the batch splitter with its row clamp,
    the insert path and its error classification, the reads, and the
    maintenance statements.  The driver ([database/sql] over trino-go-client)
    is a parameter: [exec] and [query] act on an abstract world. *)

From S2P Require Import Prelude Errors GoTime Utf8 Row Chunk Truncate Store Query.

Definition optimizeFileSizeThreshold : gostring := bs "64MB".
Definition defaultMaxStatementBytes : Z := 700000.
Definition minStatementBudget : Z := 4096.
Definition clampMaxIterations : nat := 1000.
Definition executeImmediateOverhead : Z := 27.

(** The settings of [config.Trino] that reach statement texts. *)
Record TrinoConfig := mkTrinoConfig {
  tc_Catalog : gostring;
  tc_Schema : gostring;
  tc_Table : gostring;
  tc_MaxStatementBytes : Z;
  tc_IcebergLocation : gostring
}.

Record TrinoStore := mkTrinoStore {
  ts_cfg : TrinoConfig;
  ts_table : gostring;
  ts_insertColumns : gostring;
  ts_insertPrefix : gostring;
  ts_rowPlaceholder : gostring;
  ts_rowSelectList : gostring;
  ts_summarySelect : gostring;
  ts_stmtOverhead : Z;
  ts_maxStmtBytes : Z
}.

Definition comma : gostring := bs ", ".

Definition coalesced (c : column) (quoted : gostring) : gostring :=
  if has_prefix (sqlType c) (bs "timestamp") then quoted
  else if decide (sqlType c = bs "bigint") then bs "COALESCE(" ++ quoted ++ bs ", 0)"
  else bs "COALESCE(" ++ quoted ++ bs ", '')".

(** [byName[name]]: the schema column of a name, the zero column if absent. *)
Definition byName (n : gostring) : column :=
  default (mkColumn [] []) (head (filter (fun c => name c = n) schemaColumns)).

(** ["(" + strings.TrimSuffix(strings.Repeat("?,", n), ",") + ")"]. *)
Definition placeholder_of (n : nat) : gostring :=
  bs "(" ++ join (bs ",") (replicate n (bs "?")) ++ bs ")".

(** The fields [NewTrino] computes, [buildStatements] included. *)
Definition NewTrino (cfg : TrinoConfig) : TrinoStore :=
  let table := qualifiedName (tc_Catalog cfg) (tc_Schema cfg) (tc_Table cfg) in
  let quoted := (fun c => quoteIdent (name c)) <$> schemaColumns in
  let insertColumns := join comma quoted in
  let insertPrefix := bs "INSERT INTO " ++ table ++ bs " (" ++ insertColumns ++ bs ") VALUES " in
  {|
    ts_cfg := cfg;
    ts_table := table;
    ts_insertColumns := insertColumns;
    ts_insertPrefix := insertPrefix;
    ts_rowPlaceholder := placeholder_of (length schemaColumns);
    ts_rowSelectList := join comma ((fun c => coalesced c (quoteIdent (name c))) <$> schemaColumns);
    ts_summarySelect :=
      bs "SELECT " ++ join comma ((fun n => coalesced (byName n) (quoteIdent n)) <$> summaryColumns)
      ++ bs " FROM " ++ table;
    ts_stmtOverhead := executeImmediateOverhead + len insertPrefix + count_byte sq insertPrefix;
    ts_maxStmtBytes := if tc_MaxStatementBytes cfg <=? 0 then defaultMaxStatementBytes else tc_MaxStatementBytes cfg
  |}.

Section store.
Context (s : TrinoStore).

Definition estimateRowBytes (r : Row) : Z :=
  len (ts_rowPlaceholder s) + 2 + sumZ (estimateArgBytes <$> args r).

(** The inner loop of [clampRow]: the first of the longest fields. *)
Definition largest_field (r : Row) : option str_field :=
  foldl (fun largest f =>
    match largest with
    | None => Some f
    | Some g => if len (get_str g r) <? len (get_str f r) then Some f else largest
    end) None stringFields.

Fixpoint clamp_loop (i : nat) (est : Z) (budget : Z) (r : Row) : Row :=
  match i with
  | O => r
  | S i =>
      if est <=? budget then r
      else
        match largest_field r with
        | None => r
        | Some f =>
            let x := get_str f r in
            if decide (x = []) then r
            else
              let target := Z.max (len x - (est - budget)) (len x / 2) in
              let r' := set_str f (truncate x target) r in
              let next := estimateRowBytes r' in
              if est <=? next then r' else clamp_loop i next budget r'
        end
  end.

Definition clampRow (r : Row) (budget : Z) : Row :=
  clamp_loop clampMaxIterations (estimateRowBytes r) budget r.

Definition stmt_budget : Z := Z.max (ts_maxStmtBytes s - ts_stmtOverhead s) minStatementBudget.

Definition trino_SplitBatch (rows : list Row) : list (list Row) :=
  match rows with
  | [] => []
  | _ =>
      let budget := stmt_budget in
      chunkRows budget estimateRowBytes ((fun r => clampRow r budget) <$> rows)
  end.

Definition insert_stmt (rows : list Row) : gostring :=
  ts_insertPrefix s ++ join comma ((fun _ => ts_rowPlaceholder s) <$> rows).
Definition insert_args (rows : list Row) : list arg := mjoin (args <$> rows).

Definition trinoWhere (preds : list predicate) : gostring * list arg :=
  match preds with
  | [] => ([], [])
  | _ =>
      (bs " WHERE " ++
       join (bs " AND ") ((fun p => quoteIdent (p_column p) ++ bs " " ++ p_op p ++ bs " ?") <$> preds),
       p_value <$> preds)
  end.

Definition list_stmt (f : QueryFilter) : gostring :=
  ts_summarySelect s ++ fst (trinoWhere (listPredicates f)) ++ bs " ORDER BY " ++ orderBy f
  ++ (if 0 <? Offset f then bs " OFFSET " ++ itoa (Offset f) else [])
  ++ bs " LIMIT " ++ itoa (pageLimit f).

Definition get_stmt (preds : list predicate) : gostring :=
  bs "SELECT " ++ ts_rowSelectList s ++ bs " FROM " ++ ts_table s ++ fst (trinoWhere preds) ++ bs " LIMIT 1".

Definition trino_SchemaDDL : gostring :=
  let cfg := ts_cfg s in
  bs "CREATE SCHEMA IF NOT EXISTS " ++ quoteIdent (tc_Catalog cfg) ++ bs "." ++ quoteIdent (tc_Schema cfg)
  ++ (if decide (tc_IcebergLocation cfg = []) then []
      else bs " WITH (location = " ++ enquote sq (tc_IcebergLocation cfg) ++ bs ")").

Definition trino_TableDDL : gostring :=
  let cols := (fun c => bs "  " ++ quoteIdent (name c) ++ bs " " ++ sqlType c) <$> schemaColumns in
  let props :=
    [bs "partitioning = ARRAY['day(create_time)']";
     bs "sorted_by = ARRAY['create_time']";
     bs "extra_properties = MAP(ARRAY['write.metadata.delete-after-commit.enabled'], ARRAY['true'])"] in
  bs "CREATE TABLE IF NOT EXISTS " ++ ts_table s ++ bs " (" ++ [x0a] ++
  join (bs "," ++ [x0a]) cols ++
  [x0a] ++ bs ") WITH (" ++ [x0a] ++ bs "  " ++ join (bs "," ++ [x0a] ++ bs "  ") props ++ [x0a] ++ bs ")".

Definition trino_DDLScript : gostring :=
  trino_SchemaDDL ++ bs ";" ++ [x0a; x0a] ++ trino_TableDDL ++ bs ";" ++ [x0a].

Definition prune_stmt : gostring :=
  bs "DELETE FROM " ++ ts_table s ++ bs " WHERE " ++ quoteIdent (bs "create_time") ++ bs " < ?".

Definition optimize_stmt (lit : gostring) : gostring :=
  bs "ALTER TABLE " ++ ts_table s ++ bs " EXECUTE optimize(file_size_threshold => '" ++ optimizeFileSizeThreshold
  ++ bs "')" ++ bs " WHERE " ++ quoteIdent (bs "create_time") ++ bs " >= TIMESTAMP '" ++ lit ++ bs " UTC'".

(** The [steps] of [Maintain]: a name and a statement each. *)
Definition maintain_steps (retentionThreshold : gostring) : list (gostring * gostring) :=
  let thr := enquote sq retentionThreshold in
  [(bs "expire_snapshots",
    bs "ALTER TABLE " ++ ts_table s ++ bs " EXECUTE expire_snapshots(retention_threshold => " ++ thr ++ bs ")");
   (bs "remove_orphan_files",
    bs "ALTER TABLE " ++ ts_table s ++ bs " EXECUTE remove_orphan_files(retention_threshold => " ++ thr ++ bs ")")].
End store.

Definition is_query_text_too_large (l : leaf) : option gostring :=
  match l with ETrino n _ => Some n | _ => None end.

Definition classifyInsertErr (err : gerror) : gerror :=
  let named :=
    match errors_As_leaf is_query_text_too_large err with
    | Some n => bool_decide (n = bs "QUERY_TEXT_TOO_LARGE")
    | None => false
    end in
  if named || contains (error_text err) (bs "exceeds the maximum length") then
    Wrap2 (Leaf ENonRetryable) err
  else err.

(** The driver: [exec] runs a statement, [query] returns the rows it read and
    the error that ended the iteration, or fails at once; [scan_err] is the
    error of a [Scan] that does not fit, [close_err] that of [rows.Close]. *)
Section driver.
Context {W : Type}.
Context (exec : gostring -> list arg -> W -> W * option gerror).
Context (query : gostring -> list arg -> W -> gerror + (list (list arg) * option gerror)).
Context (scan_err : gerror) (close_err : W -> option gerror).
Context (s : TrinoStore).

(** [if _, err := exec(...); err != nil { return wrap(err) }; return nil]. *)
Definition exec_wrap (stmt : gostring) (as_ : list arg) (wrap : gerror -> gerror) (w : W) : W * option gerror :=
  match exec stmt as_ w with
  | (w', Some err) => (w', Some (wrap err))
  | (w', None) => (w', None)
  end.

Definition trino_insertChunk (rows : list Row) (w : W) : W * option gerror :=
  exec_wrap (insert_stmt s rows) (insert_args rows)
    (fun err => Wrap (bs "insert " ++ itoa (len rows) ++ bs " rows: ") (classifyInsertErr err)) w.

Definition trino_InsertBatch (rows : list Row) (w : W) : W * option gerror :=
  insert_chunks trino_insertChunk (trino_SplitBatch s rows) 0 w.

Definition trino_Validate (w : W) : option gerror :=
  match query (bs "SELECT 1") [] w with
  | inl err => Some (Wrap (bs "trino not reachable: ") err)
  | inr _ => close_err w
  end.

Definition trino_ValidateTable (w : W) : option gerror :=
  match query (bs "SELECT 1 FROM " ++ ts_table s ++ bs " WHERE false") [] w with
  | inl err =>
      Some (Wrap (bs "query log table " ++ ts_table s ++
                  bs " not reachable; apply the DDL (init subcommand or ddl/trino_query_log.sql): ") err)
  | inr _ => close_err w
  end.

(** The [rows.Next]/[rows.Scan] loop of a listing. *)
Fixpoint scan_summaries (vs : list (list arg)) (out : list QuerySummary)
  : list QuerySummary * option gerror :=
  match vs with
  | [] => (out, None)
  | v :: vs =>
      match scan_summary v with
      | None => ([], Some (Wrap (bs "scan summary: ") scan_err))
      | Some q => scan_summaries vs (out ++ [q])
      end
  end.

Definition trino_ListQueries (f : QueryFilter) (w : W) : list QuerySummary * option gerror :=
  match query (list_stmt s f) (snd (trinoWhere (listPredicates f))) w with
  | inl err => ([], Some (Wrap (bs "list queries: ") err))
  | inr (vs, rows_err) =>
      match scan_summaries vs [] with
      | (out, None) => (out, rows_err)
      | failed => failed
      end
  end.

Definition trino_GetQuery (queryID : gostring) (w : W) : option Row * option gerror :=
  match queryIDPredicates queryID with
  | None => (None, None)
  | Some preds =>
      match query (get_stmt s preds) (snd (trinoWhere preds)) w with
      | inl err => (None, Some (Wrap (bs "get query " ++ queryID ++ bs ": ") err))
      | inr ([], rows_err) => (None, rows_err)
      | inr (v :: _, _) =>
          match scan_row v with
          | None => (None, Some (Wrap (bs "scan row: ") scan_err))
          | Some r => (Some r, None)
          end
      end
  end.

Definition trino_Prune (olderThan : time) (w : W) : W * option gerror :=
  exec_wrap (prune_stmt s) [ATime olderThan]
    (Wrap (bs "prune rows older than " ++ format_rfc3339 olderThan ++ bs ": ")) w.

Definition trino_Optimize (since : time) (w : W) : W * option gerror :=
  let lit := format_millis since in
  exec_wrap (optimize_stmt s lit) [] (Wrap (bs "optimize since " ++ lit ++ bs ": ")) w.

(** [Maintain] runs every step and joins the errors. *)
Fixpoint run_steps (steps : list (gostring * gostring)) (errs : list gerror) (w : W) : W * list gerror :=
  match steps with
  | [] => (w, errs)
  | (n, stmt) :: steps =>
      match exec stmt [] w with
      | (w', Some err) => run_steps steps (errs ++ [Wrap (n ++ bs ": ") err]) w'
      | (w', None) => run_steps steps errs w'
      end
  end.

Definition trino_Maintain (retentionThreshold : gostring) (w : W) : W * option gerror :=
  let '(w', errs) := run_steps (maintain_steps s retentionThreshold) [] w in (w', errors_Join errs).

Definition trino_Init (w : W) : W * option gerror :=
  match exec_wrap (trino_SchemaDDL s) [] (Wrap (bs "create schema: ")) w with
  | (w', Some err) => (w', Some err)
  | (w', None) => exec_wrap (trino_TableDDL s) [] (Wrap (bs "create table: ")) w'
  end.
End driver.

(** ** The row clamp *)

(** What a string field costs beyond its fixed overhead, and the number of
    halvings that bring it to nothing. *)
Definition field_cost (x : gostring) : Z := len x + count_byte quote1 x.
Definition halvings (n : Z) : Z := if n <=? 0 then 0 else Z.log2 n + 1.
Definition potential (r : Row) : Z := sumZ ((fun f => halvings (len (get_str f r))) <$> stringFields).

(** Every string field of the row is shorter than 2^47 bytes. *)
Definition fields_below (r : Row) : Prop := forall f, len (get_str f r) < 2 ^ 47.

Section clamp.
Context (s : TrinoStore).
Local Abbreviation est := (estimateRowBytes s).

(** The part of the estimate that no truncation changes. *)
Definition row_base (r : Row) : Z :=
  len (ts_rowPlaceholder s) + 2 + 21 * stringArgOverhead + 17 * numericArgBytes + timestampArgBytes
  + estimateArgBytes (timeArg (ExecutionStartTime r)) + estimateArgBytes (timeArg (EndTime r)).

Lemma estimate_split r : est r = row_base r + sumZ ((fun f => field_cost (get_str f r)) <$> stringFields).
Proof.
  unfold estimateRowBytes, row_base, field_cost. destruct r.
  cbn -[len count_byte Z.add Z.mul timeArg estimateArgBytes]. cbn [estimateArgBytes]. lia.
Qed.

Lemma row_base_set f v r : row_base (set_str f v r) = row_base r.
Proof. reflexivity. Qed.

Lemma row_base_bound r : row_base r <= len (ts_rowPlaceholder s) + 686.
Proof.
  unfold row_base. destruct (ExecutionStartTime r), (EndTime r);
    unfold stringArgOverhead, numericArgBytes, timestampArgBytes; simpl estimateArgBytes;
    unfold timestampArgBytes, nullArgBytes; lia.
Qed.

(** Replacing one field changes a sum over the fields at that field only. *)
Lemma sum_set (g : gostring -> Z) fs f v r :
  NoDup fs -> f ∈ fs ->
  sumZ ((fun h => g (get_str h (set_str f v r))) <$> fs)
  = sumZ ((fun h => g (get_str h r)) <$> fs) - g (get_str f r) + g v.
Proof.
  intros Hnd Hf. induction fs as [|h fs IH]; [set_solver|]. apply NoDup_cons in Hnd as [Hh Hnd].
  rewrite !sumZ_fmap_cons. destruct (decide (f = h)) as [->|Hne].
  - rewrite get_set_eq.
    rewrite (sumZ_fmap_ext _ (fun h' => g (get_str h' r))); [lia|].
    intros k Hk. rewrite get_set_ne; [done|]. by intros ->.
  - rewrite get_set_ne by done. rewrite IH; [lia|done|].
    apply elem_of_cons in Hf as [|]; done.
Qed.

Lemma estimate_set f v r : est (set_str f v r) = est r - field_cost (get_str f r) + field_cost v.
Proof.
  rewrite !estimate_split, row_base_set.
  rewrite (sum_set field_cost); [lia|apply stringFields_NoDup|apply stringFields_all].
Qed.

Lemma potential_set f v r :
  potential (set_str f v r) = potential r - halvings (len (get_str f r)) + halvings (len v).
Proof.
  unfold potential. rewrite (sum_set (fun x => halvings (len x)));
    [lia|apply stringFields_NoDup|apply stringFields_all].
Qed.

Lemma field_cost_nonneg x : 0 <= field_cost x.
Proof. unfold field_cost. pose proof (len_nonneg x). pose proof (count_byte_nonneg quote1 x). lia. Qed.

Lemma halvings_nonneg n : 0 <= halvings n.
Proof. unfold halvings. bcase; [lia|]. pose proof (Z.log2_nonneg n). lia. Qed.

Lemma halvings_mono a b : a <= b -> halvings a <= halvings b.
Proof.
  unfold halvings. intros. destruct (Z.leb_spec a 0), (Z.leb_spec b 0); try lia.
  - pose proof (Z.log2_nonneg b). lia.
  - pose proof (Z.log2_le_mono a b). lia.
Qed.

Lemma halvings_half n : 0 < n -> halvings (n / 2) < halvings n.
Proof.
  intros. unfold halvings. destruct (Z.leb_spec n 0); [lia|].
  pose proof (Z.log2_nonneg n). destruct (Z.leb_spec (n / 2) 0) as [|Hh]; [lia|].
  pose proof (Z.log2_spec (n / 2) Hh) as [Hl _]. pose proof (Z.log2_spec n ltac:(lia)) as [_ Hu].
  assert (2 * (n / 2) <= n) by (apply Z.mul_div_le; lia).
  rewrite Z.pow_succ_r in Hu by lia. set (k := Z.log2 (n / 2)) in *.
  assert (Hp : 2 ^ k < 2 ^ Z.log2 n) by lia. apply Z.pow_lt_mono_r_iff in Hp; lia.
Qed.

Lemma potential_bound r : fields_below r -> potential r <= 987.
Proof.
  intros Hb. unfold potential.
  transitivity (sumZ ((fun _ => 47) <$> stringFields)); [|rewrite sumZ_fmap_const; done].
  apply sumZ_fmap_le. intros f _. specialize (Hb f). unfold halvings. bcase; [lia|].
  pose proof (Z.log2_lt_pow2 (len (get_str f r)) 47). lia.
Qed.

(** The inner loop finds a longest field. *)
Lemma largest_field_spec r :
  exists f, largest_field r = Some f /\ forall g, len (get_str g r) <= len (get_str f r).
Proof.
  assert (H : forall fs o,
    match foldl (fun largest f =>
        match largest with
        | None => Some f
        | Some g => if len (get_str g r) <? len (get_str f r) then Some f else largest
        end) o fs with
    | None => o = None /\ fs = []
    | Some f => (forall g, g ∈ fs -> len (get_str g r) <= len (get_str f r))
                /\ match o with None => True | Some g => len (get_str g r) <= len (get_str f r) end
    end).
  { induction fs as [|f fs IH]; intros o; simpl.
    - destruct o; [|done]. split; [set_solver|lia].
    - specialize (IH (match o with
                      | None => Some f
                      | Some g => if len (get_str g r) <? len (get_str f r) then Some f else o end)).
      case_match eqn:E.
      + destruct IH as [IH1 IH2]. destruct o as [g|]; [destruct (Z.ltb_spec (len (get_str g r)) (len (get_str f r)))|];
          (split; [intros h Hh; apply elem_of_cons in Hh as [->|Hh]; [lia|by apply IH1]|lia || done]).
      + exfalso. destruct IH as [IH _]. destruct o; [|done]. by case_match. }
  specialize (H stringFields None). unfold largest_field. case_match; [|by destruct H].
  eexists. split; [done|]. intros g. apply H, stringFields_all.
Qed.

(** One iteration: the estimate strictly decreases, and either it reaches the
    budget or a field was at least halved. *)
Lemma clamp_step budget r f :
  budget < est r -> get_str f r <> [] ->
  let x := get_str f r in
  let r' := set_str f (truncate x (Z.max (len x - (est r - budget)) (len x / 2))) r in
  est r' < est r /\ (est r' <= budget \/ potential r' < potential r).
Proof.
  intros Hb Hne x r'. assert (0 < len x).
  { pose proof (len_nonneg x). destruct (decide (len x = 0)) as [E|]; [|lia]. by apply len_zero in E. }
  assert (0 <= len x / 2 < len x) by (split; [apply Z.div_pos|apply Z.div_lt]; lia).
  set (target := Z.max (len x - (est r - budget)) (len x / 2)) in *.
  pose proof (truncate_len x target) as Hl. pose proof (truncate_quotes x target) as Hq.
  assert (He : est r' <= est r - (len x - target)).
  { unfold r'. rewrite estimate_set. fold x. unfold field_cost, quote1. lia. }
  split; [lia|]. destruct (decide (target = len x - (est r - budget))); [left; lia|right].
  unfold r'. rewrite potential_set. fold x.
  pose proof (halvings_half (len x)). pose proof (halvings_mono (len (truncate x target)) (len x / 2)). lia.
Qed.

Lemma all_empty_estimate r : (forall f, get_str f r = []) -> est r = row_base r.
Proof.
  intros H. rewrite estimate_split.
  rewrite (sumZ_fmap_ext _ (fun _ => 0)); [rewrite sumZ_fmap_const; lia|].
  intros f _. by rewrite H.
Qed.

Lemma clamp_loop_fits i budget r :
  potential r <= Z.of_nat i -> row_base r <= budget -> est (clamp_loop s i (est r) budget r) <= budget.
Proof.
  revert r. induction i as [|i IH]; intros r Hp Hb; cbn [clamp_loop].
  - rewrite all_empty_estimate; [done|]. intros f. apply len_zero. pose proof (len_nonneg (get_str f r)).
    destruct (decide (len (get_str f r) = 0)); [done|]. exfalso.
    assert (1 <= halvings (len (get_str f r))).
    { unfold halvings. bcase; [lia|]. pose proof (Z.log2_nonneg (len (get_str f r))). lia. }
    pose proof (potential_set f [] r) as Hs. change (halvings (len [])) with 0 in Hs.
    assert (0 <= potential (set_str f [] r)); [|lia].
    apply sumZ_nonneg, Forall_fmap, Forall_forall. intros g _. apply halvings_nonneg.
  - destruct (Z.leb_spec (est r) budget) as [|Hlt]; [done|].
    destruct (largest_field_spec r) as (f & -> & Hmax). case_decide as Hempty.
    + rewrite all_empty_estimate; [done|]. intros g. apply len_zero. specialize (Hmax g).
      rewrite Hempty in Hmax. change (len []) with 0 in Hmax. pose proof (len_nonneg (get_str g r)). lia.
    + destruct (clamp_step budget r f Hlt Hempty) as [Hdec Hor]. cbn zeta in *.
      destruct (Z.leb_spec (est r) (est (set_str f (truncate (get_str f r)
        (Z.max (len (get_str f r) - (est r - budget)) (len (get_str f r) / 2))) r))); [lia|].
      destruct Hor as [Hfit|Hpot]; [|apply IH; [lia|done]].
      destruct i; cbn [clamp_loop]; [done|]. by rewrite (proj2 (Z.leb_le _ _) Hfit).
Qed.

Lemma clampRow_short r budget : est r <= budget -> clampRow s r budget = r.
Proof.
  intros H. unfold clampRow. generalize clampMaxIterations as i. intros [|i]; [done|].
  cbn [clamp_loop]. by rewrite (proj2 (Z.leb_le _ _) H).
Qed.

Lemma clampRow_fits r budget :
  fields_below r -> row_base r <= budget -> est (clampRow s r budget) <= budget.
Proof.
  intros Hf Hb. apply clamp_loop_fits; [|done].
  pose proof (potential_bound r Hf). change (Z.of_nat clampMaxIterations) with 1000. lia.
Qed.

(** What the clamp leaves alone: it only truncates string fields. *)
Lemma clamp_loop_preserves (P : Row -> Prop) i e budget r :
  (forall f n q, P q -> P (set_str f (truncate (get_str f q) n) q)) ->
  P r -> P (clamp_loop s i e budget r).
Proof.
  intros Hstep. revert e r. induction i as [|i IH]; intros e r Hr; cbn [clamp_loop]; [done|].
  destruct (e <=? budget); [done|]. destruct (largest_field r) as [f|]; [|done].
  case_decide; [done|]. cbn zeta. destruct (e <=? _); [by apply Hstep|]. by apply IH, Hstep.
Qed.
End clamp.

(** ** The batch splitter and the statement it leads to *)

(** The text the driver ships for a statement with arguments, as the comment
    above [defaultMaxStatementBytes] describes it; [lit] serialises one. *)
Definition execute_immediate (lit : arg -> gostring) (stmt : gostring) (as_ : list arg) : gostring :=
  bs "EXECUTE IMMEDIATE " ++ enquote sq stmt ++ bs " USING " ++ join comma (lit <$> as_).

(** The values a literal has a fixed bound for: integers of 64 bits, and times
    whose year has four digits. *)
Definition arg_ok (a : arg) : Prop :=
  match a with AInt z => int64 z | ATime t => year4 (utc_date t) | _ => True end.
Definition args_ok (r : Row) : Prop := Forall arg_ok (args r).

Lemma args_fetch r : args r = (fun p => fetch p r) <$> scanDests.
Proof. reflexivity. Qed.

Lemma args_ok_set f v r : args_ok r -> args_ok (set_str f v r).
Proof.
  unfold args_ok. rewrite !args_fetch, !Forall_fmap, !Forall_forall. intros H p Hp.
  specialize (H p Hp). cbn in *. destruct p as [g|g|g]; [exact I| |];
    by rewrite (assign_other (PStr f) _ (AStr v) r) by done.
Qed.

Lemma clampRow_below s r budget : fields_below r -> fields_below (clampRow s r budget).
Proof.
  intros H. apply (clamp_loop_preserves s fields_below); [|done]. intros f n q Hq g.
  destruct (decide (f = g)) as [<-|Hne]; [|by rewrite get_set_ne].
  rewrite get_set_eq. pose proof (truncate_len_le (get_str f q) n). specialize (Hq f). lia.
Qed.

Lemma clampRow_ints s r budget f : get_int f (clampRow s r budget) = get_int f r.
Proof.
  apply (clamp_loop_preserves s (fun q => get_int f q = get_int f r)); [|done].
  intros g n q Hq. by rewrite get_int_set_str.
Qed.

Lemma clampRow_args_ok s r budget : args_ok r -> args_ok (clampRow s r budget).
Proof. intros H. apply (clamp_loop_preserves s args_ok); [|done]. intros f n q. apply args_ok_set. Qed.

Lemma clampRow_valid s r budget f :
  ValidString (get_str f r) = true -> ValidString (get_str f (clampRow s r budget)) = true.
Proof.
  intros H. apply (clamp_loop_preserves s (fun q => ValidString (get_str f q) = true)); [|done].
  intros g n q Hq. destruct (decide (g = f)) as [->|Hne]; [|by rewrite get_set_ne].
  rewrite get_set_eq. by apply truncate_valid.
Qed.

Lemma len_replace_byte q s : len (replace_byte q [q; q] s) = len s + count_byte q s.
Proof.
  induction s as [|b s IH]; [done|].
  rewrite replace_byte_cons, len_app, IH, len_cons, count_byte_cons.
  case_decide; [change (len [q; q]) with 2|change (len [b]) with 1]; lia.
Qed.

Lemma len_enquote q s : len (enquote q s) = len s + count_byte q s + 2.
Proof.
  unfold enquote. rewrite !len_app, len_replace_byte. change (len [q]) with 1. lia.
Qed.

Section split.
Context (cfg : TrinoConfig).
Local Abbreviation s := (NewTrino cfg).
Local Abbreviation B := (stmt_budget s).
Local Abbreviation est := (estimateRowBytes s).
Local Abbreviation clamp := (fun r => clampRow s r B).

Lemma placeholder_len : len (ts_rowPlaceholder s) = 83.
Proof. reflexivity. Qed.

Lemma placeholder_quotes c : c <> x28 -> c <> x2c -> c <> x3f -> c <> x29 ->
  count_byte c (ts_rowPlaceholder s) = 0.
Proof. destruct c; intros; try done; reflexivity. Qed.

Lemma base_le_budget r : row_base s r <= B.
Proof.
  pose proof (row_base_bound s r). rewrite placeholder_len in H.
  unfold stmt_budget, minStatementBudget. lia.
Qed.

Lemma estimate_nonneg r : 0 <= est r.
Proof.
  unfold estimateRowBytes. rewrite placeholder_len.
  assert (0 <= sumZ (estimateArgBytes <$> args r)); [|lia].
  apply sumZ_nonneg, Forall_fmap, Forall_forall. intros a _. apply estimateArgBytes_nonneg.
Qed.

Lemma split_eq rows : trino_SplitBatch s rows = chunkRows B est (clamp <$> rows).
Proof. destruct rows; done. Qed.

Lemma split_packing rows : packing B est (clamp <$> rows) (trino_SplitBatch s rows).
Proof. rewrite split_eq. apply chunkRows_packing. Qed.

(** A clamped row passes the clamp unchanged. *)
Lemma clamp_idem r : fields_below r -> clamp (clamp r) = clamp r.
Proof. intros H. apply clampRow_short. apply clampRow_fits; [done|apply base_le_budget]. Qed.

(** The rows of a chunk are clamped rows of the batch. *)
Lemma chunk_rows rows c r :
  c ∈ trino_SplitBatch s rows -> r ∈ c -> exists q, q ∈ rows /\ r = clamp q.
Proof.
  intros Hc Hr. destruct (split_packing rows) as [Hj _ _].
  assert (Hin : r ∈ clamp <$> rows) by (rewrite <- Hj; apply list_elem_of_join; eauto).
  apply list_elem_of_fmap in Hin as (q & -> & Hq). eauto.
Qed.

(** With rows that can be shrunk every chunk is within the budget, single
    rows included. *)
Lemma chunk_weight rows c :
  Forall fields_below rows -> c ∈ trino_SplitBatch s rows -> weight est c <= B.
Proof.
  intros Hrows Hc. destruct (split_packing rows) as [_ _ Hf].
  rewrite Forall_forall in Hf. destruct (Hf c Hc) as [|Hl]; [done|].
  destruct c as [|r [|]]; try discriminate Hl. rewrite weight_one.
  destruct (chunk_rows rows [r] r Hc) as (q & Hq & ->); [by left|].
  rewrite Forall_forall in Hrows. apply clampRow_fits; [by apply Hrows|apply base_le_budget].
Qed.

Lemma resplit rows c :
  Forall fields_below rows -> c ∈ trino_SplitBatch s rows -> trino_SplitBatch s c = [c].
Proof.
  intros Hrows Hc. destruct (split_packing rows) as [_ Hn Hf].
  rewrite Forall_forall in Hn. rewrite Forall_forall in Hf. rewrite Forall_forall in Hrows.
  rewrite split_eq.
  assert (clamp <$> c = c) as ->.
  { clear Hn Hf. assert (Hall : forall r, r ∈ c -> clamp r = r).
    { intros r Hr. destruct (chunk_rows rows c r Hc Hr) as (q & Hq & ->). by apply clamp_idem, Hrows. }
    clear Hc. induction c as [|r c IH]; [done|]. rewrite fmap_cons. f_equal; [apply Hall; by left|].
    apply IH. intros q Hq. apply Hall. by right. }
  apply chunkRows_whole; [apply estimate_nonneg|by apply Hn|by apply Hf].
Qed.

(** Length of the shipped statement against the estimate of its rows. *)
(** What the size estimates rely on about the literals the driver writes for the
    arguments: a string is quoted with its quotes doubled, a null is a word, the
    others have a bounded text. *)
Record literal_laws (lit : arg -> gostring) : Prop := {
  lit_string : forall v, len (lit (AStr v)) <= len v + count_byte sq v + 2;
  lit_null : len (lit ANil) <= 4;
  lit_int : forall z, int64 z -> len (lit (AInt z)) <= 20;
  lit_time : forall t, year4 (utc_date t) -> len (lit (ATime t)) <= 50;
}.

Section statement.
Context (lit : arg -> gostring) (lit_laws : literal_laws lit).

Lemma lit_bound a : arg_ok a -> len (lit a) + 2 <= estimateArgBytes a.
Proof using lit_laws.
  intros Ha. destruct a as [v|z|t|]; cbn [estimateArgBytes].
  - pose proof (lit_string lit lit_laws v). unfold stringArgOverhead, quote1, sq in *. lia.
  - pose proof (lit_int lit lit_laws z Ha). unfold numericArgBytes. lia.
  - pose proof (lit_time lit lit_laws t Ha). unfold timestampArgBytes. lia.
  - pose proof (lit_null lit lit_laws). unfold nullArgBytes. lia.
Qed.

Lemma args_text_bound rows :
  rows <> [] -> Forall args_ok rows ->
  len (join comma (lit <$> insert_args rows)) + 2 <= sumZ (estimateArgBytes <$> insert_args rows).
Proof using lit_laws.
  intros Hne Hi. assert (Hargs : insert_args rows <> []) by (destruct rows; done).
  rewrite (join_sum len); [|intros; apply len_app|done|by destruct (insert_args rows)].
  change (len comma) with 2.
  enough (sumZ ((fun a => len (lit a) + 2) <$> insert_args rows)
          <= sumZ (estimateArgBytes <$> insert_args rows)) as Hle.
  { assert (Hsum : forall l, sumZ ((fun a => len (lit a) + 2) <$> l) = sumZ (len <$> (lit <$> l)) + 2 * len l).
    { induction l as [|a l IH]; [done|]. rewrite !fmap_cons, len_cons. simpl sumZ in *. lia. }
    rewrite Hsum in Hle. rewrite len_fmap. lia. }
  apply sumZ_fmap_le. intros a Ha. unfold insert_args in Ha.
  apply list_elem_of_join in Ha as (l & Ha & Hl). apply list_elem_of_fmap in Hl as (r & -> & Hr).
  rewrite Forall_forall in Hi. specialize (Hi r Hr). unfold args_ok in Hi.
  rewrite Forall_forall in Hi. by apply lit_bound, Hi.
Qed.

Lemma insert_args_cons r rows : insert_args (r :: rows) = args r ++ insert_args rows.
Proof. reflexivity. Qed.

Lemma estimate_sum rows :
  weight est rows = 85 * len rows + sumZ (estimateArgBytes <$> insert_args rows).
Proof.
  unfold weight. induction rows as [|r rows IH]; [done|].
  rewrite sumZ_fmap_cons, IH, insert_args_cons, fmap_app, sumZ_app, len_cons.
  unfold estimateRowBytes. rewrite placeholder_len. lia.
Qed.

Lemma insert_stmt_len rows :
  rows <> [] ->
  len (insert_stmt s rows) + count_byte sq (insert_stmt s rows)
  = len (ts_insertPrefix s) + count_byte sq (ts_insertPrefix s) + 85 * len rows - 2.
Proof.
  intros Hne. unfold insert_stmt. rewrite len_app, count_byte_app.
  rewrite (join_sum len); [|intros; apply len_app|done|by destruct rows].
  rewrite (join_sum (count_byte sq)); [|intros; apply count_byte_app|done|by destruct rows].
  rewrite <- !list_fmap_compose, len_fmap. change (len comma) with 2. change (count_byte sq comma) with 0.
  unfold compose. rewrite !sumZ_fmap_const, placeholder_len, placeholder_quotes by done. lia.
Qed.

(** The shipped text is no longer than the framing plus the estimates. *)
Lemma statement_bound rows :
  rows <> [] -> Forall args_ok rows ->
  len (execute_immediate lit (insert_stmt s rows) (insert_args rows)) <= ts_stmtOverhead s + weight est rows.
Proof using lit_laws.
  intros Hne Hi. unfold execute_immediate. rewrite !len_app, len_enquote.
  pose proof (insert_stmt_len rows Hne). pose proof (args_text_bound rows Hne Hi).
  rewrite estimate_sum. change (len (bs "EXECUTE IMMEDIATE ")) with 18. change (len (bs " USING ")) with 7.
  change (ts_stmtOverhead s) with (27 + len (ts_insertPrefix s) + count_byte sq (ts_insertPrefix s)). lia.
Qed.
End statement.
End split.

(** ** The insert path keeps the contract of [Store.InsertBatch] *)

Section contract.
Context {W : Type} (exec : gostring -> list arg -> W -> W * option gerror).
Context (cfg : TrinoConfig) (table : W -> list Row).
Local Abbreviation s := (NewTrino cfg).
Local Abbreviation clamp := (fun r => clampRow s r (stmt_budget s)).

(** What a row is once it is stored. *)
Context (keep : Row -> Row).

(** An INSERT that succeeds has added its rows.  One that fails (a timeout, a
    lost connection) may have been carried out all the same, as a whole, now or
    when the server gets to it: [table] is read as holding what the statements
    sent so far come to.  The driver's errors are not the store's own
    [PartialCommitError]. *)
Record trino_exec_laws : Prop := {
  exec_keep : forall r, stored_as r (keep r);
  exec_insert : forall rows w w',
    rows <> [] -> exec (insert_stmt s rows) (insert_args rows) w = (w', None) ->
    table w' = table w ++ (keep <$> rows);
  exec_failed : forall rows w w' err,
    rows <> [] -> exec (insert_stmt s rows) (insert_args rows) w = (w', Some err) ->
    table w' = table w \/ table w' = table w ++ (keep <$> rows);
  exec_error : forall rows w w' err,
    exec (insert_stmt s rows) (insert_args rows) w = (w', Some err) -> errors_As_partial err = None;
}.

(** The case of no lost answers: an INSERT that fails has done nothing. *)
Definition nothing_hidden : Prop := forall rows w w' err,
  rows <> [] -> exec (insert_stmt s rows) (insert_args rows) w = (w', Some err) -> table w' = table w.

Hypothesis laws : trino_exec_laws.

Lemma classify_partial err : errors_As_partial (classifyInsertErr err) = errors_As_partial err.
Proof. unfold classifyInsertErr. by case_match. Qed.

Lemma trino_chunk_error rows w w' err :
  trino_insertChunk exec s rows w = (w', Some err) -> CommittedRows err = 0.
Proof using laws.
  unfold trino_insertChunk, exec_wrap. destruct (exec _ _ _) as [w1 [err'|]] eqn:E; [|done].
  intros [= <- <-]. apply (exec_error laws) in E as He. unfold CommittedRows. cbn [errors_As_partial].
  by rewrite classify_partial, He.
Qed.

Lemma trino_chunk rows w w' e :
  rows <> [] -> trino_insertChunk exec s rows w = (w', e) ->
  match e with
  | None => table w' = table w ++ (keep <$> rows)
  | Some err => (table w' = table w \/ table w' = table w ++ (keep <$> rows))
      /\ (nothing_hidden -> table w' = table w)
  end.
Proof using laws.
  intros Hne. unfold trino_insertChunk, exec_wrap. destruct (exec _ _ _) as [w1 [err|]] eqn:E; intros [= <- <-].
  - split; [by apply (exec_failed laws) in E|]. intros sure. by apply sure in E.
  - by apply (exec_insert laws) in E.
Qed.

Lemma trino_sent cs w w' :
  Forall (fun c => c <> []) cs -> all_sent (trino_insertChunk exec s) cs w w' ->
  table w' = table w ++ (keep <$> mjoin cs).
Proof using laws.
  intros Hne. revert w. induction Hne as [|c cs Hc _ IH]; intros w; cbn [all_sent].
  - intros ->. by rewrite app_nil_r.
  - intros (w1 & E & Hs). apply trino_chunk in E; [|done].
    by rewrite (IH _ Hs), E, mjoin_cons, fmap_app, app_assoc.
Qed.

(** What a call leaves in the table: all of its chunks, or those before the
    first that failed and perhaps that one. *)
Lemma trino_insert_spec rows w w' e :
  trino_InsertBatch exec s rows w = (w', e) ->
  let cs := trino_SplitBatch s rows in
  match e with
  | None => table w' = table w ++ (keep <$> (clamp <$> rows))
  | Some err => exists k, (k < length cs)%nat /\ CommittedRows err = len (mjoin (take k cs))
      /\ (table w' = table w ++ (keep <$> mjoin (take k cs))
          \/ table w' = table w ++ (keep <$> mjoin (take (S k) cs)))
      /\ (nothing_hidden -> table w' = table w ++ (keep <$> mjoin (take k cs)))
  end.
Proof using laws.
  intros H cs. unfold trino_InsertBatch in H. destruct (split_packing cfg rows) as [Hj Hn _]. fold cs in H, Hj, Hn.
  assert (Hne : forall k, Forall (fun c => c <> []) (take k cs)) by (intros k; by apply Forall_take).
  apply (insert_chunks_run _ trino_chunk_error cs []) in H as (k & wk & Hs & He). apply trino_sent in Hs; [|done].
  destruct e as [err|].
  - destruct He as (Hc & c & cause & Hl & E). exists k. apply trino_chunk in E as [Ht Hsure].
    + rewrite (join_take_S _ _ _ Hl), fmap_app, app_assoc, <- Hs. split_and!; try done.
      by eapply lookup_lt_Some.
    + apply (Forall_lookup_1 _ _ k c) in Hn; [done|exact Hl].
  - destruct He as [-> ->]. by rewrite Hs, take_ge, Hj.
Qed.

Definition trino_writer : Writer W := {|
  InsertBatch := trino_InsertBatch exec s;
  SplitBatch := Some (trino_SplitBatch s);
|}.

Lemma trino_writer_ledger w0 :
  @WriterLedger W trino_writer (table_ledger table keep nothing_hidden w0) clamp fields_below.
Proof using laws.
  split.
  - intros rows w w' e _ E. apply trino_insert_spec in E. cbn zeta in E.
    destruct (split_packing cfg rows) as [Hj _ _]. destruct e as [err|]; cbn [committed_of].
    + destruct E as (k & Hk & -> & Ht & Hsure). pose proof (len_join_take (trino_SplitBatch s rows) k) as Hb.
      rewrite Hj, len_fmap in Hb. split; [done|]. intros told open (hidden & Ho & Hp & Hs).
      unfold slice_to, slice_from. rewrite fmap_take, fmap_drop, <- Hj.
      change (take (Z.to_nat ?n) ?l) with (slice_to l n). change (drop (Z.to_nat ?n) ?l) with (slice_from l n).
      rewrite slice_to_join, slice_from_join. destruct Ht as [Ht|Ht].
      * exists hidden. split_and!; [by apply submseteq_inserts_r| |].
        -- rewrite Ht, Hp, !fmap_app. solve_Permutation.
        -- intros sure. destruct (Hs sure) as [-> Hw]. split; [done|]. by rewrite Ht, Hw, fmap_app, app_assoc.
      * apply lookup_lt_is_Some in Hk as [c Hc]. rewrite (join_take_S _ _ _ Hc), fmap_app in Ht.
        exists (hidden ++ c). split_and!.
        -- apply submseteq_app; [done|]. by apply join_drop_sub.
        -- rewrite Ht, Hp, !fmap_app. solve_Permutation.
        -- intros sure. destruct (Hs sure) as [-> Hw]. pose proof (Hsure sure) as Ht'.
           rewrite Ht in Ht'. apply app_inv_head, (f_equal length) in Ht'. rewrite length_app, !length_fmap in Ht'.
           destruct c; [|simpl in Ht'; lia]. split; [done|].
           rewrite (Hsure sure), Hw, fmap_app, app_assoc. done.
    + split; [pose proof (len_nonneg rows); lia|]. intros told open (hidden & Ho & Hp & Hs).
      rewrite slice_to_all by lia. unfold slice_from. rewrite drop_ge by llia. rewrite app_nil_r.
      exists hidden. split_and!; [done| |].
      * rewrite E, Hp, !fmap_app. solve_Permutation.
      * intros sure. destruct (Hs sure) as [-> Hw]. split; [done|]. by rewrite E, Hw, fmap_app, app_assoc.
  - intros told open open' w (hidden & Ho & H') Hsub. exists hidden. split; [by etrans|done].
  - intros split rows [= <-] _. apply (split_packing cfg rows).
  - intros r. apply clamp_idem.
  - intros r. apply clampRow_below.
Qed.
End contract.
