(* ===== verification/Prune.v ===== *)
(** * Prune: [internal/prune/prune.go] and the maintenance windows of [main.go]

    The retention cutoff handed to a store's [Prune], and the window handed to
    [Optimize].  The store is an argument. *)

From S2P Require Import Prelude Errors GoTime.

Definition startOfUTCDay (t : time) : time :=
  let utc := utc_date t in Date (dyear utc) (dmonth utc) (dday utc).

Definition partitionAlignedCutoff (now : time) (retentionDays : Z) : time :=
  AddDays (startOfUTCDay now) (- retentionDays).

(** [Run]; [prune] is the store's [Prune]. *)
Definition Run {W : Type} (prune : time -> W -> W * option gerror) (retentionDays : Z) (now : time) (w : W)
    : W * option gerror :=
  if retentionDays <? 0 then
    (w, Some (Leaf (EText (bs "retentionDays must be >= 0, got " ++ itoa retentionDays))))
  else
    match prune (partitionAlignedCutoff now retentionDays) w with
    | (w', Some err) => (w', Some (Wrap (bs "prune: ") err))
    | (w', None) => (w', None)
    end.

(** [optimizeWindowStart] of [main.go]. *)
Definition optimizeWindowStart (now : time) (optimizeDaysIncludingToday : Z) : time :=
  let daysCovered := if optimizeDaysIncludingToday <? 1 then 1 else optimizeDaysIncludingToday in
  let utc := utc_date now in
  let startOfToday := Date (dyear utc) (dmonth utc) (dday utc) in
  AddDays startOfToday (- (daysCovered - 1)).

(** ** Lemmas *)

Lemma cutoff_eq now n : partitionAlignedCutoff now n = (utc_days now - n) * Day.
Proof. unfold partitionAlignedCutoff, startOfUTCDay. rewrite AddDays_add, start_of_day. unfold utc_days. lia. Qed.

Lemma window_eq now n : optimizeWindowStart now n = (utc_days now - (Z.max 1 n - 1)) * Day.
Proof.
  unfold optimizeWindowStart. rewrite AddDays_add, start_of_day. unfold utc_days.
  destruct (Z.ltb_spec n 1); [rewrite Z.max_l by lia|rewrite Z.max_r by lia]; lia.
Qed.

Lemma before_midnight t d : t < d * Day <-> utc_days t < d.
Proof. unfold utc_days. pose proof Day_pos. pose proof (Z.div_lt_upper_bound t Day d).
  pose proof (Z.mul_div_le t Day). split; [nia|]. intros Hlt.
  pose proof (Z.mod_pos_bound t Day). pose proof (Z.div_mod t Day). nia.
Qed.

Lemma run_prunes {W} (prune : time -> W -> W * option gerror) n now w :
  0 <= n ->
  Run prune n now w = (fst (prune (partitionAlignedCutoff now n) w), Wrap (bs "prune: ") <$> snd (prune (partitionAlignedCutoff now n) w)).
Proof. intros Hn. unfold Run. destruct (Z.ltb_spec n 0); [lia|]. by destruct (prune _ w) as [w' [err|]]. Qed.

Lemma cutoff_days now n :
  partitionAlignedCutoff now n mod Day = 0
  /\ forall t, t < partitionAlignedCutoff now n <-> utc_days t < utc_days now - n.
Proof. rewrite cutoff_eq. split; [by apply Z.mod_mul|]. intros t. apply before_midnight. Qed.

Lemma window_days now n :
  optimizeWindowStart now n mod Day = 0
  /\ forall t, optimizeWindowStart now n <= t <-> utc_days now - utc_days t < Z.max 1 n.
Proof.
  rewrite window_eq. split; [by apply Z.mod_mul|]. intros t. rewrite <- Z.nlt_ge, before_midnight. lia.
Qed.

(** ** Guarantees *)

(** A non-negative retention prunes with a cutoff at a UTC midnight that
    takes whole days only: a row is older than the cutoff exactly when its UTC
    day is more than [retentionDays] before today. *)
Theorem prune_whole_days {W} (prune : time -> W -> W * option gerror) n now w :
  0 <= n ->
  exists cutoff, Run prune n now w = (fst (prune cutoff w), Wrap (bs "prune: ") <$> snd (prune cutoff w))
    /\ cutoff mod Day = 0
    /\ forall create_time, create_time < cutoff <-> utc_days create_time < utc_days now - n.
Proof.
  intros Hn. exists (partitionAlignedCutoff now n). split; [by apply run_prunes|]. apply cutoff_days.
Qed.

(** A negative retention is refused before the store is touched. *)
Theorem prune_negative {W} (prune : time -> W -> W * option gerror) n now w :
  n < 0 -> exists text, Run prune n now w = (w, Some (Leaf (EText text))).
Proof. intros Hn. unfold Run. destruct (Z.ltb_spec n 0); [|lia]. eauto. Qed.

(** The optimize window opens at a UTC midnight and holds exactly the last
    [n] UTC days, today included, and at least today. *)
Theorem optimize_window now n :
  optimizeWindowStart now n mod Day = 0
  /\ forall t, optimizeWindowStart now n <= t <-> utc_days now - utc_days t < Z.max 1 n.
Proof. apply window_days. Qed.

(** ** Instances *)

Lemma prune_whole_days_witness :
  exists cutoff, Run (fun c (w : list time) => (c :: w, None)) 30 (Date 2024 3 1 + 5 * Hour) []
      = (cutoff :: [], Wrap (bs "prune: ") <$> None) /\ cutoff mod Day = 0
    /\ forall t, t < cutoff <-> utc_days t < utc_days (Date 2024 3 1 + 5 * Hour) - 30.
Proof. apply (prune_whole_days (fun c w => (c :: w, None)) 30 (Date 2024 3 1 + 5 * Hour) []). lia. Defined.

Lemma prune_negative_witness :
  exists text, Run (fun c (w : list time) => (c :: w, None)) (-1) 0 [] = ([], Some (Leaf (EText text))).
Proof. apply (prune_negative (fun c w => (c :: w, None)) (-1) 0 []). lia. Defined.
