(* ===== verification/Sha256.v ===== *)
(** * Sha256: [crypto/sha256] and [encoding/hex]

    SHA-256 on byte strings, with 32-bit words as integers, as FIPS 180-4 writes
    it, and the lower-case hexadecimal text of a digest. *)

From S2P Require Import Prelude.

Definition w32 (z : Z) : Z := z mod 2 ^ 32.
Definition rotr (n x : Z) : Z := Z.lor (Z.shiftr x n) (w32 (Z.shiftl x (32 - n))).

Definition sha_k : list Z :=
  [1116352408; 1899447441; 3049323471; 3921009573; 961987163; 1508970993; 2453635748; 2870763221;
   3624381080; 310598401; 607225278; 1426881987; 1925078388; 2162078206; 2614888103; 3248222580;
   3835390401; 4022224774; 264347078; 604807628; 770255983; 1249150122; 1555081692; 1996064986;
   2554220882; 2821834349; 2952996808; 3210313671; 3336571891; 3584528711; 113926993; 338241895;
   666307205; 773529912; 1294757372; 1396182291; 1695183700; 1986661051; 2177026350; 2456956037;
   2730485921; 2820302411; 3259730800; 3345764771; 3516065817; 3600352804; 4094571909; 275423344;
   430227734; 506948616; 659060556; 883997877; 958139571; 1322822218; 1537002063; 1747873779;
   1955562222; 2024104815; 2227730452; 2361852424; 2428436474; 2756734187; 3204031479; 3329325298].

Definition sha_h0 : list Z :=
  [1779033703; 3144134277; 1013904242; 2773480762; 1359893119; 2600822924; 528734635; 1541459225].

(** The message schedule, from the last 16 words on, newest first. *)
Fixpoint schedule (n : nat) (ws : list Z) : list Z :=
  match n with
  | O => ws
  | S n =>
      let w k := nth k ws 0 in
      let s0 := Z.lxor (Z.lxor (rotr 7 (w 14%nat)) (rotr 18 (w 14%nat))) (Z.shiftr (w 14%nat) 3) in
      let s1 := Z.lxor (Z.lxor (rotr 17 (w 1%nat)) (rotr 19 (w 1%nat))) (Z.shiftr (w 1%nat) 10) in
      schedule n (w32 (w 15%nat + s0 + w 6%nat + s1) :: ws)
  end.

Definition sha_round (st : list Z) (kw : Z * Z) : list Z :=
  match st with
  | [a; b; c; d; e; f; g; h] =>
      let s1 := Z.lxor (Z.lxor (rotr 6 e) (rotr 11 e)) (rotr 25 e) in
      let ch := Z.lxor (Z.land e f) (Z.land (Z.lxor e (2 ^ 32 - 1)) g) in
      let t1 := w32 (h + s1 + ch + fst kw + snd kw) in
      let s0 := Z.lxor (Z.lxor (rotr 2 a) (rotr 13 a)) (rotr 22 a) in
      let maj := Z.lxor (Z.lxor (Z.land a b) (Z.land a c)) (Z.land b c) in
      [w32 (t1 + s0 + maj); a; b; c; w32 (d + t1); e; f; g]
  | _ => st
  end.

Fixpoint be_words (s : gostring) : list Z :=
  match s with
  | a :: b :: c :: d :: t => ((bv a * 256 + bv b) * 256 + bv c) * 256 + bv d :: be_words t
  | _ => []
  end.

Fixpoint be_bytes (n : nat) (z : Z) : gostring :=
  match n with O => [] | S n => be_bytes n (z / 256) ++ [byte_of (z mod 256)] end.

Definition sha_block (h : list Z) (block : gostring) : list Z :=
  let ws := rev (schedule 48 (rev (be_words block))) in
  zip_with (fun x y => w32 (x + y)) h (foldl sha_round h (zip sha_k ws)).

Fixpoint sha_blocks (n : nat) (h : list Z) (s : gostring) : list Z :=
  match n with O => h | S n => sha_blocks n (sha_block h (take 64 s)) (drop 64 s) end.

Definition sha_pad (s : gostring) : gostring :=
  s ++ [x80] ++ replicate (Z.to_nat ((55 - len s) mod 64)) x00 ++ be_bytes 8 (8 * len s).

(** [h.Sum(nil)] after writing [s]. *)
Definition sha256 (s : gostring) : gostring :=
  let p := sha_pad s in mjoin (be_bytes 4 <$> sha_blocks (length p / 64) sha_h0 p).

(** [hex.EncodeToString]. *)
Definition hex_digit (n : Z) : byte := if n <? 10 then byte_of (48 + n) else byte_of (87 + n).
Definition hex_string (s : gostring) : gostring :=
  mjoin ((fun b => [hex_digit (bv b / 16); hex_digit (bv b mod 16)]) <$> s).

(** The test vectors of the standard. *)
Example sha256_empty :
  hex_string (sha256 []) = bs "e3b0c44298fc1c149afbf4c8996fb92427ae41e4649b934ca495991b7852b855".
Proof. vm_compute. reflexivity. Qed.

Example sha256_abc :
  hex_string (sha256 (bs "abc")) = bs "ba7816bf8f01cfea414140de5dae2223b00361a396177a9cb410ff61f20015ad".
Proof. vm_compute. reflexivity. Qed.

Example sha256_two_blocks :
  hex_string (sha256 (bs "abcdbcdecdefdefgefghfghighijhijkijkljklmklmnlmnomnopnopq"))
  = bs "248d6a61d20638b8e5c026930c3e6039a33ce45964ff2167f6ecedd419db06c1".
Proof. vm_compute. reflexivity. Qed.

(** The hexadecimal text determines the bytes. *)
Lemma hex_digit_inj a b : 0 <= a < 16 -> 0 <= b < 16 -> hex_digit a = hex_digit b -> a = b.
Proof.
  intros Ha Hb H. apply (f_equal bv) in H. unfold hex_digit in H.
  destruct (Z.ltb_spec a 10), (Z.ltb_spec b 10); rewrite !bv_byte_of in H by lia; lia.
Qed.

Lemma hex_string_inj s t : hex_string s = hex_string t -> s = t.
Proof.
  unfold hex_string. revert t. induction s as [|a s IH]; intros [|b t] H; try discriminate H; [done|].
  rewrite !fmap_cons, !mjoin_cons in H. cbn [app] in H. injection H as H1 H2 H3.
  pose proof (bv_range a). pose proof (bv_range b).
  apply hex_digit_inj in H1, H2; try (split; [apply Z.div_pos|apply Z.div_lt_upper_bound]; lia);
    try (apply Z.mod_pos_bound; lia).
  rewrite (bv_inj a b), (IH t); [done|done|].
  rewrite (Z.div_mod (bv a) 16), (Z.div_mod (bv b) 16) by lia. lia.
Qed.
