(* ===== verification/ClickHouse.v ===== *)
(** * ClickHouse: [internal/store/clickhouse.go]

    The ClickHouse backend: column types and DDL, batches and their
    deduplication token, query parameters, the reads, and retention by dropping
    partitions.  The connection ([chConn], over clickhouse-go) is a record of
    operations on an abstract world. *)

From S2P Require Import Prelude Errors GoTime Row Chunk Store Float64 Query Trino Sha256.

Definition clickhouseVersionColumn : gostring := bs "ingested_at".
Definition clickhouseTimestampType : gostring := bs "DateTime64(6, 'UTC')".
Definition clickhouseDedupWindow : Z := 1000.
Definition clickhouseDefaultBatch : Z := Z.shiftl 8 20.

(** The maps keyed by column name. *)
Definition clickhouseNullable (n : gostring) : bool :=
  bool_decide (n ∈ [bs "execution_start_time"; bs "end_time"]).
Definition clickhouseLowCardinality (n : gostring) : bool :=
  bool_decide (n ∈ [bs "query_state"; bs "query_type"; bs "update_type"; bs "error_code";
    bs "error_type"; bs "catalog"; bs "schema_name"; bs "resource_group";
    bs "server_version"; bs "environment"; bs "user_name"]).
Definition clickhouseCodecs (n : gostring) : option gostring :=
  if bool_decide (n ∈ [bs "query_text"; bs "error_message"; bs "inputs_json"]) then Some (bs "ZSTD(3)")
  else if bool_decide (n ∈ [bs "plan"; bs "json_plan"]) then Some (bs "ZSTD(6)")
  else None.
Definition clickhouseNonRetryableCodes (code : Z) : bool := bool_decide (code ∈ [16; 53; 60; 62; 81; 497; 516]).

(** [^\d{8}$]. *)
Definition partitionIDPattern (s : gostring) : bool := (len s =? 8) && forallb is_digit s.

Record ClickHouseConfig := mkClickHouseConfig {
  cc_Database : gostring;
  cc_Table : gostring;
  cc_MaxBatchBytes : Z
}.

Record ClickHouseStore := mkClickHouseStore {
  cs_cfg : ClickHouseConfig;
  cs_table : gostring;
  cs_insertStmt : gostring;
  cs_summarySelect : gostring;
  cs_rowSelect : gostring;
  cs_maxBatchBytes : Z
}.

Definition newClickHouseStore (cfg : ClickHouseConfig) : ClickHouseStore :=
  let table := quoteIdent (cc_Database cfg) ++ bs "." ++ quoteIdent (cc_Table cfg) in
  let cols := join comma ((fun c => quoteIdent (name c)) <$> schemaColumns) in
  let summary := join comma (quoteIdent <$> summaryColumns) in
  {|
    cs_cfg := cfg;
    cs_table := table;
    cs_insertStmt := bs "INSERT INTO " ++ table ++ bs " (" ++ cols ++ bs ")";
    cs_summarySelect := bs "SELECT " ++ summary ++ bs " FROM " ++ table ++ bs " FINAL";
    cs_rowSelect := bs "SELECT " ++ cols ++ bs " FROM " ++ table ++ bs " FINAL";
    cs_maxBatchBytes := if cc_MaxBatchBytes cfg <=? 0 then clickhouseDefaultBatch else cc_MaxBatchBytes cfg
  |}.

Definition clickhouseType (c : column) : gostring :=
  let t :=
    if has_prefix (sqlType c) (bs "timestamp") then clickhouseTimestampType
    else if decide (sqlType c = bs "bigint") then bs "Int64"
    else bs "String" in
  if clickhouseNullable (name c) then bs "Nullable(" ++ t ++ bs ")"
  else if clickhouseLowCardinality (name c) then bs "LowCardinality(" ++ t ++ bs ")"
  else t.

Definition clickhouseColumnDDL (c : column) : gostring :=
  quoteIdent (name c) ++ bs " " ++ clickhouseType c
  ++ match clickhouseCodecs (name c) with Some codec => bs " CODEC(" ++ codec ++ bs ")" | None => [] end.

Definition DatabaseDDL (s : ClickHouseStore) : gostring :=
  bs "CREATE DATABASE IF NOT EXISTS " ++ quoteIdent (cc_Database (cs_cfg s)).

Definition ch_TableDDL (s : ClickHouseStore) : gostring :=
  let lines :=
    ((fun c => bs "  " ++ clickhouseColumnDDL c) <$> schemaColumns) ++
    [bs "  " ++ quoteIdent clickhouseVersionColumn ++ bs " " ++ clickhouseTimestampType ++ bs " DEFAULT now64(6)";
     bs "  INDEX qid_bf " ++ quoteIdent (bs "query_id") ++ bs " TYPE bloom_filter(0.01) GRANULARITY 1"] in
  bs "CREATE TABLE IF NOT EXISTS " ++ cs_table s ++ bs " (" ++ [x0a] ++ join (bs "," ++ [x0a]) lines ++ [x0a] ++ bs ")" ++
  [x0a] ++ bs "ENGINE = ReplacingMergeTree(" ++ quoteIdent clickhouseVersionColumn ++ bs ")" ++
  [x0a] ++ bs "PARTITION BY toDate(" ++ quoteIdent (bs "create_time") ++ bs ")" ++
  [x0a] ++ bs "ORDER BY (" ++ quoteIdent (bs "create_time") ++ bs ", " ++ quoteIdent (bs "query_id") ++ bs ")" ++
  [x0a] ++ bs "SETTINGS non_replicated_deduplication_window = " ++ itoa clickhouseDedupWindow.

Definition ch_DDLScript (s : ClickHouseStore) : gostring :=
  DatabaseDDL s ++ bs ";" ++ [x0a; x0a] ++ ch_TableDDL s ++ bs ";" ++ [x0a].

Definition clickhouseRowBytes (r : Row) : Z := sumZ (estimateArgBytes <$> args r).

Definition ch_SplitBatch (s : ClickHouseStore) (rows : list Row) : list (list Row) :=
  chunkRows (cs_maxBatchBytes s) clickhouseRowBytes rows.

(** ** The deduplication token *)

Definition hashArg (a : arg) : gostring :=
  match a with
  | AStr v => bs "s" ++ itoa (len v) ++ bs ":" ++ v ++ bs ";"
  | AInt v => bs "i" ++ itoa v ++ bs ";"
  | ATime v => bs "t" ++ itoa (wrap64 v) ++ bs ";"
  | ANil => bs "n;"
  end.

(** [sort.SliceStable] on the query id: a row goes after those that are not
    greater. *)
Fixpoint insert_by_id (r : Row) (l : list Row) : list Row :=
  match l with
  | [] => [r]
  | x :: l' => if str_ltb (QueryID r) (QueryID x) then r :: l else x :: insert_by_id r l'
  end.
Definition sort_by_id (rows : list Row) : list Row := foldl (fun l r => insert_by_id r l) [] rows.

(** What [batchToken] writes to the hash, and the token. *)
Definition token_text (rows : list Row) : gostring := mjoin (hashArg <$> mjoin (args <$> sort_by_id rows)).
Definition batchToken (rows : list Row) : gostring := hex_string (sha256 (token_text rows)).

Definition is_exception (l : leaf) : option Z :=
  match l with EClickHouse code _ => Some code | _ => None end.

Definition classifyClickHouseErr (err : gerror) : gerror :=
  match errors_As_leaf is_exception err with
  | Some code => if clickhouseNonRetryableCodes code then Wrap2 (Leaf ENonRetryable) err else err
  | None => err
  end.

(** ** Query parameters *)

(** [clickhouseTSVEscaper]. *)
Definition tsv_escape (b : byte) : gostring :=
  if decide (b = x5c) then [x5c; x5c]
  else if decide (b = x0a) then [x5c; x6e]
  else if decide (b = x09) then [x5c; x74]
  else if decide (b = x0d) then [x5c; x72]
  else if decide (b = x00) then [x5c; x30]
  else if decide (b = x08) then [x5c; x62]
  else if decide (b = x0c) then [x5c; x66]
  else [b].
Definition clickhouseParamValue (s : gostring) : gostring := mjoin (tsv_escape <$> s).

Abbreviation Parameters := (gmap gostring gostring).

Definition clickhouseParam (name : gostring) (v : arg) (params : Parameters) : gostring * Parameters :=
  match v with
  | ATime x => (bs "{" ++ name ++ bs ":" ++ clickhouseTimestampType ++ bs "}", <[name := format_micros x]> params)
  | AInt x => (bs "{" ++ name ++ bs ":Int64}", <[name := itoa x]> params)
  | AStr x => (bs "{" ++ name ++ bs ":String}", <[name := clickhouseParamValue x]> params)
  | ANil => (bs "{" ++ name ++ bs ":String}", <[name := clickhouseParamValue (bs "<nil>")]> params)
  end.

Definition param_name (i : nat) : gostring := bs "p" ++ itoa (Z.of_nat i).

Fixpoint where_parts (i : nat) (preds : list predicate) (params : Parameters) : list gostring * Parameters :=
  match preds with
  | [] => ([], params)
  | p :: preds =>
      let '(text, params) := clickhouseParam (param_name i) (p_value p) params in
      let '(parts, params) := where_parts (S i) preds params in
      ((quoteIdent (p_column p) ++ bs " " ++ p_op p ++ bs " " ++ text) :: parts, params)
  end.

Definition clickhouseWhere (preds : list predicate) (params : Parameters) : gostring * Parameters :=
  match preds with
  | [] => ([], params)
  | _ => let '(parts, params) := where_parts 0 preds params in (bs " WHERE " ++ join (bs " AND ") parts, params)
  end.

Definition ch_list_stmt (s : ClickHouseStore) (f : QueryFilter) : gostring :=
  cs_summarySelect s ++ fst (clickhouseWhere (listPredicates f) ∅) ++ bs " ORDER BY " ++ orderBy f
  ++ bs " LIMIT " ++ itoa (pageLimit f)
  ++ (if 0 <? Offset f then bs " OFFSET " ++ itoa (Offset f) else []).

Definition partitionID (day : time) : gostring := format_yyyymmdd day.

Definition dropPartitionStmt (table id : gostring) : gostring :=
  bs "ALTER TABLE " ++ table ++ bs " DROP PARTITION ID '" ++ id ++ bs "'".

Definition partition_preds (s : ClickHouseStore) (cutoff : time) : list predicate :=
  [mkPred (bs "database") (bs "=") (AStr (cc_Database (cs_cfg s)));
   mkPred (bs "table") (bs "=") (AStr (cc_Table (cs_cfg s)));
   mkPred (bs "partition_id") (bs "<") (AStr (partitionID cutoff))].

Definition partitions_stmt (s : ClickHouseStore) (cutoff : time) : gostring :=
  bs "SELECT DISTINCT partition_id FROM system.parts" ++ fst (clickhouseWhere (partition_preds s cutoff) ∅)
  ++ bs " AND active ORDER BY partition_id".

(** ** The operations over a connection *)

(** [chConn] and the batch of [PrepareBatch]; a query returns the rows it read
    and the error that ended the iteration, or fails at once. *)
Record chConn (W : Type) := mkChConn {
  ch_exec : gostring -> W -> W * option gerror;
  ch_query : gostring -> Parameters -> W -> gerror + (list (list arg) * option gerror);
  ch_rows_close : W -> option gerror;
  ch_prepare : gostring -> gostring -> W -> W * option gerror;
  ch_append : list arg -> W -> W * option gerror;
  ch_abort : W -> W;
  ch_send : W -> W * option gerror
}.
Arguments mkChConn {W}.
Arguments ch_exec {W}.
Arguments ch_query {W}.
Arguments ch_rows_close {W}.
Arguments ch_prepare {W}.
Arguments ch_append {W}.
Arguments ch_abort {W}.
Arguments ch_send {W}.

Section operations.
Context {W : Type} (conn : chConn W) (s : ClickHouseStore).
(** The error of a [Scan] that does not fit, and [strconv.Quote] ([%q]). *)
Context (scan_err : gerror) (quote : gostring -> gostring).

Definition ch_Init (w : W) : W * option gerror :=
  match ch_exec conn (DatabaseDDL s) w with
  | (w', Some err) => (w', Some (Wrap (bs "create database: ") err))
  | (w', None) =>
      match ch_exec conn (ch_TableDDL s) w' with
      | (w'', Some err) => (w'', Some (Wrap (bs "create table: ") err))
      | (w'', None) => (w'', None)
      end
  end.

Definition discard (query : gostring) (params : Parameters) (w : W) : option gerror :=
  match ch_query conn query params w with
  | inl err => Some err
  | inr (_, Some err) => Some err
  | inr (_, None) => ch_rows_close conn w
  end.

Definition ch_Validate (w : W) : option gerror :=
  Wrap (bs "clickhouse not reachable: ") <$> discard (bs "SELECT 1") ∅ w.

Definition ch_ValidateTable (w : W) : option gerror :=
  Wrap (bs "query log table " ++ cs_table s ++
        bs " not reachable; apply the DDL (init subcommand or ddl/clickhouse_query_log.sql): ")
  <$> discard (bs "SELECT 1 FROM " ++ cs_table s ++ bs " WHERE 0") ∅ w.

Fixpoint append_rows (rows : list Row) (w : W) : W * option gerror :=
  match rows with
  | [] => (w, None)
  | r :: rows =>
      match ch_append conn (args r) w with
      | (w', Some err) =>
          (ch_abort conn w', Some (Wrap (bs "append row " ++ QueryID r ++ bs ": ") (classifyClickHouseErr err)))
      | (w', None) => append_rows rows w'
      end
  end.

Definition ch_insertChunk (rows : list Row) (w : W) : W * option gerror :=
  match ch_prepare conn (batchToken rows) (cs_insertStmt s) w with
  | (w', Some err) => (w', Some (Wrap (bs "prepare insert: ") (classifyClickHouseErr err)))
  | (w', None) =>
      match append_rows rows w' with
      | (w'', Some err) => (w'', Some err)
      | (w'', None) =>
          match ch_send conn w'' with
          | (w3, Some err) =>
              (w3, Some (Wrap (bs "insert " ++ itoa (len rows) ++ bs " rows: ") (classifyClickHouseErr err)))
          | (w3, None) => (w3, None)
          end
      end
  end.

Definition ch_InsertBatch (rows : list Row) (w : W) : W * option gerror :=
  insert_chunks ch_insertChunk (ch_SplitBatch s rows) 0 w.

Definition ch_ListQueries (f : QueryFilter) (w : W) : list QuerySummary * option gerror :=
  match ch_query conn (ch_list_stmt s f) (snd (clickhouseWhere (listPredicates f) ∅)) w with
  | inl err => ([], Some (Wrap (bs "list queries: ") err))
  | inr (vs, rows_err) =>
      match scan_summaries scan_err vs [] with
      | (out, None) => (out, rows_err)
      | failed => failed
      end
  end.

Definition ch_GetQuery (queryID : gostring) (w : W) : option Row * option gerror :=
  match queryIDPredicates queryID with
  | None => (None, None)
  | Some preds =>
      let '(where_, params) := clickhouseWhere preds ∅ in
      match ch_query conn (cs_rowSelect s ++ where_ ++ bs " LIMIT 1") params w with
      | inl err => (None, Some (Wrap (bs "get query " ++ queryID ++ bs ": ") err))
      | inr ([], rows_err) => (None, rows_err)
      | inr (v :: _, _) =>
          match scan_row v with
          | None => (None, Some (Wrap (bs "scan row: ") scan_err))
          | Some r => (Some r, None)
          end
      end
  end.

(** The loop of [partitionsBefore]. *)
Fixpoint scan_ids (vs : list (list arg)) (ids : list gostring) (rows_err : option gerror)
    : list gostring * option gerror :=
  match vs with
  | [] => (ids, rows_err)
  | [AStr id] :: vs =>
      if partitionIDPattern id then scan_ids vs (ids ++ [id]) rows_err
      else ([], Some (Leaf (EText (bs "unexpected partition id " ++ quote id))))
  | _ :: _ => ([], Some scan_err)
  end.

Definition partitionsBefore (cutoff : time) (w : W) : list gostring * option gerror :=
  match ch_query conn (partitions_stmt s cutoff) (snd (clickhouseWhere (partition_preds s cutoff) ∅)) w with
  | inl err => ([], Some err)
  | inr (vs, rows_err) => scan_ids vs [] rows_err
  end.

Fixpoint drop_partitions (ids : list gostring) (w : W) : W * option gerror :=
  match ids with
  | [] => (w, None)
  | id :: ids =>
      match ch_exec conn (dropPartitionStmt (cs_table s) id) w with
      | (w', Some err) => (w', Some (Wrap (bs "drop partition " ++ id ++ bs ": ") err))
      | (w', None) => drop_partitions ids w'
      end
  end.

Definition ch_Prune (olderThan : time) (w : W) : W * option gerror :=
  match partitionsBefore olderThan w with
  | (_, Some err) => (w, Some (Wrap (bs "prune rows older than " ++ format_rfc3339 olderThan ++ bs ": ") err))
  | (ids, None) => drop_partitions ids w
  end.

(** [Optimize] and [Maintain] do nothing. *)
Definition ch_Optimize (since : time) (w : W) : W * option gerror := (w, None).
Definition ch_Maintain (retentionThreshold : gostring) (w : W) : W * option gerror := (w, None).
End operations.

(** ** Specification *)

(** How ClickHouse reads the escapes of a parameter. *)
Definition tsv_unescape_char (b : byte) : byte :=
  if decide (b = x6e) then x0a
  else if decide (b = x74) then x09
  else if decide (b = x72) then x0d
  else if decide (b = x30) then x00
  else if decide (b = x62) then x08
  else if decide (b = x66) then x0c
  else b.
Fixpoint tsv_unescape (s : gostring) : gostring :=
  match s with
  | [] => []
  | b :: t =>
      if decide (b = x5c) then match t with [] => [b] | c :: t' => tsv_unescape_char c :: tsv_unescape t' end
      else b :: tsv_unescape t
  end.

(** The partition of a row: [toDate(create_time)], as its id. *)
Definition row_partition (r : Row) : gostring := format_yyyymmdd (CreateTime r).

(** ** Lemmas *)

Lemma tsv_roundtrip s : tsv_unescape (clickhouseParamValue s) = s.
Proof.
  unfold clickhouseParamValue. induction s as [|b s IH]; [done|]. rewrite fmap_cons, mjoin_cons.
  unfold tsv_escape at 1. repeat case_decide; subst; cbn [app tsv_unescape]; try (by rewrite decide_True, IH).
  by rewrite decide_False, IH.
Qed.

Lemma param_name_inj i j : param_name i = param_name j -> i = j.
Proof.
  unfold param_name. intros H. apply app_inv_head in H. unfold itoa in H.
  destruct (Z.ltb_spec (Z.of_nat i) 0); [lia|]. destruct (Z.ltb_spec (Z.of_nat j) 0); [lia|].
  apply udec_inj in H; lia.
Qed.

(** ** Stable sort *)

Lemma insert_by_id_perm r l : insert_by_id r l ≡ₚ r :: l.
Proof.
  induction l as [|x l IH]; [done|]. cbn. destruct (str_ltb _ _); [done|]. rewrite IH. apply perm_swap.
Qed.

Lemma sort_fold_perm rows acc : foldl (fun l r => insert_by_id r l) acc rows ≡ₚ acc ++ rows.
Proof.
  revert acc. induction rows as [|r rows IH]; intros acc; [by rewrite app_nil_r|]. cbn.
  rewrite IH, insert_by_id_perm. apply Permutation_middle.
Qed.

Lemma sort_by_id_perm rows : sort_by_id rows ≡ₚ rows.
Proof. unfold sort_by_id. by rewrite sort_fold_perm. Qed.

Definition id_le (r q : Row) : Prop := str_le (QueryID r) (QueryID q).

Lemma insert_by_id_sorted r l : StronglySorted id_le l -> StronglySorted id_le (insert_by_id r l).
Proof.
  induction 1 as [|x l Hs IH Hx]; [by repeat constructor|]. cbn. destruct (str_ltb (QueryID r) (QueryID x)) eqn:E.
  - apply str_le_total in E. constructor; [by constructor|]. constructor; [done|].
    eapply Forall_impl; [exact Hx|]. intros q Hq. by eapply str_ltb_trans.
  - constructor; [done|]. rewrite insert_by_id_perm. by constructor.
Qed.

Lemma sort_by_id_sorted rows : StronglySorted id_le (sort_by_id rows).
Proof.
  unfold sort_by_id. assert (H : forall acc, StronglySorted id_le acc ->
    StronglySorted id_le (foldl (fun l r => insert_by_id r l) acc rows)); [|apply H; constructor].
  induction rows as [|r rows IH]; intros acc Ha; [done|]. cbn. by apply IH, insert_by_id_sorted.
Qed.

(** With distinct ids, sorted lists of the same rows are equal. *)
Lemma sorted_unique l1 l2 :
  StronglySorted id_le l1 -> StronglySorted id_le l2 -> l1 ≡ₚ l2 -> NoDup (QueryID <$> l1) -> l1 = l2.
Proof.
  intros H1. revert l2. induction H1 as [|x l1 Hs IH Hx]; intros l2 H2 Hp Hnd.
  { by apply Permutation_nil in Hp. }
  destruct H2 as [|y l2 Hs2 Hy]; [by apply Permutation_sym, Permutation_nil in Hp|].
  assert (E : x = y).
  { assert (Hxy : x ∈ y :: l2) by (rewrite <- Hp; left). assert (Hyx : y ∈ x :: l1) by (rewrite Hp; left).
    apply elem_of_cons in Hxy as [|Hxy]; [done|]. apply elem_of_cons in Hyx as [|Hyx]; [done|].
    rewrite Forall_forall in Hx. rewrite Forall_forall in Hy. specialize (Hx y Hyx). specialize (Hy x Hxy).
    rewrite fmap_cons in Hnd. apply NoDup_cons in Hnd as [Hnx _]. destruct Hnx.
    rewrite (str_le_antisym _ _ Hx Hy). by apply list_elem_of_fmap_2. }
  subst y. f_equal. apply IH; [done|by apply Permutation_cons_inv in Hp|].
  rewrite fmap_cons in Hnd. by apply NoDup_cons in Hnd as [_ ?].
Qed.

(** ** The token text determines the rows *)

(** The times whose [UnixNano] is exact. *)
Definition nanos_ok (a : arg) : Prop := match a with ATime t => int64 t | _ => True end.

#[export] Instance nanos_ok_dec a : Decision (nanos_ok a).
Proof. destruct a; simpl; unfold int64; apply _. Defined.

Lemma udec_prefix a b x y :
  0 <= a -> 0 <= b -> udec a ++ x3a :: x = udec b ++ x3a :: y -> a = b /\ x = y.
Proof.
  intros Ha Hb H.
  pose proof (span_digits_app (udec a) (x3a :: x) (udec_digits a Ha) eq_refl) as H1.
  pose proof (span_digits_app (udec b) (x3a :: y) (udec_digits b Hb) eq_refl) as H2.
  rewrite H, H2 in H1. injection H1 as H3 H4. split; [|done]. by apply udec_inj.
Qed.

Lemma itoa_end a b x y : itoa a ++ x3b :: x = itoa b ++ x3b :: y -> a = b /\ x = y.
Proof.
  assert (Hn : forall z, 0 <= z -> forall r t, udec z ++ r = x2d :: t -> False).
  { intros z Hz r t H. pose proof (udec_nonempty z Hz). pose proof (udec_digits z Hz) as Hd.
    destruct (udec z) as [|c u]; [done|]. injection H as -> _. discriminate Hd. }
  assert (Hu : forall n m, 0 <= n -> 0 <= m -> udec n ++ x3b :: x = udec m ++ x3b :: y -> n = m /\ x = y).
  { intros n m Hn0 Hm0 H.
    pose proof (span_digits_app (udec n) (x3b :: x) (udec_digits n Hn0) eq_refl) as H1.
    pose proof (span_digits_app (udec m) (x3b :: y) (udec_digits m Hm0) eq_refl) as H2.
    rewrite H, H2 in H1. injection H1 as H3 H4. split; [|done]. by apply udec_inj. }
  unfold itoa. destruct (Z.ltb_spec a 0), (Z.ltb_spec b 0); cbn [app]; intros H1.
  - injection H1 as H1. apply Hu in H1; lia || (destruct H1; split; [lia|done]).
  - symmetry in H1. by apply Hn in H1; [|lia].
  - by apply Hn in H1; [|lia].
  - apply Hu in H1; [done|lia|lia].
Qed.

Lemma hashArg_inj a b x y :
  nanos_ok a -> nanos_ok b -> hashArg a ++ x = hashArg b ++ y -> a = b /\ x = y.
Proof.
  intros Ha Hb. destruct a as [v|v|v|], b as [u|u|u|]; cbn [hashArg]; intros H; try discriminate H.
  - change (bs "s" ++ ?l) with (x73 :: l) in H. cbn [app] in H. injection H as H.
    rewrite <- !app_assoc in H. cbn [app] in H. unfold itoa in H.
    pose proof (len_nonneg v). pose proof (len_nonneg u).
    destruct (Z.ltb_spec (len v) 0); [lia|]. destruct (Z.ltb_spec (len u) 0); [lia|].
    change (bs ":" ++ ?l) with (x3a :: l) in H. apply udec_prefix in H as [Hl H]; [|lia|lia].
    rewrite <- ?app_assoc in H. apply app_inj_1 in H as [-> H]; [|unfold len in Hl; lia].
    change (bs ";" ++ ?l) with (x3b :: l) in H. by injection H as ->.
  - change (bs "i" ++ ?l) with (x69 :: l) in H. cbn [app] in H. injection H as H.
    rewrite <- !app_assoc in H. apply itoa_end in H as [-> ->]. done.
  - change (bs "t" ++ ?l) with (x74 :: l) in H. cbn [app] in H. injection H as H.
    rewrite <- !app_assoc in H. apply itoa_end in H as [H ->]. simpl in Ha, Hb.
    by rewrite !wrap64_id in H by done; subst.
  - change (bs "n;") with [x6e; x3b] in H. by injection H as ->.
Qed.

Lemma hash_text_inj l1 l2 :
  Forall nanos_ok l1 -> Forall nanos_ok l2 -> mjoin (hashArg <$> l1) = mjoin (hashArg <$> l2) -> l1 = l2.
Proof.
  intros H1. revert l2. induction H1 as [|a l1 Ha _ IH]; intros l2 H2 H.
  - destruct H2 as [|b l2]; [done|]. by destruct b.
  - destruct H2 as [|b l2 Hb H2]; [by destruct a|]. rewrite !fmap_cons, !mjoin_cons in H.
    apply hashArg_inj in H as [-> H]; [|done..]. f_equal. by apply IH.
Qed.

Lemma insert_args_inj rows1 rows2 : mjoin (args <$> rows1) = mjoin (args <$> rows2) -> rows1 = rows2.
Proof.
  revert rows2. induction rows1 as [|r rows1 IH]; intros [|q rows2] H; try discriminate H; [done|].
  rewrite !fmap_cons, !mjoin_cons in H. apply app_inj_1 in H as [Hr H]; [|reflexivity].
  f_equal; [|by apply IH]. pose proof (scan_args r) as Hs. rewrite Hr, scan_args in Hs. by injection Hs as ->.
Qed.

Definition row_nanos_ok (r : Row) : Prop := Forall nanos_ok (args r).

Lemma token_text_inj rows1 rows2 :
  Forall row_nanos_ok rows1 -> Forall row_nanos_ok rows2 ->
  token_text rows1 = token_text rows2 -> sort_by_id rows1 = sort_by_id rows2.
Proof.
  intros H1 H2 H. apply insert_args_inj. apply hash_text_inj; [| |exact H].
  - apply Forall_join, Forall_fmap. rewrite sort_by_id_perm. exact H1.
  - apply Forall_join, Forall_fmap. rewrite sort_by_id_perm. exact H2.
Qed.

(** The token of a batch does not depend on the order of its rows. *)
Lemma batchToken_perm rows1 rows2 :
  rows1 ≡ₚ rows2 -> NoDup (QueryID <$> rows1) -> batchToken rows1 = batchToken rows2.
Proof.
  intros Hp Hnd. unfold batchToken, token_text.
  rewrite (sorted_unique (sort_by_id rows1) (sort_by_id rows2)); [done|apply sort_by_id_sorted..| |].
  - by rewrite !sort_by_id_perm.
  - by rewrite sort_by_id_perm.
Qed.

(** ** The insert path *)

Section writer.
Context {W : Type} (conn : chConn W) (s : ClickHouseStore).

Lemma classify_ch_partial err : errors_As_partial (classifyClickHouseErr err) = errors_As_partial err.
Proof. unfold classifyClickHouseErr. destruct (errors_As_leaf _ _); [|done]. by destruct (clickhouseNonRetryableCodes z). Qed.

Lemma clickhouseRowBytes_nonneg r : 0 <= clickhouseRowBytes r.
Proof. apply sumZ_nonneg, Forall_fmap, Forall_forall. intros a _. apply estimateArgBytes_nonneg. Qed.

Lemma ch_split_join rows : mjoin (ch_SplitBatch s rows) = rows.
Proof. apply (packing_concat _ _ _ _ (chunkRows_packing (cs_maxBatchBytes s) clickhouseRowBytes rows)). Qed.

(** What was not committed splits into the very chunks that were not, and a
    chunk is not split again. *)
Lemma ch_split_drop k rows : ch_SplitBatch s (mjoin (drop k (ch_SplitBatch s rows))) = drop k (ch_SplitBatch s rows).
Proof. apply chunkRows_drop. Qed.

Lemma ch_resplit rows c : c ∈ ch_SplitBatch s rows -> ch_SplitBatch s c = [c].
Proof.
  intros Hc. destruct (chunkRows_packing (cs_maxBatchBytes s) clickhouseRowBytes rows) as [_ Hn Hf].
  rewrite Forall_forall in Hn. rewrite Forall_forall in Hf.
  apply chunkRows_whole; [apply clickhouseRowBytes_nonneg|by apply Hn|by apply Hf].
Qed.

Definition ch_writer : Writer W := {|
  InsertBatch := ch_InsertBatch conn s;
  SplitBatch := Some (ch_SplitBatch s);
|}.
End writer.
