(* ===== verification/Metrics.v ===== *)
(** * Metrics: [internal/observability/metrics.go]

    The counters (atomic int64, so additions wrap), the observer methods the
    buffer, the ingest handler and the cache call, and the Prometheus text. *)

From S2P Require Import Prelude GoTime.

Record Metrics := mkMetrics {
  eventsReceived : Z;
  eventsInvalid : Z;
  eventsSuppressed : Z;
  rowsEnqueued : Z;
  eventsDropped : Z;
  batchesFlushed : Z;
  rowsFlushed : Z;
  flushFailures : Z;
  flushNonRetry : Z;
  cacheHits : Z;
  cacheMisses : Z;
  cacheErrors : Z
}.

Definition NewMetrics : Metrics := mkMetrics 0 0 0 0 0 0 0 0 0 0 0 0.

(** The counters by name, to add to one of them. *)
Inductive counter :=
| CReceived | CInvalid | CSuppressed | CEnqueued | CDropped | CBatches | CRows | CFailures
| CNonRetry | CHits | CMisses | CErrors.

#[export] Instance counter_eq_dec : EqDecision counter.
Proof. solve_decision. Defined.

(** [atomic.Int64.Add]. *)
Definition add (c : counter) (n : Z) (m : Metrics) : Metrics :=
  let upd d v := if decide (c = d) then wrap64 (v + n) else v in
  {|
    eventsReceived := upd CReceived (eventsReceived m);
    eventsInvalid := upd CInvalid (eventsInvalid m);
    eventsSuppressed := upd CSuppressed (eventsSuppressed m);
    rowsEnqueued := upd CEnqueued (rowsEnqueued m);
    eventsDropped := upd CDropped (eventsDropped m);
    batchesFlushed := upd CBatches (batchesFlushed m);
    rowsFlushed := upd CRows (rowsFlushed m);
    flushFailures := upd CFailures (flushFailures m);
    flushNonRetry := upd CNonRetry (flushNonRetry m);
    cacheHits := upd CHits (cacheHits m);
    cacheMisses := upd CMisses (cacheMisses m);
    cacheErrors := upd CErrors (cacheErrors m)
  |}.

Definition ReceivedEvent (m : Metrics) : Metrics := add CReceived 1 m.
Definition InvalidEvent (m : Metrics) : Metrics := add CInvalid 1 m.
Definition SuppressedEvent (m : Metrics) : Metrics := add CSuppressed 1 m.
Definition Enqueued (m : Metrics) : Metrics := add CEnqueued 1 m.
Definition Dropped (n : Z) (m : Metrics) : Metrics := add CDropped n m.
Definition Flushed (n : Z) (m : Metrics) : Metrics := add CRows n (add CBatches 1 m).
Definition FlushFailed (m : Metrics) : Metrics := add CFailures 1 m.
Definition FlushNonRetryable (m : Metrics) : Metrics := add CNonRetry 1 m.
Definition CacheHit (m : Metrics) : Metrics := add CHits 1 m.
Definition CacheMiss (m : Metrics) : Metrics := add CMisses 1 m.
Definition CacheError (m : Metrics) : Metrics := add CErrors 1 m.

Record BufferStats := mkBufferStats {
  Depth : Z;
  Capacity : Z;
  LastFlushUnixMs : Z;
  LastFlushDurationMs : Z
}.

Definition metricPrefix : gostring := bs "trino_query_log_".

Definition metric_lines (kind : gostring) (m : gostring * gostring * Z) : gostring :=
  let '(n, help, val) := m in
  bs "# HELP " ++ metricPrefix ++ n ++ bs " " ++ help ++ [x0a] ++
  bs "# TYPE " ++ metricPrefix ++ n ++ bs " " ++ kind ++ [x0a] ++
  metricPrefix ++ n ++ bs " " ++ itoa val ++ [x0a].

Definition counters (m : Metrics) : list (gostring * gostring * Z) :=
  [(bs "events_received_total", bs "Query completed events received on /ingest.", eventsReceived m);
   (bs "events_invalid_total", bs "Events skipped because they failed validation.", eventsInvalid m);
   (bs "events_suppressed_total", bs "Events dropped because their source matched this service.", eventsSuppressed m);
   (bs "rows_enqueued_total", bs "Rows accepted into the in-memory buffer.", rowsEnqueued m);
   (bs "events_dropped_total", bs "Rows dropped: buffer full or closing, or batch abandoned after flush failures.", eventsDropped m);
   (bs "batches_flushed_total", bs "Batches successfully written to the store.", batchesFlushed m);
   (bs "rows_flushed_total", bs "Rows successfully written to the store.", rowsFlushed m);
   (bs "flush_failures_total", bs "Batches dropped after a flush failure (retries exhausted or non-retryable).", flushFailures m);
   (bs "flush_non_retryable_total", bs "Batches dropped without retrying because the store reported a deterministic error (missing table, auth failure, schema mismatch).", flushNonRetry m);
   (bs "cache_hits_total", bs "Read-through cache hits.", cacheHits m);
   (bs "cache_misses_total", bs "Read-through cache misses.", cacheMisses m);
   (bs "cache_errors_total", bs "Read-through cache backend or decode errors.", cacheErrors m)].

Definition gauges (s : BufferStats) : list (gostring * gostring * Z) :=
  [(bs "buffer_depth", bs "Rows currently queued in the in-memory buffer.", Depth s);
   (bs "buffer_capacity", bs "Maximum rows the in-memory buffer can hold.", Capacity s);
   (bs "last_flush_timestamp_seconds", bs "Unix time of the last successful flush.", Z.quot (LastFlushUnixMs s) 1000);
   (bs "last_flush_duration_ms", bs "Duration of the last successful flush in milliseconds.", LastFlushDurationMs s)].

(** The body [ServeHTTP] writes; the buffer source is unset in [ui] mode. *)
Definition metrics_text (m : Metrics) (src : option BufferStats) : gostring :=
  mjoin (metric_lines (bs "counter") <$> counters m) ++
  match src with None => [] | Some s => mjoin (metric_lines (bs "gauge") <$> gauges s) end.
