(* ===== verification/Buffer.v ===== *)
(** * Buffer: [internal/ingest/buffer.go]

    The in-memory buffer between the ingest handler and a store.  Producers
    ([Add], any number of them), [Close] and the flusher goroutine ([run],
    [drain], [flush]) interleave: a step of the machine is one channel
    operation, one insert attempt or one wait, and its label resolves what the
    Go scheduler and [select] leave open. *)

From S2P Require Import Prelude Errors GoTime Row Store Metrics.

Record Config := mkConfig {
  BatchSize : Z;
  FlushInterval : Duration;
  BufferCapacity : Z;
  MaxRetries : Z;
  FlushTimeout : Duration;
  RetryBackoff : Duration;
  RetryMaxBackoff : Duration
}.

(** The defaults [New] fills in. *)
Definition normalize (cfg : Config) : Config :=
  let timeout := if FlushTimeout cfg <=? 0 then 30 * Second else FlushTimeout cfg in
  let capacity := if BufferCapacity cfg <? 1 then 1 else BufferCapacity cfg in
  let backoff := if RetryBackoff cfg <=? 0 then 3 * Second else RetryBackoff cfg in
  let max_backoff := if RetryMaxBackoff cfg <? backoff then 30 * Second else RetryMaxBackoff cfg in
  mkConfig (BatchSize cfg) (FlushInterval cfg) capacity (MaxRetries cfg) timeout backoff max_backoff.

(** [dedupe]: the map [seen] from query id to index in [out]. *)
Definition dedupe_step (acc : gmap gostring nat * list Row) (r : Row) : gmap gostring nat * list Row :=
  let '(seen, out) := acc in
  match seen !! QueryID r with
  | Some i => (seen, <[i := r]> out)
  | None => (<[QueryID r := length out]> seen, out ++ [r])
  end.
Definition dedupe (rows : list Row) : list Row := snd (foldl dedupe_step (∅, []) rows).

(** [backoff = min(backoff*2, b.cfg.RetryMaxBackoff)], on int64. *)
Definition next_backoff (cfg : Config) (backoff : Duration) : Duration :=
  Z.min (wrap64 (backoff * 2)) (RetryMaxBackoff cfg).

Section writer.
Context {W : Type} `{Writer W}.

Definition split (rows : list Row) : list (list Row) :=
  match SplitBatch with
  | Some f => match f rows with [] => [rows] | chunks => chunks end
  | None => [rows]
  end.

(** The loop of [insert]. *)
Fixpoint insert_loop (chunks : list (list Row)) (committed : Z) (w : W) : W * Z * option gerror :=
  match chunks with
  | [] => (w, committed, None)
  | chunk :: rest =>
      match InsertBatch chunk w with
      | (w', Some err) => (w', committed + CommittedRows err, Some err)
      | (w', None) => insert_loop rest (committed + len chunk) w'
      end
  end.
Definition insert (rows : list Row) (w : W) : W * Z * option gerror := insert_loop (split rows) 0 w.

(** [min(max(committed, 0), len(rows))]. *)
Definition clamp_committed (committed : Z) (rows : list Row) : Z := Z.min (Z.max committed 0) (len rows).

(** What the flusher does after a flush: back to the [select] loop, back to
    [drain], or return. *)
Inductive cont := AfterLoop | AfterDrain | AfterStop.

(** Where the flusher goroutine is.  [Flush k rows attempt backoff] is the head of the
    retry loop, [Wait] its [select] on the timer. *)
Inductive pc :=
| Loop
| Draining
| Flush (k : cont) (rows : list Row) (attempt : Z) (backoff : Duration)
| Wait (k : cont) (rows : list Row) (attempt : Z) (backoff : Duration)
| Exited.

Record state := mkState {
  ch : list Row;
  stop : bool;
  cancelled : bool;
  at_pc : pc;
  batch : list Row;
  metrics : Metrics;
  lastFlushUnixMs : Z;
  lastFlushDurationMs : Z;
  world : W
}.

(** [b.done] is closed when the flusher has returned. *)
Definition done (s : state) : bool := match at_pc s with Exited => true | _ => false end.

Definition New_state (w : W) (m : Metrics) : state := mkState [] false false Loop [] m 0 0 w.

Definition set_pc (p : pc) (b : list Row) (s : state) : state :=
  mkState (ch s) (stop s) (cancelled s) p b (metrics s) (lastFlushUnixMs s) (lastFlushDurationMs s) (world s).
Definition set_ch (c : list Row) (s : state) : state :=
  mkState c (stop s) (cancelled s) (at_pc s) (batch s) (metrics s) (lastFlushUnixMs s) (lastFlushDurationMs s) (world s).
Definition set_metrics (m : Metrics) (s : state) : state :=
  mkState (ch s) (stop s) (cancelled s) (at_pc s) (batch s) m (lastFlushUnixMs s) (lastFlushDurationMs s) (world s).

Section step.
Context (cfg : Config).

(** The call [b.flush(batch)]: the rows of the retry loop are deduplicated. *)
Definition start_flush (k : cont) (b : list Row) (s : state) : state :=
  set_pc (Flush k (dedupe b) 0 (RetryBackoff cfg)) b s.

(** [flush] has returned; the batch is emptied. *)
Definition end_flush (k : cont) (s : state) : state :=
  set_pc (match k with AfterLoop => Loop | AfterDrain => Draining | AfterStop => Exited end) [] s.

(** A row received from the channel, in the loop or while draining. *)
Definition receive (k : cont) (back : pc) (r : Row) (q : list Row) (s : state) : state :=
  let b := batch s ++ [r] in
  if BatchSize cfg <=? len b then start_flush k b (set_ch q s) else set_pc back b (set_ch q s).

(** The code after the retry loop: the batch is given up. *)
Definition abandon (k : cont) (rows : list Row) (s : state) : state :=
  end_flush k (set_metrics (Dropped (len rows) (FlushFailed (metrics s))) s).

(** One iteration of the retry loop, started at [t0] and timed at [t1]. *)
Definition attempt_insert (k : cont) (rows : list Row) (attempt backoff t0 t1 : Z) (s : state) : state :=
  let '(w', c, err) := insert rows (world s) in
  let committed := clamp_committed c rows in
  let rows' := slice_from rows committed in
  let s' :=
    if 0 <? committed then
      mkState (ch s) (stop s) (cancelled s) (at_pc s) (batch s) (Flushed committed (metrics s))
        (t1 / Millisecond) (Z.quot (t1 - t0) Millisecond) w'
    else
      mkState (ch s) (stop s) (cancelled s) (at_pc s) (batch s) (metrics s)
        (lastFlushUnixMs s) (lastFlushDurationMs s) w' in
  match err with
  | None => end_flush k s'
  | Some e =>
      if errors_Is ENonRetryable e then
        abandon k rows' (set_metrics (FlushNonRetryable (metrics s')) s')
      else if cancelled s then abandon k rows' s'
      else if attempt <? MaxRetries cfg then set_pc (Wait k rows' attempt backoff) (batch s') s'
      else abandon k rows' s'
  end.

(** What happens next.  [AddSend], [AddStopped] and [AddFull] are the three
    cases of the [select] in [Add]. *)
Inductive label :=
| AddSend (r : Row)
| AddStopped (r : Row)
| AddFull (r : Row)
| CloseStop
| CloseCancel
| Recv
| Tick
| StopSeen
| DrainRecv
| DrainEnd
| Attempt (t0 t1 : time)
| Waited
| GiveUp.

Definition step (l : label) (s : state) : option state :=
  match l with
  | AddSend r =>
      if len (ch s) <? BufferCapacity cfg then
        Some (set_ch (ch s ++ [r]) (set_metrics (Enqueued (metrics s)) s))
      else None
  | AddStopped r => if stop s then Some (set_metrics (Dropped 1 (metrics s)) s) else None
  | AddFull r =>
      (* the default case runs only when neither other case is ready *)
      if negb (stop s) && (BufferCapacity cfg <=? len (ch s)) then
        Some (set_metrics (Dropped 1 (metrics s)) s)
      else None
  | CloseStop =>
      Some (mkState (ch s) true (cancelled s) (at_pc s) (batch s) (metrics s)
              (lastFlushUnixMs s) (lastFlushDurationMs s) (world s))
  | CloseCancel =>
      if stop s then
        Some (mkState (ch s) (stop s) true (at_pc s) (batch s) (metrics s)
                (lastFlushUnixMs s) (lastFlushDurationMs s) (world s))
      else None
  | Recv =>
      match at_pc s, ch s with
      | Loop, r :: q => Some (receive AfterLoop Loop r q s)
      | _, _ => None
      end
  | Tick =>
      match at_pc s with
      | Loop => match batch s with [] => Some s | b => Some (start_flush AfterLoop b s) end
      | _ => None
      end
  | StopSeen =>
      match at_pc s with
      | Loop => if stop s then Some (set_pc Draining (batch s) s) else None
      | _ => None
      end
  | DrainRecv =>
      match at_pc s, ch s with
      | Draining, r :: q => Some (receive AfterDrain Draining r q s)
      | _, _ => None
      end
  | DrainEnd =>
      match at_pc s, ch s with
      | Draining, [] =>
          match batch s with [] => Some (set_pc Exited [] s) | b => Some (start_flush AfterStop b s) end
      | _, _ => None
      end
  | Attempt t0 t1 =>
      match at_pc s with
      | Flush k rows attempt backoff =>
          if attempt <=? MaxRetries cfg then Some (attempt_insert k rows attempt backoff t0 t1 s) else None
      | _ => None
      end
  | Waited =>
      match at_pc s with
      | Wait k rows attempt backoff =>
          Some (set_pc (Flush k rows (attempt + 1) (next_backoff cfg backoff)) (batch s) s)
      | _ => None
      end
  | GiveUp =>
      match at_pc s with
      | Flush k rows attempt _ => if MaxRetries cfg <? attempt then Some (abandon k rows s) else None
      | _ => None
      end
  end.

(** A run of the machine along a list of labels. *)
Fixpoint run (ls : list label) (s : state) : option state :=
  match ls with
  | [] => Some s
  | l :: ls => match step l s with Some s' => run ls s' | None => None end
  end.
End step.

Definition Stats (cfg : Config) (s : state) : BufferStats :=
  mkBufferStats (len (ch s)) (BufferCapacity cfg) (lastFlushUnixMs s) (lastFlushDurationMs s).
End writer.

Arguments state W : clear implicits.
