(* ===== verification/BufferSpec.v ===== *)
(** * BufferSpec: what the ingest buffer promises

    A history of the rows accepted, written and lost runs beside the machine of
    [Buffer] (the history is not part of the program); the invariant ties it to
    the state, the counters and the ledger of any backend that keeps the
    contract of [Store].  The measure at the end bounds what the flusher still
    does once [stop] is closed. *)

From S2P Require Import Prelude Errors GoTime Row Store Metrics Buffer.

(** A finished flush: the batch it was called with, and what became of it. *)
Record batch_log := mkLog { raw : list Row; written : list Row; lost : list Row }.

Record history := mkHistory {
  accepted : list Row;
  finished : list batch_log;
  cur_written : list Row;
  rejected : Z
}.

Definition no_history : history := mkHistory [] [] [] 0.

(** [dedupe] by its result: the ids in the order of their first row, and the
    last row of each. *)
Definition ids (rows : list Row) : list gostring := QueryID <$> rows.
Definition first_ids (rows : list Row) : list gostring :=
  foldl (fun out i => if decide (i ∈ out) then out else out ++ [i]) [] (ids rows).
Definition last_with (i : gostring) (rows : list Row) : option Row :=
  last (filter (fun r => QueryID r = i) rows).

(** The delays of the retry loop: before retry [n] the flusher waits
    [delay cfg n]. *)
Fixpoint delay (cfg : Config) (n : nat) : Duration :=
  match n with O => RetryBackoff cfg | S n => next_backoff cfg (delay cfg n) end.

Section history.
Context {W : Type} `{Writer W} (cfg : Config).

Definition observe (l : label) (s s' : state W) (h : history) : history :=
  match l with
  | AddSend r => mkHistory (accepted h ++ [r]) (finished h) (cur_written h) (rejected h)
  | AddStopped _ | AddFull _ => mkHistory (accepted h) (finished h) (cur_written h) (rejected h + 1)
  | Attempt _ _ =>
      match at_pc s with
      | Flush k rows attempt backoff =>
          let '(_, c, err) := insert rows (world s) in
          let committed := clamp_committed c rows in
          let now := cur_written h ++ slice_to rows committed in
          match at_pc s' with
          | Wait _ _ _ _ => mkHistory (accepted h) (finished h) now (rejected h)
          | _ =>
              mkHistory (accepted h) (finished h ++ [mkLog (batch s) now (slice_from rows committed)]) []
                (rejected h)
          end
      | _ => h
      end
  | GiveUp =>
      match at_pc s with
      | Flush _ rows _ _ =>
          mkHistory (accepted h) (finished h ++ [mkLog (batch s) (cur_written h) rows]) [] (rejected h)
      | _ => h
      end
  | _ => h
  end.

(** The states reachable from [New], with rows the backend accepts. *)
Context (row_ok : Row -> Prop).
Definition label_ok (l : label) : Prop := match l with AddSend r => row_ok r | _ => True end.

Inductive reachable (w0 : W) : state W -> history -> Prop :=
| reach_new : reachable w0 (New_state w0 NewMetrics) no_history
| reach_step l s s' h :
    reachable w0 s h -> label_ok l -> step cfg l s = Some s' -> reachable w0 s' (observe l s s' h).

(** Rows of finished flushes that were given up, and that were written. *)
Definition all_written (h : history) : list Row := mjoin (written <$> finished h) ++ cur_written h.
Definition all_lost (h : history) : list Row := mjoin (lost <$> finished h).

(** The bound of a batch: [BatchSize], or one row when that is not positive. *)
Definition batch_bound : Z := Z.max 1 (BatchSize cfg).

Definition pc_inv (s : state W) (h : history) : Prop :=
  match at_pc s with
  | Loop => len (batch s) < batch_bound /\ cur_written h = []
  | Draining => len (batch s) < batch_bound /\ cur_written h = [] /\ stop s = true
  | Flush k rows a bo | Wait k rows a bo =>
      dedupe (batch s) = cur_written h ++ rows /\ batch s <> [] /\ len (batch s) <= batch_bound
      /\ 0 <= a /\ bo = delay cfg (Z.to_nat a)
      /\ match k with AfterLoop => True | _ => stop s = true end
      /\ match at_pc s with Wait _ _ _ _ => a < MaxRetries cfg | _ => a <= Z.max 0 (MaxRetries cfg) end
  | Exited => batch s = [] /\ cur_written h = [] /\ stop s = true
  end.

(** The attempts at the current batch so far, and a bound for the rows that
    failed attempts left open: once per attempt, of which a batch has
    [MaxRetries + 1]. *)
Definition attempts_max : nat := Z.to_nat (MaxRetries cfg + 1).
Definition tries (s : state W) : nat :=
  match at_pc s with
  | Flush _ _ a _ => Z.to_nat a
  | Wait _ _ a _ => Z.to_nat (a + 1)
  | _ => 0
  end.
Definition open_bound (s : state W) (h : history) : list Row :=
  copies attempts_max (mjoin (raw <$> finished h)) ++ copies (tries s) (batch s).

Record inv (ledger : list Row -> list Row -> W -> Prop) (norm : Row -> Row) (s : state W) (h : history) : Prop := {
  inv_cap : len (ch s) <= Z.max 0 (BufferCapacity cfg);
  inv_ok : Forall row_ok (accepted h);
  inv_fifo : mjoin (raw <$> finished h) ++ batch s ++ ch s = accepted h;
  inv_logs : Forall (fun b => dedupe (raw b) = written b ++ lost b) (finished h);
  inv_pc : pc_inv s h;
  inv_enqueued : rowsEnqueued (metrics s) = wrap64 (len (accepted h));
  inv_flushed : rowsFlushed (metrics s) = wrap64 (len (all_written h));
  inv_dropped : eventsDropped (metrics s) = wrap64 (rejected h + len (all_lost h));
  inv_ledger : exists open, open ⊆+ open_bound s h
                 /\ ledger (norm <$> all_written h) (norm <$> open) (world s);
}.

(** How many more steps the flusher can take once [stop] is closed and no
    producer sends any more. *)
Definition flush_cost (attempt : Z) : Z := 2 * Z.max 0 (MaxRetries cfg + 1 - attempt) + 1.
Definition flush_max : Z := flush_cost 0 + 1.
Definition shutdown_measure (s : state W) : Z :=
  2 * flush_max * len (ch s) +
  match at_pc s with
  | Loop => 3 + (if decide (batch s = []) then 0 else flush_max)
  | Draining => 2 + (if decide (batch s = []) then 0 else flush_max)
  | Flush k _ a _ => flush_cost a + match k with AfterLoop => 3 | AfterDrain => 2 | AfterStop => 0 end
  | Wait k _ a _ => flush_cost a - 1 + match k with AfterLoop => 3 | AfterDrain => 2 | AfterStop => 0 end
  | Exited => 0
  end.

(** The labels of the flusher goroutine, the tick that finds nothing to flush,
    and along a run the steps of the flusher that are not such ticks and the
    rows that producers still send. *)
Definition flusher (l : label) : bool :=
  match l with
  | AddSend _ | AddStopped _ | AddFull _ | CloseStop | CloseCancel => false
  | _ => true
  end.
Definition idle_tick (l : label) (s : state W) : bool :=
  match l, batch s with Tick, [] => true | _, _ => false end.
Fixpoint progress (ls : list label) (s : state W) : Z :=
  match ls with
  | [] => 0
  | l :: ls =>
      (if flusher l && negb (idle_tick l s) then 1 else 0)
      + match step cfg l s with Some s' => progress ls s' | None => 0 end
  end.
Definition sends (ls : list label) : Z := sumZ ((fun l => match l with AddSend _ => 1 | _ => 0 end) <$> ls).
End history.

(** ** Deduplication *)

(** The loop invariant of [dedupe] after the rows [seen_rows]. *)
Record dedupe_inv (seen : gmap gostring nat) (out seen_rows : list Row) : Prop := {
  di_index : forall i n, seen !! i = Some n <-> ids out !! n = Some i;
  di_ids : ids out = first_ids seen_rows;
  di_last : forall r, r ∈ out -> last_with (QueryID r) seen_rows = Some r;
}.

Lemma ids_snoc rows r : ids (rows ++ [r]) = ids rows ++ [QueryID r].
Proof. unfold ids. by rewrite fmap_app. Qed.

Lemma ids_length rows : length (ids rows) = length rows.
Proof. apply length_fmap. Qed.

Lemma first_ids_snoc rows r :
  first_ids (rows ++ [r])
  = if decide (QueryID r ∈ first_ids rows) then first_ids rows else first_ids rows ++ [QueryID r].
Proof. unfold first_ids. by rewrite ids_snoc, foldl_app. Qed.

Lemma last_with_snoc i rows r :
  last_with i (rows ++ [r]) = if decide (QueryID r = i) then Some r else last_with i rows.
Proof.
  unfold last_with. rewrite filter_app, filter_cons, filter_nil. case_decide.
  - apply last_snoc.
  - by rewrite app_nil_r.
Qed.

Lemma first_ids_NoDup rows : NoDup (first_ids rows).
Proof.
  induction rows as [|r rows IH] using rev_ind; [apply NoDup_nil_2|].
  rewrite first_ids_snoc. case_decide as Hr; [done|].
  apply NoDup_app. repeat split; [done| |apply NoDup_singleton].
  intros i Hi Hq. apply list_elem_of_singleton in Hq as ->. done.
Qed.

Lemma elem_of_first_ids i rows : i ∈ first_ids rows <-> i ∈ ids rows.
Proof.
  induction rows as [|r rows IH] using rev_ind; [done|].
  rewrite first_ids_snoc, ids_snoc, elem_of_app, <- IH, list_elem_of_singleton.
  case_decide; [|by rewrite elem_of_app, list_elem_of_singleton].
  split; [by left|]. by intros [ | -> ].
Qed.

(** A row whose id was seen replaces the earlier row in place. *)
Lemma dedupe_step_seen seen out rows r i :
  dedupe_inv seen out rows -> seen !! QueryID r = Some i ->
  dedupe_inv seen (<[i := r]> out) (rows ++ [r]).
Proof.
  intros [Hidx Hids Hlast] E. pose proof (proj1 (Hidx _ _) E) as Hi.
  assert (Hsame : ids (<[i := r]> out) = ids out).
  { unfold ids in *. rewrite list_fmap_insert. by apply list_insert_id. }
  split.
  - intros j n. rewrite Hsame. apply Hidx.
  - rewrite Hsame, first_ids_snoc, decide_True; [done|]. rewrite <- Hids. by eapply list_elem_of_lookup_2.
  - intros q Hq. rewrite last_with_snoc. apply list_elem_of_lookup in Hq as [j Hj].
    destruct (decide (i = j)) as [<-|Hne].
    + rewrite list_lookup_insert_eq in Hj by (apply lookup_lt_Some in Hi; by rewrite ids_length in Hi).
      injection Hj as ->. by rewrite decide_True.
    + rewrite list_lookup_insert_ne in Hj by done. rewrite decide_False.
      * apply Hlast. by eapply list_elem_of_lookup_2.
      * intros Heq. apply Hne. apply (NoDup_lookup (ids out) i j (QueryID r)); [rewrite Hids; apply first_ids_NoDup|done|].
        unfold ids. rewrite list_lookup_fmap, Hj. simpl. by rewrite Heq.
Qed.

(** A row with a new id is appended. *)
Lemma dedupe_step_new seen out rows r :
  dedupe_inv seen out rows -> seen !! QueryID r = None ->
  dedupe_inv (<[QueryID r := length out]> seen) (out ++ [r]) (rows ++ [r]).
Proof.
  intros [Hidx Hids Hlast] E.
  assert (Hx : QueryID r ∉ ids out).
  { intros [n Hx]%list_elem_of_lookup. apply Hidx in Hx. congruence. }
  pose proof (ids_length out) as Hlen. split.
  - intros i n. rewrite ids_snoc. destruct (decide (QueryID r = i)) as [<-|Hne].
    + rewrite lookup_insert_eq. split.
      * intros [= <-]. rewrite lookup_app_r by lia. by rewrite Hlen, Nat.sub_diag.
      * intros [Hn|[Hge Hn]]%lookup_app_Some; [apply Hidx in Hn; congruence|].
        apply lookup_lt_Some in Hn. simpl in Hn. f_equal. lia.
    + rewrite lookup_insert_ne, Hidx by done. split.
      * intros Hn. rewrite lookup_app_l; [done|]. by eapply lookup_lt_Some.
      * intros [Hn|[_ Hn]]%lookup_app_Some; [done|].
        destruct (n - length (ids out))%nat; [simpl in Hn; congruence|done].
  - rewrite ids_snoc, first_ids_snoc, <- Hids. by rewrite decide_False.
  - intros q Hq. rewrite last_with_snoc. apply elem_of_app in Hq as [Hq|Hq]; [|apply list_elem_of_singleton in Hq as ->].
    + rewrite decide_False; [by apply Hlast|]. intros Heq. apply Hx. rewrite Heq.
      apply list_elem_of_fmap. eauto.
    + by rewrite decide_True.
Qed.

Lemma dedupe_fold rows seen out seen_rows :
  dedupe_inv seen out seen_rows ->
  exists seen', dedupe_inv seen' (snd (foldl dedupe_step (seen, out) rows)) (seen_rows ++ rows).
Proof.
  revert seen out seen_rows. induction rows as [|r rows IH]; intros seen out done Hd.
  { exists seen. by rewrite app_nil_r. }
  cbn [foldl dedupe_step]. replace (done ++ r :: rows) with ((done ++ [r]) ++ rows)
    by (by rewrite <- app_assoc).
  destruct (seen !! QueryID r) as [i|] eqn:E; apply IH.
  - by apply dedupe_step_seen.
  - by apply dedupe_step_new.
Qed.

Lemma dedupe_result rows : exists seen, dedupe_inv seen (dedupe rows) rows.
Proof.
  apply (dedupe_fold rows ∅ [] []). split; [|done|set_solver].
  intros i n. rewrite lookup_empty. by split.
Qed.

Lemma dedupe_ids rows : ids (dedupe rows) = first_ids rows.
Proof. by destruct (dedupe_result rows) as [seen []]. Qed.

Lemma dedupe_last rows r : r ∈ dedupe rows -> last_with (QueryID r) rows = Some r.
Proof. destruct (dedupe_result rows) as [seen []]. auto. Qed.

Lemma dedupe_sub rows r : r ∈ dedupe rows -> r ∈ rows.
Proof.
  intros Hr%dedupe_last. unfold last_with in Hr. apply last_Some_elem_of in Hr.
  by apply list_elem_of_filter in Hr as [_ ?].
Qed.

(** The dedupe of a list holds no row more often than the list. *)
Lemma dedupe_submseteq rows : dedupe rows ⊆+ rows.
Proof.
  apply NoDup_submseteq.
  - apply (NoDup_fmap_1 QueryID). change (NoDup (ids (dedupe rows))). rewrite dedupe_ids. apply first_ids_NoDup.
  - intros r. apply dedupe_sub.
Qed.

Lemma dedupe_Forall (P : Row -> Prop) rows : Forall P rows -> Forall P (dedupe rows).
Proof. rewrite !Forall_forall. intros H r Hr. by apply H, dedupe_sub. Qed.

Lemma dedupe_nonempty rows : rows <> [] -> dedupe rows <> [].
Proof.
  intros Hne E. destruct rows as [|r rows]; [done|].
  assert (Hin : QueryID r ∈ first_ids (r :: rows)) by (apply elem_of_first_ids; by left).
  rewrite <- dedupe_ids, E in Hin. by apply elem_of_nil in Hin.
Qed.

(** ** The invariant *)

(** What one iteration of the retry loop does, by the outcome of [insert]. *)
Lemma attempt_outcome {W} `{Writer W} cfg k rows a bo t0 t1 (s s' : state W) h w' c e :
  at_pc s = Flush k rows a bo -> insert rows (world s) = (w', c, e) ->
  step cfg (Attempt t0 t1) s = Some s' ->
  let cc := clamp_committed c rows in
  let rest := slice_from rows cc in
  let now := cur_written h ++ slice_to rows cc in
  ch s' = ch s /\ stop s' = stop s /\ world s' = w'
  /\ rowsEnqueued (metrics s') = rowsEnqueued (metrics s)
  /\ rowsFlushed (metrics s')
     = (if 0 <? cc then wrap64 (rowsFlushed (metrics s) + cc) else rowsFlushed (metrics s))
  /\ ((at_pc s' = Wait k rest a bo /\ batch s' = batch s /\ a < MaxRetries cfg
       /\ eventsDropped (metrics s') = eventsDropped (metrics s)
       /\ observe (Attempt t0 t1) s s' h = mkHistory (accepted h) (finished h) now (rejected h))
      \/ (at_pc s' = match k with AfterLoop => Loop | AfterDrain => Draining | AfterStop => Exited end
          /\ batch s' = []
          /\ eventsDropped (metrics s')
             = match e with None => eventsDropped (metrics s) | _ => wrap64 (eventsDropped (metrics s) + len rest) end
          /\ observe (Attempt t0 t1) s s' h
             = mkHistory (accepted h) (finished h ++ [mkLog (batch s) now rest]) [] (rejected h))).
Proof.
  intros Hpc Hi Hs cc rest now. cbn [step] in Hs. rewrite Hpc in Hs.
  destruct (a <=? MaxRetries cfg); [|done]. injection Hs as <-.
  cbn [observe]. rewrite Hpc, Hi. fold cc rest now.
  unfold attempt_insert. rewrite Hi. fold cc rest.
  destruct e as [e|]; [destruct (errors_Is ENonRetryable e); [|destruct (cancelled s); [|destruct (Z.ltb_spec a (MaxRetries cfg))]]|];
    destruct (0 <? cc); (split_and!; [done..|]); (right + left); destruct k; (split_and!; solve [done | lia]).
Qed.

Lemma clamp_committed_range c rows : 0 <= clamp_committed c rows <= len rows.
Proof. unfold clamp_committed. pose proof (len_nonneg rows). lia. Qed.

Lemma wrap64_counter (b : bool) n a c :
  n = wrap64 a -> (b = false -> c = 0) -> (if b then wrap64 (n + c) else n) = wrap64 (a + c).
Proof.
  intros -> Hb. destruct b; [apply wrap64_add|]. rewrite Hb by done. by rewrite Z.add_0_r.
Qed.

Section laws.
Context {W : Type} `{Writer W} {ledger : list Row -> list Row -> W -> Prop} {norm : Row -> Row} {row_ok : Row -> Prop}.
Context {laws : WriterLedger W ledger norm row_ok}.

Lemma split_rows_eq rows :
  Forall row_ok rows ->
  (split rows = [rows] \/ mjoin (split rows) = norm <$> rows)
  /\ Forall (Forall row_ok) (split rows).
Proof using laws.
  intros Hok. unfold split. destruct SplitBatch as [f|] eqn:E; [|split; [by left|by constructor]].
  destruct (f rows) as [|c chunks] eqn:Ef; [split; [by left|by constructor]|].
  pose proof (ledger_split f rows E Hok) as Hj. rewrite Ef in Hj. split; [by right|].
  assert (Hall : Forall row_ok (mjoin (c :: chunks))).
  { rewrite Hj. apply Forall_fmap. eapply Forall_impl; [done|]. intros r. apply ledger_norm_ok. }
  clear -Hall. induction (c :: chunks) as [|d l IH]; [done|].
  rewrite mjoin_cons in Hall. apply Forall_app in Hall as [? ?]. constructor; auto.
Qed.

Lemma insert_loop_commits chunks c0 w w' c e :
  Forall (Forall row_ok) chunks -> insert_loop chunks c0 w = (w', c, e) ->
  c0 <= c <= c0 + len (mjoin chunks) /\ (e = None -> c = c0 + len (mjoin chunks))
  /\ forall told open, ledger told open w ->
       ledger (told ++ (norm <$> slice_to (mjoin chunks) (c - c0)))
         (open ++ (norm <$> slice_from (mjoin chunks) (c - c0))) w'.
Proof using laws.
  revert c0 w. induction chunks as [|d chunks IH]; intros c0 w Hok; cbn [insert_loop].
  { intros [= <- <- <-]. rewrite Z.sub_diag. change (mjoin []) with (@nil Row).
    change (len []) with 0. split_and!; [lia|lia|lia|]. intros told open Hl. by rewrite !app_nil_r. }
  apply Forall_cons in Hok as [Hd Hok]. rewrite mjoin_cons, len_app.
  pose proof (len_nonneg (mjoin chunks)). pose proof (len_nonneg d).
  destruct (InsertBatch d w) as [w1 [err|]] eqn:E; pose proof (insert_ledger _ _ _ _ Hd E) as [Hr Ht]; cbn [committed_of] in *.
  - intros [= <- <- <-]. split_and!; [lia|lia|done|]. intros told open Hl. apply Ht in Hl.
    replace (c0 + CommittedRows err - c0) with (CommittedRows err) by lia. unfold slice_to, slice_from in *.
    rewrite take_app_le, drop_app_le, fmap_app by llia.
    eapply ledger_open; [exact Hl|]. apply submseteq_app; [done|]. by apply submseteq_inserts_r.
  - intros Hl. apply IH in Hl as (Hb & He & Ht'); [|done]. split_and!; [lia|lia|intros; rewrite He by done; lia|].
    intros told open Hl. apply Ht in Hl. apply Ht' in Hl. rewrite slice_to_all in Hl by lia.
    revert Hl. unfold slice_to, slice_from. rewrite (drop_ge d) by llia. rewrite app_nil_r, <- app_assoc, <- fmap_app.
    rewrite (take_app_ge d), (drop_app_ge d) by llia.
    replace (Z.to_nat (c - c0) - length d)%nat with (Z.to_nat (c - (c0 + len d))) by llia. done.
Qed.

(** [insert]: the reported count is the prefix that was told to be written, and
    all of the rows when there is no error; the rest is open. *)
Lemma insert_spec rows w w' c e :
  Forall row_ok rows -> insert rows w = (w', c, e) ->
  0 <= c <= len rows /\ (e = None -> c = len rows)
  /\ forall told open, ledger told open w ->
       ledger (told ++ (norm <$> slice_to rows c)) (open ++ (norm <$> slice_from rows c)) w'.
Proof using laws.
  intros Hok Hi. destruct (split_rows_eq rows Hok) as [Hj Hch].
  apply insert_loop_commits in Hi as (Hr & He & Ht); [|done].
  rewrite Z.add_0_l in *. rewrite Z.sub_0_r in Ht. destruct Hj as [Hj|Hj].
  - rewrite Hj in *. change (mjoin [rows]) with (rows ++ []) in *. rewrite app_nil_r in *. auto.
  - assert (Hidem : norm <$> (norm <$> rows) = norm <$> rows).
    { rewrite <- list_fmap_compose. apply list_fmap_ext. intros i r Hl. apply ledger_norm_idem.
      by eapply Forall_lookup_1. }
    rewrite Hj, len_fmap in *. split_and!; [lia|lia|done|]. intros told open Hl. apply Ht in Hl. revert Hl.
    unfold slice_to, slice_from. by rewrite !fmap_take, !fmap_drop, Hidem.
Qed.

Lemma insert_clamped rows w w' c e :
  Forall row_ok rows -> insert rows w = (w', c, e) -> clamp_committed c rows = c.
Proof using laws. intros Hok Hi. apply insert_spec in Hi as (? & _); [|done]. unfold clamp_committed. lia. Qed.
End laws.

Section invariant.
Context {W : Type} `{Writer W} (cfg : Config) {ledger : list Row -> list Row -> W -> Prop} {norm : Row -> Row}.
Context {row_ok : Row -> Prop} {laws : WriterLedger W ledger norm row_ok}.

(** A step that only moves the flusher or takes a row off the channel. *)
Lemma inv_move s s' h :
  inv cfg row_ok ledger norm s h ->
  batch s' ++ ch s' = batch s ++ ch s -> len (ch s') <= len (ch s) ->
  metrics s' = metrics s -> world s' = world s -> pc_inv cfg s' h ->
  tries s = 0%nat \/ tries s' = tries s /\ batch s' = batch s ->
  inv cfg row_ok ledger norm s' h.
Proof.
  intros [] Hb Hl Hm Hw Hp Ht. split; rewrite ?Hm, ?Hw, ?Hb; try done; [lia|].
  destruct inv_ledger0 as (open & Ho & Hg). exists open. split; [|done]. etrans; [exact Ho|].
  unfold open_bound. destruct Ht as [->|[-> ->]]; [|done]. apply submseteq_app; [done|apply submseteq_nil_l].
Qed.

Lemma pc_inv_start k (s : state W) h :
  cur_written h = [] -> batch s <> [] -> len (batch s) <= batch_bound cfg ->
  (k <> AfterLoop -> stop s = true) -> pc_inv cfg (start_flush cfg k (batch s) s) h.
Proof.
  intros Hc Hb Hl Hk. unfold pc_inv, start_flush. cbn. rewrite Hc.
  split_and!; try done; try lia. destruct k; auto.
Qed.

Lemma inv_receive k back r q s h :
  inv cfg row_ok ledger norm s h -> ch s = r :: q -> at_pc s = back ->
  (k = AfterLoop /\ back = Loop) \/ (k = AfterDrain /\ back = Draining) ->
  inv cfg row_ok ledger norm (receive cfg k back r q s) h.
Proof.
  intros Hi Hq Hpc Hk. pose proof (inv_pc _ _ _ _ _ _ Hi) as Hp. unfold pc_inv in Hp. rewrite Hpc in Hp.
  assert (Hl : len (batch s) < batch_bound cfg /\ cur_written h = [] /\ (back = Draining -> stop s = true)).
  { destruct Hk as [[-> ->]|[-> ->]]; naive_solver. }
  destruct Hl as (Hl & Hc & Hst).
  assert (Htr : tries s = 0%nat) by (unfold tries; destruct Hk as [[_ ->]|[_ ->]]; by rewrite Hpc).
  apply (inv_move s); [done|..|by left]; unfold receive;
    destruct (Z.leb_spec (BatchSize cfg) (len (batch s ++ [r]))) as [Hge|Hlt];
    cbn; rewrite ?Hq, <- ?app_assoc; try done; try llia.
  - apply (pc_inv_start k (set_pc back (batch s ++ [r]) (set_ch q s))); cbn; [done|by destruct (batch s)|llia|].
    intros ?. apply Hst. naive_solver.
  - rewrite len_app in Hlt. unfold pc_inv, batch_bound in *. cbn.
    destruct Hk as [[-> ->]|[-> ->]]; cbn; rewrite len_app; naive_solver lia.
Qed.

Lemma mjoin_snoc {A B} (f : A -> list B) l x : mjoin (f <$> l ++ [x]) = mjoin (f <$> l) ++ f x.
Proof.
  induction l as [|y l IH]; [apply app_nil_r|]. cbn [app]. rewrite !fmap_cons, !mjoin_cons, IH.
  by rewrite app_assoc.
Qed.

Lemma all_written_finish acc fin b now rest rej :
  all_written (mkHistory acc (fin ++ [mkLog b now rest]) [] rej) = mjoin (written <$> fin) ++ now.
Proof. unfold all_written. cbn [finished cur_written]. by rewrite mjoin_snoc, app_nil_r. Qed.

Lemma all_lost_finish acc fin b now rest rej :
  all_lost (mkHistory acc (fin ++ [mkLog b now rest]) [] rej) = mjoin (lost <$> fin) ++ rest.
Proof. unfold all_lost. cbn [finished]. by rewrite mjoin_snoc. Qed.

Lemma inv_batch_ok s h : inv cfg row_ok ledger norm s h -> Forall row_ok (batch s).
Proof.
  intros [I_cap I_ok I_fifo I_logs I_pc I_enqueued I_flushed I_dropped I_ledger]. rewrite <- I_fifo, !Forall_app in I_ok. naive_solver.
Qed.

Lemma inv_rows_ok s h k rows a bo :
  inv cfg row_ok ledger norm s h -> at_pc s = Flush k rows a bo -> Forall row_ok rows.
Proof.
  intros Hi Hpc. pose proof (dedupe_Forall row_ok _ (inv_batch_ok _ _ Hi)) as Hd.
  pose proof (inv_pc _ _ _ _ _ _ Hi) as Hp. unfold pc_inv in Hp. rewrite Hpc in Hp.
  destruct Hp as (Hp & _). rewrite Hp in Hd. by apply Forall_app in Hd as [_ ?].
Qed.

(** The rows that an attempt leaves open stay within the bound. *)
Lemma open_bound_attempt (s : state W) h k rows a bo open rest :
  at_pc s = Flush k rows a bo -> 0 <= a -> open ⊆+ open_bound cfg s h -> rest ⊆+ batch s ->
  open ++ rest ⊆+ copies (attempts_max cfg) (mjoin (raw <$> finished h)) ++ copies (S (Z.to_nat a)) (batch s).
Proof.
  intros Hpc Ha Ho Hr. unfold open_bound, tries in Ho. rewrite Hpc in Ho.
  change (copies (S (Z.to_nat a)) (batch s)) with (batch s ++ copies (Z.to_nat a) (batch s)).
  rewrite (Permutation_app_comm (batch s)), app_assoc. by apply submseteq_app.
Qed.

Lemma open_bound_finish (s' : state W) h b now rest n :
  tries s' = 0%nat -> (n <= attempts_max cfg)%nat ->
  copies (attempts_max cfg) (mjoin (raw <$> finished h)) ++ copies n b
  ⊆+ open_bound cfg s' (mkHistory (accepted h) (finished h ++ [mkLog b now rest]) [] (rejected h)).
Proof.
  intros Ht Hn. unfold open_bound. cbn [finished]. rewrite Ht, mjoin_snoc. cbn [raw]. change (copies 0 (batch s')) with (@nil Row).
  rewrite app_nil_r, copies_app. apply submseteq_app; [done|]. by apply copies_le.
Qed.

(** The rows of a finished flush leave the batch for the log. *)
Lemma fifo_finish fin b now rest q :
  mjoin (raw <$> fin ++ [mkLog b now rest]) ++ [] ++ q = mjoin (raw <$> fin) ++ b ++ q.
Proof. rewrite mjoin_snoc. by rewrite <- app_assoc. Qed.

Lemma inv_attempt t0 t1 k rows a bo s s' h :
  inv cfg row_ok ledger norm s h -> at_pc s = Flush k rows a bo ->
  step cfg (Attempt t0 t1) s = Some s' ->
  inv cfg row_ok ledger norm s' (observe (Attempt t0 t1) s s' h).
Proof using laws.
  intros Hi Hpc Hs. destruct (insert rows (world s)) as [[w' c] e] eqn:Ei.
  pose proof (inv_rows_ok _ _ _ _ _ _ Hi Hpc) as Hok.
  pose proof (insert_spec _ _ _ _ _ Hok Ei) as (Hr & He & Ht).
  pose proof (attempt_outcome cfg k rows a bo t0 t1 s s' h w' c e Hpc Ei Hs) as Ho.
  rewrite (insert_clamped _ _ _ _ _ Hok Ei) in Ho. cbn zeta in Ho.
  destruct Ho as (Hch & Hst & Hw & Hq & Hf & Hcase).
  assert (Hf' : rowsFlushed (metrics s')
    = wrap64 (len (mjoin (written <$> finished h) ++ cur_written h ++ slice_to rows c))).
  { rewrite Hf. erewrite wrap64_counter; [|apply (inv_flushed _ _ _ _ _ _ Hi)|intros Hb; lia].
    f_equal. unfold all_written. rewrite !len_app, len_slice_to by lia. lia. }
  pose proof (inv_pc _ _ _ _ _ _ Hi) as Hp. unfold pc_inv in Hp. rewrite Hpc in Hp.
  destruct Hp as (Hd & Hne & Hbl & Ha & Hbo & Hk & _).
  assert (Hd' : dedupe (batch s) = (cur_written h ++ slice_to rows c) ++ slice_from rows c).
  { by rewrite <- app_assoc, slice_to_from. }
  assert (Hsub : slice_from rows c ⊆+ batch s).
  { etrans; [|apply dedupe_submseteq]. rewrite Hd'. by apply submseteq_inserts_l. }
  destruct (inv_ledger _ _ _ _ _ _ Hi) as (open & Ho & Hg). apply Ht in Hg. rewrite <- !fmap_app in Hg.
  rewrite <- Hw in Hg. unfold all_written in Hg. rewrite <- app_assoc in Hg.
  pose proof (open_bound_attempt s h k rows a bo open _ Hpc Ha Ho Hsub) as Hb'.
  assert (Hmax : a <= MaxRetries cfg) by (cbn [step] in Hs; rewrite Hpc in Hs; by destruct (Z.leb_spec a (MaxRetries cfg))).
  assert (Ht0 : at_pc s' = match k with AfterLoop => Loop | AfterDrain => Draining | AfterStop => Exited end -> tries s' = 0%nat)
    by (intros E; unfold tries; rewrite E; by destruct k).
  destruct Hcase as [(Hpc' & Hb & Hlt & Hdr & ->)|(Hpc' & Hb & Hdr & ->)]; destruct Hi as [I_cap I_ok I_fifo I_logs I_pc I_enqueued I_flushed I_dropped I_ledger]; split; cbn [accepted finished cur_written rejected];
    rewrite ?Hch, ?Hq, ?Hf', ?Hb; try done.
  - unfold pc_inv. rewrite Hpc', Hb, Hst. cbn [cur_written]. auto 10.
  - by rewrite Hdr.
  - exists (open ++ slice_from rows c). split; [|exact Hg]. unfold open_bound, tries. cbn [finished].
    rewrite Hpc', Hb. by replace (Z.to_nat (a + 1)) with (S (Z.to_nat a)) by lia.
  - by rewrite fifo_finish.
  - apply Forall_app. split; [done|]. by constructor.
  - unfold pc_inv. rewrite Hpc', Hb, Hst. unfold batch_bound. destruct k; cbn; (split_and!; [llia || done..]).
  - by rewrite all_written_finish.
  - rewrite all_lost_finish, Hdr, len_app, Z.add_assoc. destruct e as [e|].
    + by rewrite I_dropped, wrap64_add.
    + rewrite He by done. rewrite len_slice_from by lia. rewrite I_dropped. f_equal. unfold all_lost. lia.
  - exists (open ++ slice_from rows c). rewrite all_written_finish. split; [|exact Hg]. etrans; [exact Hb'|].
    apply open_bound_finish; [by apply Ht0|]. unfold attempts_max. lia.
Qed.

Lemma inv_abandon k rows a bo s h :
  inv cfg row_ok ledger norm s h -> at_pc s = Flush k rows a bo ->
  inv cfg row_ok ledger norm (abandon k rows s)
    (mkHistory (accepted h) (finished h ++ [mkLog (batch s) (cur_written h) rows]) [] (rejected h)).
Proof.
  intros Hi Hpc. pose proof (inv_pc _ _ _ _ _ _ Hi) as Hp. unfold pc_inv in Hp. rewrite Hpc in Hp.
  destruct Hp as (Hd & Hne & Hbl & Ha & Hbo & Hk & Ham).
  destruct Hi as [I_cap I_ok I_fifo I_logs I_pc I_enqueued I_flushed I_dropped I_ledger]; split; cbn [accepted finished cur_written rejected]; try done.
  - cbn [abandon end_flush set_pc set_metrics batch ch]. by rewrite fifo_finish.
  - apply Forall_app. split; [done|]. by constructor.
  - unfold pc_inv, batch_bound. destruct k; cbn; (split_and!; [llia || done..]).
  - by rewrite all_written_finish.
  - rewrite all_lost_finish. change (eventsDropped (metrics (abandon k rows s)))
      with (wrap64 (eventsDropped (metrics s) + len rows)).
    rewrite I_dropped, wrap64_add, len_app. f_equal. unfold all_lost. lia.
  - destruct I_ledger as (open & Ho & Hg). exists open. rewrite all_written_finish. split; [|exact Hg].
    etrans; [exact Ho|]. unfold open_bound at 1, tries at 1. rewrite Hpc.
    apply open_bound_finish; [by destruct k|]. unfold attempts_max. lia.
Qed.

Lemma inv_add r s s' h :
  inv cfg row_ok ledger norm s h -> row_ok r -> step cfg (AddSend r) s = Some s' ->
  inv cfg row_ok ledger norm s' (observe (AddSend r) s s' h).
Proof.
  intros [I_cap I_ok I_fifo I_logs I_pc I_enqueued I_flushed I_dropped I_ledger] Hr. cbn [step]. destruct (Z.ltb_spec (len (ch s)) (BufferCapacity cfg)); [|done].
  intros [= <-]. split; try done.
  - cbn. llia.
  - cbn. apply Forall_app. split; [done|]. by constructor.
  - cbn. by rewrite <- I_fifo, <- !app_assoc.
  - cbn [observe accepted]. change (rowsEnqueued _) with (wrap64 (rowsEnqueued (metrics s) + 1)).
    rewrite I_enqueued, wrap64_add. f_equal. llia.
Qed.

Lemma inv_reject s h :
  inv cfg row_ok ledger norm s h ->
  inv cfg row_ok ledger norm (set_metrics (Dropped 1 (metrics s)) s)
    (mkHistory (accepted h) (finished h) (cur_written h) (rejected h + 1)).
Proof.
  intros [I_cap I_ok I_fifo I_logs I_pc I_enqueued I_flushed I_dropped I_ledger]. split; try done.
  change (eventsDropped _) with (wrap64 (eventsDropped (metrics s) + 1)).
  rewrite I_dropped, wrap64_add. f_equal. unfold all_lost. cbn. lia.
Qed.

Context (w0 : W) (start : ledger [] [] w0).

Lemma inv_new : inv cfg row_ok ledger norm (New_state w0 NewMetrics) no_history.
Proof using start.
  split; try done.
  - cbn. llia.
  - unfold pc_inv, batch_bound. cbn. split; [llia|done].
  - exists []. split; [apply submseteq_nil_l|exact start].
Qed.

(** The steps that neither write nor log anything. *)
Definition silent (l : label) : bool :=
  match l with AddSend _ | AddStopped _ | AddFull _ | Attempt _ _ | GiveUp => false | _ => true end.

(** The flusher is not in a flush, or stays where it is in one. *)
Ltac still := first [done | by right | left; unfold tries; match goal with E : at_pc _ = _ |- _ => by rewrite E end].

Lemma inv_silent l s s' h :
  silent l = true -> inv cfg row_ok ledger norm s h -> step cfg l s = Some s' ->
  inv cfg row_ok ledger norm s' h.
Proof.
  intros Hl Hi Hs. pose proof (inv_pc _ _ _ _ _ _ Hi) as Hp. unfold pc_inv in Hp.
  destruct l; try done; cbn [step] in Hs.
  - injection Hs as <-. apply (inv_move s); try still. unfold pc_inv. cbn.
    destruct (at_pc s) as [| |[]|[]|]; intuition.
  - destruct (stop s) eqn:E; [|done]. injection Hs as <-. apply (inv_move s); try still.
  - destruct (at_pc s) eqn:E; try done. destruct (ch s) eqn:Eq; [done|]. injection Hs as <-.
    eapply inv_receive; [done..|by left].
  - destruct (at_pc s) eqn:E; try done. destruct (batch s) as [|b l] eqn:Eb; [by injection Hs as <-|].
    injection Hs as <-. rewrite <- Eb in *. apply (inv_move s); try still.
    apply pc_inv_start; [tauto|by rewrite Eb|lia|done].
  - destruct (at_pc s) eqn:E; try done. destruct (stop s) eqn:Es; [|done]. injection Hs as <-.
    apply (inv_move s); try still. unfold pc_inv. cbn. tauto.
  - destruct (at_pc s) eqn:E; try done. destruct (ch s) eqn:Eq; [done|]. injection Hs as <-.
    eapply inv_receive; [done..|by right].
  - destruct (at_pc s) eqn:E; try done. destruct (ch s) eqn:Eq; [|done].
    destruct (batch s) as [|b l] eqn:Eb; injection Hs as <-.
    + apply (inv_move s); cbn; rewrite ?Eb, ?Eq; try still. unfold pc_inv. cbn. tauto.
    + rewrite <- Eb in *. apply (inv_move s); try still.
      apply pc_inv_start; [tauto|by rewrite Eb|lia|tauto].
  - destruct (at_pc s) eqn:E; try done. injection Hs as <-.
    apply (inv_move s); try still; [|right; unfold tries; cbn; by rewrite E]. unfold pc_inv. cbn. destruct Hp as (? & ? & ? & ? & -> & ? & ?). split_and!; try done; try lia.
    by replace (Z.to_nat (attempt + 1)) with (S (Z.to_nat attempt)) by lia.
Qed.

Lemma observe_silent l (s s' : state W) h : silent l = true -> observe l s s' h = h.
Proof. by destruct l. Qed.

Lemma inv_step l s s' h :
  inv cfg row_ok ledger norm s h -> label_ok row_ok l -> step cfg l s = Some s' ->
  inv cfg row_ok ledger norm s' (observe l s s' h).
Proof using laws.
  intros Hi Hl Hs. destruct (silent l) eqn:E.
  { rewrite observe_silent by done. by eapply inv_silent. }
  destruct l; try done.
  - by apply inv_add.
  - cbn [step] in Hs. destruct (stop s); [|done]. injection Hs as <-. by apply inv_reject.
  - cbn [step] in Hs. destruct (_ && _); [|done]. injection Hs as <-. by apply inv_reject.
  - destruct (at_pc s) eqn:Hpc; try (cbn [step] in Hs; by rewrite Hpc in Hs). by eapply inv_attempt.
  - cbn [step] in Hs. cbn [observe]. destruct (at_pc s) eqn:Hpc; try done.
    destruct (MaxRetries cfg <? attempt); [|done]. injection Hs as <-. by eapply inv_abandon.
Qed.

Lemma inv_reachable s h : reachable cfg row_ok w0 s h -> inv cfg row_ok ledger norm s h.
Proof using laws start. induction 1; [apply inv_new|]. by eapply inv_step. Qed.
End invariant.

(** The invariant over a backend that keeps the contract to the letter. *)
Section exact.
Context {W : Type} `{Writer W} {table : W -> list Row} {norm : Row -> Row} {row_ok : Row -> Prop}.
Context {laws : WriterLaws W table norm row_ok} (cfg : Config) (w0 : W).

Lemma inv_exact s h : reachable cfg row_ok w0 s h -> inv cfg row_ok (exact_ledger table w0) norm s h.
Proof using laws.
  apply inv_reachable; [apply exact_ledger_laws|]. unfold exact_ledger. by rewrite app_nil_r.
Qed.

Lemma inv_exact_table s h :
  inv cfg row_ok (exact_ledger table w0) norm s h -> table (world s) = table w0 ++ (norm <$> all_written h).
Proof. intros Hi. by destruct (inv_ledger _ _ _ _ _ _ Hi) as (open & _ & Hg). Qed.
End exact.

(** The invariant over a table whose failed statements may have been carried
    out: what the table holds besides the rows told to be written. *)
Lemma open_bound_accepted {W} {ledger norm row_ok} cfg (s : state W) h :
  inv cfg row_ok ledger norm s h -> open_bound cfg s h ⊆+ copies (attempts_max cfg) (accepted h).
Proof.
  intros [I_cap I_ok I_fifo I_logs I_pc I_enqueued I_flushed I_dropped I_ledger].
  rewrite <- I_fifo, app_assoc, copies_app. apply submseteq_inserts_r. rewrite copies_app.
  apply submseteq_app; [done|]. apply copies_le. unfold tries, attempts_max, pc_inv in *.
  destruct (at_pc s); lia.
Qed.

Lemma table_ledger_start {W} (table : W -> list Row) keep sure w0 : table_ledger table keep sure w0 [] [] w0.
Proof. exists []. cbn. rewrite app_nil_r. by split_and!. Qed.

Lemma inv_table_ledger {W} {table keep sure w0 norm row_ok} cfg (s : state W) h :
  inv cfg row_ok (table_ledger table keep sure w0) norm s h ->
  exists hidden,
    table (world s) ≡ₚ table w0 ++ (keep <$> (norm <$> all_written h ++ hidden))
    /\ hidden ⊆+ copies (attempts_max cfg) (accepted h)
    /\ (sure -> hidden = [] /\ table (world s) = table w0 ++ (keep <$> (norm <$> all_written h))).
Proof.
  intros Hi. destruct (inv_ledger _ _ _ _ _ _ Hi) as (open & Ho & hidden & Hh & Ht & Hs).
  apply submseteq_fmap_inv in Hh as (hid & Hh & ->). exists hid. rewrite fmap_app. split_and!; [done| |].
  - etrans; [exact Hh|]. etrans; [exact Ho|]. by eapply open_bound_accepted.
  - intros sure'. destruct (Hs sure') as [Hn Hw]. by apply fmap_nil_inv in Hn as ->.
Qed.

(** ** Shutdown *)

Section shutdown.
Context {W : Type} `{Writer W} (cfg : Config).

(** Attempts count up from 0, and the retry timer runs only when a retry is left. *)
Definition retry_left (s : state W) : Prop :=
  match at_pc s with
  | Wait _ _ a _ => 0 <= a < MaxRetries cfg
  | Flush _ _ a _ => 0 <= a
  | _ => True
  end.

Lemma attempt_retry_left k rows a bo t0 t1 (s : state W) :
  0 <= a -> retry_left (attempt_insert cfg k rows a bo t0 t1 s).
Proof.
  intros Ha. unfold attempt_insert, retry_left. destruct (insert rows (world s)) as [[w' c] e].
  destruct e as [e|]; [destruct (errors_Is ENonRetryable e); [|destruct (cancelled s); [|bcase]]|];
    destruct k; cbn; try done; destruct (0 <? _); cbn; done.
Qed.

Lemma retry_left_step l s s' : retry_left s -> step cfg l s = Some s' -> retry_left s'.
Proof.
  intros Hr Hs. destruct l; cbn [step] in Hs; unfold receive, abandon, end_flush in Hs;
    repeat case_match; simplify_eq; try done; unfold retry_left in *; cbn in *; simplify_eq;
    try done; try lia; try (apply attempt_retry_left); repeat case_match; simplify_eq; try done; lia.
Qed.

Lemma retry_left_reachable row_ok w0 s h : reachable cfg row_ok w0 s h -> retry_left s.
Proof. induction 1; [done|]. by eapply retry_left_step. Qed.

Lemma flush_cost_pos a : 1 <= flush_cost cfg a.
Proof. unfold flush_cost. lia. Qed.

Lemma receive_measure k back r q (s : state W) :
  (k = AfterLoop /\ back = Loop) \/ (k = AfterDrain /\ back = Draining) ->
  ch s = r :: q -> at_pc s = back ->
  shutdown_measure cfg (receive cfg k back r q s) < shutdown_measure cfg s.
Proof.
  intros Hk Hq Hpc. pose proof (flush_cost_pos 0). unfold receive.
  destruct (BatchSize cfg <=? len (batch s ++ [r])); unfold shutdown_measure, start_flush, flush_max;
    cbn; rewrite Hq, Hpc, len_cons; pose proof (len_nonneg q);
    destruct Hk as [[-> ->]|[-> ->]]; repeat case_decide; lia.
Qed.

Lemma attempt_measure k rows a bo t0 t1 (s s' : state W) :
  at_pc s = Flush k rows a bo -> step cfg (Attempt t0 t1) s = Some s' ->
  shutdown_measure cfg s' < shutdown_measure cfg s.
Proof.
  intros Hpc Hs. destruct (insert rows (world s)) as [[w' c] e] eqn:Ei.
  destruct (attempt_outcome cfg k rows a bo t0 t1 s s' no_history w' c e Hpc Ei Hs)
    as (Hch & _ & _ & _ & _ & [(Hpc' & _)|(Hpc' & Hb & _)]);
    unfold shutdown_measure; rewrite Hch, Hpc, Hpc'; pose proof (flush_cost_pos a); [lia|].
  destruct k; rewrite ?Hb, ?decide_True by done; lia.
Qed.

(** A step of the flusher either is a tick on an empty batch, which changes
    nothing, or brings the exit nearer. *)
Lemma flusher_measure l (s s' : state W) :
  retry_left s -> flusher l = true -> step cfg l s = Some s' ->
  (idle_tick l s = true /\ s' = s) \/ shutdown_measure cfg s' < shutdown_measure cfg s.
Proof.
  unfold idle_tick. intros Hr Hl Hs. destruct (at_pc s) eqn:Hpc; destruct l; try done;
    try (right; by eapply attempt_measure); cbn [step] in Hs; rewrite Hpc in Hs; try done.
  - destruct (ch s) eqn:Eq; [done|]. injection Hs as <-. right. apply receive_measure; auto.
  - destruct (batch s) eqn:Eb; [left; by simplify_eq|]. injection Hs as <-. right. rewrite <- Eb.
    unfold shutdown_measure, flush_max. cbn. rewrite Hpc, decide_False by (by rewrite Eb). lia.
  - destruct (stop s); [|done]. injection Hs as <-. right. unfold shutdown_measure. cbn. rewrite Hpc. lia.
  - destruct (ch s) eqn:Eq; [done|]. injection Hs as <-. right. apply receive_measure; auto.
  - destruct (ch s) eqn:Eq; [|done]. right. destruct (batch s) eqn:Eb; injection Hs as <-;
      unfold shutdown_measure, flush_max; cbn; rewrite Hpc, Eb, ?Eq; repeat case_decide; try done; lia.
  - destruct (MaxRetries cfg <? attempt); [|done]. injection Hs as <-. right.
    unfold shutdown_measure. cbn. rewrite Hpc. pose proof (flush_cost_pos attempt).
    destruct k; repeat case_decide; try done; lia.
  - injection Hs as <-. right. unfold retry_left in Hr. unfold shutdown_measure. cbn. rewrite Hpc in *.
    unfold flush_cost. lia.
Qed.

(** Until it exits the flusher has a step once [stop] is closed. *)
Lemma flusher_enabled (s : state W) :
  stop s = true -> at_pc s <> Exited ->
  exists l s', flusher l = true /\ idle_tick l s = false /\ step cfg l s = Some s'.
Proof.
  intros Hs Hpc. destruct (at_pc s) as [| |k rows a bo|k rows a bo|] eqn:E; [| | | |done].
  - exists StopSeen. cbn. rewrite E, Hs. eauto.
  - destruct (ch s) as [|r q] eqn:Eq; [exists DrainEnd|exists DrainRecv]; cbn; rewrite E, Eq; [|eauto].
    destruct (batch s); eauto.
  - destruct (Z.leb_spec a (MaxRetries cfg)).
    + exists (Attempt 0 0). cbn. rewrite E. destruct (Z.leb_spec a (MaxRetries cfg)); [eauto|lia].
    + exists GiveUp. cbn. rewrite E. destruct (Z.ltb_spec (MaxRetries cfg) a); [eauto|lia].
  - exists Waited. cbn. rewrite E. eauto.
Qed.

Lemma measure_nonneg (s : state W) : 0 <= shutdown_measure cfg s.
Proof.
  unfold shutdown_measure, flush_max. pose proof (len_nonneg (ch s)). pose proof (flush_cost_pos 0).
  assert (0 <= 2 * (flush_cost cfg 0 + 1) * len (ch s)) by nia.
  destruct (at_pc s) as [| |[] rows a bo|[] rows a bo|]; try pose proof (flush_cost_pos a);
    repeat case_decide; lia.
Qed.

Lemma measure_bound (s : state W) n :
  retry_left s ->
  shutdown_measure cfg s + 2 * flush_max cfg * n
  <= (2 * (len (ch s) + n) + 1) * (2 * Z.max 0 (MaxRetries cfg + 1) + 2) + 3.
Proof.
  unfold retry_left, shutdown_measure, flush_max, flush_cost. rewrite Z.sub_0_r. intros Hr.
  pose proof (len_nonneg (ch s)).
  destruct (at_pc s) as [| |[] rows a bo|[] rows a bo|]; repeat case_decide; lia.
Qed.

(** The steps of the others: a row sent adds to the work, the rest does not. *)
Lemma other_measure l (s s' : state W) :
  flusher l = false -> step cfg l s = Some s' ->
  shutdown_measure cfg s' = shutdown_measure cfg s + 2 * flush_max cfg * sends [l].
Proof.
  intros Hl Hs. destruct l; try done; cbn [step] in Hs.
  - destruct (_ <? _); [|done]. injection Hs as <-. unfold shutdown_measure. cbn. rewrite len_app, len_cons. change (len []) with 0.
    destruct (at_pc s); lia.
  - destruct (stop s); [|done]. injection Hs as <-. unfold shutdown_measure. cbn. destruct (at_pc s); lia.
  - destruct (_ && _); [|done]. injection Hs as <-. unfold shutdown_measure. cbn. destruct (at_pc s); lia.
  - injection Hs as <-. unfold shutdown_measure. cbn. destruct (at_pc s); lia.
  - destruct (stop s); [|done]. injection Hs as <-. unfold shutdown_measure. cbn. destruct (at_pc s); lia.
Qed.

Lemma step_keeps_stop l (s s' : state W) : stop s = true -> step cfg l s = Some s' -> stop s' = true.
Proof.
  intros Ht Hs. destruct l; cbn [step] in Hs; unfold receive, abandon, end_flush, attempt_insert in Hs;
    repeat case_match; simplify_eq; try done; by cbn.
Qed.

Lemma sends_cons l ls : sends (l :: ls) = sends [l] + sends ls.
Proof. unfold sends. rewrite !sumZ_fmap_cons. change (sumZ (_ <$> [])) with 0. lia. Qed.

Lemma sends_nonneg ls : 0 <= sends ls.
Proof. apply sumZ_nonneg, Forall_fmap, Forall_true. by intros []. Qed.

(** Along any run, every step of the flusher that is not an idle tick uses up
    some of the measure. *)
Lemma progress_measure ls (s s' : state W) :
  retry_left s -> run cfg ls s = Some s' ->
  retry_left s' /\ (stop s = true -> stop s' = true)
  /\ progress cfg ls s + shutdown_measure cfg s' <= shutdown_measure cfg s + 2 * flush_max cfg * sends ls.
Proof.
  revert s. induction ls as [|l ls IH]; intros s Hr Hrun; cbn [run progress] in *.
  { injection Hrun as <-. split_and!; try done. change (sends []) with 0. lia. }
  destruct (step cfg l s) as [s1|] eqn:E; [|done].
  pose proof (retry_left_step _ _ _ Hr E) as Hr1. destruct (IH s1 Hr1 Hrun) as (Hr' & Hst & Hm).
  split_and!; [done|intros Hs; by apply Hst, (step_keeps_stop l s)|].
  rewrite sends_cons. pose proof (sends_nonneg [l]). pose proof (flush_cost_pos 0).
  assert (0 <= 2 * flush_max cfg) by (unfold flush_max; lia). destruct (flusher l) eqn:El; cbn [andb].
  - destruct (flusher_measure l s s1 Hr El E) as [[Hi ->]|Hlt].
    + rewrite Hi. cbn [negb]. nia.
    + destruct (negb _); nia.
  - rewrite (other_measure l s s1 El E) in Hm. lia.
Qed.

Lemma run_app ls1 ls2 (s s1 : state W) :
  run cfg ls1 s = Some s1 ->
  run cfg (ls1 ++ ls2) s = run cfg ls2 s1 /\ progress cfg (ls1 ++ ls2) s = progress cfg ls1 s + progress cfg ls2 s1.
Proof.
  revert s. induction ls1 as [|l ls1 IH]; intros s; cbn [run progress app].
  - intros [= ->]. split; [done|lia].
  - destruct (step cfg l s) as [s2|]; [|done]. intros Hrun. destruct (IH _ Hrun) as [-> ->]. split; [done|lia].
Qed.
End shutdown.
