(* ===== verification/BufferTheorems.v ===== *)
(** * BufferTheorems: the guarantees of the ingest buffer

    The theorems about [Buffer] over any backend that keeps the contract of
    [Store], and a scripted backend that runs the machine in the examples. *)

From S2P Require Import Prelude Errors GoTime Row Store Metrics Buffer BufferSpec.

(** A backend that answers the calls of [InsertBatch] from a script: [None]
    writes the whole chunk, [Some (n, nr)] fails after [n] rows, with a
    non-retryable cause when [nr]. *)
Record scripted := mkScripted { rows_of : list Row; answers : list (option (Z * bool)) }.

Definition script_err (nr : bool) : gerror := Leaf (if nr then ENonRetryable else EText (bs "timeout")).

Definition script_insert (rows : list Row) (w : scripted) : scripted * option gerror :=
  match answers w with
  | [] => (mkScripted (rows_of w ++ rows) [], None)
  | None :: l => (mkScripted (rows_of w ++ rows) l, None)
  | Some (n, nr) :: l =>
      let n := Z.min n (len rows) in
      if 0 <? n then
        (mkScripted (rows_of w ++ slice_to rows n) l, Some (PartialCommitError n (script_err nr)))
      else (mkScripted (rows_of w) l, Some (script_err nr))
  end.

#[export] Instance scripted_writer : Writer scripted :=
  {| InsertBatch := script_insert; SplitBatch := None |}.

#[export] Instance scripted_laws : WriterLaws scripted rows_of id (fun _ => True).
Proof.
  split; try done. intros rows w w' e _. cbn. unfold script_insert.
  pose proof (len_nonneg rows). rewrite list_fmap_id.
  destruct (answers w) as [|[[n nr]|] l].
  - intros [= <- <-]. cbn. rewrite slice_to_all by lia. split; [lia|done].
  - destruct (Z.ltb_spec 0 (n `min` len rows)); intros [= <- <-]; cbn.
    + split; [lia|done].
    + unfold script_err. destruct nr; cbn; rewrite app_nil_r; (split; [lia|done]).
  - intros [= <- <-]. cbn. rewrite slice_to_all by lia. split; [lia|done].
Qed.

(** Runs in which no producer sends once [stop] is closed. *)
Inductive orderly {W} `{Writer W} (cfg : Config) (row_ok : Row -> Prop) (w0 : W) : state W -> history -> Prop :=
| orderly_new : orderly cfg row_ok w0 (New_state w0 NewMetrics) no_history
| orderly_step l s s' h :
    orderly cfg row_ok w0 s h -> label_ok row_ok l -> step cfg l s = Some s' ->
    (stop s = true -> forall r, l <> AddSend r) ->
    orderly cfg row_ok w0 s' (observe l s s' h).

(** ** Runs for the examples *)

Definition demo_row (id : string) : Row := set_str FQueryID (bs id) zero_row.
Definition demo_cfg : Config := normalize (mkConfig 2 Second 4 1 0 0 0).

(** The state and history after a list of labels. *)
Fixpoint trace {W} `{Writer W} (cfg : Config) (ls : list label) (s : state W) (h : history)
    : option (state W * history) :=
  match ls with
  | [] => Some (s, h)
  | l :: ls => match step cfg l s with Some s' => trace cfg ls s' (observe l s s' h) | None => None end
  end.

(** Four rows, two with the same id; the first write fails after one row. *)
Definition demo_world : scripted := mkScripted [] [Some (1, false); None].
Definition demo_labels : list label :=
  [AddSend (demo_row "a"); AddSend (demo_row "b"); Recv; Recv; AddSend (demo_row "c"); Attempt 0 5; Waited;
   Attempt 10 20; AddSend (demo_row "c"); CloseStop; AddStopped (demo_row "d"); StopSeen].
Definition demo_start : state scripted := New_state demo_world NewMetrics.
Definition demo_at (ls : list label) : state scripted * history :=
  default (demo_start, no_history) (trace demo_cfg ls demo_start no_history).
Definition demo_state : state scripted := fst (demo_at demo_labels).
Definition demo_history : history := snd (demo_at demo_labels).

(** The state in which the retry timer runs, and the end of the shutdown. *)
Definition demo_wait : state scripted * history := demo_at (take 6 demo_labels).
Definition demo_exit : state scripted * history :=
  demo_at (demo_labels ++ [DrainRecv; DrainRecv; Attempt 30 40; DrainEnd]).

(** ** Lemmas *)

Section generic.
Context {W : Type} `{Writer W} (cfg : Config) (row_ok : Row -> Prop) (w0 : W).

Lemma trace_reachable ls s h s' h' :
  reachable cfg row_ok w0 s h -> Forall (label_ok row_ok) ls -> trace cfg ls s h = Some (s', h') ->
  reachable cfg row_ok w0 s' h'.
Proof.
  revert s h. induction ls as [|l ls IH]; intros s h Hr Hok Ht; cbn in Ht; [by simplify_eq|].
  apply Forall_cons in Hok as [Hl Hok]. destruct (step cfg l s) as [s1|] eqn:E; [|done].
  eapply IH; [|done|done]. by econstructor.
Qed.

Lemma orderly_reachable s h : orderly cfg row_ok w0 s h -> reachable cfg row_ok w0 s h.
Proof. induction 1; by econstructor. Qed.

Lemma run_reachable ls s h s' :
  reachable cfg row_ok w0 s h -> Forall (label_ok row_ok) ls -> run cfg ls s = Some s' ->
  exists h', reachable cfg row_ok w0 s' h'.
Proof.
  revert s h. induction ls as [|l ls IH]; intros s h Hr Hok Ht; cbn in Ht; [simplify_eq; by exists h|].
  apply Forall_cons in Hok as [Hl Hok]. destruct (step cfg l s) as [s1|] eqn:E; [|done].
  eapply IH; [|done|done]. by econstructor.
Qed.

(** Past the end of [drain] the channel is empty, and stays so without sends. *)
Definition drained (s : state W) : Prop :=
  match at_pc s with
  | Exited | Flush AfterStop _ _ _ | Wait AfterStop _ _ _ => ch s = [] /\ stop s = true
  | _ => True
  end.

Lemma drained_step l s s' :
  drained s -> (stop s = true -> forall r, l <> AddSend r) -> step cfg l s = Some s' ->
  (l = DrainEnd -> stop s = true) -> drained s'.
Proof.
  intros Hd Hl Hs He. unfold drained in *.
  destruct l; cbn [step] in Hs.
  - destruct (_ <? _); [|done]. injection Hs as <-. cbn.
    destruct (at_pc s) as [| |[]|[]|]; try done; exfalso; eapply (Hl (proj2 Hd)); reflexivity.
  - destruct (stop s) eqn:Es; [|done]. injection Hs as <-. cbn. by rewrite Es.
  - destruct (_ && _); [|done]. injection Hs as <-. exact Hd.
  - injection Hs as <-. cbn. destruct (at_pc s) as [| |[]|[]|]; naive_solver.
  - destruct (stop s) eqn:E; [|done]. injection Hs as <-. cbn. exact Hd.
  - destruct (at_pc s), (ch s); simplify_eq. unfold receive. by destruct (BatchSize cfg <=? _).
  - destruct (at_pc s) eqn:E, (batch s); simplify_eq; try done. by rewrite E.
  - destruct (at_pc s), (stop s); simplify_eq. done.
  - destruct (at_pc s), (ch s); simplify_eq. unfold receive. by destruct (BatchSize cfg <=? _).
  - destruct (at_pc s), (ch s) eqn:E; simplify_eq. destruct (batch s); simplify_eq; cbn; auto.
  - destruct (at_pc s) as [| |k rows a bo| |] eqn:E; try done.
    destruct (insert rows (world s)) as [[w' c] e] eqn:Ei.
    destruct (attempt_outcome cfg k rows a bo t0 t1 s s' no_history w' c e E Ei) as (Hch & Hst & _ & _ & _ & Ho).
    { cbn [step]. by rewrite E. }
    rewrite Hch, Hst. destruct Ho as [(-> & _)|(-> & _)]; by destruct k.
  - destruct (at_pc s) as [| | |k ? ? ?|] eqn:E; simplify_eq. cbn. by destruct k.
  - destruct (at_pc s) as [| |k ? ? ?| |] eqn:E; try done. destruct (_ <? _); simplify_eq.
    unfold abandon, end_flush. by destruct k.
Qed.
End generic.

(** The same for orderly runs; the check that no row is sent late computes. *)
Lemma trace_orderly {W} `{Writer W} cfg (w0 : W) ls s h s' h' :
  orderly cfg (fun _ => True) w0 s h -> trace cfg ls s h = Some (s', h') ->
  (fix late ls s := match ls with
   | [] => true
   | l :: ls => (match l with AddSend _ => negb (stop s) | _ => true end)
                && match step cfg l s with Some s' => late ls s' | None => true end
   end) ls s = true ->
  orderly cfg (fun _ => True) w0 s' h'.
Proof.
  revert s h. induction ls as [|l ls IH]; intros s h Ho Ht Hl; cbn in Ht; [by simplify_eq|].
  destruct (step cfg l s) as [s1|] eqn:E; [|done]. apply andb_prop in Hl as [Hl1 Hl2].
  eapply IH; [|done|done]. econstructor; [done|by destruct l|done|].
  intros Hs r ->. by rewrite Hs in Hl1.
Qed.

Lemma demo_reachable ls :
  is_Some (trace demo_cfg ls demo_start no_history) ->
  reachable demo_cfg (fun _ => True) demo_world (fst (demo_at ls)) (snd (demo_at ls)).
Proof.
  intros [[s h] E]. unfold demo_at. rewrite E.
  apply (trace_reachable demo_cfg _ _ ls demo_start no_history); [constructor| |done].
  apply Forall_true. by intros [].
Qed.

Lemma orderly_drained {W} `{Writer W} {table norm row_ok} `{!WriterLaws W table norm row_ok} cfg w0 s h :
  orderly cfg row_ok w0 s h -> drained s.
Proof.
  induction 1 as [|l s s' h Ho IH Hl Hs Hq]; [done|]. eapply drained_step; [done|done|done|].
  intros ->. pose proof (inv_pc _ _ _ _ _ _ (inv_exact cfg w0 _ _ (orderly_reachable _ _ _ _ _ Ho))) as Hp.
  unfold pc_inv in Hp. cbn [step] in Hs. destruct (at_pc s); try done. tauto.
Qed.

Lemma dedupe_len rows : len (dedupe rows) <= len rows.
Proof.
  transitivity (len (first_ids rows)); [rewrite <- dedupe_ids; unfold ids; llia|].
  induction rows as [|r rows IH] using rev_ind; [done|].
  rewrite first_ids_snoc, len_app. case_decide; [llia|]. rewrite len_app. llia.
Qed.

Lemma last_with_id i rows r : last_with i rows = Some r -> QueryID r = i /\ r ∈ rows.
Proof.
  unfold last_with. intros Hr%last_Some_elem_of. by apply list_elem_of_filter in Hr.
Qed.

Lemma dedupe_complete rows r : last_with (QueryID r) rows = Some r -> r ∈ dedupe rows.
Proof.
  intros Hl. pose proof (last_with_id _ _ _ Hl) as [_ Hin].
  assert (Hi : QueryID r ∈ ids (dedupe rows)).
  { rewrite dedupe_ids. apply elem_of_first_ids. unfold ids. apply list_elem_of_fmap. eauto. }
  unfold ids in Hi. apply list_elem_of_fmap in Hi as (r' & Hq & Hr').
  pose proof (dedupe_last _ _ Hr') as Hl'. rewrite <- Hq, Hl in Hl'. by simplify_eq.
Qed.

(** Doubling stays in range while both bounds do. *)
Lemma delay_closed cfg n :
  0 < RetryBackoff cfg < 2 ^ 62 -> 0 < RetryMaxBackoff cfg < 2 ^ 62 ->
  delay cfg n = (if decide (n = 0)%nat then RetryBackoff cfg
                 else Z.min (RetryBackoff cfg * 2 ^ Z.of_nat n) (RetryMaxBackoff cfg)).
Proof.
  intros Hb Hm. induction n as [|n IH]; [done|].
  change (delay cfg (S n)) with (next_backoff cfg (delay cfg n)). unfold next_backoff.
  rewrite (decide_False (P := S n = 0%nat)) by done.
  rewrite Nat2Z.inj_succ, Z.pow_succ_r by lia. rewrite IH.
  assert (0 < 2 ^ Z.of_nat n) by (apply Z.pow_pos_nonneg; lia).
  rewrite wrap64_id.
  - case_decide; [subst; change (2 ^ Z.of_nat 0) with 1; lia|]. nia.
  - unfold int64. case_decide; nia.
Qed.

Lemma normalize_bounds cfg :
  RetryBackoff cfg < 2 ^ 62 -> RetryMaxBackoff cfg < 2 ^ 62 ->
  0 < RetryBackoff (normalize cfg) < 2 ^ 62 /\ 0 < RetryMaxBackoff (normalize cfg) < 2 ^ 62.
Proof.
  intros. assert (Second = 10 ^ 9) as Hs by reflexivity. unfold normalize. rewrite Hs. cbn [RetryBackoff RetryMaxBackoff].
  destruct (Z.leb_spec (RetryBackoff cfg) 0); bcase; lia.
Qed.

(** ** Guarantees *)

Section guarantees.
Context {W : Type} `{Writer W} {table : W -> list Row} {norm : Row -> Row} {row_ok : Row -> Prop}.
Context {laws : WriterLaws W table norm row_ok} (cfg : Config) (w0 : W).

(** C1. In every state the buffer can reach, with any interleaving of
    producers, [Close] and the flusher and any failures of the backend, the
    accepted rows are, in order, those of the finished batches, the current
    batch and the channel; a finished batch splits, after deduplication, into
    what was written and what was given up; and the table holds, once each and
    in order, exactly the rows counted as written: a retry never repeats a
    committed prefix. *)
Theorem buffer_exactly_once (s : state W) h :
  reachable cfg row_ok w0 s h ->
  mjoin (raw <$> finished h) ++ batch s ++ ch s = accepted h
  /\ Forall (fun b => dedupe (raw b) = written b ++ lost b) (finished h)
  /\ table (world s) = table w0 ++ (norm <$> (mjoin (written <$> finished h) ++ cur_written h)).
Proof using laws.
  intros Hr. apply inv_exact in Hr as Hi.
  split_and!; [by eapply inv_fifo|by eapply inv_logs|by eapply inv_exact_table].
Qed.

(** C21. The counters agree with what happened, modulo their 64 bits: rows
    enqueued, rows flushed, and rows dropped (turned away by [Add] or given up
    by [flush]). *)
Theorem buffer_counters (s : state W) h :
  reachable cfg row_ok w0 s h ->
  rowsEnqueued (metrics s) = wrap64 (len (accepted h))
  /\ rowsFlushed (metrics s) = wrap64 (len (all_written h))
  /\ eventsDropped (metrics s) = wrap64 (rejected h + len (all_lost h)).
Proof using laws.
  intros Hr. apply inv_exact in Hr as Hi. split_and!; [by eapply inv_enqueued|by eapply inv_flushed|by eapply inv_dropped].
Qed.

(** The channel never holds more than its capacity, a batch never more than
    the batch size, and a flush never makes more than [MaxRetries + 1] attempts. *)
Theorem buffer_bounds (s : state W) h :
  reachable (normalize cfg) row_ok w0 s h ->
  len (ch s) <= Z.max 1 (BufferCapacity cfg)
  /\ len (batch s) <= Z.max 1 (BatchSize cfg)
  /\ match at_pc s with
     | Flush _ rows a _ => 0 <= a <= Z.max 0 (MaxRetries cfg) /\ len rows <= len (batch s)
     | Wait _ rows a _ => 0 <= a < MaxRetries cfg /\ len rows <= len (batch s)
     | _ => True
     end.
Proof using laws.
  intros Hr. destruct (inv_exact _ _ _ _ Hr)
    as [I_cap I_ok I_fifo I_logs I_pc I_enqueued I_flushed I_dropped _]. split_and!.
  - revert I_cap. unfold normalize. cbn. bcase; lia.
  - unfold pc_inv, batch_bound in I_pc. cbn in I_pc. destruct (at_pc s); try lia.
    destruct I_pc as (-> & _). llia.
  - assert (Hd : forall rows k, dedupe (batch s) = k ++ rows -> len rows <= len (batch s)).
    { intros rows k Hk. apply (f_equal len) in Hk. rewrite len_app in Hk. pose proof (len_nonneg k).
      pose proof (dedupe_len (batch s)). lia. }
    unfold pc_inv in I_pc. destruct (at_pc s); try done;
      destruct I_pc as (Hk & _ & _ & Ha & _ & _ & Hm); apply Hd in Hk; cbn in Hm; lia.
Qed.

(** C7. A graceful shutdown loses nothing silently: when no producer sends after
    [stop] is closed and the flusher has exited, the channel and the batch are
    empty; every accepted row went through a finished flush, which wrote it (or
    its later version) or gave it up; the table holds what was written, and the
    counters say how many rows were enqueued, how many flushed, and how many
    dropped, whether given up by a flush or turned away by [Add] (modulo 2^64). *)
Theorem close_accounts_for_all (s : state W) h :
  orderly cfg row_ok w0 s h -> at_pc s = Exited ->
  ch s = [] /\ batch s = [] /\ mjoin (raw <$> finished h) = accepted h
  /\ Forall (fun b => dedupe (raw b) = written b ++ lost b) (finished h)
  /\ table (world s) = table w0 ++ (norm <$> mjoin (written <$> finished h))
  /\ rowsEnqueued (metrics s) = wrap64 (len (accepted h))
  /\ rowsFlushed (metrics s) = wrap64 (len (mjoin (written <$> finished h)))
  /\ eventsDropped (metrics s) = wrap64 (rejected h + len (mjoin (lost <$> finished h))).
Proof using laws.
  intros Ho Hx. pose proof (orderly_drained _ _ _ _ Ho) as Hd.
  pose proof (inv_exact cfg w0 _ _ (orderly_reachable _ _ _ _ _ Ho)) as Hi. apply inv_exact_table in Hi as I_table.
  destruct Hi as [I_cap I_ok I_fifo I_logs I_pc I_enqueued I_flushed I_dropped _].
  unfold drained in Hd. rewrite Hx in Hd. unfold pc_inv in I_pc. rewrite Hx in I_pc.
  destruct Hd as [Hd _], I_pc as (Hb & Hc & _). rewrite Hd, Hb, !app_nil_r in I_fifo.
  unfold all_written in I_table, I_flushed. rewrite Hc, app_nil_r in I_table, I_flushed. by split_and!.
Qed.

(** The retry delays: while the flusher waits before retry [a + 1] of a
    batch, its timer is the configured backoff doubled [a] times and capped. *)
Theorem backoff_schedule (s : state W) h k rows a bo :
  RetryBackoff cfg < 2 ^ 62 -> RetryMaxBackoff cfg < 2 ^ 62 ->
  reachable (normalize cfg) row_ok w0 s h -> at_pc s = Wait k rows a bo ->
  bo = (if a =? 0 then RetryBackoff (normalize cfg)
        else Z.min (RetryBackoff (normalize cfg) * 2 ^ a) (RetryMaxBackoff (normalize cfg))).
Proof using laws.
  intros Hb Hm Hr Hpc. destruct (inv_exact _ _ _ _ Hr)
    as [I_cap I_ok I_fifo I_logs I_pc I_enqueued I_flushed I_dropped _]. unfold pc_inv in I_pc. rewrite Hpc in I_pc.
  destruct I_pc as (_ & _ & _ & Ha & -> & _).
  destruct (normalize_bounds cfg Hb Hm) as [? ?]. rewrite delay_closed by done.
  rewrite Z2Nat.id by lia. destruct (Z.eqb_spec a 0) as [->|]; [done|]. rewrite decide_False by lia. done.
Qed.
End guarantees.

(** C8. Shutdown terminates, whatever the backend answers and in whatever order
    things happen: after [stop] is closed, in any run of the flusher, of
    producers that may still send and of [Close], the flusher makes no more
    steps than the queue, the rows still sent and [MaxRetries] bound, not
    counting ticks that find the batch empty (which change nothing); until it
    has exited it always has a step to make that is not such a tick; and a run
    with as many steps of the flusher as the bound has reached the exit. *)
Theorem close_terminates {W} `{Writer W} cfg row_ok (w0 : W) s h ls s' :
  reachable cfg row_ok w0 s h -> stop s = true -> run cfg ls s = Some s' ->
  let bound := (2 * (len (ch s) + sends ls) + 1) * (2 * Z.max 0 (MaxRetries cfg + 1) + 2) + 3 in
  progress cfg ls s <= bound
  /\ (at_pc s' <> Exited ->
        exists l s1, flusher l = true /\ idle_tick l s' = false /\ step cfg l s' = Some s1)
  /\ (bound <= progress cfg ls s -> at_pc s' = Exited).
Proof.
  intros Hr Hs Hrun bound. apply retry_left_reachable in Hr as Hl.
  assert (Hb : forall ls' s1, run cfg ls' s = Some s1 -> sends ls' = sends ls -> progress cfg ls' s <= bound).
  { intros ls' s1 Hrun' Hn. destruct (progress_measure cfg ls' s s1 Hl Hrun') as (_ & _ & Hm).
    pose proof (measure_bound cfg s (sends ls) Hl). pose proof (measure_nonneg cfg s1). rewrite Hn in Hm. subst bound. lia. }
  destruct (progress_measure cfg ls s s' Hl Hrun) as (_ & Hst & _).
  assert (He : at_pc s' <> Exited ->
    exists l s1, flusher l = true /\ idle_tick l s' = false /\ step cfg l s' = Some s1) by auto using flusher_enabled.
  split_and!; [by apply (Hb ls s')|done|]. intros Hge.
  assert (at_pc s' = Exited \/ at_pc s' <> Exited) as [?|Hx] by (destruct (at_pc s'); auto); [done|]. exfalso.
  destruct (He Hx) as (l & s1 & Hf & Hi & E). destruct (run_app cfg ls [l] s s' Hrun) as [Hrun' Hp].
  assert (Hn : sends (ls ++ [l]) = sends ls).
  { unfold sends. rewrite fmap_app, sumZ_app. destruct l; try done; cbn; lia. }
  pose proof (Hb (ls ++ [l]) s1) as Hb1. rewrite Hrun', Hp in Hb1. cbn [run progress] in Hb1. rewrite E, Hf, Hi in Hb1.
  cbn in Hb1. specialize (Hb1 eq_refl Hn). lia.
Qed.

(** C35. A non-retryable error ends the flush at once: what was committed is
    counted as flushed and the rest as dropped (modulo 2^64), the failure is
    counted, and no retry is scheduled. *)
Theorem non_retryable_stops {W} `{Writer W} cfg (s s' : state W) k rows a bo t0 t1 w' c e :
  at_pc s = Flush k rows a bo -> insert rows (world s) = (w', c, Some e) ->
  errors_Is ENonRetryable e = true -> step cfg (Attempt t0 t1) s = Some s' ->
  at_pc s' = match k with AfterLoop => Loop | AfterDrain => Draining | AfterStop => Exited end
  /\ batch s' = [] /\ ch s' = ch s /\ world s' = w'
  /\ wrap64 (rowsFlushed (metrics s')) = wrap64 (rowsFlushed (metrics s) + clamp_committed c rows)
  /\ eventsDropped (metrics s') = wrap64 (eventsDropped (metrics s) + (len rows - clamp_committed c rows))
  /\ flushNonRetry (metrics s') = wrap64 (flushNonRetry (metrics s) + 1)
  /\ flushFailures (metrics s') = wrap64 (flushFailures (metrics s) + 1).
Proof.
  intros Hpc Hi He Hs. cbn [step] in Hs. rewrite Hpc in Hs. destruct (a <=? MaxRetries cfg); [|done].
  injection Hs as <-. unfold attempt_insert. rewrite Hi, He.
  pose proof (clamp_committed_range c rows). rewrite <- len_slice_from by done.
  assert (Hf : forall n, wrap64 (if 0 <? clamp_committed c rows then wrap64 (n + clamp_committed c rows) else n)
                         = wrap64 (n + clamp_committed c rows)).
  { intros n. destruct (Z.ltb_spec 0 (clamp_committed c rows)).
    - apply wrap64_id, wrap64_range.
    - f_equal. lia. }
  rewrite <- Hf. destruct (0 <? clamp_committed c rows), k; (split_and!; reflexivity).
Qed.

(** [dedupe] keeps, for each query id, the last row with that id, at the
    place of the first one; no id appears twice. *)
Theorem dedupe_last_per_id rows :
  ids (dedupe rows) = first_ids rows /\ NoDup (ids (dedupe rows))
  /\ forall r, r ∈ dedupe rows <-> last_with (QueryID r) rows = Some r.
Proof.
  rewrite dedupe_ids. split_and!; [done|apply first_ids_NoDup|].
  split; [apply dedupe_last|apply dedupe_complete].
Qed.

(** C38. A row added after the flusher has exited can be accepted: [select] may
    take the send although [stop] is closed.  The row is counted as enqueued,
    and no step of the flusher will ever write it or count it as dropped. *)
Theorem add_after_exit_is_lost {W} `{Writer W} cfg (w0 : W) r :
  exists s, run (normalize cfg) [CloseStop; StopSeen; DrainEnd; AddSend r] (New_state w0 NewMetrics) = Some s
    /\ ch s = [r] /\ done s = true /\ world s = w0
    /\ rowsEnqueued (metrics s) = 1 /\ rowsFlushed (metrics s) = 0 /\ eventsDropped (metrics s) = 0
    /\ forall l, flusher l = true -> step (normalize cfg) l s = None.
Proof.
  assert (Hc : (len (@nil Row) <? BufferCapacity (normalize cfg)) = true).
  { apply Z.ltb_lt. cbn [normalize BufferCapacity]. bcase; llia. }
  eexists. cbn [run step New_state at_pc stop set_pc ch batch metrics]. cbn [ch set_pc]. rewrite Hc.
  split; [reflexivity|]. split_and!; try reflexivity. intros l Hl. by destruct l.
Qed.

(** ** Instances *)

Lemma buffer_exactly_once_witness :
  rows_of (world demo_state) = [demo_row "a"; demo_row "b"]
  /\ (mjoin (raw <$> finished demo_history) ++ batch demo_state ++ ch demo_state = accepted demo_history
      /\ Forall (fun b => dedupe (raw b) = written b ++ lost b) (finished demo_history)
      /\ rows_of (world demo_state)
         = rows_of demo_world ++ (id <$> (mjoin (written <$> finished demo_history) ++ cur_written demo_history))).
Proof.
  split; [vm_compute; reflexivity|].
  apply (buffer_exactly_once (table := rows_of) (norm := id) (row_ok := fun _ => True) demo_cfg demo_world), demo_reachable.
  vm_compute. eauto.
Defined.

Lemma buffer_counters_witness :
  eventsDropped (metrics demo_state) = 1
  /\ (rowsEnqueued (metrics demo_state) = wrap64 (len (accepted demo_history))
      /\ rowsFlushed (metrics demo_state) = wrap64 (len (all_written demo_history))
      /\ eventsDropped (metrics demo_state) = wrap64 (rejected demo_history + len (all_lost demo_history))).
Proof.
  split; [vm_compute; reflexivity|].
  apply (buffer_counters (table := rows_of) (norm := id) (row_ok := fun _ => True) demo_cfg demo_world), demo_reachable.
  vm_compute. eauto.
Defined.

Lemma buffer_bounds_witness : len (ch (fst demo_wait)) <= 4 /\ len (batch (fst demo_wait)) <= 2.
Proof.
  destruct (buffer_bounds (table := rows_of) (norm := id) (row_ok := fun _ => True) (mkConfig 2 Second 4 1 0 0 0) demo_world
    (fst demo_wait) (snd demo_wait)) as (Hc & Hb & _).
  - apply demo_reachable. vm_compute. eauto.
  - split; [exact Hc|exact Hb].
Defined.

Lemma close_accounts_for_all_witness :
  accepted (snd demo_exit) = demo_row <$> ["a"; "b"; "c"; "c"]%string
  /\ (ch (fst demo_exit) = [] /\ batch (fst demo_exit) = []
      /\ mjoin (raw <$> finished (snd demo_exit)) = accepted (snd demo_exit)
      /\ Forall (fun b => dedupe (raw b) = written b ++ lost b) (finished (snd demo_exit))
      /\ rows_of (world (fst demo_exit)) = rows_of demo_world ++ (id <$> mjoin (written <$> finished (snd demo_exit)))
      /\ rowsEnqueued (metrics (fst demo_exit)) = wrap64 (len (accepted (snd demo_exit)))
      /\ rowsFlushed (metrics (fst demo_exit)) = wrap64 (len (mjoin (written <$> finished (snd demo_exit))))
      /\ eventsDropped (metrics (fst demo_exit))
         = wrap64 (rejected (snd demo_exit) + len (mjoin (lost <$> finished (snd demo_exit))))).
Proof.
  split; [vm_compute; reflexivity|].
  apply (close_accounts_for_all (table := rows_of) (norm := id) (row_ok := fun _ => True) demo_cfg demo_world); [|vm_compute; reflexivity].
  eapply (trace_orderly demo_cfg demo_world
    (demo_labels ++ [DrainRecv; DrainRecv; Attempt 30 40; DrainEnd]) demo_start no_history);
    [constructor|vm_compute; reflexivity|vm_compute; reflexivity].
Defined.

Lemma backoff_schedule_witness :
  3 * Second = (if 0 =? 0 then 3 * Second else Z.min (3 * Second * 2 ^ 0) (30 * Second)).
Proof.
  apply (backoff_schedule (table := rows_of) (norm := id) (row_ok := fun _ => True) (mkConfig 2 Second 4 1 0 0 0) demo_world
    (fst demo_wait) (snd demo_wait) AfterLoop [demo_row "b"] 0 (3 * Second)).
  - reflexivity.
  - reflexivity.
  - apply demo_reachable. vm_compute. eauto.
  - vm_compute. reflexivity.
Defined.

(** After [stop], with a row queued and another one sent late, and an idle tick
    among the steps. *)
Definition demo_closing : list label := [CloseStop; Tick; AddSend (demo_row "e"); StopSeen; DrainRecv; DrainRecv; Attempt 0 5].
Definition demo_closed : state scripted * history := demo_at [AddSend (demo_row "a"); CloseStop].

Lemma close_terminates_witness :
  exists s', run demo_cfg demo_closing (fst demo_closed) = Some s'
    /\ progress demo_cfg demo_closing (fst demo_closed) = 4
    /\ exists l s1, flusher l = true /\ idle_tick l s' = false /\ step demo_cfg l s' = Some s1.
Proof.
  assert (Hrun : is_Some (run demo_cfg demo_closing (fst demo_closed))) by (vm_compute; eauto).
  assert (Hx : forall s', run demo_cfg demo_closing (fst demo_closed) = Some s' -> at_pc s' <> Exited).
  { intros s' E Hx. apply (f_equal (fmap at_pc)) in E. change (at_pc <$> Some s') with (Some (at_pc s')) in E.
    rewrite Hx in E. vm_compute in E. discriminate. }
  destruct Hrun as [s' Hrun]. exists s'. split_and!; [done|vm_compute; reflexivity|].
  edestruct (close_terminates demo_cfg (fun _ => True) demo_world (fst demo_closed) (snd demo_closed) demo_closing s')
    as (_ & He & _).
  - apply demo_reachable. vm_compute. eauto.
  - vm_compute. reflexivity.
  - exact Hrun.
  - apply He. by apply Hx.
Defined.

(** One row of two is committed before the backend reports a missing table. *)
Lemma non_retryable_stops_witness :
  let s := set_pc (Flush AfterLoop [demo_row "a"; demo_row "b"] 0 (3 * Second)) [demo_row "a"; demo_row "b"]
             (New_state (mkScripted [] [Some (1, true)]) NewMetrics) in
  exists s', step demo_cfg (Attempt 0 1) s = Some s' /\ at_pc s' = Loop
    /\ wrap64 (rowsFlushed (metrics s')) = 1 /\ eventsDropped (metrics s') = 1.
Proof.
  intros s. eexists. split; [reflexivity|].
  edestruct (non_retryable_stops demo_cfg s) as (Hp & _ & _ & _ & Hf & Hd & _);
    [reflexivity|reflexivity|reflexivity|reflexivity|].
  split_and!; [exact Hp|rewrite Hf; reflexivity|rewrite Hd; reflexivity].
Defined.
