(* ===== verification/TrinoTheorems.v ===== *)
(** * TrinoTheorems: the guarantees of the Trino backend

    The clamp and the batch splitter, the size of the statements they lead to,
    the contract of [InsertBatch] and the buffer on top of it, the reads, and
    the schema and maintenance statements. *)

From S2P Require Import Prelude Errors GoTime Utf8 Row Chunk Truncate Store Query Trino Metrics Buffer BufferSpec BufferTheorems.

(** ** Definitions for the statements *)

(** A driver's literals, for the examples. *)
Definition demo_lit (a : arg) : gostring :=
  match a with
  | AStr v => enquote sq v
  | AInt z => itoa z
  | ATime t => bs "TIMESTAMP '" ++ format_micros t ++ bs " UTC'"
  | ANil => bs "NULL"
  end.

Definition demo_trino : TrinoConfig := mkTrinoConfig (bs "iceberg") (bs "query_log") (bs "queries") 0 [].

(** A world that keeps a table, with times at microseconds, and answers as its
    script says: the statement is carried out, or refused with a text, or
    carried out and its answer lost. *)
Inductive db_outcome := Done | Refused (text : gostring) | Lost (text : gostring).
Record demo_db := mkDemoDB { db_rows : list Row; db_script : list db_outcome }.

(** The rows of an INSERT, read back from its arguments. *)
Fixpoint rows_of_args (n : nat) (as_ : list arg) : list Row :=
  match n with
  | O => []
  | S n =>
      match scan_row (take 41 as_) with
      | Some r => r :: rows_of_args n (drop 41 as_)
      | None => []
      end
  end.

Definition demo_exec (stmt : gostring) (as_ : list arg) (w : demo_db) : demo_db * option gerror :=
  let rows := micros_row <$> rows_of_args (length as_) as_ in
  match default Done (head (db_script w)) with
  | Done => (mkDemoDB (db_rows w ++ rows) (tail (db_script w)), None)
  | Refused text => (mkDemoDB (db_rows w) (tail (db_script w)), Some (Leaf (EText text)))
  | Lost text => (mkDemoDB (db_rows w ++ rows) (tail (db_script w)), Some (Leaf (EText text)))
  end.

Lemma rows_of_args_insert n rows : (length rows <= n)%nat -> rows_of_args n (insert_args rows) = rows.
Proof.
  revert rows. induction n as [|n IH]; intros [|r rows] Hn; try done; [simpl in Hn; lia|].
  change (insert_args (r :: rows)) with (args r ++ insert_args rows). cbn [rows_of_args].
  rewrite take_app_length', drop_app_length' by reflexivity. rewrite scan_args, IH; [done|simpl in Hn; lia].
Qed.

Lemma insert_args_length rows : (length rows <= length (insert_args rows))%nat.
Proof.
  induction rows as [|r rows IH]; [done|]. change (insert_args (r :: rows)) with (args r ++ insert_args rows).
  rewrite length_app. change (length (args r)) with 41%nat. simpl. lia.
Qed.

Lemma demo_exec_laws cfg : trino_exec_laws demo_exec cfg db_rows micros_row.
Proof.
  split; [apply micros_row_stored|..]; unfold demo_exec; intros rows w w';
    rewrite rows_of_args_insert by apply insert_args_length.
  - intros _. by destruct (default Done _); intros [= <-].
  - intros err _. destruct (default Done _) as [|text|text]; [done|..]; intros [= <- <-]; [by left|by right].
  - intros err. by destruct (default Done _) as [|text|text]; [|intros [= <- <-]..].
Qed.

Lemma pad_dec_len w n : 0 <= n < 10 ^ Z.of_nat w -> (0 < w)%nat -> len (pad_dec w n) = Z.of_nat w.
Proof. intros. unfold len. by destruct (pad_dec_small w n) as [-> _]. Qed.

Lemma format_micros_len t : year4 (utc_date t) -> len (format_micros t) = 26.
Proof.
  intros Hy. unfold year4 in Hy. unfold format_micros, format_datetime.
  pose proof (valid_date_bounds _ (proj2 (civil_of_days_spec (utc_days t)))) as [Hm Hd].
  fold (utc_date t) in Hm, Hd.
  assert (Hs : 0 <= clock_sec t < 86400).
  { unfold clock_sec. pose proof (Z.mod_pos_bound t Day Day_pos) as Hm'.
    change Day with 86400000000000 in *. change Second with 1000000000.
    split; [apply Z.div_pos|apply Z.div_lt_upper_bound]; lia. }
  assert (Hn : 0 <= clock_nano t < 10 ^ 9) by (apply Z.mod_pos_bound; done).
  rewrite !len_app, !pad_dec_len; try lia; try (change (bs " ") with [x20]; reflexivity).
  all: change (10 ^ Z.of_nat 2) with 100; change (10 ^ Z.of_nat 4) with 10000; change (10 ^ Z.of_nat 6) with 1000000.
  all: try lia.
  all: Z.to_euclidean_division_equations; lia.
Qed.

Lemma demo_literals : literal_laws demo_lit.
Proof.
  split; cbn [demo_lit].
  - intros v. rewrite len_enquote. lia.
  - done.
  - intros z. apply itoa_len_int64.
  - intros t Ht. rewrite !len_app, format_micros_len by done. done.
Qed.

(** ** The clamp and the batch splitter *)

Section guarantees.
Context (cfg : TrinoConfig).
#[local] Abbreviation s := (NewTrino cfg).
#[local] Abbreviation budget := (stmt_budget s).

(** C11. Whatever a row holds, the clamp brings its size estimate under the
    statement budget within its 1000 iterations; a row that fits is untouched;
    only string fields change, and only by getting shorter, and valid UTF-8
    stays valid. *)
Theorem clamp_row_contract r :
  fields_below r ->
  let r' := clampRow s r budget in
  estimateRowBytes s r' <= budget
  /\ (estimateRowBytes s r <= budget -> r' = r)
  /\ (forall f, len (get_str f r') <= len (get_str f r)
        /\ (ValidString (get_str f r) = true -> ValidString (get_str f r') = true))
  /\ (forall f, get_int f r' = get_int f r)
  /\ (forall f, fetch (PTime f) r' = fetch (PTime f) r).
Proof.
  intros Hf r'. split_and!.
  - apply clampRow_fits; [done|apply base_le_budget].
  - apply clampRow_short.
  - intros f. split; [|apply clampRow_valid].
    apply (clamp_loop_preserves s (fun q => len (get_str f q) <= len (get_str f r))); [|lia].
    intros g n q Hq. destruct (decide (g = f)) as [->|Hne]; [|by rewrite get_set_ne].
    rewrite get_set_eq. pose proof (truncate_len_le (get_str f q) n). lia.
  - intros f. apply clampRow_ints.
  - intros f. apply (clamp_loop_preserves s (fun q => fetch (PTime f) q = fetch (PTime f) r)); [|done].
    intros g n q Hq. by rewrite (assign_other (PStr g) _ (AStr (truncate (get_str g q) n)) q).
Qed.

(** C12. [SplitBatch] keeps every row, clamped, in order; every chunk is
    non-empty and within the budget, a single huge row included; no division of
    the clamped rows that fits has fewer chunks; and splitting a chunk again
    gives it back, so [InsertBatch] sends what the buffer handed it as one
    statement. *)
Theorem split_batch_contract rows :
  Forall fields_below rows ->
  mjoin (trino_SplitBatch s rows) = (fun r => clampRow s r budget) <$> rows
  /\ (forall c, c ∈ trino_SplitBatch s rows ->
        c <> [] /\ weight (estimateRowBytes s) c <= budget /\ trino_SplitBatch s c = [c])
  /\ (forall css, packing budget (estimateRowBytes s) ((fun r => clampRow s r budget) <$> rows) css ->
        (length (trino_SplitBatch s rows) <= length css)%nat).
Proof.
  intros Hrows. destruct (split_packing cfg rows) as [Hj Hn _]. split_and!; [done| |].
  - intros c Hc. rewrite Forall_forall in Hn. split_and!; [by apply Hn| |].
    + by apply (chunk_weight cfg rows).
    + by apply (resplit cfg rows).
  - intros css. rewrite split_eq. apply chunkRows_fewest. apply estimate_nonneg.
Qed.

(** The INSERT that a chunk of [SplitBatch] becomes, as shipped by the
    driver ([EXECUTE IMMEDIATE] with every quote doubled and the literals of its
    arguments), is no longer than the configured statement limit, or than the
    frame and 4096 bytes where the limit is smaller than that. *)
Theorem insert_statement_fits lit rows c :
  literal_laws lit -> Forall fields_below rows -> Forall args_ok rows -> c ∈ trino_SplitBatch s rows ->
  len (execute_immediate lit (insert_stmt s c) (insert_args c))
  <= Z.max (ts_maxStmtBytes s) (ts_stmtOverhead s + minStatementBudget).
Proof.
  intros Hlit Hrows Hargs Hc. destruct (split_packing cfg rows) as [_ Hn _].
  pose proof (chunk_weight cfg rows c Hrows Hc) as Hw. rewrite Forall_forall in Hn.
  assert (Hi : Forall args_ok c).
  { apply Forall_forall. intros r Hr. destruct (chunk_rows cfg rows c r Hc Hr) as (q & Hq & ->).
    rewrite Forall_forall in Hargs. by apply clampRow_args_ok, Hargs. }
  pose proof (statement_bound cfg lit Hlit c (Hn c Hc) Hi). unfold stmt_budget in Hw. lia.
Qed.

(** The statement has a placeholder for every argument: 41 per row, and no
    other when the configured names contain no question mark. *)
Theorem insert_placeholders rows :
  rows <> [] ->
  count_byte x3f (tc_Catalog cfg) = 0 -> count_byte x3f (tc_Schema cfg) = 0 -> count_byte x3f (tc_Table cfg) = 0 ->
  count_byte x3f (insert_stmt s rows) = len (insert_args rows) /\ len (insert_args rows) = 41 * len rows.
Proof.
  intros Hne Hc Hs Ht.
  assert (Ha : len (insert_args rows) = 41 * len rows).
  { clear. unfold insert_args. induction rows as [|r rows IH]; [done|].
    rewrite fmap_cons, mjoin_cons, len_app, IH, args_len, len_cons. lia. }
  split; [|done]. rewrite Ha. unfold insert_stmt. rewrite count_byte_app.
  rewrite (join_sum (count_byte x3f)); [|intros; apply count_byte_app|done|by destruct rows].
  rewrite <- list_fmap_compose, len_fmap. unfold compose. rewrite sumZ_fmap_const.
  change (count_byte x3f comma) with 0. change (count_byte x3f (ts_rowPlaceholder s)) with 41.
  assert (Hq : forall x, count_byte x3f (quoteIdent x) = count_byte x3f x).
  { intros x. unfold quoteIdent, enquote. rewrite !count_byte_app. change (count_byte x3f [dq]) with 0.
    enough (count_byte x3f (replace_byte dq [dq; dq] x) = count_byte x3f x) by lia.
    induction x as [|b x IH]; [done|]. rewrite replace_byte_cons, count_byte_app, IH, count_byte_cons.
    f_equal. destruct (decide (b = dq)) as [->|]; [done|]. rewrite count_byte_cons. change (count_byte x3f []) with 0. lia. }
  assert (Hp : count_byte x3f (ts_insertPrefix s) = 0); [|lia].
  cbn [ts_insertPrefix NewTrino]. unfold qualifiedName. rewrite !count_byte_app, !Hq, Hc, Hs, Ht. reflexivity.
Qed.
End guarantees.

(** ** The insert path *)

Section insert_path.
Context {W : Type} (exec : gostring -> list arg -> W -> W * option gerror).
Context (cfg : TrinoConfig) (table : W -> list Row) (keep : Row -> Row).
Context (laws : trino_exec_laws exec cfg table keep).
#[local] Abbreviation s := (NewTrino cfg).
#[local] Abbreviation clamp := (fun r => clampRow s r (stmt_budget s)).

(** C2. [InsertBatch] sends the chunks of the split in order and stops at the
    first failure.  Without an error the table has grown by all rows, in order,
    clamped and as its columns keep them.  With one, the rows reported as
    committed are those of the chunks before the failed one, and the table has
    grown by exactly these, or by these and the failed chunk, when the statement
    was carried out although it failed (a timeout, a lost answer).  If no failed
    statement is carried out, the table grows by exactly the reported rows. *)
Theorem insert_batch_commits rows w w' e :
  trino_InsertBatch exec s rows w = (w', e) ->
  let cs := trino_SplitBatch s rows in
  mjoin cs = clamp <$> rows
  /\ match e with
     | None => table w' = table w ++ (keep <$> (clamp <$> rows))
     | Some err => exists k, (k < length cs)%nat /\ CommittedRows err = len (mjoin (take k cs))
         /\ (table w' = table w ++ (keep <$> mjoin (take k cs))
             \/ table w' = table w ++ (keep <$> mjoin (take (S k) cs)))
     end
  /\ (nothing_hidden exec cfg table ->
      table w' = table w ++ (keep <$> (clamp <$> slice_to rows (committed_of rows e)))).
Proof using laws.
  intros H cs. apply (trino_insert_spec exec cfg table keep laws) in H. fold cs in H. cbn zeta in H.
  destruct (split_packing cfg rows) as [Hj _ _]. fold cs in Hj. split; [done|].
  destruct e as [err|]; cbn [committed_of].
  - destruct H as (k & Hk & Hc & Ht & Hs). split; [eauto|]. intros sure. rewrite (Hs sure), Hc.
    do 2 f_equal. unfold slice_to. rewrite fmap_take, <- Hj. symmetry. apply slice_to_join.
  - split; [done|]. intros _. by rewrite slice_to_all by lia.
Qed.

(** The buffer over the Trino store, in every reachable state: after what it
    held at the start the table holds the clamped form of exactly the rows
    counted as flushed, once each, across partial commits and retries, and
    besides them only rows of failed statements that were carried out all the
    same, at most once per attempt; without such statements, nothing else, and
    in order. *)
Theorem buffer_over_trino bcfg w0 (st : state W) h :
  reachable (H := trino_writer exec cfg) bcfg fields_below w0 st h ->
  (exists hidden,
    table (world st) ≡ₚ table w0 ++ (keep <$> (clamp <$> all_written h ++ hidden))
    /\ hidden ⊆+ copies (attempts_max bcfg) (accepted h)
    /\ (nothing_hidden exec cfg table ->
        hidden = [] /\ table (world st) = table w0 ++ (keep <$> (clamp <$> all_written h))))
  /\ mjoin (raw <$> finished h) ++ batch st ++ ch st = accepted h
  /\ rowsFlushed (metrics st) = wrap64 (len (all_written h)).
Proof using laws.
  intros Hr. pose proof (trino_writer_ledger exec cfg table keep laws w0) as Hl.
  pose proof (inv_reachable bcfg w0 (table_ledger_start _ _ _ _) _ _ Hr) as Hi.
  split_and!; [exact (inv_table_ledger _ _ _ Hi)|exact (inv_fifo _ _ _ _ _ _ Hi)|
    exact (inv_flushed _ _ _ _ _ _ Hi)].
Qed.

(** A failed chunk keeps the driver's error under a prefix that names the
    rows, and is non-retryable exactly when the driver says so, names the error
    [QUERY_TEXT_TOO_LARGE], or its text says the statement is too long. *)
Theorem insert_error_classified rows w w' err :
  trino_insertChunk exec s rows w = (w', Some err) ->
  exists e, exec (insert_stmt s rows) (insert_args rows) w = (w', Some e)
    /\ (errors_Is ENonRetryable err = true <->
          errors_Is ENonRetryable e = true
          \/ errors_As_leaf is_query_text_too_large e = Some (bs "QUERY_TEXT_TOO_LARGE")
          \/ contains (error_text e) (bs "exceeds the maximum length") = true)
    /\ has_prefix (error_text err) (bs "insert " ++ itoa (len rows) ++ bs " rows: ") = true.
Proof.
  unfold trino_insertChunk, exec_wrap. destruct (exec _ _ _) as [w1 [e|]] eqn:E; [|done].
  intros [= <- <-]. exists e. split_and!; [done| |].
  - cbn [errors_Is]. unfold classifyInsertErr.
    destruct (errors_As_leaf is_query_text_too_large e) as [n|] eqn:En.
    + destruct (bool_decide_reflect (n = bs "QUERY_TEXT_TOO_LARGE")) as [->|Hn]; cbn [orb].
      * cbn. split; auto.
      * destruct (contains _ _); cbn; [split; auto|]. split; [auto|].
        intros [?|[[= ->]|?]]; [done|by destruct Hn|done].
    + cbn [orb]. destruct (contains _ _); cbn; [split; auto|]. split; [auto|]. by intros [?|[?|?]].
  - cbn [error_text]. apply has_prefix_app.
Qed.
End insert_path.

(** ** Reading *)

Section reading.
Context {W : Type} (query : gostring -> list arg -> W -> gerror + (list (list arg) * option gerror)).
Context (scan_err : gerror) (cfg : TrinoConfig).
#[local] Abbreviation s := (NewTrino cfg).

Lemma scan_summaries_rows vs rs out :
  Forall2 (fun v r => mapM (column_value r) summaryColumns = Some v) vs rs ->
  scan_summaries scan_err vs out = (out ++ (summary_of_row <$> rs), None).
Proof.
  intros H. revert out. induction H as [|v r vs rs Hv _ IH]; intros out; [by rewrite app_nil_r|].
  cbn [scan_summaries]. destruct (summary_values r) as (v' & Hv' & Hs). rewrite Hv in Hv'. injection Hv' as <-.
  rewrite Hs, IH, fmap_cons. by rewrite <- app_assoc.
Qed.

(** A listing returns, in the order the database gives them, the summaries
    of the rows whose selected columns it read, with the error that ended the
    iteration; a failed query returns no rows and the wrapped error. *)
Theorem list_queries_result f w :
  match query (list_stmt s f) (snd (trinoWhere (listPredicates f))) w with
  | inl err => trino_ListQueries query scan_err s f w = ([], Some (Wrap (bs "list queries: ") err))
  | inr (vs, e) => forall rs,
      Forall2 (fun v r => mapM (column_value r) summaryColumns = Some v) vs rs ->
      trino_ListQueries query scan_err s f w = (summary_of_row <$> rs, e)
  end.
Proof.
  unfold trino_ListQueries. destruct (query _ _ _) as [err|[vs e]]; [done|]. intros rs Hrs.
  by rewrite (scan_summaries_rows vs rs []).
Qed.

(** [GetQuery] asks the database only for an id that begins with a date, by
    that id and within its window; it returns the first row read, with every
    column, and nothing when there is none. *)
Theorem get_query_result id w :
  match queryIDWindow id with
  | None => trino_GetQuery query scan_err s id w = (None, None)
  | Some (from, to) =>
      let preds := [mkPred (bs "query_id") (bs "=") (AStr id);
                    mkPred (bs "create_time") (bs ">=") (ATime from);
                    mkPred (bs "create_time") (bs "<") (ATime to)] in
      (forall r, forallb (pred_holds r) preds = true <-> QueryID r = id /\ from <= CreateTime r < to)
      /\ match query (get_stmt s preds) [AStr id; ATime from; ATime to] w with
         | inl err => trino_GetQuery query scan_err s id w
                      = (None, Some (Wrap (bs "get query " ++ id ++ bs ": ") err))
         | inr ([], e) => trino_GetQuery query scan_err s id w = (None, e)
         | inr (v :: _, _) => forall r, v = args r -> trino_GetQuery query scan_err s id w = (Some r, None)
         end
  end.
Proof.
  unfold trino_GetQuery, queryIDPredicates. destruct (queryIDWindow id) as [[from to]|]; [|done].
  cbn zeta. split.
  - intros r. cbn [forallb]. rewrite (pred_string r _ (QueryID r)) by reflexivity.
    rewrite pred_since, pred_until, !andb_true_iff, bool_decide_eq_true, Z.leb_le, Z.ltb_lt. tauto.
  - change (snd (trinoWhere _)) with [AStr id; ATime from; ATime to].
    destruct (query _ _ _) as [err|[[|v vs] e]]; [done|done|]. intros r ->. by rewrite scan_args.
Qed.
End reading.

(** ** Schema and maintenance *)

Section statements.
Context {W : Type} (exec : gostring -> list arg -> W -> W * option gerror) (s : TrinoStore).

(** [Maintain] runs both of its statements, the second whether or not the
    first failed, and fails exactly when one of them did, with every error. *)
Theorem maintain_runs_both threshold w :
  let expire := bs "ALTER TABLE " ++ ts_table s ++ bs " EXECUTE expire_snapshots(retention_threshold => "
                ++ enquote sq threshold ++ bs ")" in
  let orphans := bs "ALTER TABLE " ++ ts_table s ++ bs " EXECUTE remove_orphan_files(retention_threshold => "
                 ++ enquote sq threshold ++ bs ")" in
  let '(w1, e1) := exec expire [] w in
  let '(w2, e2) := exec orphans [] w1 in
  fst (trino_Maintain exec s threshold w) = w2
  /\ (snd (trino_Maintain exec s threshold w) = None <-> e1 = None /\ e2 = None)
  /\ forall l, match snd (trino_Maintain exec s threshold w) with
               | None => False | Some e => errors_Is l e = true end
       <-> (exists e, e1 = Some e /\ errors_Is l e = true) \/ (exists e, e2 = Some e /\ errors_Is l e = true).
Proof.
  intros expire orphans. unfold trino_Maintain, maintain_steps. cbn [run_steps].
  fold expire orphans. destruct (exec expire [] w) as [w1 e1]. destruct (exec orphans [] w1) as [w2 e2] eqn:E2.
  destruct e1 as [e1|]; rewrite ?E2; destruct e2 as [e2|]; cbn; (split_and!; [done|naive_solver|]);
    intros l; rewrite ?orb_false_r, ?orb_true_iff; naive_solver.
Qed.

(** [Init] creates the schema and then the table; when the schema fails the
    table is not attempted. *)
Theorem init_order w :
  let '(w1, e1) := exec (trino_SchemaDDL s) [] w in
  match e1 with
  | Some err => trino_Init exec s w = (w1, Some (Wrap (bs "create schema: ") err))
  | None =>
      let '(w2, e2) := exec (trino_TableDDL s) [] w1 in
      trino_Init exec s w = (w2, Wrap (bs "create table: ") <$> e2)
  end.
Proof.
  unfold trino_Init, exec_wrap. destruct (exec (trino_SchemaDDL s) [] w) as [w1 [e1|]]; [done|].
  by destruct (exec (trino_TableDDL s) [] w1) as [w2 [e2|]].
Qed.
End statements.

(** ** Instances *)

#[local] Abbreviation ds := (NewTrino demo_trino).

(** A row whose plan alone is beyond the budget. *)
Definition huge_row : Row := set_str FPlan (replicate (Z.to_nat 5000) x61) (set_str FQueryID (bs "q") zero_row).
Definition small_cfg : TrinoConfig := mkTrinoConfig (bs "c") (bs "s") (bs "t") 5000 [].

Lemma huge_fields : fields_below huge_row.
Proof. intros f. destruct f; vm_compute; reflexivity. Qed.

Lemma huge_args : args_ok huge_row.
Proof.
  apply args_ok_set, args_ok_set. unfold args_ok. repeat (apply Forall_cons; split); try apply Forall_nil; try exact I.
  all: vm_compute; split; first [reflexivity|discriminate].
Qed.

Lemma zero_fields id : len (bs id) < 2 ^ 47 -> fields_below (set_str FQueryID (bs id) zero_row).
Proof. intros H f. destruct f; first [exact H|vm_compute; reflexivity]. Qed.

Lemma clamp_row_contract_witness :
  let r' := clampRow (NewTrino small_cfg) huge_row (stmt_budget (NewTrino small_cfg)) in
  stmt_budget (NewTrino small_cfg) < estimateRowBytes (NewTrino small_cfg) huge_row
  /\ estimateRowBytes (NewTrino small_cfg) r' <= stmt_budget (NewTrino small_cfg)
  /\ forall f, get_int f r' = get_int f huge_row.
Proof.
  intros r'. split; [vm_compute; reflexivity|].
  destruct (clamp_row_contract small_cfg huge_row huge_fields) as (H1 & _ & _ & H2 & _). split; [exact H1|exact H2].
Defined.

Lemma split_batch_contract_witness :
  let rows := [huge_row; set_str FQueryID (bs "q2") zero_row] in
  length (trino_SplitBatch (NewTrino small_cfg) rows) = 2%nat
  /\ forall c, c ∈ trino_SplitBatch (NewTrino small_cfg) rows ->
       c <> [] /\ weight (estimateRowBytes (NewTrino small_cfg)) c <= stmt_budget (NewTrino small_cfg)
       /\ trino_SplitBatch (NewTrino small_cfg) c = [c].
Proof.
  intros rows. split; [vm_compute; reflexivity|].
  apply (split_batch_contract small_cfg rows). repeat constructor; [apply huge_fields|apply zero_fields; reflexivity].
Defined.

Lemma insert_statement_fits_witness :
  exists c, c ∈ trino_SplitBatch (NewTrino small_cfg) [huge_row]
    /\ len (execute_immediate demo_lit (insert_stmt (NewTrino small_cfg) c) (insert_args c))
       <= Z.max (ts_maxStmtBytes (NewTrino small_cfg)) (ts_stmtOverhead (NewTrino small_cfg) + minStatementBudget).
Proof.
  destruct (trino_SplitBatch (NewTrino small_cfg) [huge_row]) as [|c l] eqn:E; [vm_compute in E; discriminate E|].
  exists c. split; [left|]. apply (insert_statement_fits small_cfg demo_lit [huge_row] c).
  - apply demo_literals.
  - apply Forall_singleton, huge_fields.
  - apply Forall_singleton, huge_args.
  - rewrite E. left.
Defined.

Lemma insert_placeholders_witness :
  count_byte x3f (insert_stmt ds [zero_row; zero_row]) = len (insert_args [zero_row; zero_row])
  /\ len (insert_args [zero_row; zero_row]) = 82.
Proof.
  apply (insert_placeholders demo_trino [zero_row; zero_row]); [discriminate|reflexivity|reflexivity|reflexivity].
Defined.

(** Two chunks, the second of which fails. *)
(** Two rows in a statement each; the second statement is carried out and its
    answer lost. *)
Lemma insert_batch_commits_witness :
  let rows := [huge_row; set_str FQueryID (bs "q2") zero_row] in
  let r := trino_InsertBatch demo_exec (NewTrino small_cfg) rows (mkDemoDB [] [Done; Lost (bs "timeout")]) in
  len (db_rows (fst r)) = 2
  /\ exists err k, snd r = Some err /\ CommittedRows err = 1
       /\ CommittedRows err = len (mjoin (take k (trino_SplitBatch (NewTrino small_cfg) rows))).
Proof.
  intros rows r. split; [vm_compute; reflexivity|].
  destruct (insert_batch_commits demo_exec small_cfg db_rows micros_row (demo_exec_laws small_cfg) rows
    (mkDemoDB [] [Done; Lost (bs "timeout")]) (fst r) (snd r) (surjective_pairing r)) as (_ & He & _).
  assert (Hc : CommittedRows <$> snd r = Some 1) by (vm_compute; reflexivity).
  destruct (snd r) as [err|]; [|discriminate Hc]. destruct He as (k & _ & He & _).
  exists err, k. split_and!; [reflexivity|by injection Hc|exact He].
Defined.

(** One row, whose first INSERT is carried out with its answer lost, so that the
    retry writes it again. *)
#[local] Abbreviation tw := (trino_writer demo_exec small_cfg).
Definition retry_cfg : Config := normalize (mkConfig 1 Second 4 1 0 0 0).
Definition retry_start : state demo_db := New_state (mkDemoDB [zero_row] [Lost (bs "timeout"); Done]) NewMetrics.
Definition retry_end : state demo_db * history :=
  default (retry_start, no_history)
    (trace (H := tw) retry_cfg [AddSend huge_row; Recv; Attempt 0 5; Waited; Attempt 10 20] retry_start no_history).

Lemma buffer_over_trino_witness :
  all_written (snd retry_end) = [huge_row] /\ len (db_rows (world (fst retry_end))) = 3
  /\ exists hidden,
      db_rows (world (fst retry_end))
      ≡ₚ db_rows (world retry_start)
        ++ (micros_row <$> ((fun r => clampRow (NewTrino small_cfg) r (stmt_budget (NewTrino small_cfg)))
                            <$> all_written (snd retry_end) ++ hidden))
      /\ hidden ⊆+ copies (attempts_max retry_cfg) (accepted (snd retry_end)).
Proof.
  split_and!; [vm_compute; reflexivity..|].
  destruct (buffer_over_trino demo_exec small_cfg db_rows micros_row (demo_exec_laws small_cfg) retry_cfg (world retry_start)
    (fst retry_end) (snd retry_end)) as [(hidden & Ht & Hh & _) _]; [|by exists hidden].
  apply (trace_reachable (H := tw) retry_cfg fields_below (world retry_start)
    [AddSend huge_row; Recv; Attempt 0 5; Waited; Attempt 10 20] retry_start no_history).
  - constructor.
  - repeat (apply Forall_cons; split); try exact I; [exact huge_fields|apply Forall_nil; exact I].
  - vm_compute. reflexivity.
Defined.

Lemma insert_error_classified_witness :
  exists err e, trino_insertChunk demo_exec ds [zero_row] (mkDemoDB [] [Refused (bs "text exceeds the maximum length")])
                = (mkDemoDB [] [], Some err)
    /\ errors_Is ENonRetryable err = true /\ demo_exec (insert_stmt ds [zero_row]) (insert_args [zero_row])
                (mkDemoDB [] [Refused (bs "text exceeds the maximum length")]) = (mkDemoDB [] [], Some e).
Proof.
  destruct (trino_insertChunk demo_exec ds [zero_row] (mkDemoDB [] [Refused (bs "text exceeds the maximum length")]))
    as [w' [err|]] eqn:E; [|vm_compute in E; discriminate E].
  destruct (insert_error_classified demo_exec demo_trino _ _ _ _ E) as (e & He & Hiff & _).
  assert (Hw : w' = mkDemoDB [] []) by (pose proof (f_equal fst E) as Hw; exact (eq_sym Hw)). subst w'.
  exists err, e. split; [reflexivity|split; [|exact He]]. apply Hiff. right. right.
  assert (He' : e = Leaf (EText (bs "text exceeds the maximum length"))) by (pose proof (f_equal snd He) as Hs; vm_compute in Hs; by injection Hs as <-).
  rewrite He'. vm_compute. reflexivity.
Defined.
