(* ===== verification/ClickHouseTheorems.v ===== *)
(** * ClickHouseTheorems: the guarantees of the ClickHouse backend

    The insert contract, retries of a chunk and of a batch of the buffer under
    the deduplication token, query parameters, retention by partition, and the column types. *)

From S2P Require Import Prelude Errors GoTime Row Chunk Store Query Trino Prune ClickHouse Metrics Buffer BufferSpec.

(** C22. The deduplication token of a batch with distinct query ids does not
    depend on the order of its rows; and two batches with one token hold the
    same rows, unless their texts are a collision of SHA-256. *)
Theorem batch_token_identifies rows1 rows2 :
  Forall row_nanos_ok rows1 -> Forall row_nanos_ok rows2 -> NoDup (QueryID <$> rows1) ->
  (rows1 ≡ₚ rows2 -> batchToken rows1 = batchToken rows2)
  /\ (batchToken rows1 = batchToken rows2 ->
      rows1 ≡ₚ rows2
      \/ token_text rows1 <> token_text rows2
         /\ Sha256.sha256 (token_text rows1) = Sha256.sha256 (token_text rows2)).
Proof.
  intros H1 H2 Hnd. split; [intros Hp; by apply batchToken_perm|]. intros Ht.
  apply Sha256.hex_string_inj in Ht. destruct (decide (token_text rows1 = token_text rows2)) as [E|E]; [left|by right].
  apply token_text_inj in E; [|done..]. by rewrite <- (sort_by_id_perm rows1), E, sort_by_id_perm.
Qed.

(** ** The insert path *)

Section dedup.
Context {W : Type} (conn : chConn W) (cfg : ClickHouseConfig) (table : W -> list Row) (seen : W -> list gostring).
Context (pending : W -> list (list arg)) (token : W -> gostring) (keep : Row -> Row).
#[local] Abbreviation s := (newClickHouseStore cfg).

(** The driver's errors are not the store's own [PartialCommitError]. *)
Definition driver_error (e : option gerror) : Prop :=
  match e with Some err => errors_As_partial err = None | None => True end.

(** A table with the deduplication window ([clickhouseDedupWindow] blocks, taken
    as unbounded): a block whose token was seen is dropped.  A send that reports a
    failure may still have been applied, as a whole. *)
Record dedup_laws : Prop := {
  dd_keep : forall r, stored_as r (keep r);
  dd_prepare : forall tok stmt w w' e, ch_prepare conn tok stmt w = (w', e) ->
    driver_error e /\ table w' = table w /\ seen w' = seen w /\ (e = None -> pending w' = [] /\ token w' = tok);
  dd_append : forall a w w' e, ch_append conn a w = (w', e) ->
    driver_error e /\ table w' = table w /\ seen w' = seen w
    /\ (e = None -> pending w' = pending w ++ [a] /\ token w' = token w);
  dd_abort : forall w, table (ch_abort conn w) = table w /\ seen (ch_abort conn w) = seen w;
  dd_send : forall w w' e rows, ch_send conn w = (w', e) -> pending w = args <$> rows ->
    driver_error e
    /\ ((e <> None /\ table w' = table w /\ seen w' = seen w)
        \/ (token w ∈ seen w /\ table w' = table w /\ seen w' = seen w)
        \/ (token w ∉ seen w /\ table w' = table w ++ (keep <$> rows) /\ seen w' = token w :: seen w));
}.

Hypothesis laws : dedup_laws.

(** Attempts at one batch, in any row order, until one succeeds. *)
Fixpoint attempts (batches : list (list Row)) (w : W) : W * option gerror :=
  match batches with
  | [] => (w, Some (errText "not attempted"))
  | b :: rest =>
      match ch_insertChunk conn s b w with
      | (w', None) => (w', None)
      | (w', Some err) => match rest with [] => (w', Some err) | _ => attempts rest w' end
      end
  end.

Lemma classified_error text err : errors_As_partial err = None -> CommittedRows (Wrap text (classifyClickHouseErr err)) = 0.
Proof. intros He. unfold CommittedRows. cbn. by rewrite classify_ch_partial, He. Qed.

Lemma dedup_append rows w w' e :
  append_rows conn rows w = (w', e) ->
  table w' = table w /\ seen w' = seen w
  /\ match e with
     | None => pending w' = pending w ++ (args <$> rows) /\ token w' = token w
     | Some err => CommittedRows err = 0
     end.
Proof using laws.
  revert w. induction rows as [|r rows IH]; intros w; cbn [append_rows].
  { intros [= <- <-]. by rewrite app_nil_r. }
  destruct (ch_append conn (args r) w) as [w1 [err|]] eqn:E; apply (dd_append laws) in E as (Hd & Ht & Hs & Hp).
  - intros [= <- <-]. destruct (dd_abort laws w1) as [Ha Hb]. split_and!; [congruence|congruence|by apply classified_error].
  - intros H. apply IH in H as (Ht' & Hs' & Hp'). destruct (Hp eq_refl) as [Hp1 Htok].
    split_and!; [congruence|congruence|]. destruct e as [err|]; [done|]. destruct Hp' as [Hp2 Htok2].
    split; [|congruence]. by rewrite Hp2, Hp1, <- app_assoc.
Qed.

(** What one attempt can do to the table and the window. *)
Lemma dedup_attempt rows w w' e :
  ch_insertChunk conn s rows w = (w', e) ->
  (forall err, e = Some err -> CommittedRows err = 0)
  /\ ((e <> None /\ table w' = table w /\ seen w' = seen w)
      \/ (batchToken rows ∈ seen w /\ table w' = table w /\ seen w' = seen w)
      \/ (batchToken rows ∉ seen w /\ table w' = table w ++ (keep <$> rows) /\ seen w' = batchToken rows :: seen w)).
Proof using laws.
  unfold ch_insertChunk. destruct (ch_prepare conn _ _ w) as [w1 [err|]] eqn:E1;
    apply (dd_prepare laws) in E1 as (Hd1 & Ht1 & Hs1 & H1).
  { intros [= <- <-]. split; [intros ? [= <-]; by apply classified_error|]. left. split_and!; [done|congruence|congruence]. }
  destruct (H1 eq_refl) as [Hp1 Htok1].
  destruct (append_rows conn rows w1) as [w2 [err|]] eqn:E2; apply dedup_append in E2 as (Ht2 & Hs2 & H2).
  { intros [= <- <-]. split; [by intros ? [= <-]|]. left. split_and!; [done|congruence|congruence]. }
  destruct H2 as [Hp2 Htok2]. rewrite Hp1 in Hp2. cbn [app] in Hp2.
  assert (Htok : token w2 = batchToken rows) by congruence.
  destruct (ch_send conn w2) as [w3 e3] eqn:E3. apply (dd_send laws) with (rows := rows) in E3 as [Hd3 E3]; [|done].
  rewrite Htok, Ht2, Ht1, Hs2, Hs1 in E3. destruct e3 as [err|]; intros [= <- <-].
  - split; [intros ? [= <-]; by apply classified_error|]. destruct E3 as [(_ & ?)|E3]; [by left|right; exact E3].
  - split; [done|]. destruct E3 as [(? & _)|E3]; [done|right; exact E3].
Qed.

(** The table and the window of the server, and what a chunk that arrives does
    to them. *)
Definition at_server (w : W) : list Row * list gostring := (table w, seen w).
Definition land (st : list Row * list gostring) (chunk : list Row) : list Row * list gostring :=
  if decide (batchToken chunk ∈ snd st) then st
  else (fst st ++ (keep <$> chunk), batchToken chunk :: snd st).

Lemma chunk_lands rows w w' e :
  ch_insertChunk conn s rows w = (w', e) ->
  match e with
  | None => at_server w' = land (at_server w) rows
  | Some err => CommittedRows err = 0
      /\ (at_server w' = at_server w \/ at_server w' = land (at_server w) rows)
  end.
Proof using laws.
  intros H. apply dedup_attempt in H as [Hc H]. unfold at_server, land. cbn [fst snd].
  destruct H as [(He & -> & ->)|[(Hi & -> & ->)|(Hi & -> & ->)]].
  - destruct e as [err|]; [|done]. split; [by apply Hc|by left].
  - rewrite decide_True by done. destruct e; [split; [by apply Hc|by left]|done].
  - rewrite decide_False by done. destruct e; [split; [by apply Hc|by right]|done].
Qed.

Lemma chunks_land cs w w' :
  all_sent (ch_insertChunk conn s) cs w w' -> at_server w' = foldl land (at_server w) cs.
Proof using laws.
  revert w. induction cs as [|c cs IH]; intros w; cbn [all_sent foldl]; [by intros ->|].
  intros (w1 & E & Hs). apply chunk_lands in E. by rewrite (IH _ Hs), E.
Qed.

Lemma land_seen st c : batchToken c ∈ snd (land st c).
Proof. unfold land. case_decide; [done|by left]. Qed.

Lemma land_keeps st c t : t ∈ snd st -> t ∈ snd (land st c).
Proof. unfold land. case_decide; [done|by right]. Qed.

Lemma land_again st c : batchToken c ∈ snd st -> land st c = st.
Proof. intros Hc. unfold land. by rewrite decide_True. Qed.

Lemma lands_keep st cs t : t ∈ snd st -> t ∈ snd (foldl land st cs).
Proof. revert st. induction cs as [|c cs IH]; intros st Ht; [done|]. by apply IH, land_keeps. Qed.

Lemma lands_seen st cs c : c ∈ cs -> batchToken c ∈ snd (foldl land st cs).
Proof.
  revert st. induction cs as [|d cs IH]; intros st; [by intros []%elem_of_nil|].
  intros [->|Hc]%elem_of_cons; cbn [foldl]; [apply lands_keep, land_seen|by apply IH].
Qed.

(** C9. [InsertBatch] sends the chunks of the split in order, each under its
    token, and stops at the first failure.  Each chunk that arrives adds its
    rows, unless the server has seen its token; without an error all have
    arrived, and with one those before the failed one, whose rows are the
    reported ones, and perhaps the failed one, when it was applied although the
    send failed.  The server has then seen the token of every reported chunk;
    and what was not reported splits into the very chunks that were not, so a
    retry sends each of them under the token it had the first time. *)
Theorem ch_insert_contract rows w w' e :
  ch_InsertBatch conn s rows w = (w', e) ->
  let cs := ch_SplitBatch s rows in
  mjoin cs = rows
  /\ exists k, (forall c, c ∈ take k cs -> batchToken c ∈ seen w')
     /\ match e with
        | None => k = length cs /\ at_server w' = foldl land (at_server w) cs
        | Some err => (k < length cs)%nat /\ CommittedRows err = len (mjoin (take k cs))
            /\ (at_server w' = foldl land (at_server w) (take k cs)
                \/ at_server w' = foldl land (at_server w) (take (S k) cs))
            /\ ch_SplitBatch s (slice_from rows (CommittedRows err)) = drop k cs
        end.
Proof using laws.
  intros H cs. pose proof (ch_split_join s rows) as Hj. fold cs in Hj. split; [done|].
  assert (Hz : forall r w1 w2 err, ch_insertChunk conn s r w1 = (w2, Some err) -> CommittedRows err = 0).
  { intros r w1 w2 err E. by apply chunk_lands in E as [? _]. }
  unfold ch_InsertBatch in H. destruct (insert_chunks_run _ Hz cs [] _ _ _ H) as (k & wk & Hs & He).
  apply chunks_land in Hs. exists k.
  assert (Hseen : forall st c, c ∈ take k cs -> batchToken c ∈ snd (foldl land st (take k cs))) by eauto using lands_seen.
  destruct e as [err|].
  - destruct He as (Hc & c & cause & Hl & E). cbn [app] in Hc. apply chunk_lands in E as [_ E]. rewrite Hs in E.
    rewrite (take_S_r _ _ _ Hl), foldl_app. cbn [foldl]. split_and!; [|by eapply lookup_lt_Some|done|done|].
    + intros d Hd. change (seen w') with (snd (at_server w')). destruct E as [-> | ->]; [by apply Hseen|].
      by apply land_keeps, Hseen.
    + rewrite Hc, <- Hj at 1. rewrite slice_from_join. apply ch_split_drop.
  - destruct He as [-> ->]. rewrite take_ge in * by done. split; [|done].
    intros d Hd. change (seen wk) with (snd (at_server wk)). rewrite Hs. by apply Hseen.
Qed.

(** C10. However often a chunk is attempted and whichever of the failures hid a
    write that did happen, once an attempt succeeds the chunk's rows are in the
    table exactly once, as its columns keep them. *)
Theorem dedup_exactly_once rows batches w w' :
  NoDup (QueryID <$> rows) -> Forall (fun b => b ≡ₚ rows) batches -> batchToken rows ∉ seen w ->
  attempts batches w = (w', None) -> table w' ≡ₚ table w ++ (keep <$> rows).
Proof using laws.
  intros Hnd Hb Hfresh.
  assert (Htok : forall b, b ≡ₚ rows -> batchToken b = batchToken rows).
  { intros b Hp. symmetry. by apply batchToken_perm. }
  enough (H : forall w1, (batchToken rows ∉ seen w1 /\ table w1 = table w)
              \/ (batchToken rows ∈ seen w1 /\ table w1 ≡ₚ table w ++ (keep <$> rows)) ->
            attempts batches w1 = (w', None) -> table w' ≡ₚ table w ++ (keep <$> rows)) by (apply H; by left).
  clear Hfresh. induction Hb as [|b batches Hp _ IH]; intros w1 Hinv; cbn [attempts]; [done|].
  specialize (Htok b Hp). destruct (ch_insertChunk conn s b w1) as [w2 e] eqn:E.
  apply dedup_attempt in E as [_ E]. rewrite Htok in E.
  assert (Hinv' : (e <> None /\ batchToken rows ∉ seen w2 /\ table w2 = table w)
            \/ (batchToken rows ∈ seen w2 /\ table w2 ≡ₚ table w ++ (keep <$> rows))).
  { destruct Hinv as [[Hn Ht]|[Hin Ht]]; destruct E as [(He & -> & ->)|[(Hi & -> & ->)|(Hi & -> & ->)]]; try done;
      [left; done|right|right; done|right; done]. split; [left|]. by rewrite Ht, Hp. }
  destruct e as [err|].
  - destruct batches as [|b' batches]; [done|]. apply IH.
    destruct Hinv' as [(_ & ?)|?]; [by left|by right].
  - intros [= <-]. destruct Hinv' as [(? & _)|[_ ?]]; done.
Qed.

(** ** A batch and its retries *)

Section flush.
Context (bcfg : Config).
#[local] Existing Instance ch_writer.
#[local] Abbreviation step := (step (H := ch_writer conn s) bcfg).
#[local] Abbreviation insert := (insert (H := ch_writer conn s)).

(** The states of the buffer while the flush under way in [s0] goes on. *)
Inductive flushing (s0 : state W) : state W -> Prop :=
| flushing_here : flushing s0 s0
| flushing_on l st st' :
    flushing s0 st -> step l st = Some st' ->
    match at_pc st' with Flush _ _ _ _ | Wait _ _ _ _ => True | _ => False end -> flushing s0 st'.

Lemma one_chunk rows c w : c ∈ ch_SplitBatch s rows -> ch_InsertBatch conn s c w = ch_insertChunk conn s c w.
Proof.
  intros Hc. unfold ch_InsertBatch. rewrite (ch_resplit s rows c Hc). cbn [insert_chunks].
  by destruct (ch_insertChunk conn s c w) as [w' [err|]].
Qed.

(** What the server holds after the first [j] chunks. *)
Context (rows : list Row) (st0 : list Row * list gostring).
#[local] Abbreviation cs := (ch_SplitBatch s rows).
Definition landed (j : nat) : list Row * list gostring := foldl land st0 (take j cs).
Definition arrived (j : nat) (w : W) : Prop := at_server w = landed j \/ at_server w = landed (S j).

Lemma landed_S j c : cs !! j = Some c -> landed (S j) = land (landed j) c.
Proof. intros Hc. unfold landed. by rewrite (take_S_r _ _ _ Hc), foldl_app. Qed.

Lemma landed_twice j c : cs !! j = Some c -> land (landed (S j)) c = landed (S j).
Proof. intros Hc. apply land_again. rewrite (landed_S j c Hc). apply land_seen. Qed.

Lemma loop_lands ds j c0 w w' c e :
  ds = drop j cs -> ds <> [] -> arrived j w -> insert_loop (H := ch_writer conn s) ds c0 w = (w', c, e) ->
  match e with
  | None => c = c0 + len (mjoin ds) /\ at_server w' = landed (length cs)
  | Some _ => exists i, (j <= i < length cs)%nat /\ c = c0 + len (mjoin (take (i - j) ds)) /\ arrived i w'
  end.
Proof using laws.
  revert j c0 w. induction ds as [|d ds IH]; intros j c0 w Hd Hne Ha; [done|]. clear Hne.
  assert (Hl : cs !! j = Some d).
  { rewrite <- (Nat.add_0_r j), <- lookup_drop, <- Hd. done. }
  assert (Hd' : ds = drop (S j) cs).
  { apply (f_equal (drop 1)) in Hd. rewrite drop_drop, Nat.add_1_r in Hd. exact Hd. }
  assert (Hjl : (j < length cs)%nat) by (by eapply lookup_lt_Some).
  cbn [insert_loop]. change (InsertBatch d w) with (ch_InsertBatch conn s d w).
  rewrite (one_chunk rows) by (by eapply list_elem_of_lookup_2).
  destruct (ch_insertChunk conn s d w) as [w1 [err|]] eqn:E; apply chunk_lands in E.
  - intros [= <- <- <-]. destruct E as [Hz E]. exists j. split; [lia|]. rewrite Nat.sub_diag, Hz. split; [done|].
    unfold arrived in *. destruct Ha as [Ha|Ha]; rewrite Ha in E.
    + rewrite (landed_S j d Hl). exact E.
    + right. destruct E as [E|E]; [done|by rewrite E, landed_twice].
  - assert (Ha1 : at_server w1 = landed (S j)).
    { rewrite E. destruct Ha as [-> | ->]; [symmetry; by apply landed_S|by apply landed_twice]. }
    destruct ds as [|d2 ds].
    + cbn [insert_loop]. intros [= <- <- <-]. split; [cbn; by rewrite app_nil_r|].
      rewrite Ha1. f_equal. apply (f_equal length) in Hd'. rewrite length_drop in Hd'. simpl in Hd'. lia.
    + intros H. apply IH with (j := S j) in H; [|done|done|by left]. destruct e as [err|].
      * destruct H as (i & Hi & -> & Hai). exists i. split; [lia|]. split; [|done].
        replace (i - j)%nat with (S (i - S j)) by lia. cbn [take]. rewrite (mjoin_cons d), len_app. lia.
      * destruct H as [-> H]. split; [|done]. rewrite (mjoin_cons d), len_app. lia.
Qed.

Lemma insert_lands j rest w w' c e :
  (j < length cs)%nat -> rest = mjoin (drop j cs) -> arrived j w -> insert rest w = (w', c, e) ->
  match e with
  | None => at_server w' = landed (length cs)
  | Some _ => exists i, (i < length cs)%nat /\ slice_from rest (clamp_committed c rest) = mjoin (drop i cs) /\ arrived i w'
  end.
Proof using laws.
  intros Hj -> Ha. unfold insert. unfold split. cbn [SplitBatch ch_writer]. rewrite ch_split_drop.
  assert (Hne : drop j cs <> []).
  { intros E. apply (f_equal length) in E. rewrite length_drop in E. simpl in E. lia. }
  assert (Hsp : forall (l : list (list Row)) x, l <> [] -> match l with [] => x | d :: ds => d :: ds end = l) by (by intros []).
  rewrite (Hsp _ _ Hne).
  intros H. apply loop_lands with (j := j) in H; [|done..]. destruct e as [err|]; [|by destruct H as [_ H]].
  destruct H as (i & Hi & -> & Hai). exists i. split; [lia|]. split; [|done].
  pose proof (len_join_take (drop j cs) (i - j)) as Hb. unfold clamp_committed.
  rewrite Z.add_0_l, Z.max_l, Z.min_l by lia. rewrite slice_from_join, drop_drop. do 2 f_equal. lia.
Qed.

(** While the flush goes on, the rows still to be written are those of the last
    chunks, and the others have arrived. *)
Lemma flushing_lands s0 k a bo st :
  at_pc s0 = Flush k rows a bo -> rows <> [] -> at_server (world s0) = st0 -> flushing s0 st ->
  exists j, (j < length cs)%nat /\ arrived j (world st)
    /\ match at_pc st with
       | Flush _ rest _ _ | Wait _ rest _ _ => rest = mjoin (drop j cs)
       | _ => False
       end.
Proof using laws.
  intros Hpc Hne Hw Hf. induction Hf as [|l st st' Hf IH Hs Hin].
  - exists 0%nat. rewrite Hpc, drop_0, ch_split_join. split_and!; [|by left|done].
    destruct cs eqn:E; [|simpl; lia]. pose proof (ch_split_join s rows) as Hj. rewrite E in Hj. by subst rows.
  - destruct IH as (j & Hj & Ha & Hrest).
    destruct l; cbn [Buffer.step] in Hs.
    + destruct (_ <? _); [|done]. injection Hs as <-. eauto.
    + destruct (stop st); [|done]. injection Hs as <-. eauto.
    + destruct (_ && _); [|done]. injection Hs as <-. eauto.
    + injection Hs as <-. eauto.
    + destruct (stop st); [|done]. injection Hs as <-. eauto.
    + by destruct (at_pc st).
    + by destruct (at_pc st).
    + by destruct (at_pc st).
    + by destruct (at_pc st).
    + by destruct (at_pc st).
    + destruct (at_pc st) as [| |k1 rest a1 bo1| |] eqn:Hp; try done.
      destruct (insert rest (world st)) as [[w' c] e] eqn:Ei.
      destruct (attempt_outcome bcfg k1 rest a1 bo1 t0 t1 st st' no_history w' c e Hp Ei) as (_ & _ & -> & _ & _ & Ho).
      { cbn [Buffer.step]. by rewrite Hp. }
      destruct Ho as [(Hp' & _)|(Hp' & _)]; rewrite Hp' in *; [|by destruct k1].
      pose proof (insert_lands j rest (world st) w' c e Hj Hrest Ha Ei) as Hl. destruct e as [err|].
      * destruct Hl as (i & Hi & Hr & Hai). by exists i.
      * exfalso. destruct (a1 <=? MaxRetries bcfg); [|done].
        unfold attempt_insert in Hs. rewrite Ei in Hs. injection Hs as <-.
        destruct (0 <? _), k1; discriminate Hp'.
    + destruct (at_pc st) as [| | |k1 rest a1 bo1|] eqn:Hp; try done. injection Hs as <-. by exists j.
    + destruct (at_pc st) as [| |k1 rest a1 bo1| |] eqn:Hp; try done. destruct (_ <? _); [|done]. injection Hs as <-.
      by destruct k1.
Qed.
End flush.

Lemma lands_fresh t sn cs :
  NoDup (batchToken <$> cs) -> (forall c, c ∈ cs -> batchToken c ∉ sn) ->
  fst (foldl land (t, sn) cs) = t ++ (keep <$> mjoin cs).
Proof.
  revert t sn. induction cs as [|c cs IH]; intros t sn Hnd Hf; cbn [foldl]; [by rewrite app_nil_r|].
  rewrite fmap_cons in Hnd. apply NoDup_cons in Hnd as [Hc Hnd]. unfold land at 2. cbn [fst snd].
  rewrite decide_False by (apply Hf; by left). rewrite IH; [by rewrite mjoin_cons, fmap_app, app_assoc|done|].
  intros d Hd [Heq|Hin]%elem_of_cons; [|by apply (Hf d); [right|]].
  apply Hc. rewrite <- Heq. by apply list_elem_of_fmap_2.
Qed.

(** C40. A batch of the buffer lands in ClickHouse exactly once.  Take a flush
    whose chunks have distinct tokens that the server has not seen, and any run
    of the buffer while it is retried: partial commits, sends that fail, sends
    that are applied although they fail, producers and [Close] in between.  The
    attempt that succeeds leaves the table with all rows of the batch, once each
    and in order; and one that fails leaves it with the rows of the first chunks,
    once each, such that what is retried next begins at the chunk whose send
    failed. *)
Theorem flush_lands_once bcfg (s0 st : state W) k rows a bo k' rest a' bo' w' c e :
  at_pc s0 = Flush k rows a bo -> rows <> [] ->
  NoDup (batchToken <$> ch_SplitBatch s rows) ->
  (forall chunk, chunk ∈ ch_SplitBatch s rows -> batchToken chunk ∉ seen (world s0)) ->
  flushing bcfg s0 st -> at_pc st = Flush k' rest a' bo' ->
  insert (H := ch_writer conn s) rest (world st) = (w', c, e) ->
  match e with
  | None => table w' = table (world s0) ++ (keep <$> rows)
  | Some _ => exists i, (i < length (ch_SplitBatch s rows))%nat
      /\ slice_from rest (clamp_committed c rest) = mjoin (drop i (ch_SplitBatch s rows))
      /\ (table w' = table (world s0) ++ (keep <$> mjoin (take i (ch_SplitBatch s rows)))
          \/ table w' = table (world s0) ++ (keep <$> mjoin (take (S i) (ch_SplitBatch s rows))))
  end.
Proof using laws.
  intros Hpc Hne Hnd Hf Hfl Hp Hi.
  destruct (flushing_lands bcfg rows (at_server (world s0)) s0 k a bo st Hpc Hne eq_refl Hfl) as (j & Hj & Ha & Hrest).
  rewrite Hp in Hrest. pose proof (insert_lands rows _ j rest (world st) w' c e Hj Hrest Ha Hi) as Hl.
  assert (Hfresh : forall i, fst (landed rows (at_server (world s0)) i)
                   = table (world s0) ++ (keep <$> mjoin (take i (ch_SplitBatch s rows)))).
  { intros i. unfold landed, at_server. apply lands_fresh.
    - rewrite fmap_take. eapply sublist_NoDup; [exact Hnd|apply sublist_take].
    - intros d Hd. apply Hf. rewrite <- (take_drop i (ch_SplitBatch s rows)). apply elem_of_app. by left. }
  destruct e as [err|].
  - destruct Hl as (i & Hi' & Hr & Hai). exists i. split_and!; [done..|]. rewrite <- !Hfresh.
    change (table w') with (fst (at_server w')). destruct Hai as [-> | ->]; [by left|by right].
  - change (table w') with (fst (at_server w')). by rewrite Hl, Hfresh, take_ge, ch_split_join.
Qed.
End dedup.

(** ** Query parameters *)

(** The placeholder a value gets and what the server reads for its parameter. *)
Definition placeholder (i : nat) (v : arg) : gostring :=
  bs "{" ++ param_name i ++ bs ":"
  ++ match v with ATime _ => clickhouseTimestampType | AInt _ => bs "Int64" | _ => bs "String" end ++ bs "}".
Definition param_means (v : arg) (text : gostring) : Prop :=
  match v with
  | AStr x => tsv_unescape text = x
  | AInt x => text = itoa x
  | ATime t => text = format_micros t
  | ANil => tsv_unescape text = bs "<nil>"
  end.

Lemma clickhouseParam_spec i v params :
  exists text, clickhouseParam (param_name i) v params = (placeholder i v, <[param_name i := text]> params)
    /\ param_means v text.
Proof.
  destruct v as [x|x|x|]; cbn [clickhouseParam]; eexists; (split; [reflexivity|]); cbn; try done; apply tsv_roundtrip.
Qed.

Lemma where_parts_spec i preds params :
  exists params',
    where_parts i preds params
    = (imap (fun j p => quoteIdent (p_column p) ++ bs " " ++ p_op p ++ bs " " ++ placeholder (i + j) (p_value p)) preds,
       params')
    /\ (forall j p, preds !! j = Some p ->
          exists text, params' !! param_name (i + j) = Some text /\ param_means (p_value p) text)
    /\ (forall n, (forall j, (j < length preds)%nat -> n <> param_name (i + j)) -> params' !! n = params !! n).
Proof.
  revert i params. induction preds as [|p preds IH]; intros i params.
  { exists params. by split_and!. }
  cbn [where_parts]. destruct (clickhouseParam_spec i (p_value p) params) as (text & -> & Hm).
  destruct (IH (S i) (<[param_name i := text]> params)) as (params' & -> & Hin & Hout).
  exists params'. split_and!.
  - cbn [imap]. rewrite Nat.add_0_r. do 2 f_equal. apply imap_ext. intros j q _. cbn. by rewrite Nat.add_succ_r.
  - intros [|j] q Hq.
    + injection Hq as <-. exists text. split; [|done]. rewrite Nat.add_0_r, Hout.
      * by rewrite lookup_insert_eq.
      * intros j _ E. apply param_name_inj in E. lia.
    + rewrite <- Nat.add_succ_comm. by apply Hin.
  - intros n Hn. rewrite Hout.
    + rewrite lookup_insert_ne; [done|]. intros E. apply (Hn 0%nat); [simpl; lia|]. by rewrite Nat.add_0_r.
    + intros j Hj. rewrite Nat.add_succ_comm. apply Hn. simpl. lia.
Qed.

(** A WHERE clause carries no value in its text: predicate [i] compares its
    quoted column with the typed placeholder [p<i>], and the parameters hold
    exactly those names, each with a text the server reads back as the
    predicate's value (every byte of a string included). *)
Theorem where_parameters preds :
  preds <> [] ->
  exists params,
    clickhouseWhere preds ∅
    = (bs " WHERE " ++ join (bs " AND ")
         (imap (fun i p => quoteIdent (p_column p) ++ bs " " ++ p_op p ++ bs " " ++ placeholder i (p_value p)) preds),
       params)
    /\ (forall i p, preds !! i = Some p ->
          exists text, params !! param_name i = Some text /\ param_means (p_value p) text)
    /\ (forall n text, params !! n = Some text -> exists i, (i < length preds)%nat /\ n = param_name i).
Proof.
  intros Hne. destruct (where_parts_spec 0 preds ∅) as (params & Hw & Hin & Hout).
  exists params. destruct preds as [|p preds]; [done|]. cbn [clickhouseWhere]. rewrite Hw. split_and!; [done|exact Hin|].
  intros n text Hn. destruct (decide (Exists (fun i => n = param_name i) (seq 0 (length (p :: preds))))) as [E|E].
  - apply Exists_exists in E as (i & Hi & ->). apply elem_of_seq in Hi. exists i. split; [lia|done].
  - rewrite Hout in Hn; [by rewrite lookup_empty in Hn|]. intros j Hj ->. apply E, Exists_exists. exists j.
    split; [apply elem_of_seq; lia|done].
Qed.

(** ** Retention *)

Section retention.
Context {W : Type} (conn : chConn W) (s : ClickHouseStore) (table : W -> list Row).

(** The catalogue lists the partitions that hold rows, below the bound asked
    for; dropping one removes its rows, and a drop that reports a failure may
    have happened. *)
Record partition_laws : Prop := {
  pl_list : forall cutoff w vs,
    ch_query conn (partitions_stmt s cutoff) (snd (clickhouseWhere (partition_preds s cutoff) ∅)) w = inr (vs, None) ->
    exists ids, vs = (fun id => [AStr id]) <$> ids
      /\ Forall (fun id => str_ltb id (partitionID cutoff) = true) ids
      /\ forall r, r ∈ table w -> str_ltb (row_partition r) (partitionID cutoff) = true -> row_partition r ∈ ids;
  pl_drop : forall id w w' e, ch_exec conn (dropPartitionStmt (cs_table s) id) w = (w', e) ->
    (e <> None /\ table w' = table w) \/ table w' = filter (fun r => row_partition r <> id) (table w);
}.

Hypothesis laws : partition_laws.

Lemma drop_partitions_spec bound ids w w' e :
  Forall (fun id => str_ltb id bound = true) ids -> drop_partitions conn s ids w = (w', e) ->
  (e = None -> table w' = filter (fun r => row_partition r ∉ ids) (table w))
  /\ filter (fun r => str_ltb (row_partition r) bound = false) (table w')
     = filter (fun r => str_ltb (row_partition r) bound = false) (table w).
Proof using laws.
  intros Hids. revert w. induction Hids as [|id ids Hid _ IH]; intros w; cbn [drop_partitions].
  { intros [= <- <-]. split; [|done]. intros _. symmetry.
    induction (table w) as [|r l IHl]; [done|]. rewrite filter_cons_True; [by f_equal|apply not_elem_of_nil]. }
  assert (Hkeep : forall l : list Row, filter (fun r => str_ltb (row_partition r) bound = false) (filter (fun r => row_partition r <> id) l)
            = filter (fun r => str_ltb (row_partition r) bound = false) l).
  { intros l. rewrite list_filter_filter. apply list_filter_iff. intros r. split; [tauto|]. intros Hr.
    split; [done|]. intros Heq. by rewrite Heq, Hid in Hr. }
  destruct (ch_exec conn _ w) as [w1 [err|]] eqn:E; apply (pl_drop laws) in E.
  - intros [= <- <-]. split; [done|]. destruct E as [[_ ->]| ->]; [done|apply Hkeep].
  - intros H. apply IH in H as [H1 H2]. destruct E as [[? _]|E]; [done|]. split.
    + intros He. rewrite (H1 He), E, list_filter_filter. apply list_filter_iff. intros r.
      rewrite not_elem_of_cons. tauto.
    + by rewrite H2, E, Hkeep.
Qed.

Context (scan_err : gerror) (quote : gostring -> gostring).

Lemma scan_ids_ok ids acc e out :
  scan_ids scan_err quote ((fun id => [AStr id]) <$> ids) acc e = (out, None) -> e = None /\ out = acc ++ ids.
Proof.
  revert acc. induction ids as [|id ids IH]; intros acc; cbn.
  - intros [= <- ->]. by rewrite app_nil_r.
  - destruct (partitionIDPattern id); [|done]. intros H. apply IH in H as [-> ->]. by rewrite <- app_assoc.
Qed.

(** C23. Retention drops whole partitions, and with a cutoff at a UTC midnight
    that is exact: a prune that succeeds leaves precisely the rows created at or
    after the cutoff, and one that fails, wherever it fails, has removed none of
    those. *)
Theorem ch_prune_exact cutoff w w' e :
  cutoff mod Day = 0 -> year4 (utc_date cutoff) ->
  Forall (fun r => year4 (utc_date (CreateTime r))) (table w) ->
  ch_Prune conn s scan_err quote cutoff w = (w', e) ->
  (e = None -> table w' = filter (fun r => cutoff <= CreateTime r) (table w))
  /\ forall r, r ∈ table w -> cutoff <= CreateTime r -> r ∈ table w'.
Proof using laws.
  intros Hmid Hy Hrows H. rewrite Forall_forall in Hrows.
  assert (Hlt : forall r, r ∈ table w ->
            str_ltb (row_partition r) (partitionID cutoff) = false <-> cutoff <= CreateTime r).
  { intros r Hr. rewrite <- not_true_iff_false. unfold row_partition, partitionID.
    rewrite format_yyyymmdd_lt by auto. unfold utc_days at 2.
    rewrite <- before_midnight, Z.mul_comm, <- Z_div_exact_full_2 by done. lia. }
  unfold ch_Prune, partitionsBefore in H.
  destruct (ch_query conn _ _ w) as [err|[vs rows_err]] eqn:Eq.
  { injection H as <- <-. by split. }
  destruct (scan_ids scan_err quote vs [] rows_err) as [ids [err|]] eqn:Es.
  { injection H as <- <-. by split. }
  assert (Hre : rows_err = None).
  { clear -Es. revert Es. generalize (@nil gostring). induction vs as [|v vs IH]; intros acc; cbn; [by intros [= _ ->]|].
    destruct v as [|[x|x|x|] []]; try done. destruct (partitionIDPattern x); [apply IH|done]. }
  subst rows_err. apply (pl_list laws) in Eq as (ids' & -> & Hids & Hall).
  apply scan_ids_ok in Es as [_ ->]. cbn [app] in *.
  destruct (drop_partitions_spec _ _ _ _ _ Hids H) as [H1 H2]. split.
  - intros He. rewrite (H1 He). apply list_filter_iff'. intros r Hr. rewrite <- Hlt by done. split.
    + intros Hn. apply not_true_iff_false. intros Hb. by apply Hn, Hall.
    + intros Hf Hin. rewrite Forall_forall in Hids. rewrite Hids in Hf; done.
  - intros r Hr Hc. apply Hlt in Hc; [|done].
    assert (Hin : r ∈ filter (fun r => str_ltb (row_partition r) (partitionID cutoff) = false) (table w'))
      by (rewrite H2; by apply list_elem_of_filter).
    by apply list_elem_of_filter in Hin as [_ ?].
Qed.
End retention.

(** ** Column types *)

(** C29. A column is Nullable exactly when a row can hold NULL there, its base
    type is that of the values written to it, and only text columns are
    dictionary encoded or have a codec. *)
Theorem clickhouse_types c :
  c ∈ schemaColumns ->
  has_prefix (clickhouseType c) (bs "Nullable(") = admits c ANil
  /\ contains (clickhouseType c) (bs "String") = admits c (AStr [])
  /\ contains (clickhouseType c) (bs "Int64") = admits c (AInt 0)
  /\ contains (clickhouseType c) clickhouseTimestampType = admits c (ATime 0)
  /\ (has_prefix (clickhouseType c) (bs "LowCardinality(") || bool_decide (is_Some (clickhouseCodecs (name c)))
      -> admits c (AStr []) = true).
Proof.
  revert c. apply Forall_forall.
  repeat (apply Forall_cons; split; [vm_compute; split_and!; (reflexivity || discriminate || (by intros []) || done)|]).
  by apply Forall_nil.
Qed.

(** ** A concrete server

    A table with its catalogue and, when [window] is set, the deduplication
    window; the outcomes of the next sends and drops are scripted: done, failed,
    or done with the answer lost. *)

Inductive outcome := Works | Breaks | LosesAnswer.

Record server := mkServer {
  sv_rows : list Row;
  sv_seen : list gostring;
  sv_pending : list (list arg);
  sv_token : gostring;
  sv_script : list outcome
}.

Definition demo_ch : ClickHouseConfig := mkClickHouseConfig (bs "observability") (bs "trino_query_log") 0.
Definition demo_store : ClickHouseStore := newClickHouseStore demo_ch.
Definition broken : gerror := Leaf (EText (bs "connection reset")).

Definition next_outcome (w : server) : outcome * server :=
  (default Works (head (sv_script w)),
   mkServer (sv_rows w) (sv_seen w) (sv_pending w) (sv_token w) (tail (sv_script w))).

Definition sv_apply (window : bool) (w : server) : server :=
  if window && bool_decide (sv_token w ∈ sv_seen w) then w
  else mkServer (sv_rows w ++ (micros_row <$> omap scan_row (sv_pending w))) (sv_token w :: sv_seen w) (sv_pending w) (sv_token w)
         (sv_script w).

Definition sv_drop (stmt : gostring) (w : server) : server :=
  mkServer (filter (fun r => stmt <> dropPartitionStmt (cs_table demo_store) (row_partition r)) (sv_rows w))
    (sv_seen w) (sv_pending w) (sv_token w) (sv_script w).

Definition sv_conn (window : bool) : chConn server := {|
  ch_exec stmt w :=
    match next_outcome w with
    | (Works, w') => (sv_drop stmt w', None)
    | (Breaks, w') => (w', Some broken)
    | (LosesAnswer, w') => (sv_drop stmt w', Some broken)
    end;
  ch_query _ params w :=
    let bound := tsv_unescape (default [] (params !! param_name 2)) in
    inr ((fun id => [AStr id]) <$> filter (fun id => str_ltb id bound = true) (remove_dups (row_partition <$> sv_rows w)),
         None);
  ch_rows_close _ := None;
  ch_prepare tok _ w := (mkServer (sv_rows w) (sv_seen w) [] tok (sv_script w), None);
  ch_append a w := (mkServer (sv_rows w) (sv_seen w) (sv_pending w ++ [a]) (sv_token w) (sv_script w), None);
  ch_abort w := w;
  ch_send w :=
    match next_outcome w with
    | (Works, w') => (sv_apply window w', None)
    | (Breaks, w') => (w', Some broken)
    | (LosesAnswer, w') => (if window then sv_apply window w' else w', Some broken)
    end
|}.

Lemma omap_scan_args (rows : list Row) : omap scan_row (args <$> rows) = rows.
Proof. induction rows as [|r rows IH]; [done|]. rewrite fmap_cons. cbn [omap list_omap]. rewrite scan_args. by f_equal. Qed.

Lemma sv_dedup : dedup_laws (sv_conn true) sv_rows sv_seen sv_pending sv_token micros_row.
Proof.
  split; [apply micros_row_stored|cbn..].
  - intros tok _ w w' e [= <- <-]. done.
  - intros a w w' e [= <- <-]. done.
  - done.
  - intros w w' e rows H Hp. split; [by destruct (default Works _); injection H as <- <-|].
    assert (Ha : forall v : server, v = snd (next_outcome w) ->
              (sv_token w ∈ sv_seen w /\ sv_rows (sv_apply true v) = sv_rows w /\ sv_seen (sv_apply true v) = sv_seen w)
              \/ (sv_token w ∉ sv_seen w /\ sv_rows (sv_apply true v) = sv_rows w ++ (micros_row <$> rows)
                  /\ sv_seen (sv_apply true v) = sv_token w :: sv_seen w)).
    { intros v ->. unfold sv_apply. cbn. case_bool_decide; [by left|right]. cbn. by rewrite Hp, omap_scan_args. }
    specialize (Ha _ eq_refl). destruct (default Works _); injection H as <- <-; [by right|by left|by right].
Qed.

Lemma sv_partitions : partition_laws (sv_conn false) demo_store sv_rows.
Proof.
  split.
  - intros cutoff w vs Hq.
    destruct (where_parts_spec 0 (partition_preds demo_store cutoff) ∅) as (params & Hw & Hin & _).
    assert (Hs : snd (clickhouseWhere (partition_preds demo_store cutoff) ∅) = params).
    { change (clickhouseWhere (partition_preds demo_store cutoff) ∅)
        with (let '(parts, q) := where_parts 0 (partition_preds demo_store cutoff) ∅ in (bs " WHERE " ++ join (bs " AND ") parts, q)).
      by rewrite Hw. }
    destruct (Hin 2%nat _ eq_refl) as (text & Ht & Hm). rewrite Hs in Hq. change (param_name (0 + 2)) with (param_name 2) in Ht.
    cbn [ch_query sv_conn] in Hq. rewrite Ht in Hq. cbn in Hm. cbn [default from_option] in Hq.
    change (id text) with text in Hq. rewrite Hm in Hq. injection Hq as <-. eexists. split; [reflexivity|]. split.
    + apply Forall_forall. intros id Hid. by apply list_elem_of_filter in Hid as [? _].
    + intros r Hr Hb. apply list_elem_of_filter. split; [done|]. apply elem_of_remove_dups. by apply list_elem_of_fmap_2.
  - intros id w w' e H. cbn in H.
    assert (Hd : forall l : list Row, filter (fun r => dropPartitionStmt (cs_table demo_store) id
                     <> dropPartitionStmt (cs_table demo_store) (row_partition r)) l
                   = filter (fun r => row_partition r <> id) l).
    { intros l. apply list_filter_iff. intros r. split; [congruence|]. intros Hr Heq. apply Hr.
      unfold dropPartitionStmt in Heq. do 3 apply app_inv_head in Heq. by apply app_inv_tail in Heq. }
    destruct (default Works _); injection H as <- <-; [right|by left|right]; apply Hd.
Qed.

Definition demo_query (id : string) (t : time) : Row := set_str FQueryID (bs id) (set_time FCreateTime (Some t) zero_row).
Definition demo_rows : list Row := [demo_query "a" Day; demo_query "b" (3 * Day + 5)].
Definition demo_tiny : ClickHouseConfig := mkClickHouseConfig (bs "observability") (bs "trino_query_log") 1.

(** A chunk per row: the first is in, the second is applied and its answer
    lost. *)
Lemma ch_insert_contract_witness :
  let w := mkServer [] [] [] [] [Works; LosesAnswer] in
  let r := ch_InsertBatch (sv_conn true) (newClickHouseStore demo_tiny) demo_rows w in
  len (sv_rows (fst r)) = 2
  /\ mjoin (ch_SplitBatch (newClickHouseStore demo_tiny) demo_rows) = demo_rows
  /\ exists err k, snd r = Some err
       /\ CommittedRows err = len (mjoin (take k (ch_SplitBatch (newClickHouseStore demo_tiny) demo_rows))).
Proof.
  intros w r. split; [vm_compute; reflexivity|].
  destruct (ch_insert_contract (sv_conn true) demo_tiny sv_rows sv_seen sv_pending sv_token micros_row sv_dedup demo_rows
    w (fst r) (snd r) (surjective_pairing r)) as (Hj & k & _ & He).
  split; [exact Hj|]. assert (Hc : CommittedRows <$> snd r = Some 1) by (vm_compute; reflexivity).
  destruct (snd r) as [err|]; [|discriminate Hc]. destruct He as (_ & He & _). by exists err, k.
Defined.

Lemma batch_token_identifies_witness : batchToken demo_rows = batchToken (reverse demo_rows).
Proof.
  apply batch_token_identifies.
  - apply Forall_forall. intros r [->|[->|[]%elem_of_nil]%elem_of_cons]%elem_of_cons; unfold row_nanos_ok;
      apply (bool_decide_unpack (Forall nanos_ok _)); vm_compute; exact I.
  - apply Forall_forall. intros r [->|[->|[]%elem_of_nil]%elem_of_cons]%elem_of_cons; unfold row_nanos_ok;
      apply (bool_decide_unpack (Forall nanos_ok _)); vm_compute; exact I.
  - apply (bool_decide_unpack (NoDup _)). vm_compute. exact I.
  - symmetry. apply reverse_Permutation.
Defined.

Lemma dedup_exactly_once_witness :
  let w := mkServer [] [] [] [] [LosesAnswer; Breaks; Works] in
  sv_rows (fst (attempts (sv_conn true) demo_ch [demo_rows; demo_rows; reverse demo_rows] w)) ≡ₚ [] ++ (micros_row <$> demo_rows).
Proof.
  apply (dedup_exactly_once (sv_conn true) demo_ch sv_rows sv_seen sv_pending sv_token micros_row sv_dedup demo_rows
    [demo_rows; demo_rows; reverse demo_rows] (mkServer [] [] [] [] [LosesAnswer; Breaks; Works])).
  - apply (bool_decide_unpack (NoDup _)). vm_compute. exact I.
  - rewrite !Forall_cons. split_and!; [done|done|apply reverse_Permutation|by apply Forall_nil].
  - apply not_elem_of_nil.
  - vm_compute. reflexivity.
Defined.

(** A flush of two rows, a chunk each: the first is in, the second applied with
    its answer lost, and the retry succeeds. *)
Definition flush_cfg : Config := mkConfig 2 Second 4 1 Second Second Second.
Definition flush_start : state server :=
  set_pc (Flush AfterLoop demo_rows 0 Second) demo_rows (New_state (mkServer [] [] [] [] [Works; LosesAnswer; Works]) NewMetrics).
Definition flush_mid : state server :=
  default flush_start (run (H := ch_writer (sv_conn true) (newClickHouseStore demo_tiny)) flush_cfg [Attempt 0 5; Waited] flush_start).
Definition flush_rest : list Row := match at_pc flush_mid with Flush _ rest _ _ => rest | _ => [] end.

Lemma flush_lands_once_witness :
  flush_rest = [demo_query "b" (3 * Day + 5)]
  /\ sv_rows (fst (fst (insert (H := ch_writer (sv_conn true) (newClickHouseStore demo_tiny)) flush_rest (world flush_mid))))
     = [] ++ (micros_row <$> demo_rows).
Proof.
  split; [vm_compute; reflexivity|].
  destruct (insert (H := ch_writer (sv_conn true) (newClickHouseStore demo_tiny)) flush_rest (world flush_mid)) as [[w' c] e] eqn:E.
  assert (He : e = None).
  { pose proof (f_equal snd E) as He. cbn [snd] in He. rewrite <- He. vm_compute. reflexivity. }
  subst e. cbn [fst].
  refine (flush_lands_once (sv_conn true) demo_tiny sv_rows sv_seen sv_pending sv_token micros_row sv_dedup flush_cfg
    flush_start flush_mid AfterLoop demo_rows 0 Second AfterLoop flush_rest 1 _ w' c None _ _ _ _ _ _ E).
  - reflexivity.
  - discriminate.
  - apply (bool_decide_unpack (NoDup _)). vm_compute. exact I.
  - intros chunk _. apply not_elem_of_nil.
  - eapply (flushing_on _ _ _ _ Waited); [eapply (flushing_on _ _ _ _ (Attempt 0 5)); [apply flushing_here| |]| |].
    + vm_compute. reflexivity.
    + vm_compute. exact I.
    + vm_compute. reflexivity.
    + vm_compute. exact I.
  - vm_compute. reflexivity.
Defined.

Lemma where_parameters_witness :
  let preds := [mkPred (bs "query_id") (bs "=") (AStr (bs "a'b")); mkPred (bs "wall_ms") (bs ">") (AInt 5)] in
  exists params, snd (clickhouseWhere preds ∅) = params /\ exists text, params !! param_name 1 = Some text /\ text = itoa 5.
Proof.
  intros preds. destruct (where_parameters preds) as (params & Hw & Hin & _); [discriminate|].
  exists params. split; [by rewrite Hw|]. apply (Hin 1%nat (mkPred (bs "wall_ms") (bs ">") (AInt 5))). reflexivity.
Defined.

Lemma ch_prune_exact_witness :
  let w := mkServer demo_rows [] [] [] [] in
  let r := ch_Prune (sv_conn false) demo_store broken id (3 * Day) w in
  sv_rows (fst r) = [demo_query "b" (3 * Day + 5)]
  /\ (snd r = None -> sv_rows (fst r) = filter (fun r => 3 * Day <= CreateTime r) (sv_rows w)).
Proof.
  split; [vm_compute; reflexivity|].
  edestruct (ch_prune_exact (sv_conn false) demo_store sv_rows sv_partitions broken id (3 * Day)) as [H _];
    [..|apply surjective_pairing|exact H].
  - reflexivity.
  - vm_compute. split; discriminate.
  - repeat constructor; vm_compute; discriminate.
Defined.

Lemma clickhouse_types_witness :
  let c := mkColumn (bs "end_time") (bs "timestamp(6) with time zone") in
  has_prefix (clickhouseType c) (bs "Nullable(") = admits c ANil.
Proof.
  apply clickhouse_types. apply (list_elem_of_lookup_2 schemaColumns 14). reflexivity.
Defined.
