(* ===== verification/Ingest.v ===== *)
(** * Ingest: [internal/server/ingest.go]

    The [/ingest] handler in front of the buffer.  Handlers run concurrently
    with each other and with the flusher; each touches the shared state twice,
    when it counts the event and when it refuses it or hands its row to
    [Buffer.Add], so a handler is two steps of the machine below, which
    interleave with the buffer's own.  [json.Decoder] is a parameter. *)

From S2P Require Import Prelude Errors GoTime Row Truncate Event EventRow Store Metrics Buffer BufferSpec.

Definition maxIngestBytes : Z := Z.shiftl 32 20.

(** [http.MaxBytesReader]: the bytes that can be read, and whether the read
    after them fails. *)
Definition MaxBytesReader (n : Z) (body : gostring) : gostring * bool :=
  if len body <=? n then (body, false) else (slice_to body n, true).

(** The part of [config.Config] the handler reads; [ig_Source] is [Trino.Source]. *)
Record IngestConfig := mkIngestConfig {
  ig_Source : gostring;
  ig_PlanCapture : gostring;
  ig_PlanCaptureMinWall : Duration;
  ig_PreviewBytes : Z;
  ig_MaxFieldBytes : Z
}.

(** The ways through the handler. *)
Inductive decision := Malformed | Invalid | Suppressed | Buffered (r : Row).

(** The case of the [select] in [Add]. *)
Inductive add_case := Sent | Stopped | Full.
Definition add_label (c : add_case) (r : Row) : label :=
  match c with Sent => AddSend r | Stopped => AddStopped r | Full => AddFull r end.

Definition is_add (l : label) : bool :=
  match l with AddSend _ | AddStopped _ | AddFull _ => true | _ => false end.

Section handler.
Context (cfg : IngestConfig) (Decode : gostring * bool -> option Event).

Definition row_of_event (e : Event) : Row :=
  TruncateFields
    (WithPreview
       (ApplyPlanPolicy (RowFromEvent e) (mkPlanPolicy (ig_PlanCapture cfg) (ig_PlanCaptureMinWall cfg)))
       (ig_PreviewBytes cfg))
    (ig_MaxFieldBytes cfg).

Definition decide_event (body : gostring) : decision :=
  match Decode (MaxBytesReader maxIngestBytes body) with
  | None => Malformed
  | Some e =>
      match Validate e with
      | Some _ => Invalid
      | None =>
          if decide (SourceValue e = ig_Source cfg) then Suppressed
          else Buffered (row_of_event e)
      end
  end.

(** The response; the errors of [Decode] are the client's. *)
Definition status_of (d : decision) : Z := match d with Malformed => 400 | _ => 202 end.

Section machine.
Context {W : Type} `{Writer W} (bcfg : Config).

(** The second step of a handler. *)
Definition handle_finish (body : gostring) (c : add_case) (s : state W) : option (state W) :=
  match decide_event body with
  | Malformed | Invalid => Some (set_metrics (InvalidEvent (metrics s)) s)
  | Suppressed => Some (set_metrics (SuppressedEvent (metrics s)) s)
  | Buffered r => step bcfg (add_label c r) s
  end.

Record sink := mkSink {
  inflight : list gostring;
  answered : list (gostring * Z);
  buffer : state W
}.

Inductive sink_label :=
| Arrive (body : gostring)
| Answer (i : nat) (c : add_case)
| Inner (l : label).

(** [handleIngest], in its two steps, beside the steps of the flusher and of
    [Close]. *)
Definition handleIngest (l : sink_label) (s : sink) : option sink :=
  match l with
  | Arrive body =>
      Some (mkSink (inflight s ++ [body]) (answered s)
              (set_metrics (ReceivedEvent (metrics (buffer s))) (buffer s)))
  | Answer i c =>
      match inflight s !! i with
      | Some body =>
          match handle_finish body c (buffer s) with
          | Some b => Some (mkSink (delete i (inflight s)) (answered s ++ [(body, status_of (decide_event body))]) b)
          | None => None
          end
      | None => None
      end
  | Inner l =>
      if is_add l then None
      else match step bcfg l (buffer s) with
           | Some b => Some (mkSink (inflight s) (answered s) b)
           | None => None
           end
  end.

Definition new_sink (w : W) : sink := mkSink [] [] (New_state w NewMetrics).

(** The history of [BufferSpec], along the machine. *)
Definition sink_observe (l : sink_label) (s s' : sink) (h : history) : history :=
  match l with
  | Arrive _ => h
  | Answer i c =>
      match inflight s !! i with
      | Some body =>
          match decide_event body with
          | Buffered r => observe (add_label c r) (buffer s) (buffer s') h
          | _ => h
          end
      | None => h
      end
  | Inner l => observe l (buffer s) (buffer s') h
  end.

Inductive sink_reachable (w0 : W) : sink -> history -> Prop :=
| sink_new : sink_reachable w0 (new_sink w0) no_history
| sink_step l s s' h :
    sink_reachable w0 s h -> handleIngest l s = Some s' -> sink_reachable w0 s' (sink_observe l s s' h).

(** A run, for examples. *)
Fixpoint sink_trace (ls : list sink_label) (s : sink) (h : history) : option (sink * history) :=
  match ls with
  | [] => Some (s, h)
  | l :: ls =>
      match handleIngest l s with
      | Some s' => sink_trace ls s' (sink_observe l s s' h)
      | None => None
      end
  end.
End machine.

(** The rows handed to [Add], and the requests the handler refused. *)
Definition offered (answered : list (gostring * Z)) : list Row :=
  omap (fun a => match decide_event (fst a) with Buffered r => Some r | _ => None end) answered.
Definition refused (a : gostring * Z) : bool :=
  match decide_event (fst a) with Malformed | Invalid => true | _ => false end.
Definition suppressed (a : gostring * Z) : bool :=
  match decide_event (fst a) with Suppressed => true | _ => false end.
End handler.

Arguments sink W : clear implicits.

(** ** Lemmas *)

Definition count {A} (f : A -> bool) (l : list A) : Z := len (filter (fun x => f x = true) l).

Lemma count_snoc {A} (f : A -> bool) (l : list A) x : count f (l ++ [x]) = count f l + (if f x then 1 else 0).
Proof.
  unfold count. rewrite filter_app, len_app, filter_cons, filter_nil. case_decide; destruct (f x); try done; llia.
Qed.

(** The buffer leaves the handler's counters alone. *)
Lemma step_handler_counters {W} `{Writer W} bcfg l (s s' : state W) :
  step bcfg l s = Some s' ->
  eventsReceived (metrics s') = eventsReceived (metrics s)
  /\ eventsInvalid (metrics s') = eventsInvalid (metrics s)
  /\ eventsSuppressed (metrics s') = eventsSuppressed (metrics s).
Proof.
  intros Hs. destruct l; cbn [step] in Hs;
    repeat match type of Hs with
    | context [match ?x with _ => _ end] => lazymatch x with attempt_insert _ _ _ _ _ _ _ _ => fail | _ => destruct x end
    end; try done; injection Hs as <-; try done.
  all: unfold receive, attempt_insert; try (destruct (_ <=? _); done).
  destruct (insert rows (world s)) as [[w' c] e].
  repeat match goal with |- context [match ?x with _ => _ end] => destruct x end; done.
Qed.

(** Rows written are rows accepted, none more often. *)
Lemma written_submseteq {W} {ledger norm row_ok} cfg (s : state W) h :
  inv cfg row_ok ledger norm s h -> all_written h ⊆+ accepted h.
Proof.
  intros [I_cap I_ok I_fifo I_logs I_pc I_enqueued I_flushed I_dropped I_ledger].
  rewrite <- I_fifo. unfold all_written. apply submseteq_app.
  - clear -I_logs. induction I_logs as [|b l Hb _ IH]; [done|]. rewrite !fmap_cons, !mjoin_cons.
    apply submseteq_app; [|done]. etrans; [|apply dedupe_submseteq]. rewrite Hb. apply submseteq_inserts_r. done.
  - apply submseteq_inserts_r. unfold pc_inv in I_pc.
    destruct (at_pc s) as [| |k rows a bo|k rows a bo|].
    + destruct I_pc as [_ ->]. apply submseteq_nil_l.
    + destruct I_pc as (_ & -> & _). apply submseteq_nil_l.
    + destruct I_pc as [Hd _]. etrans; [|apply dedupe_submseteq]. rewrite Hd. by apply submseteq_inserts_r.
    + destruct I_pc as [Hd _]. etrans; [|apply dedupe_submseteq]. rewrite Hd. by apply submseteq_inserts_r.
    + destruct I_pc as (_ & -> & _). apply submseteq_nil_l.
Qed.
