(* ===== verification/IngestTheorems.v ===== *)
(** * IngestTheorems: from a request to the table

    The accounting of every event received, and where the rows of the table
    come from, for any interleaving of handlers, flusher and shutdown, and any
    backend that keeps the contract of [Store]; then over the Trino store. *)

From S2P Require Import Prelude Errors GoTime Row Chunk Truncate Event EventRow Store Trino Metrics Buffer BufferSpec BufferTheorems TrinoTheorems Ingest.

Section sink.
Context (cfg : IngestConfig) (Decode : gostring * bool -> option Event).
Context {W : Type} `{Writer W} {ledger : list Row -> list Row -> W -> Prop} {norm : Row -> Row} {row_ok : Row -> Prop}.
Context {laws : WriterLedger W ledger norm row_ok} (bcfg : Config) (w0 : W) (start : ledger [] [] w0).
#[local] Abbreviation reach := (sink_reachable cfg Decode bcfg w0).

(** The invariant: the buffer's, and the handler's counters and answers. *)
Record sink_inv (s : sink W) (h : history) : Prop := {
  si_buffer : inv bcfg row_ok ledger norm (buffer s) h;
  si_received : eventsReceived (metrics (buffer s)) = wrap64 (len (inflight s) + len (answered s));
  si_invalid : eventsInvalid (metrics (buffer s)) = wrap64 (count (refused cfg Decode) (answered s));
  si_suppressed : eventsSuppressed (metrics (buffer s)) = wrap64 (count (suppressed cfg Decode) (answered s));
  si_accepted : accepted h ⊆+ offered cfg Decode (answered s);
  si_offered : len (offered cfg Decode (answered s)) = len (accepted h) + rejected h;
  si_status : Forall (fun a => snd a = status_of (decide_event cfg Decode (fst a))) (answered s);
}.

Lemma inv_counters s s' h :
  inv bcfg row_ok ledger norm s h -> s' = set_metrics (metrics s') s ->
  rowsEnqueued (metrics s') = rowsEnqueued (metrics s) ->
  rowsFlushed (metrics s') = rowsFlushed (metrics s) ->
  eventsDropped (metrics s') = eventsDropped (metrics s) ->
  inv bcfg row_ok ledger norm s' h.
Proof. intros [] Hs H1 H2 H3. split; rewrite ?H1, ?H2, ?H3; try done; by rewrite Hs. Qed.

Lemma observe_inner l (s s' : state W) h :
  is_add l = false -> accepted (observe l s s' h) = accepted h /\ rejected (observe l s s' h) = rejected h.
Proof.
  intros Hl. destruct l; try done; cbn [observe].
  - destruct (at_pc s); try done. destruct (insert rows (world s)) as [[w c] e]. by destruct (at_pc s').
  - by destruct (at_pc s).
Qed.

Lemma offered_snoc l a :
  offered cfg Decode (l ++ [a])
  = offered cfg Decode l ++ match decide_event cfg Decode (fst a) with Buffered r => [r] | _ => [] end.
Proof. unfold offered. rewrite omap_app. f_equal. cbn. by destruct (decide_event _ _ _). Qed.

Lemma offered_row l r :
  r ∈ offered cfg Decode l -> exists body code e, (body, code) ∈ l
    /\ Decode (MaxBytesReader maxIngestBytes body) = Some e
    /\ Validate e = None /\ SourceValue e <> ig_Source cfg /\ r = row_of_event cfg e.
Proof.
  intros Hin. apply list_elem_of_omap in Hin as ([body code] & Hin & Hd). cbn [fst] in Hd. unfold decide_event in Hd.
  destruct (Decode _) as [e|] eqn:Ed; [|done]. destruct (Validate e) eqn:Ev; [done|].
  case_decide as Hsrc; [done|]. injection Hd as <-. by exists body, code, e.
Qed.

Lemma answered_split l :
  len l = count (refused cfg Decode) l + count (suppressed cfg Decode) l + len (offered cfg Decode l).
Proof.
  induction l as [|a l IH] using rev_ind; [done|].
  rewrite !count_snoc, offered_snoc, !len_app, IH. change (len [a]) with 1. unfold refused, suppressed.
  destruct (decide_event cfg Decode (fst a)); try (change (len [r]) with 1); change (len (@nil Row)) with 0; lia.
Qed.

Lemma len_delete {A} (l : list A) i x : l !! i = Some x -> len (delete i l) = len l - 1.
Proof. intros Hi. apply lookup_lt_Some in Hi as Hl. unfold len. rewrite length_delete by done. lia. Qed.

Context (rows_ok : forall e, row_ok (row_of_event cfg e)).

Lemma decide_row_ok body r : decide_event cfg Decode body = Buffered r -> row_ok r.
Proof using rows_ok.
  unfold decide_event. destruct (Decode _) as [e|]; [|done]. destruct (Validate e); [done|].
  case_decide; [done|]. intros [= <-]. apply rows_ok.
Qed.

(** The second step of a handler, by its decision. *)
Lemma sink_inv_answer s h i c body b :
  sink_inv s h -> inflight s !! i = Some body -> handle_finish cfg Decode bcfg body c (buffer s) = Some b ->
  sink_inv (mkSink (delete i (inflight s)) (answered s ++ [(body, status_of (decide_event cfg Decode body))]) b)
    (match decide_event cfg Decode body with
     | Buffered r => observe (add_label c r) (buffer s) b h
     | _ => h
     end).
Proof using laws rows_ok.
  intros [I_b I_r I_i I_s I_a I_o I_c] Hi Hf. unfold handle_finish in Hf.
  assert (Hlen : len (delete i (inflight s)) + len (answered s ++ [(body, status_of (decide_event cfg Decode body))])
                 = len (inflight s) + len (answered s)).
  { rewrite (len_delete _ _ _ Hi), len_app. change (len [_]) with 1. lia. }
  destruct (decide_event cfg Decode body) as [| | |r] eqn:Ed.
  4: { pose proof (fun l => inv_step bcfg l (buffer s) b h I_b) as Hinv.
       destruct (step_handler_counters _ _ _ _ Hf) as (H1 & H2 & H3).
       split; cbn [inflight answered buffer]; rewrite ?offered_snoc, ?count_snoc, ?H1, ?H2, ?H3, ?Hlen; cbn [fst];
         unfold refused, suppressed in *; cbn [fst]; rewrite ?Ed, ?Z.add_0_r; try done.
       - apply Hinv; [|done]. destruct c; try exact I. by eapply decide_row_ok.
       - destruct c; cbn [add_label observe accepted]; [by apply submseteq_app|by apply submseteq_inserts_r..].
       - rewrite len_app, I_o. destruct c; cbn [add_label observe accepted rejected]; rewrite ?len_app; change (len [r]) with 1; lia.
       - apply Forall_app. split; [done|]. apply Forall_singleton. cbn. by rewrite Ed. }
  all: injection Hf as <-; split; cbn [inflight answered buffer]; rewrite ?offered_snoc, ?count_snoc, ?Hlen; cbn [fst];
    unfold refused, suppressed in *; cbn [fst]; rewrite ?Ed, ?app_nil_r, ?Z.add_0_r; try done.
  all: try (by eapply inv_counters).
  all: try (apply Forall_app; split; [done|]; apply Forall_singleton; cbn; by rewrite Ed).
  all: cbn; rewrite ?I_i, ?I_s; apply wrap64_add.
Qed.

Lemma sink_inv_step l s s' h :
  sink_inv s h -> handleIngest cfg Decode bcfg l s = Some s' -> sink_inv s' (sink_observe cfg Decode l s s' h).
Proof using laws rows_ok.
  intros Hi Hs. destruct l as [body|i c|l]; cbn [handleIngest sink_observe] in *.
  - injection Hs as <-. destruct Hi as [I_b I_r I_i I_s I_a I_o I_c]. split; try done; cbn [inflight answered buffer].
    + by eapply inv_counters.
    + cbn. rewrite I_r, wrap64_add, len_app. change (len [body]) with 1. f_equal. lia.
  - destruct (inflight s !! i) as [body|] eqn:Ei; [|done].
    destruct (handle_finish _ _ _ body c (buffer s)) as [b|] eqn:Ef; [|done]. injection Hs as <-. cbn [buffer].
    by apply (sink_inv_answer s h i c body b).
  - destruct (is_add l) eqn:El; [done|]. destruct (step bcfg l (buffer s)) as [b|] eqn:Eb; [|done]. injection Hs as <-.
    destruct Hi as [I_b I_r I_i I_s I_a I_o I_c]. cbn [buffer].
    destruct (step_handler_counters _ _ _ _ Eb) as (H1 & H2 & H3).
    destruct (observe_inner l (buffer s) b h El) as [Ha Hr].
    split; cbn [inflight answered buffer]; rewrite ?H1, ?H2, ?H3, ?Ha, ?Hr; try done.
    apply (inv_step bcfg l (buffer s)); try done. by destruct l.
Qed.

Lemma sink_inv_reachable s h : reach s h -> sink_inv s h.
Proof using laws start rows_ok.
  induction 1; [|by eapply sink_inv_step]. split; try done. by apply inv_new.
Qed.
End sink.

Section exact.
Context (cfg : IngestConfig) (Decode : gostring * bool -> option Event).
Context {W : Type} `{Writer W} {table : W -> list Row} {norm : Row -> Row} {row_ok : Row -> Prop}.
Context {laws : WriterLaws W table norm row_ok} (bcfg : Config) (w0 : W).
#[local] Abbreviation reach := (sink_reachable cfg Decode bcfg w0).
Context (rows_ok : forall e, row_ok (row_of_event cfg e)).

Lemma sink_inv_exact s h :
  reach s h -> sink_inv cfg Decode (ledger := exact_ledger table w0) (norm := norm) (row_ok := row_ok) bcfg s h.
Proof using laws rows_ok.
  apply sink_inv_reachable; [apply exact_ledger_laws| |done]. unfold exact_ledger. by rewrite app_nil_r.
Qed.

(** C5. Every event received is accounted for: at any moment it is in a
    handler, was refused, was suppressed as the sink's own, entered the queue or
    was dropped at the door, and the counters say how many (modulo 2^64); and a
    request is answered 400 exactly when its body does not decode, else 202. *)
Theorem ingest_accounting s h :
  reach s h ->
  let m := metrics (buffer s) in
  eventsReceived m
  = wrap64 (len (inflight s) + eventsInvalid m + eventsSuppressed m + rowsEnqueued m + rejected h)
  /\ rowsEnqueued m = wrap64 (len (accepted h))
  /\ eventsDropped m = wrap64 (rejected h + len (all_lost h))
  /\ Forall (fun a => snd a = 400 /\ Decode (MaxBytesReader maxIngestBytes (fst a)) = None
                      \/ snd a = 202 /\ is_Some (Decode (MaxBytesReader maxIngestBytes (fst a)))) (answered s).
Proof using laws rows_ok.
  intros Hr. apply sink_inv_exact in Hr as [I_b I_r I_i I_s I_a I_o I_c].
  pose proof (inv_enqueued _ _ _ _ _ _ I_b) as He. pose proof (inv_dropped _ _ _ _ _ _ I_b) as Hd.
  cbn zeta. split_and!; [|done|done|].
  - rewrite I_r, I_i, I_s, He, (answered_split cfg Decode (answered s)), I_o. symmetry.
    rewrite wrap64_sum3. f_equal. lia.
  - eapply Forall_impl; [exact I_c|]. intros [body code]. cbn. intros ->. unfold decide_event.
    destruct (Decode _) as [e|]; [right|by left]. split; [|done]. destruct (Validate e); [done|]. by case_decide.
Qed.

(** Where the rows of the table come from: beyond the rows it started with,
    the table holds the rows counted as flushed, and they are, none more often
    than it was sent, rows of events that were received, decoded, found valid
    and not the sink's own, with plan policy, preview and field caps applied. *)
Theorem table_provenance s h :
  reach s h ->
  exists rows,
    table (world (buffer s)) = table w0 ++ (norm <$> rows)
    /\ rowsFlushed (metrics (buffer s)) = wrap64 (len rows)
    /\ rows ⊆+ offered cfg Decode (answered s)
    /\ forall r, r ∈ rows -> exists body e,
         (body, 202) ∈ answered s /\ Decode (MaxBytesReader maxIngestBytes body) = Some e
         /\ Validate e = None /\ SourceValue e <> ig_Source cfg /\ r = row_of_event cfg e.
Proof using laws rows_ok.
  intros Hr. apply sink_inv_exact in Hr as [I_b I_r I_i I_s I_a I_o I_c]. exists (all_written h).
  pose proof (written_submseteq bcfg _ _ I_b) as Hw.
  assert (Hsub : all_written h ⊆+ offered cfg Decode (answered s)) by (by etrans).
  split_and!; [exact (inv_exact_table _ _ _ _ I_b)|exact (inv_flushed _ _ _ _ _ _ I_b)|done|].
  intros r Hin. eapply elem_of_submseteq in Hin; [|exact Hsub]. apply offered_row in Hin as (body & code & e & Hin & He).
  rewrite Forall_forall in I_c. pose proof (I_c _ Hin) as Hcode. cbn in Hcode. exists body, e.
  unfold decide_event in Hcode. destruct He as (Hd & Hv & Hs & Hr). rewrite Hd, Hv, decide_False in Hcode by done.
  cbn in Hcode. by subst code.
Qed.
End exact.

(** ** Over the Trino store *)

(** The fields of an ingested row are capped, so the Trino store takes it. *)
Lemma row_of_event_capped cfg e f :
  0 < ig_MaxFieldBytes cfg -> len (get_str f (row_of_event cfg e)) <= field_limit f (ig_MaxFieldBytes cfg).
Proof.
  intros Hm. unfold row_of_event. rewrite TruncateFields_get by lia. etrans; [apply truncate_len|].
  unfold field_limit, maxSmallFieldBytes. case_decide; lia.
Qed.

Lemma row_of_event_below cfg e :
  0 < ig_MaxFieldBytes cfg < 2 ^ 47 -> fields_below (row_of_event cfg e).
Proof.
  intros Hm f. pose proof (row_of_event_capped cfg e f ltac:(lia)) as Hl.
  unfold field_limit, maxSmallFieldBytes in Hl. case_decide; lia.
Qed.

Section trino.
Context (icfg : IngestConfig) (Decode : gostring * bool -> option Event).
Context {W : Type} (exec : gostring -> list arg -> W -> W * option gerror) (cfg : TrinoConfig).
Context (table : W -> list Row) (keep : Row -> Row) (laws : trino_exec_laws exec cfg table keep) (bcfg : Config) (w0 : W).
#[local] Abbreviation clamp := (fun r => clampRow (NewTrino cfg) r (stmt_budget (NewTrino cfg))).

Lemma clamp_field_le r f n : len (get_str f r) <= n -> len (get_str f (clamp r)) <= n.
Proof.
  intros Hn. apply (clamp_loop_preserves (NewTrino cfg) (fun q => len (get_str f q) <= n)); [|done].
  intros g m q Hq. destruct (decide (f = g)) as [->|Hne].
  - rewrite get_set_eq. pose proof (truncate_len_le (get_str g q) m). lia.
  - by rewrite get_set_ne.
Qed.

Lemma sink_table s h :
  0 < ig_MaxFieldBytes icfg < 2 ^ 47 ->
  sink_reachable (H := trino_writer exec cfg) icfg Decode bcfg w0 s h ->
  exists rows hidden,
    table (world (buffer s)) ≡ₚ table w0 ++ (keep <$> (clamp <$> rows ++ hidden))
    /\ rowsFlushed (metrics (buffer s)) = wrap64 (len rows)
    /\ rows ⊆+ offered icfg Decode (answered s)
    /\ hidden ⊆+ copies (attempts_max bcfg) (offered icfg Decode (answered s))
    /\ (nothing_hidden exec cfg table ->
        hidden = [] /\ table (world (buffer s)) = table w0 ++ (keep <$> (clamp <$> rows))).
Proof using laws.
  intros Hm Hr. pose proof (trino_writer_ledger exec cfg table keep laws w0) as Hl.
  pose proof (sink_inv_reachable icfg Decode bcfg w0 (table_ledger_start _ _ _ _) (fun e => row_of_event_below icfg e Hm) s h Hr)
    as [I_b I_r I_i I_s I_a I_o I_c].
  destruct (inv_table_ledger _ _ _ I_b) as (hidden & Ht & Hh & Hs).
  exists (all_written h), hidden. split_and!; [done|exact (inv_flushed _ _ _ _ _ _ I_b)| | |done].
  - etrans; [exact (written_submseteq bcfg _ _ I_b)|exact I_a].
  - etrans; [exact Hh|]. by apply copies_sub.
Qed.

(** A row of the table that a received event led to: valid, not the sink's own,
    and every text field within its cap. *)
Lemma offered_capped (s : sink W) r :
  0 < ig_MaxFieldBytes icfg < 2 ^ 47 -> r ∈ offered icfg Decode (answered s) ->
  (exists body code e, (body, code) ∈ answered s
     /\ Decode (MaxBytesReader maxIngestBytes body) = Some e
     /\ Validate e = None /\ SourceValue e <> ig_Source icfg /\ r = row_of_event icfg e)
  /\ forall f, len (get_str f (keep (clamp r))) <= field_limit f (ig_MaxFieldBytes icfg).
Proof using laws.
  intros Hm Hin. apply offered_row in Hin as (body & code & e & He). split; [by exists body, code, e|].
  intros f. rewrite (stored_str _ _ (exec_keep _ _ _ _ laws _)). destruct He as (_ & _ & _ & _ & ->).
  apply clamp_field_le, row_of_event_capped, Hm.
Qed.

(** C3. The whole write path: any interleaving of requests, flushes, failed
    statements and shutdown leaves in the Trino table, after its first rows, the
    rows counted as flushed, clamped and with times at microseconds, none more
    often than it was sent, and besides them only rows of INSERTs that were
    carried out although they failed (a timeout, a lost answer): there is no
    deduplication, so such a row may be there once more for every attempt.  When
    no failed INSERT is carried out, there is nothing else and the order is kept.
    Every one of these rows is that of a valid received event that is not the
    sink's own, with every text field within its cap. *)
Theorem sink_over_trino s h :
  0 < ig_MaxFieldBytes icfg < 2 ^ 47 ->
  sink_reachable (H := trino_writer exec cfg) icfg Decode bcfg w0 s h ->
  exists rows hidden,
    table (world (buffer s)) ≡ₚ table w0 ++ (keep <$> (clamp <$> rows ++ hidden))
    /\ rowsFlushed (metrics (buffer s)) = wrap64 (len rows)
    /\ rows ⊆+ offered icfg Decode (answered s)
    /\ hidden ⊆+ copies (attempts_max bcfg) (offered icfg Decode (answered s))
    /\ (nothing_hidden exec cfg table ->
        hidden = [] /\ table (world (buffer s)) = table w0 ++ (keep <$> (clamp <$> rows)))
    /\ forall r, r ∈ rows ++ hidden ->
         stored_as (clamp r) (keep (clamp r))
         /\ (exists body code e, (body, code) ∈ answered s
              /\ Decode (MaxBytesReader maxIngestBytes body) = Some e
              /\ Validate e = None /\ SourceValue e <> ig_Source icfg /\ r = row_of_event icfg e)
         /\ forall f, len (get_str f (keep (clamp r))) <= field_limit f (ig_MaxFieldBytes icfg).
Proof using laws.
  intros Hm Hr. destruct (sink_table s h Hm Hr) as (rows & hidden & Ht & Hf & Hrows & Hhid & Hs).
  exists rows, hidden. split_and!; [done..|]. intros r Hin. split; [apply (exec_keep _ _ _ _ laws)|].
  apply offered_capped; [done|]. apply elem_of_app in Hin as [Hin|Hin].
  - by eapply elem_of_submseteq.
  - eapply elem_of_submseteq in Hin; [|exact Hhid]. by apply elem_of_copies in Hin.
Qed.
End trino.

(** ** A concrete run

    The decoder of the examples takes the body for the query id of an event
    created in 1970, and refuses the body "bad" and bodies cut off. *)

Definition demo_event (id : gostring) : Event :=
  mkEvent (mkMetadata id None [] None None (bs "FINISHED") [] None None)
    (mkStatistics 0 0 0 0 0 0 0 0 0 0 0 0 0 0 0 0 0)
    (mkContext (bs "alice") None (Some id) None None [] [] None [] []) (mkIOMetadata []) None (Some Day) None None.

Definition demo_decode (x : gostring * bool) : option Event :=
  if snd x then None else if decide (fst x = bs "bad") then None else Some (demo_event (fst x)).

Definition demo_ingest : IngestConfig := mkIngestConfig (bs "sink") PlanCaptureAll 0 200 1024.

(** One request of each kind; the two rows share a query id and are flushed as
    one. *)
Definition demo_requests : list sink_label :=
  [Arrive (bs "a"); Arrive (bs "bad"); Arrive (bs ""); Answer 1 Sent; Arrive (bs "sink"); Answer 1 Sent; Arrive (bs "a");
   Answer 0 Sent; Inner Recv; Answer 1 Sent; Inner Recv; Inner (Attempt 0 5); Answer 0 Sent; Arrive (bs "b")].

Lemma sink_trace_reachable {W} `{Writer W} cfg Decode bcfg (w0 : W) ls s h s' h' :
  sink_reachable cfg Decode bcfg w0 s h -> sink_trace cfg Decode bcfg ls s h = Some (s', h') ->
  sink_reachable cfg Decode bcfg w0 s' h'.
Proof.
  revert s h. induction ls as [|l ls IH]; intros s h Hr; cbn [sink_trace]; [by intros [= <- <-]|].
  destruct (handleIngest cfg Decode bcfg l s) as [s1|] eqn:E; [|done]. apply IH. by econstructor.
Qed.

Definition demo_sink : sink scripted * history :=
  default (new_sink demo_world, no_history)
    (sink_trace demo_ingest demo_decode demo_cfg demo_requests (new_sink (mkScripted [] [])) no_history).

Lemma demo_sink_reachable :
  sink_reachable demo_ingest demo_decode demo_cfg (mkScripted [] []) (fst demo_sink) (snd demo_sink).
Proof.
  apply (sink_trace_reachable _ _ _ _ demo_requests (new_sink (mkScripted [] [])) no_history); [constructor|].
  vm_compute. reflexivity.
Qed.

Lemma ingest_accounting_witness :
  let m := metrics (buffer (fst demo_sink)) in
  (eventsReceived m, eventsInvalid m, eventsSuppressed m, rowsEnqueued m) = (6, 2, 1, 2)
  /\ eventsReceived m
     = wrap64 (len (inflight (fst demo_sink)) + eventsInvalid m + eventsSuppressed m + rowsEnqueued m
               + rejected (snd demo_sink)).
Proof.
  split; [vm_compute; reflexivity|].
  exact (proj1 (ingest_accounting demo_ingest demo_decode (row_ok := fun _ => True) demo_cfg (mkScripted [] [])
    (fun _ => I) _ _ demo_sink_reachable)).
Defined.

Lemma table_provenance_witness :
  exists rows, rows_of (world (buffer (fst demo_sink))) = [] ++ (id <$> rows) /\ len rows = 1.
Proof.
  destruct (table_provenance demo_ingest demo_decode (row_ok := fun _ => True) demo_cfg (mkScripted [] [])
    (fun _ => I) _ _ demo_sink_reachable) as (rows & Ht & _).
  exists rows. split; [exact Ht|].
  apply (f_equal len) in Ht. rewrite len_app, len_fmap in Ht. change (len (rows_of _)) with 0 in Ht at 2.
  transitivity (len (rows_of (world (buffer (fst demo_sink))))); [|vm_compute; reflexivity]. rewrite Ht. reflexivity.
Defined.

(** The same run in front of the Trino store of the examples, which loses the
    answer of the first INSERT, so that the row is written again. *)
Definition retried_requests : list sink_label := demo_requests ++ [Inner Waited; Inner (Attempt 6 7)].
Definition lossy_db : demo_db := mkDemoDB [] [Lost (bs "timeout")].
Definition demo_trino_sink : sink demo_db * history :=
  default (new_sink lossy_db, no_history)
    (sink_trace (H := trino_writer demo_exec demo_trino) demo_ingest demo_decode demo_cfg retried_requests
       (new_sink lossy_db) no_history).

Lemma sink_over_trino_witness :
  exists rows hidden, db_rows (world (buffer (fst demo_trino_sink)))
    ≡ₚ [] ++ (micros_row <$> ((fun r => clampRow (NewTrino demo_trino) r (stmt_budget (NewTrino demo_trino))) <$> rows ++ hidden))
    /\ len (db_rows (world (buffer (fst demo_trino_sink)))) = 2
    /\ rowsFlushed (metrics (buffer (fst demo_trino_sink))) = 1.
Proof.
  destruct (sink_over_trino demo_ingest demo_decode demo_exec demo_trino db_rows micros_row (demo_exec_laws demo_trino) demo_cfg
    lossy_db (fst demo_trino_sink) (snd demo_trino_sink)) as (rows & hidden & Ht & _).
  - vm_compute. split; reflexivity.
  - apply (sink_trace_reachable (H := trino_writer demo_exec demo_trino) _ _ _ _ retried_requests
      (new_sink lossy_db) no_history); [constructor|]. vm_compute. reflexivity.
  - exists rows, hidden. split; [exact Ht|]. split; vm_compute; reflexivity.
Defined.
