(* ===== verification/Url.v ===== *)
(** * Url: [net/url] as the source uses it

    The query parameters of a request, their text form, and the escaping of
    one path segment.  The links of the dashboard and the requests of the
    query client are built with these, and the handlers read them back. *)

From S2P Require Import Prelude.

(** ** [url.Values] *)

Abbreviation Values := (gmap gostring (list gostring)).

(** [q.Get], [q.Set] and [q.Del]. *)
Definition Get (q : Values) (key : gostring) : gostring :=
  match q !! key with Some (v :: _) => v | _ => [] end.
Definition Set_ (key v : gostring) (q : Values) : Values := <[key := [v]]> q.
Definition Del (key : gostring) (q : Values) : Values := delete key q.

(** ** Escaping *)

Inductive encoding := encodePathSegment | encodeUserPassword | encodeQueryComponent | encodeHost.

#[export] Instance encoding_eq_dec : EqDecision encoding.
Proof. solve_decision. Defined.

Definition is_alpha (b : byte) : bool :=
  ((65 <=? bv b) && (bv b <=? 90)) || ((97 <=? bv b) && (bv b <=? 122)).

Definition in_string (b : byte) (s : string) : bool := bool_decide (b ∈ bs s).

Definition shouldEscape (c : byte) (mode : encoding) : bool :=
  if is_alpha c || is_digit c then false
  else if bool_decide (mode = encodeHost) && (in_string c "!$&'()*+,;=:[]<>" || bool_decide (c = x22)) then false
  else if in_string c "-_.~" then false
  else if in_string c "$&+,/:;=?@" then
    match mode with
    | encodePathSegment => in_string c "/;,?"
    | encodeUserPassword => in_string c "@/?:"
    | encodeQueryComponent => true
    | encodeHost => true
    end
  else true.

Definition upperhex (n : Z) : byte := if n <? 10 then byte_of (48 + n) else byte_of (55 + n).

Definition escape_byte (mode : encoding) (c : byte) : gostring :=
  if bool_decide (c = x20) && bool_decide (mode = encodeQueryComponent) then bs "+"
  else if shouldEscape c mode then [x25; upperhex (Z.shiftr (bv c) 4); upperhex (Z.land (bv c) 15)]
  else [c].

Definition escape (mode : encoding) (s : gostring) : gostring := mjoin (escape_byte mode <$> s).

(** [url.QueryEscape] and [url.PathEscape]. *)
Definition QueryEscape : gostring -> gostring := escape encodeQueryComponent.
Definition PathEscape : gostring -> gostring := escape encodePathSegment.

Definition unhex (c : byte) : option Z :=
  let z := bv c in
  if is_digit c then Some (z - 48)
  else if (97 <=? z) && (z <=? 102) then Some (z - 87)
  else if (65 <=? z) && (z <=? 70) then Some (z - 55)
  else None.

(** [url.QueryUnescape] and [url.PathUnescape]; [None] is an [EscapeError]. *)
Fixpoint unescape (mode : encoding) (s : gostring) : option gostring :=
  match s with
  | [] => Some []
  | b :: t =>
      if decide (b = x25) then
        match t with
        | h :: l :: rest =>
            match unhex h, unhex l with
            | Some x, Some y => (fun r => byte_of (Z.lor (Z.shiftl x 4) y) :: r) <$> unescape mode rest
            | _, _ => None
            end
        | _ => None
        end
      else
        let c := if bool_decide (b = x2b) && bool_decide (mode = encodeQueryComponent) then x20 else b in
        (fun r => c :: r) <$> unescape mode t
  end.

(** ** The text of a query *)

Definition ampersand : byte := x26.
Definition equals : byte := x3d.

(** [Values.Encode]: sorted by key. *)
Definition encode_key (q : Values) (k : gostring) : list gostring :=
  (fun v => QueryEscape k ++ [equals] ++ QueryEscape v) <$> default [] (q !! k).
Definition Encode (q : Values) : gostring :=
  join [ampersand] (mjoin (encode_key q <$> sort_strings (fst <$> map_to_list q))).

(** [url.ParseQuery] as [URL.Query] calls it: what does not parse is left out. *)
Definition parse_pair (m : Values) (p : gostring) : Values :=
  if bool_decide (x3b ∈ p) then m
  else if decide (p = []) then m
  else
    let '(k, v) := cut equals p in
    match unescape encodeQueryComponent k, unescape encodeQueryComponent (default [] v) with
    | Some k, Some v => <[k := default [] (m !! k) ++ [v]]> m
    | _, _ => m
    end.
Definition ParseQuery (query : gostring) : Values := foldl parse_pair ∅ (split_byte ampersand query).

(** ** Round trips *)

Lemma unescape_escape_byte mode c rest :
  mode = encodePathSegment \/ mode = encodeQueryComponent ->
  unescape mode (escape_byte mode c ++ rest) = (fun r => c :: r) <$> unescape mode rest.
Proof.
  intros H. assert (E : forallb (fun c => forallb (fun mode =>
    match escape_byte mode c with
    | [b] => negb (bool_decide (b = x25))
             && bool_decide ((if bool_decide (b = x2b) && bool_decide (mode = encodeQueryComponent) then x20 else b) = c)
    | [p; h; l] => bool_decide (p = x25) && match unhex h, unhex l with
                   | Some x, Some y => bool_decide (byte_of (Z.lor (Z.shiftl x 4) y) = c) | _, _ => false end
    | _ => false
    end) [encodePathSegment; encodeQueryComponent]) [c] = true).
  { by destruct c; vm_compute. }
  apply andb_true_iff in E as [E _]. rewrite forallb_forall in E.
  specialize (E mode ltac:(destruct H; subst; simpl; auto)).
  destruct (escape_byte mode c) as [|b [|h [|l [|]]]]; try done.
  - apply andb_true_iff in E as [E1 E2]. apply negb_true_iff, bool_decide_eq_false in E1.
    apply bool_decide_eq_true in E2. cbn [app unescape]. rewrite decide_False by done. by rewrite E2.
  - apply andb_true_iff in E as [E1 E2]. apply bool_decide_eq_true in E1 as ->. cbn [app unescape].
    rewrite decide_True by done. destruct (unhex h); [|done]. destruct (unhex l); [|done].
    apply bool_decide_eq_true in E2. by rewrite E2.
Qed.

Lemma unescape_escape mode s :
  mode = encodePathSegment \/ mode = encodeQueryComponent -> unescape mode (escape mode s) = Some s.
Proof.
  intros H. unfold escape. induction s as [|c s IH]; [done|].
  rewrite fmap_cons, mjoin_cons, unescape_escape_byte by done. by rewrite IH.
Qed.

(** A query component is free of the separators, a path segment of the bytes
    that end or split a path. *)
Lemma escape_free mode s c :
  c ∈ (match mode with encodeQueryComponent => [x26; x3d; x3b; x23] | encodePathSegment => [x2f; x3f; x23; x3b] | _ => [] end) ->
  c ∉ escape mode s.
Proof.
  intros H Hc. unfold escape in Hc. apply list_elem_of_join in Hc as (x & Hc & Hx).
  apply list_elem_of_fmap in Hx as (b & -> & _).
  destruct mode; try (by apply elem_of_nil in H);
    repeat (apply elem_of_cons in H as [->|H]); try (by apply elem_of_nil in H);
    match type of Hc with ?P => assert (F : bool_decide P = false) by (clear; destruct b; vm_compute; reflexivity) end;
    by apply bool_decide_eq_false in F.
Qed.

Lemma parse_pair_encoded m k v :
  parse_pair m (QueryEscape k ++ [equals] ++ QueryEscape v) = <[k := default [] (m !! k) ++ [v]]> m.
Proof.
  unfold parse_pair, QueryEscape.
  rewrite bool_decide_eq_false_2.
  2:{ intros H. rewrite !elem_of_app in H. destruct H as [H|[H|H]];
        [|by apply list_elem_of_singleton in H|];
        (eapply (escape_free encodeQueryComponent _ x3b); [|exact H]; set_solver). }
  rewrite decide_False by (by destruct (escape _ k)).
  change ([equals] ++ ?x) with (equals :: x). rewrite cut_app.
  - cbn [default from_option id]. by rewrite !unescape_escape by (by right).
  - apply escape_free. set_solver.
Qed.

Lemma parse_pairs k vs m :
  vs <> [] -> m !! k = None ->
  foldl parse_pair m ((fun v => QueryEscape k ++ [equals] ++ QueryEscape v) <$> vs) = <[k := vs]> m.
Proof.
  intros Hne Hk. assert (G : forall done vs m, m !! k = Some done \/ m !! k = None /\ done = [] ->
    vs <> [] -> foldl parse_pair m ((fun v => QueryEscape k ++ [equals] ++ QueryEscape v) <$> vs) = <[k := done ++ vs]> m).
  { clear. intros done vs. revert done. induction vs as [|v vs IH]; [done|]. intros done m Hm _.
    rewrite fmap_cons. cbn [foldl]. rewrite parse_pair_encoded.
    replace (default [] (m !! k)) with done by (by destruct Hm as [-> | [-> ->]]).
    destruct vs as [|v' vs]; [done|]. rewrite (IH (done ++ [v])); [|left; apply lookup_insert_eq|done].
    rewrite insert_insert_eq. by rewrite <- app_assoc. }
  apply (G []); auto.
Qed.

(** A query whose parameters all have a value. *)
Definition query_ok (q : Values) : Prop := forall k vs, q !! k = Some vs -> vs <> [].

Lemma parse_keys q ks m :
  NoDup ks -> (forall k, k ∈ ks -> m !! k = None /\ exists vs, q !! k = Some vs /\ vs <> []) ->
  foldl parse_pair m (mjoin (encode_key q <$> ks)) = foldr (fun k m => <[k := default [] (q !! k)]> m) m (reverse ks).
Proof.
  revert m. induction ks as [|k ks IH]; intros m Hnd H; [done|].
  apply NoDup_cons in Hnd as [Hk Hnd]. destruct (H k ltac:(left)) as (Hm & vs & Hq & Hne).
  rewrite fmap_cons, mjoin_cons, foldl_app.
  replace (encode_key q k) with ((fun v => QueryEscape k ++ [equals] ++ QueryEscape v) <$> vs) by (unfold encode_key; by rewrite Hq).
  rewrite parse_pairs by done. rewrite IH; [|done|].
  - rewrite reverse_cons, foldr_app. cbn [foldr]. by rewrite Hq.
  - intros k' Hk'. destruct (H k' ltac:(by right)) as (Hm' & Hx). split; [|done].
    rewrite lookup_insert_ne; [done|]. by intros ->.
Qed.

Lemma keys_insert (q m : Values) ks k :
  foldr (fun k (m : Values) => <[k := default [] (q !! k)]> m) m ks !! k
  = if bool_decide (k ∈ ks) then Some (default [] (q !! k)) else m !! k.
Proof.
  induction ks as [|k' ks IH]; [done|]. cbn [foldr]. destruct (decide (k = k')) as [->|Hne].
  - rewrite lookup_insert_eq. by rewrite bool_decide_eq_true_2 by left.
  - rewrite lookup_insert_ne by done. rewrite IH. replace (bool_decide (k ∈ k' :: ks)) with (bool_decide (k ∈ ks)); [done|]. apply bool_decide_ext. rewrite elem_of_cons. naive_solver.
Qed.

Lemma Encode_pieces q :
  query_ok q -> q <> ∅ -> split_byte ampersand (Encode q) = mjoin (encode_key q <$> sort_strings (fst <$> map_to_list q)).
Proof.
  intros Hq Hne. unfold Encode. apply split_byte_join.
  - intros E. assert (Hk : fst <$> map_to_list q <> []).
    { intros F. apply fmap_nil_inv in F. by apply map_to_list_empty_iff in F. }
    destruct (sort_strings _) as [|k ks] eqn:Es.
    { apply Hk, Permutation_nil. by rewrite <- Es, sort_strings_perm. }
    rewrite fmap_cons, mjoin_cons in E. apply app_nil in E as [E _]. unfold encode_key in E. apply fmap_nil_inv in E.
    assert (Hin : k ∈ fst <$> map_to_list q) by (rewrite <- sort_strings_perm, Es; left).
    apply list_elem_of_fmap in Hin as ([k' vs] & -> & Hin). apply elem_of_map_to_list in Hin. cbn [fst] in E.
    rewrite Hin in E. by apply Hq in Hin.
  - apply Forall_forall. intros p Hp. apply list_elem_of_join in Hp as (l & Hp & Hl).
    apply list_elem_of_fmap in Hl as (k & -> & _). unfold encode_key in Hp. apply list_elem_of_fmap in Hp as (v & -> & _).
    rewrite !elem_of_app. intros [H|[H|H]]; [|by apply list_elem_of_singleton in H|];
      (eapply (escape_free encodeQueryComponent _ x26); [|exact H]; set_solver).
Qed.

Lemma parse_encode q : query_ok q -> ParseQuery (Encode q) = q.
Proof.
  intros Hq. destruct (decide (q = ∅)) as [->|Hne]; [by vm_compute|].
  unfold ParseQuery. rewrite Encode_pieces by done.
  assert (Hks : forall k, k ∈ sort_strings (fst <$> map_to_list q) <-> is_Some (q !! k)).
  { intros k. rewrite sort_strings_perm, list_elem_of_fmap. split.
    - intros ([k' vs] & -> & Hin). apply elem_of_map_to_list in Hin. cbn. by rewrite Hin.
    - intros [vs Hk]. exists (k, vs). split; [done|]. by apply elem_of_map_to_list. }
  rewrite parse_keys.
  - apply map_eq. intros k. rewrite keys_insert, lookup_empty.
    case_bool_decide as Hk; rewrite elem_of_reverse in Hk.
    + apply Hks in Hk as [vs ->]. done.
    + destruct (q !! k) eqn:E; [|done]. destruct Hk. apply Hks. by rewrite E.
  - rewrite sort_strings_perm. apply NoDup_fst_map_to_list.
  - intros k Hk. split; [apply lookup_empty|]. apply Hks in Hk as [vs Hk]. exists vs. split; [done|]. by apply Hq in Hk.
Qed.

(** The text of a query parses back to its parameters, and an escaped path
    segment unescapes to itself, without a byte that ends or splits the path. *)
Theorem url_text_reads_back (q : Values) (id : gostring) :
  query_ok q ->
  ParseQuery (Encode q) = q
  /\ unescape encodePathSegment (PathEscape id) = Some id
  /\ Forall (fun b => b ∉ [x2f; x3f; x23; x3b]) (PathEscape id).
Proof.
  intros Hq. split; [by apply parse_encode|]. split; [apply unescape_escape; by left|].
  apply Forall_forall. intros b Hb Hin. by apply (escape_free encodePathSegment id b) in Hin.
Qed.

Lemma url_text_reads_back_witness :
  let q := Set_ (bs "user") (bs "a&b=c d") (Set_ (bs "page") (bs "2") ∅) in
  Encode q = bs "page=2&user=a%26b%3Dc+d" /\ ParseQuery (Encode q) = q.
Proof.
  intros q. split; [by vm_compute|]. apply (url_text_reads_back q (bs "a/b")).
  unfold q, Set_. intros k vs H. destruct (decide (k = bs "user")) as [->|].
  - rewrite lookup_insert_eq in H. by injection H as <-.
  - rewrite lookup_insert_ne in H by done. destruct (decide (k = bs "page")) as [->|].
    + rewrite lookup_insert_eq in H. by injection H as <-.
    + rewrite lookup_insert_ne, lookup_empty in H by done. done.
Defined.
