(* ===== verification/Format.v ===== *)
(** * Format: [internal/server/format.go] and [internal/querycli/format.go]

    The texts the dashboard and the query client show: sizes, durations,
    counts, times, state badges and shortened lines.  The client's functions
    that share a name with the server's carry the prefix [cli_]. *)

From S2P Require Import Prelude GoTime Utf8 Float64 FloatFmt EventRow.

(** ** [html/template] *)

(** [template.HTMLEscapeString]. *)
Definition html_escape_byte (b : byte) : gostring :=
  match b with
  | x00 => [xef; xbf; xbd]
  | x22 => bs "&#34;"
  | x27 => bs "&#39;"
  | x26 => bs "&amp;"
  | x3c => bs "&lt;"
  | x3e => bs "&gt;"
  | _ => [b]
  end.
Definition HTMLEscapeString (s : gostring) : gostring := mjoin (html_escape_byte <$> s).

(** ** [server/format.go] *)

Definition em_dash : gostring := [xe2; x80; x94].
Definition byte_unit : Z := 1024.

(** The loop of [humanBytes]: [div] and [exp]; [n] fits an int64. *)
Fixpoint scale_loop (fuel : nat) (x div exp : Z) : Z * Z :=
  match fuel with
  | O => (div, exp)
  | S fuel => if byte_unit <=? x then scale_loop fuel (Z.quot x byte_unit) (div * byte_unit) (exp + 1) else (div, exp)
  end.
Definition byte_scale (n : Z) : Z * Z := scale_loop 7 (Z.quot n byte_unit) byte_unit 0.

(** ["KMGTPE"[exp]]; [None] is a panic. *)
Definition unit_prefix (exp : Z) : option byte := bs "KMGTPE" !! Z.to_nat exp.

Definition humanBytes (n : Z) : option gostring :=
  if n <=? 0 then Some (bs "0")
  else if n <? byte_unit then Some (itoa n ++ bs " B")
  else
    let '(div, exp) := byte_scale n in
    (fun p => fixed 1 (fdiv (of_int n) (of_int div)) ++ bs " " ++ [p] ++ bs "iB") <$> unit_prefix exp.

Definition humanBytesPtr (n : option Z) : option gostring :=
  match n with None => Some em_dash | Some n => humanBytes n end.

(** [time.Duration(ms) * time.Millisecond], on int64. *)
Definition of_millis (ms : Z) : Duration := wrap64 (ms * Millisecond).

Definition humanMillis (ms : Z) : gostring :=
  if ms <=? 0 then bs "0"
  else
    let d := of_millis ms in
    if d <? Second then itoa ms ++ bs "ms"
    else if d <? Minute then fixed 2 (Seconds d) ++ bs "s"
    else if d <? Hour then itoa (int_of (Minutes d)) ++ bs "m" ++ itoa (Z.rem (int_of (Seconds d)) 60) ++ bs "s"
    else itoa (int_of (Hours d)) ++ bs "h" ++ itoa (Z.rem (int_of (Minutes d)) 60) ++ bs "m".

(** The loop of [humanNum] and [humanCount]: a comma before every third digit
    from the right. *)
Fixpoint group_loop (i n : Z) (s : gostring) : gostring :=
  match s with
  | [] => []
  | c :: t => (if (0 <? i) && ((n - i) mod 3 =? 0) then [x2c] else []) ++ c :: group_loop (i + 1) n t
  end.

Definition humanNum (n : Z) : gostring :=
  let s := itoa n in
  let neg := has_prefix s (bs "-") in
  let s := if neg then slice_from s 1 else s in
  if neg then bs "-" ++ group_loop 0 (len s) s else group_loop 0 (len s) s.

Definition humanNumPtr (n : option Z) : gostring :=
  match n with None => em_dash | Some n => humanNum n end.

Definition formatTime (t : time) : gostring := if IsZero t then em_dash else format_datetime (bs " ") t.
Definition formatTimeOpt (t : option time) : gostring :=
  match t with None => em_dash | Some t => formatTime t end.
Definition formatStartTime (start : option time) (create : time) : gostring :=
  match start with Some t => formatTime t | None => formatTime create end.

Definition stateBadge (state : gostring) : gostring :=
  let cls :=
    if bool_decide (state = bs "FINISHED") || bool_decide (state = bs "FAILED") then state else bs "other" in
  bs "<span class=" ++ [x22] ++ bs "badge " ++ HTMLEscapeString cls ++ [x22] ++ bs ">" ++ HTMLEscapeString state
  ++ bs "</span>".

(** ** [querycli/format.go] *)

Definition humanMS (ms : Z) : gostring :=
  if ms <=? 0 then bs "0"
  else
    let d := of_millis ms in
    if Hour <=? d then itoa (Z.quot d Hour) ++ bs "h" ++ itoa (Z.quot (Z.rem d Hour) Minute) ++ bs "m"
    else if Minute <=? d then itoa (Z.quot d Minute) ++ bs "m" ++ itoa (Z.quot (Z.rem d Minute) Second) ++ bs "s"
    else if Second <=? d then fixed 1 (Seconds d) ++ bs "s"
    else itoa ms ++ bs "ms".

Definition cli_units : list gostring := [bs "KiB"; bs "MiB"; bs "GiB"; bs "TiB"; bs "PiB"].

(** [for f >= unit && i < len(units)-1]. *)
Fixpoint cli_scale (fuel : nat) (f : float) (i : Z) : float * Z :=
  match fuel with
  | O => (f, i)
  | S fuel =>
      if fge f (of_int byte_unit) && (i <? len cli_units - 1) then cli_scale fuel (fdiv f (of_int byte_unit)) (i + 1)
      else (f, i)
  end.

Definition cli_humanBytes (n : Z) : option gostring :=
  if n <=? 0 then Some (bs "0")
  else if n <? byte_unit then Some (itoa n ++ bs "B")
  else
    let '(f, i) := cli_scale 6 (of_int n) (- 1) in
    if i <? 0 then None else (fun u => fixed 1 f ++ u) <$> cli_units !! Z.to_nat i.

Definition humanCount (n : Z) : gostring :=
  let s := itoa n in
  let s := if n <? 0 then slice_from s 1 else s in
  if n <? 0 then bs "-" ++ group_loop 0 (len s) s else group_loop 0 (len s) s.

Definition cli_humanBytesPtr (p : option Z) : option gostring :=
  match p with None => Some (bs "-") | Some n => cli_humanBytes n end.
Definition humanCountPtr (p : option Z) : gostring :=
  match p with None => bs "-" | Some n => humanCount n end.

(** [string] of a slice of runes. *)
Definition of_runes (rs : list (Z * gostring)) : gostring := mjoin ((fun r => encode_rune (fst r)) <$> rs).

Definition ellipsis : gostring := [xe2; x80; xa6].
Definition cli_trunc (s : gostring) (n : Z) : gostring :=
  let n := if n <? 0 then 0 else n in
  let r := runes s in
  if len r <=? n then s
  else if n =? 0 then []
  else if n =? 1 then of_runes (slice_to r 1)
  else of_runes (slice_to r (n - 1)) ++ ellipsis.

Definition oneLine (s : gostring) : gostring := join (bs " ") (Fields s).
