(* ===== verification/FormatTheorems.v ===== *)
(** * FormatTheorems: what the formatted texts say

    The dashboard and the query client print the same numbers; groups of
    digits, sizes without a panic, and markup that cannot be broken out of. *)

From S2P Require Import Prelude GoTime Utf8 Float64 FloatFmt EventRow Format.

(** ** Counts *)

Lemma group_app i n s t : group_loop i n (s ++ t) = group_loop i n s ++ group_loop (i + len s) n t.
Proof.
  revert i. induction s as [|c s IH]; intros i; [cbn; f_equal; rewrite len_nil; lia|].
  cbn [app group_loop]. rewrite IH, len_cons, <- app_assoc. cbn [app]. do 4 f_equal. lia.
Qed.

(** The total length matters up to threes. *)
Lemma group_shift i n s : group_loop i (n + 3) s = group_loop i n s.
Proof.
  revert i. induction s as [|c s IH]; intros i; [done|]. cbn [group_loop]. rewrite IH.
  replace ((n + 3 - i) mod 3) with ((n - i) mod 3); [done|].
  replace (n + 3 - i) with (n - i + 1 * 3) by lia. by rewrite Z.mod_add.
Qed.

Lemma group_short s : len s <= 3 -> group_loop 0 (len s) s = s.
Proof. destruct s as [|a [|b [|c [|d s]]]]; try done. llia. Qed.

Lemma group_three L a b c : 0 < L -> group_loop L (L + 3) [a; b; c] = x2c :: [a; b; c].
Proof.
  intros HL. cbn [group_loop].
  replace (L + 3 - L) with 3 by lia. replace (L + 3 - (L + 1)) with 2 by lia. replace (L + 3 - (L + 1 + 1)) with 1 by lia.
  rewrite (proj2 (Z.ltb_lt 0 L)) by lia. change (3 mod 3 =? 0) with true. change (2 mod 3 =? 0) with false.
  change (1 mod 3 =? 0) with false. by rewrite !andb_false_r.
Qed.

Lemma udec_thousand n : 1000 <= n -> exists a b c, udec n = udec (n / 1000) ++ [a; b; c].
Proof.
  intros Hn. assert (E1 : n / 10 / 10 = n / 100) by (rewrite Z.div_div by lia; done).
  assert (E2 : n / 10 / 10 / 10 = n / 1000) by (rewrite !Z.div_div by lia; done).
  assert (100 <= n / 10) by (apply Z.div_le_lower_bound; lia).
  assert (10 <= n / 10 / 10) by (rewrite E1; apply Z.div_le_lower_bound; lia).
  rewrite udec_step, (udec_step (n / 10)), (udec_step (n / 10 / 10)), E2, <- !app_assoc by lia.
  by eexists _, _, _.
Qed.

(** The digits [s], in groups of three from the right. *)
Definition in_threes (s t : gostring) : Prop :=
  exists first rest, t = join (bs ",") (first :: rest) /\ 1 <= len first <= 3
    /\ Forall (fun g => len g = 3) rest /\ mjoin (first :: rest) = s.

Lemma join_snoc sep x l y : join sep (x :: l ++ [y]) = join sep (x :: l) ++ sep ++ y.
Proof.
  revert x. induction l as [|z l IH]; intros x; [done|]. cbn [app]. rewrite !join_cons2, IH. by rewrite <- !app_assoc.
Qed.

Lemma group_threes n : 0 <= n -> in_threes (udec n) (group_loop 0 (len (udec n)) (udec n)).
Proof.
  revert n. apply (well_founded_ind (Z.lt_wf 0) (fun n => 0 <= n -> _)). intros n IH Hn. destruct (Z.lt_ge_cases n 1000) as [Hs|Hl].
  - pose proof (udec_len_pow 3 n ltac:(lia) ltac:(lia)). pose proof (udec_len_pos n Hn).
    rewrite group_short by lia. exists (udec n), []. split_and!; [done|lia|lia|done|]. apply app_nil_r.
  - destruct (udec_thousand n Hl) as (a & b & c & E).
    assert (Hq : 0 <= n / 1000 < n) by (split; [apply Z.div_pos; lia|apply Z.div_lt; lia]).
    destruct (IH (n / 1000) Hq ltac:(lia)) as (f & r & Hg & Hf & Hr & Hm).
    rewrite E, len_app. change (len [a; b; c]) with 3. rewrite group_app, group_shift, Hg, Z.add_0_l.
    rewrite group_three by (pose proof (udec_len_pos (n / 1000)); lia).
    exists f, (r ++ [[a; b; c]]). split_and!; [by rewrite join_snoc|lia|lia|apply Forall_app_2; [done|by repeat constructor]|].
    rewrite <- Hm, !mjoin_cons, <- app_assoc. f_equal. clear. induction r as [|x r IHr]; [done|]. cbn [app]. by rewrite !mjoin_cons, IHr, app_assoc.
Qed.

Lemma itoa_sign n : has_prefix (itoa n) (bs "-") = (n <? 0) /\ (if n <? 0 then slice_from (itoa n) 1 else itoa n) = udec (Z.abs n).
Proof.
  unfold itoa. destruct (Z.ltb_spec n 0).
  - split; [apply (has_prefix_app (bs "-") (udec (- n)))|]. rewrite Z.abs_neq by lia. done.
  - rewrite Z.abs_eq by lia. split; [|done]. pose proof (udec_digits n ltac:(lia)) as Hd.
    destruct (udec n) as [|b s]; [done|]. cbn in Hd. apply andb_true_iff in Hd as [Hb _]. by destruct b.
Qed.

(** The dashboard and the client print every count alike: the sign and the
    decimal digits, in groups of three from the right with commas between. *)
Theorem counts_grouped n :
  humanNum n = humanCount n
  /\ exists digits, humanNum n = (if n <? 0 then bs "-" else []) ++ digits /\ in_threes (udec (Z.abs n)) digits.
Proof.
  destruct (itoa_sign n) as [Hp Hs]. unfold humanNum, humanCount. rewrite Hp, Hs. split; [done|].
  exists (group_loop 0 (len (udec (Z.abs n))) (udec (Z.abs n))). split; [by destruct (n <? 0)|].
  apply group_threes. lia.
Qed.

(** ** Durations *)

Definition clock_text (ms : Z) : gostring :=
  if ms <=? 0 then bs "0"
  else if ms <? 1000 then itoa ms ++ bs "ms"
  else if ms <? 3600000 then itoa (ms / 60000) ++ bs "m" ++ itoa (ms / 1000 mod 60) ++ bs "s"
  else itoa (ms / 3600000) ++ bs "h" ++ itoa (ms / 60000 mod 60) ++ bs "m".

Lemma millis_div ms k : 0 < k -> ms * Millisecond / (k * Millisecond) = ms / k.
Proof. intros Hk. by rewrite Z.div_mul_cancel_r by done || lia. Qed.

Lemma Second_millis : Second = 1000 * Millisecond. Proof. done. Qed.
Lemma Minute_millis : Minute = 60000 * Millisecond. Proof. done. Qed.
Lemma Hour_millis : Hour = 3600000 * Millisecond. Proof. done. Qed.

(** Decides the comparisons of the code by [lia], units spelled out. *)
Ltac spell := unfold Hour, Minute, Second, Millisecond, Microsecond, Nanosecond in *; lia.
Ltac compare :=
  repeat match goal with
  | |- context [Z.ltb ?a ?b] => first [rewrite (proj2 (Z.ltb_lt a b)) by spell | rewrite (proj2 (Z.ltb_ge a b)) by spell]
  | |- context [Z.leb ?a ?b] => first [rewrite (proj2 (Z.leb_le a b)) by spell | rewrite (proj2 (Z.leb_gt a b)) by spell]
  end.

Lemma of_millis_id ms : 0 <= ms -> ms * Millisecond < 2 ^ 63 -> of_millis ms = ms * Millisecond.
Proof. intros. apply wrap64_id. unfold int64. spell. Qed.

(** The two ways to take the units apart. *)
Lemma units_of_float ms :
  0 < ms -> ms * Millisecond < 2 ^ 63 ->
  int_of (Hours (ms * Millisecond)) = ms / 3600000 /\ int_of (Minutes (ms * Millisecond)) = ms / 60000
  /\ (ms < 3600000 -> int_of (Seconds (ms * Millisecond)) = ms / 1000).
Proof.
  intros Hpos Hhi. unfold Hours, Minutes, Seconds. split_and!; [| |intros Hs].
  - rewrite int_of_units, Hour_millis by (auto || spell). by apply millis_div.
  - rewrite int_of_units, Minute_millis by (auto || spell). by apply millis_div.
  - rewrite int_of_units, Second_millis by (auto || spell). by apply millis_div.
Qed.

Lemma units_of_int ms k m :
  0 <= ms -> 0 < k -> 0 < m ->
  Z.quot (ms * Millisecond) (k * m * Millisecond) = ms / (k * m)
  /\ Z.quot (Z.rem (ms * Millisecond) (k * m * Millisecond)) (m * Millisecond) = ms / m mod k.
Proof.
  intros Hms Hk Hm. assert (HM : 0 < Millisecond) by done. assert (0 < k * m) by lia.
  rewrite Z.rem_mod_nonneg, !Z.quot_div_nonneg, Z.mul_mod_distr_r by (lia || apply Z.mod_pos_bound; lia).
  rewrite !millis_div by lia. split; [done|]. rewrite (Z.mul_comm k m), Z.rem_mul_r by lia.
  rewrite (Z.mul_comm m), Z.div_add, Z.div_small by (lia || apply Z.mod_pos_bound; lia). lia.
Qed.

(** Apart from the decimals of seconds, the dashboard (through doubles) and the
    client (through integers) print a duration alike: milliseconds below a
    second, whole minutes and seconds below an hour, whole hours and minutes
    from there. *)
Theorem durations_agree ms :
  ms * Millisecond < 2 ^ 63 -> ~ (1000 <= ms < 60000) ->
  humanMillis ms = clock_text ms /\ humanMS ms = clock_text ms.
Proof.
  intros Hhi Hs. unfold humanMillis, humanMS, clock_text. destruct (Z.leb_spec ms 0) as [|Hpos]; [done|].
  rewrite of_millis_id by lia. destruct (units_of_float ms Hpos Hhi) as (Eh & Em & Es).
  destruct (Z.lt_ge_cases ms 1000); [by compare|]. destruct (Z.lt_ge_cases ms 3600000) as [Hm|Hm]; compare.
  - rewrite Em, Es, Z.rem_mod_nonneg by (lia || apply Z.div_pos; lia). split; [done|].
    rewrite Minute_millis, Second_millis. change (60000 * ?x) with (60 * 1000 * x).
    by destruct (units_of_int ms 60 1000) as [-> ->]; [lia..|].
  - rewrite Em, Eh, Z.rem_mod_nonneg by (lia || apply Z.div_pos; lia). split; [done|].
    rewrite Hour_millis, Minute_millis. change (3600000 * ?x) with (60 * 60000 * x).
    by destruct (units_of_int ms 60 60000) as [-> ->]; [lia..|].
Qed.

(** ** Sizes *)

Lemma unit_pow j : 0 <= j -> byte_unit ^ j = 2 ^ (10 * j).
Proof. intros. unfold byte_unit. change 1024 with (2 ^ 10). by rewrite <- Z.pow_mul_r by lia. Qed.

Lemma unit_pow_pos j : 0 <= j -> 0 < byte_unit ^ j.
Proof. intros. by apply Z.pow_pos_nonneg. Qed.

(** The server's loop stops at the largest power of 1024 not above the size. *)
Lemma scale_loop_spec n c j fuel :
  1 <= j <= c -> (Z.to_nat (c - j) < fuel)%nat -> byte_unit ^ c <= n < byte_unit ^ (c + 1) ->
  scale_loop fuel (n / byte_unit ^ j) (byte_unit ^ j) (j - 1) = (byte_unit ^ c, c - 1).
Proof.
  revert j. induction fuel as [|fuel IH]; intros j Hj Hf Hn; [lia|]. cbn [scale_loop].
  assert (Hpj : 0 < byte_unit ^ j) by (apply unit_pow_pos; lia). pose proof (unit_pow_pos c ltac:(lia)).
  assert (Hs : byte_unit ^ (j + 1) = byte_unit ^ j * byte_unit) by (rewrite Z.pow_add_r by lia; done).
  destruct (decide (j = c)) as [->|].
  - destruct (Z.leb_spec byte_unit (n / byte_unit ^ c)) as [Hle|]; [|done].
    assert (byte_unit ^ c * byte_unit <= n); [|lia]. transitivity (byte_unit ^ c * (n / byte_unit ^ c)); [|apply Z.mul_div_le; lia].
    apply Z.mul_le_mono_nonneg_l; lia.
  - assert (Hle : byte_unit ^ (j + 1) <= n) by (transitivity (byte_unit ^ c); [apply Z.pow_le_mono_r; [done|lia]|lia]).
    destruct (Z.leb_spec byte_unit (n / byte_unit ^ j)) as [|Hlt].
    + rewrite Z.quot_div_nonneg, Z.div_div, <- Hs by (done || lia || apply Z.div_pos; lia).
      replace (j - 1 + 1) with (j + 1 - 1) by lia. apply IH; lia.
    + exfalso. pose proof (Z.mul_succ_div_gt n (byte_unit ^ j) ltac:(lia)).
      assert (byte_unit ^ j * Z.succ (n / byte_unit ^ j) <= byte_unit ^ j * byte_unit) by (apply Z.mul_le_mono_nonneg_l; lia). lia.
Qed.

Lemma byte_scale_spec n c :
  1 <= c <= 6 -> byte_unit ^ c <= n < byte_unit ^ (c + 1) -> byte_scale n = (byte_unit ^ c, c - 1).
Proof.
  intros Hc Hn. unfold byte_scale. pose proof (unit_pow_pos c ltac:(lia)).
  rewrite Z.quot_div_nonneg by (done || lia). apply (scale_loop_spec n c 1 7); [lia|lia|done].
Qed.

(** The client's loop divides as often, up to its last unit. *)
Lemma cli_scale_spec a k c j fuel f :
  0 <= a < 2 ^ 53 -> 0 <= k <= 12 -> 0 <= j <= c -> c <= 5 -> (Z.to_nat (c - j) < fuel)%nat ->
  byte_unit ^ c <= a * 2 ^ k -> c = 5 \/ a * 2 ^ k < byte_unit ^ (c + 1) ->
  is_val f (a * 2 ^ (k - 10 * j + 1074)) ->
  exists g, cli_scale fuel f (j - 1) = (g, c - 1) /\ is_val g (a * 2 ^ (k - 10 * c + 1074)).
Proof.
  intros Ha Hk Hj Hc Hf Hlo Hhi. revert j f Hj Hf. induction fuel as [|fuel IH]; intros j f Hj Hf Hv; [lia|]. cbn [cli_scale].
  pose proof (of_int_exact byte_unit ltac:(done)) as Hu. rewrite (fge_val _ _ _ _ Hv Hu). change (len cli_units - 1) with 4.
  assert (Hcmp : (byte_unit * denom <=? a * 2 ^ (k - 10 * j + 1074)) = (byte_unit ^ (j + 1) <=? a * 2 ^ k)).
  { assert (Hp : 0 < 2 ^ (10 * j)) by (apply Z.pow_pos_nonneg; lia).
    assert (E : a * 2 ^ (k - 10 * j + 1074) * 2 ^ (10 * j) = a * 2 ^ k * denom).
    { unfold denom. rewrite <- !Z.mul_assoc, <- !Z.pow_add_r by lia. do 2 f_equal. lia. }
    assert (E2 : byte_unit * denom * 2 ^ (10 * j) = byte_unit ^ (j + 1) * denom).
    { rewrite Z.pow_add_r, unit_pow by lia. change (byte_unit ^ 1) with byte_unit. ring. }
    apply eq_true_iff_eq. rewrite !Z.leb_le. rewrite (Z.mul_le_mono_pos_r _ _ _ Hp), E, E2.
    by rewrite <- (Z.mul_le_mono_pos_r _ _ _ denom_pos). }
  rewrite Hcmp. destruct (decide (j = c)) as [->|].
  - exists f. split; [|done]. destruct (Z.ltb_spec (c - 1) 4); [|by rewrite andb_false_r].
    destruct (Z.leb_spec (byte_unit ^ (c + 1)) (a * 2 ^ k)); [lia|done].
  - assert (Hle : byte_unit ^ (j + 1) <= byte_unit ^ c) by (apply Z.pow_le_mono_r; [done|lia]).
    rewrite (proj2 (Z.leb_le (byte_unit ^ (j + 1)) (a * 2 ^ k))), (proj2 (Z.ltb_lt (j - 1) 4)) by lia. cbn [andb].
    replace (j - 1 + 1) with (j + 1 - 1) by lia. apply IH; [lia|lia|].
    replace (k - 10 * (j + 1) + 1074) with (k - 10 * j - 10 + 1074) by lia.
    apply (fdiv_pow2 f a (k - 10 * j) 10); [done|lia|lia|lia].
Qed.

Lemma size_band n : byte_unit <= n < 2 ^ 63 -> exists c, 1 <= c <= 6 /\ byte_unit ^ c <= n < byte_unit ^ (c + 1) /\ c = Z.log2 n / 10.
Proof.
  intros Hn. unfold byte_unit in Hn. pose proof (Z.log2_spec n ltac:(lia)) as Hl.
  assert (10 <= Z.log2 n < 63) by (split; [apply (Z.log2_le_pow2 n 10)|apply (Z.log2_lt_pow2 n 63)]; lia).
  pose proof (Z.div_mod (Z.log2 n) 10 ltac:(lia)). pose proof (Z.mod_pos_bound (Z.log2 n) 10 ltac:(lia)).
  exists (Z.log2 n / 10). split; [lia|]. split; [|done]. rewrite !unit_pow by lia.
  split.
  - transitivity (2 ^ Z.log2 n); [apply Z.pow_le_mono_r; lia|lia].
  - apply Z.lt_le_trans with (2 ^ Z.succ (Z.log2 n)); [lia|apply Z.pow_le_mono_r; lia].
Qed.

(** Both texts of a size of at least a kibibyte. *)
Lemma sizes_text n :
  byte_unit <= n < 2 ^ 63 ->
  exists c, 1 <= c <= 6 /\ byte_unit ^ c <= n < byte_unit ^ (c + 1)
    /\ humanBytes n = (fun p => fixed 1 (fdiv (of_int n) (of_int (byte_unit ^ c))) ++ bs " " ++ [p] ++ bs "iB") <$> unit_prefix (c - 1)
    /\ exists g, cli_humanBytes n = (fun u => fixed 1 g ++ u) <$> cli_units !! Z.to_nat (Z.min c 5 - 1)
    /\ (c <= 5 -> fixed 1 g = fixed 1 (fdiv (of_int n) (of_int (byte_unit ^ c)))).
Proof.
  intros Hn. destruct (size_band n Hn) as (c & Hc & Hb & Ec). assert (Hu : byte_unit = 1024) by done.
  pose proof (Z.mul_div_le (Z.log2 n) 10 ltac:(lia)) as Hl. rewrite <- Ec in Hl.
  exists c. split; [done|]. split; [done|]. unfold humanBytes, cli_humanBytes.
  destruct (Z.leb_spec n 0); [lia|]. destruct (Z.ltb_spec n byte_unit); [lia|].
  rewrite (byte_scale_spec n c Hc Hb). split; [done|].
  destruct (of_int_form n ltac:(lia)) as (a & k & Ha & Hk & Hv & Hlo & Heq).
  assert (Hv' : is_val (of_int n) (a * 2 ^ (k + 1074))).
  { unfold denom in Hv. by rewrite <- Z.mul_assoc, <- Z.pow_add_r in Hv by lia. }
  destruct (cli_scale_spec a k (Z.min c 5) 0 6 (of_int n)) as (g & E & Hg); try lia.
  - transitivity (2 ^ Z.log2 n); [|done]. rewrite unit_pow by lia. apply Z.pow_le_mono_r; lia.
  - destruct (Z.le_gt_cases 5 c); [left; lia|right]. rewrite Z.min_l by lia. rewrite Heq; [lia|].
    apply Z.lt_le_trans with (byte_unit ^ (c + 1)); [lia|]. rewrite unit_pow by lia. apply Z.pow_le_mono_r; lia.
  - by rewrite Z.mul_0_r, Z.sub_0_r.
  - exists g. change (- 1) with (0 - 1). rewrite E. destruct (Z.ltb_spec (Z.min c 5 - 1) 0); [lia|]. split; [done|].
    intros Hc5. rewrite Z.min_l in Hg by lia. apply (fixed_val 1 g _ (a * 2 ^ (k - 10 * c + 1074))); [done|].
    rewrite unit_pow by lia. apply fdiv_pow2; [done|lia|lia|lia].
Qed.

(** Sizes never index past the units, and below an exbibyte the dashboard and
    the client print the same number and unit, a space apart: the unit is the
    largest power of 1024 that the size reaches. *)
Theorem sizes_agree n :
  int64 n ->
  is_Some (humanBytes n) /\ is_Some (cli_humanBytes n)
  /\ (byte_unit <= n < 2 ^ 60 ->
      exists digits p c, 0 <= c < 5 /\ byte_unit ^ (c + 1) <= n < byte_unit ^ (c + 2) /\ unit_prefix c = Some p
        /\ humanBytes n = Some (digits ++ bs " " ++ [p] ++ bs "iB") /\ cli_humanBytes n = Some (digits ++ [p] ++ bs "iB")).
Proof.
  intros Hn. assert (Hu : byte_unit = 1024) by done. destruct (Z.lt_ge_cases n byte_unit) as [Hs|Hs].
  { unfold humanBytes, cli_humanBytes. destruct (Z.leb_spec n 0), (Z.ltb_spec n byte_unit); try lia; split_and!; by eauto || lia. }
  destruct (sizes_text n) as (c & Hc & Hb & -> & g & -> & Hg); [unfold int64 in Hn; lia|].
  assert (Hcs : c = 1 \/ c = 2 \/ c = 3 \/ c = 4 \/ c = 5 \/ c = 6) by lia.
  split; [|split].
  - by destruct Hcs as [-> | [-> | [-> | [-> | [-> | ->]]]]]; eauto.
  - by destruct Hcs as [-> | [-> | [-> | [-> | [-> | ->]]]]]; eauto.
  - intros [_ H60]. assert (Hc5 : c <= 5).
    { apply Z.nlt_ge. intros H6. assert (2 ^ 60 <= n); [|lia]. transitivity (byte_unit ^ c); [|lia].
      rewrite unit_pow by lia. apply Z.pow_le_mono_r; lia. }
    rewrite Hg by done. set (digits := fixed 1 _). rewrite Z.min_l by lia. exists digits.
    destruct Hcs as [-> | [-> | [-> | [-> | [-> | ->]]]]]; [| | | | |lia];
      [exists x4b, 0|exists x4d, 1|exists x47, 2|exists x54, 3|exists x50, 4]; split_and!; done || lia.
Qed.

(** ** Markup *)


(** ** Markup *)

(** The bytes that end a text or a quoted attribute value in HTML. *)
Definition markup : list byte := [x3c; x3e; x22; x27].

(** How a browser reads the character references of [HTMLEscapeString] back. *)
Fixpoint html_read (s : gostring) : gostring :=
  match s with
  | x26 :: x23 :: x33 :: x34 :: x3b :: t => x22 :: html_read t
  | x26 :: x23 :: x33 :: x39 :: x3b :: t => x27 :: html_read t
  | x26 :: x61 :: x6d :: x70 :: x3b :: t => x26 :: html_read t
  | x26 :: x6c :: x74 :: x3b :: t => x3c :: html_read t
  | x26 :: x67 :: x74 :: x3b :: t => x3e :: html_read t
  | b :: t => b :: html_read t
  | [] => []
  end.

Lemma html_read_byte b rest : b <> x00 -> html_read (html_escape_byte b ++ rest) = b :: html_read rest.
Proof. intros Hb. destruct b; done. Qed.

Lemma html_escape_reads s : x00 ∉ s -> html_read (HTMLEscapeString s) = s.
Proof.
  unfold HTMLEscapeString. induction s as [|b s IH]; intros H; [done|].
  apply not_elem_of_cons in H as [Hb H]. by rewrite fmap_cons, mjoin_cons, html_read_byte, IH.
Qed.

Lemma html_escape_inert s b : b ∈ markup -> b ∉ HTMLEscapeString s.
Proof.
  intros Hb Hin. apply list_elem_of_join in Hin as (x & Hin & Hx). apply list_elem_of_fmap in Hx as (c & -> & _).
  assert (F : forallb (fun c => forallb (fun b => bool_decide (b ∉ html_escape_byte c)) markup) [c] = true)
    by (clear; destruct c; vm_compute; reflexivity).
  apply andb_true_iff in F as [F _]. rewrite forallb_forall in F. apply list_elem_of_In in Hb.
  specialize (F b Hb). by apply bool_decide_eq_true in F.
Qed.

(** A state badge is one element whatever the state: its class is one of three
    words, its text holds no markup, and a browser reads the text back as the
    state. *)
Theorem badge_is_inert state :
  exists cls text,
    cls ∈ [bs "FINISHED"; bs "FAILED"; bs "other"]
    /\ stateBadge state = bs "<span class=" ++ [x22] ++ bs "badge " ++ cls ++ [x22] ++ bs ">" ++ text ++ bs "</span>"
    /\ Forall (fun b => b ∉ markup) text /\ (x00 ∉ state -> html_read text = state).
Proof.
  exists (if bool_decide (state = bs "FINISHED") || bool_decide (state = bs "FAILED") then state else bs "other"),
    (HTMLEscapeString state).
  split_and!.
  - repeat case_bool_decide; subst; cbn [orb]; set_solver.
  - unfold stateBadge. repeat case_bool_decide; subst; done.
  - apply Forall_forall. intros b Hb Hm. by eapply html_escape_inert.
  - apply html_escape_reads.
Qed.

(** ** Witnesses *)

Lemma durations_agree_witness : humanMillis 123456789 = bs "34h17m" /\ humanMS 123456789 = bs "34h17m".
Proof. apply (durations_agree 123456789); [reflexivity|lia]. Defined.

Lemma sizes_agree_witness :
  is_Some (humanBytes (2 ^ 50 - 1)) /\ unit_prefix 3 = Some x54 /\ humanBytes (2 ^ 50 - 1) = Some (bs "1024.0 TiB").
Proof.
  split; [|by vm_compute]. apply (sizes_agree (2 ^ 50 - 1)). split; [discriminate|reflexivity].
Defined.
