(* ===== verification/Api.v ===== *)
(** * Api: [internal/server/api.go] and [internal/server/ui.go]

    What the JSON API and the dashboard ask the store for, and the pages they
    make of its answer.  The templates and [json.Marshal] of the answers are
    left to the libraries. *)

From S2P Require Import Prelude Errors GoTime Utf8 Url Row Event EventRow Format Query.

(** ** [strings] *)

(** [strings.TrimSpace]. *)
Fixpoint drop_spaces (rs : list (Z * gostring)) : list (Z * gostring) :=
  match rs with
  | [] => []
  | r :: rest => if IsSpace (fst r) then drop_spaces rest else rs
  end.
Definition TrimSpace (s : gostring) : gostring :=
  mjoin (snd <$> reverse (drop_spaces (reverse (drop_spaces (runes s))))).

(** ** [ui.go]: ranges, filters and pages *)

Definition uiLimit : Z := 100.
Definition maxUIPages : Z := 50.

Definition ranges : list (gostring * gostring) :=
  [(bs "1h", bs "Last hour"); (bs "6h", bs "Last 6 hours"); (bs "24h", bs "Last 24 hours");
   (bs "7d", bs "Last 7 days"); (bs "30d", bs "Last 30 days")].

Definition rangeDurations (v : gostring) : option Duration :=
  if decide (v = bs "1h") then Some Hour
  else if decide (v = bs "6h") then Some (6 * Hour)
  else if decide (v = bs "24h") then Some (24 * Hour)
  else if decide (v = bs "7d") then Some (7 * 24 * Hour)
  else if decide (v = bs "30d") then Some (30 * 24 * Hour)
  else None.

(** The map built from [ranges]; a missing key reads as the empty string. *)
Definition rangeLabels (v : gostring) : gostring :=
  match list_find (fun r => fst r = v) ranges with Some (_, r) => snd r | None => [] end.

Definition statesList : list gostring := [[]; bs "FINISHED"; bs "FAILED"; bs "CANCELED"].

Definition validSorts (s : gostring) : bool :=
  bool_decide (s ∈ [bs "start"; bs "wall"; bs "cpu"; bs "bytes"; bs "mem"; bs "rows"]).

Definition rangeInfo (v : gostring) : Duration * gostring * bool :=
  match rangeDurations v with None => (0, [], false) | Some d => (d, rangeLabels v, true) end.

Definition resolveRange (q : Values) : gostring * Duration * gostring :=
  let rng := Get q (bs "range") in
  match rangeInfo rng with
  | (dur, label, true) => (rng, dur, label)
  | (_, _, false) => let rng := bs "24h" in let '(dur, label, _) := rangeInfo rng in (rng, dur, label)
  end.

Definition buildQueryFilter (now : time) (q : Values) : QueryFilter :=
  let '(_, dur, _) := resolveRange q in
  let sort := Get q (bs "sort") in
  let sort := if negb (validSorts sort) then bs "start" else sort in
  {|
    Since := now - dur;
    Until := now;
    User := TrimSpace (Get q (bs "user"));
    FilterCatalog := TrimSpace (Get q (bs "catalog"));
    State := Get q (bs "state");
    Sort := sort;
    Desc := negb (bool_decide (Get q (bs "dir") = bs "asc"));
    Limit := 0;
    Offset := 0
  |}.

Definition with_page (limit offset : Z) (f : QueryFilter) : QueryFilter :=
  mkFilter (Since f) (Until f) (User f) (FilterCatalog f) (State f) (Sort f) (Desc f) limit offset.

Record listView := mkListView {
  v_Rows : list QuerySummary;
  v_Range : gostring;
  v_RangeLabel : gostring;
  v_User : gostring;
  v_Catalog : gostring;
  v_State : gostring;
  v_Sort : gostring;
  v_Dir : gostring;
  v_FailedOnly : bool;
  v_Count : Z;
  v_Error : gostring;
  v_Page : Z;
  v_HasPrev : bool;
  v_HasNext : bool
}.

Definition buildListView (now : time) (q : Values) : listView * QueryFilter :=
  let '(rng, _, label) := resolveRange q in
  let f := buildQueryFilter now q in
  let page := match atoi (Get q (bs "page")) with Some p => if 1 <? p then p else 1 | None => 1 end in
  let page := if maxUIPages <? page then maxUIPages else page in
  let f := with_page (uiLimit + 1) ((page - 1) * uiLimit) f in
  let dir := if Desc f then bs "desc" else bs "asc" in
  (mkListView [] rng label (User f) (FilterCatalog f) (State f) (Sort f) dir
     (bool_decide (State f = bs "FAILED")) 0 [] page false false, f).

(** ** Links *)

Definition baseValues (v : listView) : Values :=
  let q := Set_ (bs "range") (v_Range v) ∅ in
  let q := if decide (v_User v = []) then q else Set_ (bs "user") (v_User v) q in
  let q := if decide (v_Catalog v = []) then q else Set_ (bs "catalog") (v_Catalog v) q in
  if decide (v_State v = []) then q else Set_ (bs "state") (v_State v) q.

(** The parameters and the arrow of a column header. *)
Definition sort_values (v : listView) (key : gostring) : Values * gostring :=
  let '(dir, arrow) :=
    if decide (v_Sort v = key) then
      if decide (v_Dir v = bs "desc") then (bs "asc", [x20; xe2; x96; xbc]) else (bs "desc", [x20; xe2; x96; xb2])
    else (bs "desc", []) in
  (Set_ (bs "dir") dir (Set_ (bs "sort") key (baseValues v)), arrow).

(** The anchor of a column header. *)
Definition quoted (s : gostring) : gostring := [x22] ++ s ++ [x22].
Definition sortlink (v : listView) (key label : gostring) : gostring :=
  let '(q, arrow) := sort_values v key in
  let enc := HTMLEscapeString (Encode q) in
  bs "<a href=" ++ quoted (bs "/?" ++ enc) ++ bs " hx-get=" ++ quoted (bs "/partials/queries?" ++ enc)
  ++ bs " hx-target=" ++ quoted (bs "#results") ++ bs ">" ++ HTMLEscapeString label ++ arrow ++ bs "</a>".

Definition topValues (v : listView) (key : gostring) : Values :=
  Set_ (bs "dir") (bs "desc") (Set_ (bs "sort") key (baseValues v)).

Definition failedValues (v : listView) : Values :=
  let q := baseValues v in
  let q := if v_FailedOnly v then Del (bs "state") q else Set_ (bs "state") (bs "FAILED") q in
  Set_ (bs "dir") (v_Dir v) (Set_ (bs "sort") (v_Sort v) q).

Definition pageValues (v : listView) (page : Z) : Values :=
  let q := Set_ (bs "dir") (v_Dir v) (Set_ (bs "sort") (v_Sort v) (baseValues v)) in
  if 1 <? page then Set_ (bs "page") (itoa page) q else q.

Definition prevValues (v : listView) : Values := pageValues v (v_Page v - 1).
Definition nextValues (v : listView) : Values := pageValues v (v_Page v + 1).

(** The links of a page, to the page and to the fragment HTMX asks for. *)
Definition page_href (q : Values) : gostring := bs "/?" ++ Encode q.
Definition partial_href (q : Values) : gostring := bs "/partials/queries?" ++ Encode q.
Definition topHref (v : listView) (key : gostring) : gostring := page_href (topValues v key).
Definition topHrefPartial (v : listView) (key : gostring) : gostring := partial_href (topValues v key).
Definition failedHref (v : listView) : gostring := page_href (failedValues v).
Definition failedHrefPartial (v : listView) : gostring := partial_href (failedValues v).
Definition prevHref (v : listView) : gostring := page_href (prevValues v).
Definition prevHrefPartial (v : listView) : gostring := partial_href (prevValues v).
Definition nextHref (v : listView) : gostring := page_href (nextValues v).
Definition nextHrefPartial (v : listView) : gostring := partial_href (nextValues v).

(** ** [api.go] *)

Definition apiDefaultLimit : Z := 100.
Definition apiMaxLimit : Z := 500.
Definition apiMaxOffset : Z := 100000.

Definition clampLimit (v : gostring) : Z :=
  match atoi v with
  | None => apiDefaultLimit
  | Some n => if n <? 1 then apiDefaultLimit else if apiMaxLimit <? n then apiMaxLimit else n
  end.

Definition parseOffset (v : gostring) : Z :=
  match atoi v with
  | None => 0
  | Some n => if n <? 0 then 0 else Z.min n apiMaxOffset
  end.

Record listResponse := mkListResponse {
  lr_Queries : list QuerySummary;
  lr_Count : Z;
  lr_Limit : Z;
  lr_Offset : Z;
  lr_HasNext : bool
}.

Record queryResponse := mkQueryResponse { qr_Row : Row; qr_Inputs : list InputMetadata }.

(** A status and a body: a value for [writeJSON], or the message of
    [writeJSONError] and [http.Error]. *)
Inductive response (A : Type) := WriteJSON (status : Z) (v : A) | WriteError (status : Z) (msg : gostring).
Arguments WriteJSON {A}.
Arguments WriteError {A}.

Section handlers.
Context {W : Type} `{Reader W}.
(** [json.Unmarshal] of the stored inputs; what it filled in before an error
    stays. *)
Context (unmarshal_inputs : gostring -> list InputMetadata).

Definition listAndTrim (f : QueryFilter) (pageSize : Z) (w : W)
    : W * (list QuerySummary * bool * option gerror) :=
  match ListQueries f w with
  | (w', (_, Some err)) => (w', ([], false, Some err))
  | (w', (rows, None)) =>
      if pageSize <? len rows then (w', (slice_to rows pageSize, true, None))
      else (w', (rows, false, None))
  end.

Definition populateRows (v : listView) (f : QueryFilter) (w : W) : W * listView :=
  match listAndTrim f uiLimit w with
  | (w', (_, _, Some _)) =>
      (w', mkListView (v_Rows v) (v_Range v) (v_RangeLabel v) (v_User v) (v_Catalog v) (v_State v) (v_Sort v)
             (v_Dir v) (v_FailedOnly v) (v_Count v) (bs "query failed") (v_Page v) (v_HasPrev v) (v_HasNext v))
  | (w', (rows, hasNext, None)) =>
      (w', mkListView rows (v_Range v) (v_RangeLabel v) (v_User v) (v_Catalog v) (v_State v) (v_Sort v)
             (v_Dir v) (v_FailedOnly v) (len rows) (v_Error v) (v_Page v) (1 <? v_Page v)
             (hasNext && (v_Page v <? maxUIPages)))
  end.

(** What [handleDashboard] and [handleQueriesPartial] give their template. *)
Definition handleDashboard (now : time) (q : Values) (w : W) : W * listView :=
  let '(v, f) := buildListView now q in populateRows v f w.

Definition handleAPIListQueries (now : time) (q : Values) (w : W) : W * response listResponse :=
  let f := buildQueryFilter now q in
  let limit := clampLimit (Get q (bs "limit")) in
  let offset := parseOffset (Get q (bs "offset")) in
  let f := with_page (limit + 1) offset f in
  match listAndTrim f limit w with
  | (w', (_, _, Some _)) => (w', WriteError 500 (bs "query failed"))
  | (w', (rows, hasNext, None)) => (w', WriteJSON 200 (mkListResponse rows (len rows) limit offset hasNext))
  end.

Definition handleAPIGetQuery (id : gostring) (w : W) : W * response queryResponse :=
  match GetQuery id w with
  | (w', (_, Some _)) => (w', WriteError 500 (bs "query lookup failed"))
  | (w', (None, None)) => (w', WriteError 404 (bs "query not found: " ++ id))
  | (w', (Some row, None)) =>
      let inputs := if decide (InputsJSON row = []) then [] else unmarshal_inputs (InputsJSON row) in
      (w', WriteJSON 200 (mkQueryResponse row inputs))
  end.

(** The pages: a template gives its HTML or fails, and [http.Error] ends its
    message with a newline. *)
Context (dashboardTmpl partialTmpl : listView -> option gostring) (detailTmpl : queryResponse -> option gostring).

(** [Server.render]: the status and the body. *)
Definition render_page {A} (t : A -> option gostring) (data : A) : Z * gostring :=
  match t data with
  | None => (500, bs "internal error" ++ [x0a])
  | Some html => (200, html)
  end.

Definition dashboard_response (now : time) (q : Values) (w : W) : W * (Z * gostring) :=
  let '(w', v) := handleDashboard now q w in (w', render_page dashboardTmpl v).
Definition partial_response (now : time) (q : Values) (w : W) : W * (Z * gostring) :=
  let '(w', v) := handleDashboard now q w in (w', render_page partialTmpl v).

Definition detail_response (id : gostring) (w : W) : W * (Z * gostring) :=
  match GetQuery id w with
  | (w', (_, Some _)) => (w', (500, bs "query lookup failed" ++ [x0a]))
  | (w', (None, None)) => (w', (404, bs "query not found: " ++ id ++ [x0a]))
  | (w', (Some row, None)) =>
      let inputs := if decide (InputsJSON row = []) then [] else unmarshal_inputs (InputsJSON row) in
      (w', render_page detailTmpl (mkQueryResponse row inputs))
  end.
End handlers.
