(* ===== verification/ApiTheorems.v ===== *)
(** * ApiTheorems: pages, links and answers

    What a request can ask of the store, the pages of a listing, the links
    between pages, and the status of every answer. *)

From S2P Require Import Prelude Errors GoTime Utf8 Url Row Event EventRow EventTheorems Format FormatTheorems Query Api.

(** ** Lemmas *)

Lemma Get_Set k v q k' : Get (Set_ k v q) k' = if decide (k = k') then v else Get q k'.
Proof.
  unfold Get, Set_. case_decide as E; [subst; by rewrite lookup_insert_eq|by rewrite lookup_insert_ne].
Qed.

Lemma Get_Del k q k' : Get (Del k q) k' = if decide (k = k') then [] else Get q k'.
Proof.
  unfold Get, Del. case_decide as E; [subst; by rewrite lookup_delete_eq|by rewrite lookup_delete_ne].
Qed.

Lemma clampLimit_range v : 1 <= clampLimit v <= apiMaxLimit.
Proof. unfold clampLimit, apiDefaultLimit, apiMaxLimit. destruct (atoi v); bcase; lia. Qed.

Lemma parseOffset_range v : 0 <= parseOffset v <= apiMaxOffset.
Proof. unfold parseOffset, apiMaxOffset. destruct (atoi v); bcase; lia. Qed.

Lemma resolveRange_spec q rng dur label :
  resolveRange q = (rng, dur, label) ->
  rangeDurations rng = Some dur /\ label = rangeLabels rng /\ label <> [] /\ Hour <= dur <= 30 * 24 * Hour.
Proof.
  unfold resolveRange, rangeInfo. destruct (rangeDurations (Get q (bs "range"))) as [d|] eqn:E.
  - intros [= <- <- <-]. split; [done|]. split; [done|]. unfold rangeDurations in E.
    repeat case_decide; simplify_eq; match goal with Hk : Get _ _ = _ |- _ => rewrite Hk end;
      vm_compute; split_and!; discriminate.
  - intros [= <- <- <-]. split_and!; vm_compute; done.
Qed.

Lemma pageLimit_exact limit offset f : 1 <= limit <= maxListLimit -> pageLimit (with_page limit offset f) = limit.
Proof. unfold pageLimit, maxListLimit. cbn [Limit with_page]. intros. bcase; cbn; try lia; done. Qed.

Lemma build_view_page now q v g :
  buildListView now q = (v, g) ->
  g = with_page (uiLimit + 1) ((v_Page v - 1) * uiLimit) (buildQueryFilter now q) /\ 1 <= v_Page v <= maxUIPages
  /\ v_Error v = [].
Proof.
  unfold buildListView. destruct (resolveRange q) as [[rng dur] label]. intros [= <- <-]. cbn [v_Page v_Error].
  split_and!; [done|..|done]; unfold maxUIPages; destruct (atoi _); bcase; lia.
Qed.

(** ** What a request asks for *)

(** Whatever its parameters, a request asks for a bounded listing: a window
    of an hour to thirty days that ends now, a sort key the stores know, and a
    page whose size and offset are in range, so the store's own default limit
    never replaces it; the page asked for is one row longer than the page
    shown. *)
Theorem request_is_bounded now q :
  let f := buildQueryFilter now q in
  let '(v, g) := buildListView now q in
  Until f = now /\ Hour <= now - Since f <= 30 * 24 * Hour
  /\ is_Some (sortColumns (Sort f))
  /\ (let limit := clampLimit (Get q (bs "limit")) in
      pageLimit (with_page (limit + 1) (parseOffset (Get q (bs "offset"))) f) = limit + 1)
  /\ pageLimit g = uiLimit + 1
  /\ g = with_page (uiLimit + 1) ((v_Page v - 1) * uiLimit) f
  /\ 1 <= v_Page v <= maxUIPages.
Proof.
  destruct (buildListView now q) as [v g] eqn:Ev. apply build_view_page in Ev as (-> & Hp & _).
  destruct (resolveRange q) as [[rng dur] label] eqn:Er. pose proof (resolveRange_spec _ _ _ _ Er) as (_ & _ & _ & Hd).
  unfold buildQueryFilter. rewrite Er. cbn [Until Since Sort]. split_and!; try lia; try done.
  - destruct (validSorts (Get q (bs "sort"))) eqn:E; cbn [negb]; [|by eexists].
    apply bool_decide_eq_true in E. revert E. generalize (Get q (bs "sort")) as k. apply Forall_forall.
    repeat (apply Forall_cons; split; [by eexists|]). by apply Forall_nil.
  - pose proof (clampLimit_range (Get q (bs "limit"))). cbn zeta. apply pageLimit_exact.
    unfold apiMaxLimit, maxListLimit in *. lia.
Qed.

(** ** Pages *)

Section pages.
Context {W : Type} `{Reader W} (steady : W -> Prop).

(** The store lists [rows] for the filter: page by page, while the world is one
    of those the reads keep to. *)
Definition store_lists (f : QueryFilter) (rows : list QuerySummary) : Prop :=
  forall limit offset w, steady w -> exists w', steady w' /\
    ListQueries (with_page limit offset f) w
    = (w', (slice_to (slice_from rows offset) (pageLimit (with_page limit offset f)), None)).

Lemma list_and_trim f rows limit offset w :
  store_lists f rows -> steady w -> 1 <= limit < maxListLimit ->
  exists w', steady w' /\ listAndTrim (with_page (limit + 1) offset f) limit w
    = (w', (slice_to (slice_from rows offset) limit, limit <? len (slice_from rows offset), None)).
Proof.
  intros Hl Hw0 Hb. destruct (Hl (limit + 1) offset w Hw0) as (w' & Hw' & Hw). exists w'. split; [done|]. unfold listAndTrim. rewrite Hw.
  rewrite pageLimit_exact by lia. set (l := slice_from rows offset).
  assert (Hlen : len (slice_to l (limit + 1)) = Z.min (limit + 1) (len l)) by llia.
  rewrite Hlen. destruct (Z.ltb_spec limit (len l)).
  - replace (limit <? Z.min (limit + 1) (len l)) with true by (symmetry; apply Z.ltb_lt; lia).
    do 3 f_equal. unfold slice_to. rewrite take_take. f_equal. lia.
  - replace (limit <? Z.min (limit + 1) (len l)) with false by (symmetry; apply Z.ltb_ge; lia).
    do 3 f_equal. rewrite !slice_to_all by lia. done.
Qed.

(** A client that follows the pages: the next offset is the one the answer
    names plus the rows it held.  [clock i] is the time at its request [i], which
    the server reads to resolve the range asked for. *)
Fixpoint walk (fuel : nat) (clock : nat -> time) (q : Values) (offset : Z) (w : W) : list QuerySummary :=
  match fuel with
  | O => []
  | S fuel =>
      match handleAPIListQueries (clock 0%nat) (Set_ (bs "offset") (itoa offset) q) w with
      | (w', WriteJSON _ r) =>
          lr_Queries r ++ (if lr_HasNext r then walk fuel (fun i => clock (S i)) q (lr_Offset r + lr_Count r) w' else [])
      | (_, WriteError _ _) => []
      end
  end.

Lemma filter_offset now q o : buildQueryFilter now (Set_ (bs "offset") o q) = buildQueryFilter now q.
Proof. unfold buildQueryFilter, resolveRange. by rewrite !Get_Set. Qed.

Lemma parseOffset_itoa o : 0 <= o < 2 ^ 63 -> parseOffset (itoa o) = Z.min o apiMaxOffset.
Proof. intros Ho. unfold parseOffset. rewrite atoi_itoa by (unfold int64; lia). bcase; lia. Qed.

Lemma api_page now q rows offset w :
  store_lists (buildQueryFilter now q) rows -> steady w -> 0 <= offset < 2 ^ 63 ->
  let limit := clampLimit (Get q (bs "limit")) in
  let o := Z.min offset apiMaxOffset in
  let page := slice_to (slice_from rows o) limit in
  exists w', steady w' /\ handleAPIListQueries now (Set_ (bs "offset") (itoa offset) q) w
    = (w', WriteJSON 200 (mkListResponse page (len page) limit o (limit <? len (slice_from rows o)))).
Proof.
  intros Hl Hw0 Ho limit o page. unfold handleAPIListQueries. rewrite filter_offset, !Get_Set.
  rewrite decide_False, decide_True by done. fold limit. rewrite parseOffset_itoa by done. fold o.
  pose proof (clampLimit_range (Get q (bs "limit"))) as Hb. fold limit in Hb. unfold apiMaxLimit in Hb.
  destruct (list_and_trim _ rows limit o w Hl Hw0) as (w' & Hw' & Hw); [unfold maxListLimit; lia|].
  exists w'. split; [done|]. by rewrite Hw.
Qed.

Lemma walk_from fuel clock q rows offset w :
  (forall i, (i < fuel)%nat -> store_lists (buildQueryFilter (clock i) q) rows) -> steady w -> len rows <= apiMaxOffset ->
  0 <= offset <= len rows -> len rows - offset < Z.of_nat fuel ->
  walk fuel clock q offset w = slice_from rows offset.
Proof.
  intros Hl Hw0 Hr. revert clock Hl offset w Hw0.
  induction fuel as [|fuel IH]; intros clock Hl offset w Hw0 Ho Hf; [lia|]. cbn [walk].
  assert (Hm : apiMaxOffset < 2 ^ 63) by done.
  destruct (api_page (clock 0%nat) q rows offset w (Hl 0%nat (Nat.lt_0_succ _)) Hw0 ltac:(lia)) as (w' & Hw' & ->). cbn [lr_Queries lr_HasNext lr_Offset lr_Count].
  rewrite (Z.min_l offset) by lia. set (limit := clampLimit _). set (l := slice_from rows offset).
  pose proof (clampLimit_range (Get q (bs "limit"))) as Hb. fold limit in Hb.
  assert (Hlen : len l = len rows - offset) by (apply len_slice_from; lia).
  destruct (Z.ltb_spec limit (len l)).
  - rewrite len_slice_to by lia. rewrite IH by (done || lia || (intros i Hi; apply Hl; lia)).
    replace (slice_from rows (offset + limit)) with (slice_from l limit); [apply slice_to_from|].
    unfold l, slice_from. rewrite drop_drop. f_equal. lia.
  - rewrite slice_to_all, app_nil_r by lia. done.
Qed.

(** A client that follows the pages of the JSON API, with any page size,
    gets every row of the listing exactly once, in order, while the listing is
    no longer than the largest offset and the same at each of its requests. *)
Theorem api_walk_complete clock q rows w fuel :
  (forall i, (i < fuel)%nat -> store_lists (buildQueryFilter (clock i) q) rows) -> steady w -> len rows <= apiMaxOffset -> (length rows < fuel)%nat ->
  walk fuel clock q 0 w = rows.
Proof.
  intros Hl Hw Hr Hf. rewrite (walk_from fuel clock q rows) by (done || (pose proof (len_nonneg rows); unfold len in *; lia)).
  apply drop_0.
Qed.

(** C39. Past the largest offset the walk makes no progress, while the listing is
    the same at each of its requests: the offset is clamped, the same page comes
    back, and it still says that there is a next one. *)
Theorem api_walk_stalls clock q rows w fuel offset :
  let limit := clampLimit (Get q (bs "limit")) in
  (forall i, (i < fuel)%nat -> store_lists (buildQueryFilter (clock i) q) rows) -> steady w -> apiMaxOffset + limit < len rows ->
  apiMaxOffset <= offset < 2 ^ 63 ->
  walk fuel clock q offset w = mjoin (replicate fuel (slice_to (slice_from rows apiMaxOffset) limit)).
Proof.
  intros limit Hl Hw0 Hr. pose proof (clampLimit_range (Get q (bs "limit"))) as Hb. fold limit in Hb.
  unfold apiMaxLimit in Hb. revert clock Hl offset w Hw0.
  induction fuel as [|fuel IH]; intros clock Hl offset w Hw0 Ho; [done|]. cbn [walk].
  assert (H0 : 0 <= apiMaxOffset) by done.
  destruct (api_page (clock 0%nat) q rows offset w (Hl 0%nat (Nat.lt_0_succ _)) Hw0 ltac:(lia)) as (w' & Hw' & ->).
  cbn [lr_Queries lr_HasNext lr_Offset lr_Count]. fold limit. rewrite (Z.min_r offset) by lia.
  assert (Hlen : len (slice_from rows apiMaxOffset) = len rows - apiMaxOffset) by (apply len_slice_from; lia).
  rewrite Hlen. replace (limit <? len rows - apiMaxOffset) with true by (symmetry; apply Z.ltb_lt; lia).
  rewrite len_slice_to by lia. rewrite IH by (done || (intros i Hi; apply Hl; lia) || (unfold apiMaxOffset in *; lia)). done.
Qed.
End pages.

(** ** Trimming *)

Lemma drop_spaces_suffix l : exists a, l = a ++ drop_spaces l.
Proof.
  induction l as [|r l [a IH]]; [by exists []|]. cbn. destruct (IsSpace (fst r)); [|by exists []].
  exists (r :: a). by rewrite IH at 1.
Qed.

Lemma drop_spaces_head l r t : drop_spaces l = r :: t -> IsSpace (fst r) = false.
Proof. induction l as [|x l IH]; [done|]. cbn. destruct (IsSpace (fst x)) eqn:E; [done|]. by intros [= <- <-]. Qed.

Lemma drop_spaces_idem l : drop_spaces (drop_spaces l) = drop_spaces l.
Proof.
  destruct (drop_spaces l) as [|r t] eqn:E; [done|]. cbn. by rewrite (drop_spaces_head l r t E).
Qed.

Definition trim_runes (l : list (Z * gostring)) : list (Z * gostring) := reverse (drop_spaces (reverse (drop_spaces l))).

Lemma trim_runes_idem l : trim_runes (trim_runes l) = trim_runes l.
Proof.
  unfold trim_runes. set (m := drop_spaces l). destruct (drop_spaces_suffix (reverse m)) as [a Ha].
  set (n := reverse (drop_spaces (reverse m))) in *.
  assert (Hm : m = n ++ reverse a) by (unfold n; by rewrite <- reverse_app, <- Ha, reverse_involutive).
  assert (Hn : drop_spaces n = n).
  { destruct n as [|r t] eqn:En; [done|]. cbn. rewrite (drop_spaces_head l r (t ++ reverse a)); [done|]. fold m. by rewrite Hm. }
  rewrite Hn. unfold n at 1. by rewrite reverse_involutive, drop_spaces_idem.
Qed.

(** A rune of a valid string decodes wherever it stands. *)
Definition rune_ok (x : Z * gostring) : Prop :=
  snd x <> [] /\ forall t, decode1 (snd x ++ t) = Some (fst x, length (snd x)).

Lemma runes_ok s : ValidString s = true -> Forall rune_ok (runes s).
Proof.
  revert s. apply valid_ind; [constructor|]. intros e t (r & E & Hd) He _ _ IH.
  rewrite (runes_head e _ r) by (done || apply Hd). by constructor.
Qed.

Lemma runes_mjoin l : Forall rune_ok l -> runes (mjoin (snd <$> l)) = l.
Proof.
  induction 1 as [|[r e] l [He Hd] _ IH]; [done|]. rewrite fmap_cons, mjoin_cons. cbn [fst snd] in *.
  rewrite (runes_head e _ r) by (done || apply Hd). by rewrite IH.
Qed.

Lemma TrimSpace_idem s : ValidString s = true -> TrimSpace (TrimSpace s) = TrimSpace s.
Proof.
  intros Hv. unfold TrimSpace. fold (trim_runes (runes s)). rewrite runes_mjoin.
  - fold (trim_runes (trim_runes (runes s))). by rewrite trim_runes_idem.
  - apply runes_ok in Hv. unfold trim_runes. apply Forall_reverse.
    destruct (drop_spaces_suffix (runes s)) as [a Ha]. rewrite Ha in Hv. apply Forall_app in Hv as [_ Hv].
    destruct (drop_spaces_suffix (reverse (drop_spaces (runes s)))) as [b Hb]. apply Forall_reverse in Hv.
    rewrite Hb in Hv. by apply Forall_app in Hv as [_ Hv].
Qed.

(** ** Links *)

(** What a page shows apart from its rows. *)
Definition same_listing (v w : listView) : Prop :=
  v_Range v = v_Range w /\ v_RangeLabel v = v_RangeLabel w /\ v_User v = v_User w /\ v_Catalog v = v_Catalog w
  /\ v_State v = v_State w /\ v_Sort v = v_Sort w /\ v_Dir v = v_Dir w /\ v_FailedOnly v = v_FailedOnly w.

Lemma Get_base v k :
  Get (baseValues v) k =
  if decide (k = bs "range") then v_Range v
  else if decide (k = bs "user") then v_User v
  else if decide (k = bs "catalog") then v_Catalog v
  else if decide (k = bs "state") then v_State v
  else [].
Proof.
  unfold baseValues.
  destruct (decide (v_User v = [])) as [E1|], (decide (v_Catalog v = [])) as [E2|], (decide (v_State v = [])) as [E3|];
    rewrite ?Get_Set; unfold Get at 1; repeat case_decide; subst; simplify_eq; try done;
    rewrite ?lookup_empty, ?E1, ?E2, ?E3; done.
Qed.

Record view_ok (v : listView) : Prop := {
  vo_range : is_Some (rangeDurations (v_Range v));
  vo_label : v_RangeLabel v = rangeLabels (v_Range v);
  vo_user : TrimSpace (v_User v) = v_User v;
  vo_catalog : TrimSpace (v_Catalog v) = v_Catalog v;
  vo_sort : validSorts (v_Sort v) = true;
  vo_dir : v_Dir v = bs "asc" \/ v_Dir v = bs "desc";
  vo_failed : v_FailedOnly v = bool_decide (v_State v = bs "FAILED");
  vo_page : 1 <= v_Page v <= maxUIPages;
}.

Lemma view_of_request now q :
  ValidString (Get q (bs "user")) = true -> ValidString (Get q (bs "catalog")) = true ->
  view_ok (fst (buildListView now q)).
Proof.
  intros Hu Hc. unfold buildListView, buildQueryFilter.
  destruct (resolveRange q) as [[rng dur] label] eqn:Er. apply resolveRange_spec in Er as (Hr & Hl & _).
  cbn [fst]. split; cbn [v_Range v_RangeLabel v_User v_Catalog v_Sort v_Dir v_FailedOnly v_State v_Page User FilterCatalog State Sort Desc with_page]; try done.
  - by apply TrimSpace_idem.
  - by apply TrimSpace_idem.
  - destruct (validSorts (Get q (bs "sort"))) eqn:E; done.
  - destruct (bool_decide _); auto.
  - unfold maxUIPages. destruct (atoi _); bcase; lia.
Qed.

(** A request that carries a view's parameters, with its own state, sort key,
    direction and page. *)
Lemma request_of_view now v q state sort dir page :
  view_ok v -> Get q (bs "range") = v_Range v -> Get q (bs "user") = v_User v -> Get q (bs "catalog") = v_Catalog v ->
  Get q (bs "state") = state -> Get q (bs "sort") = sort -> Get q (bs "dir") = dir -> Get q (bs "page") = page ->
  validSorts sort = true -> dir = bs "asc" \/ dir = bs "desc" ->
  let w := fst (buildListView now q) in
  v_Range w = v_Range v /\ v_RangeLabel w = v_RangeLabel v /\ v_User w = v_User v /\ v_Catalog w = v_Catalog v
  /\ v_State w = state /\ v_Sort w = sort /\ v_Dir w = dir
  /\ v_FailedOnly w = bool_decide (state = bs "FAILED")
  /\ v_Page w = match atoi page with Some p => Z.min (Z.max p 1) maxUIPages | None => 1 end.
Proof.
  intros [[d Hr] Hl Hu Hc _ _ _ _] Eq_r Eq_u Eq_c <- <- <- <- Hs Hd. unfold buildListView, buildQueryFilter, resolveRange, rangeInfo.
  rewrite Eq_r, Hr, Eq_u, Eq_c, Hs, Hl.
  cbn [fst v_Range v_RangeLabel v_User v_Catalog v_Sort v_Dir v_FailedOnly v_State v_Page User FilterCatalog State Sort Desc
    with_page negb]. split_and!; try done.
  - destruct Hd as [-> | ->]; reflexivity.
  - unfold maxUIPages. destruct (atoi _) as [n|]; [|done]. destruct (Z.ltb_spec 1 n); bcase; lia.
Qed.

Lemma Get_page_values v p k :
  Get (pageValues v p) k =
  if decide (k = bs "page") then (if 1 <? p then itoa p else [])
  else if decide (k = bs "dir") then v_Dir v
  else if decide (k = bs "sort") then v_Sort v
  else Get (baseValues v) k.
Proof.
  unfold pageValues. destruct (1 <? p); rewrite !Get_Set, Get_base; repeat case_decide; subst; simplify_eq; done.
Qed.

(** The value of a parameter of a link. *)
Ltac get_eval :=
  rewrite ?Get_page_values, ?Get_Set, ?Get_Del, ?Get_base;
  repeat first [rewrite decide_True by done | rewrite decide_False by done].

(** The request a link makes, and the page it leads to. *)
Definition requested (href : gostring) : Values := ParseQuery (default [] (snd (cut x3f href))).
Definition follow (now : time) (href : gostring) : listView := fst (buildListView now (requested href)).

Lemma query_ok_Set k v q : query_ok q -> query_ok (Set_ k v q).
Proof.
  intros H k' vs. unfold Set_. destruct (decide (k = k')) as [->|Hne].
  - rewrite lookup_insert_eq. by intros [= <-].
  - rewrite lookup_insert_ne by done. apply H.
Qed.
Lemma query_ok_Del k q : query_ok q -> query_ok (Del k q).
Proof. intros H k' vs Hk. unfold Del in Hk. apply lookup_delete_Some in Hk as [_ Hk]. by eapply H. Qed.
Lemma query_ok_base v : query_ok (baseValues v).
Proof. unfold baseValues. repeat case_decide; repeat apply query_ok_Set; by intros k vs Hk; rewrite lookup_empty in Hk. Qed.
Lemma query_ok_page v p : query_ok (pageValues v p).
Proof. unfold pageValues. case_match; repeat apply query_ok_Set; apply query_ok_base. Qed.
Lemma query_ok_sort v key : query_ok (fst (sort_values v key)).
Proof. unfold sort_values. repeat case_decide; cbn [fst]; do 2 apply query_ok_Set; apply query_ok_base. Qed.
Lemma query_ok_failed v : query_ok (failedValues v).
Proof.
  unfold failedValues. do 2 apply query_ok_Set.
  destruct (v_FailedOnly v); [apply query_ok_Del|apply query_ok_Set]; apply query_ok_base.
Qed.

Lemma requested_page q : query_ok q -> requested (page_href q) = q.
Proof. intros H. unfold requested, page_href.
  rewrite (cut_app x3f (bs "/") (Encode q) ltac:(set_solver) : cut x3f (bs "/?" ++ Encode q) = _).
  cbn [snd default from_option id]. by apply parse_encode. Qed.
Lemma requested_partial q : query_ok q -> requested (partial_href q) = q.
Proof.
  intros H. unfold requested, partial_href.
  rewrite (cut_app x3f (bs "/partials/queries") (Encode q) ltac:(set_solver) : cut x3f (bs "/partials/queries?" ++ Encode q) = _).
  cbn [snd default from_option id]. by apply parse_encode.
Qed.

Lemma page_link now now' q p :
  ValidString (Get q (bs "user")) = true -> ValidString (Get q (bs "catalog")) = true -> 1 <= p <= maxUIPages ->
  let v := fst (buildListView now q) in
  let page := fst (buildListView now' (pageValues v p)) in same_listing page v /\ v_Page page = p.
Proof.
  intros Hu Hc Hp v page. pose proof (view_of_request now q Hu Hc) as Hv. fold v in Hv.
  pose proof Hv as [Hv1 Hv2 Hv3 Hv4 Hv5 Hv6 Hv7 Hv8].
  destruct (request_of_view now' v (pageValues v p) (v_State v) (v_Sort v) (v_Dir v) (if 1 <? p then itoa p else []) Hv)
    as (H1 & H2 & H3 & H4 & H5 & H6 & H7 & H8 & H9); [by get_eval..|done|done|]. fold page in H1, H2, H3, H4, H5, H6, H7, H8, H9.
  unfold same_listing. rewrite H1, H2, H3, H4, H5, H6, H7, H8, H9. split; [by split_and!|].
  destruct (Z.ltb_spec 1 p); [|cbn; lia]. rewrite atoi_itoa by (unfold int64, maxUIPages in *; lia). lia.
Qed.

(** C25. The links of a page, written out and read back by the handler, lead where
    they say: previous and next to the same listing one page away, a column
    header to the same listing by that column (turned around when it is the
    current one), and the failed toggle to the same listing with the failed
    filter turned over; these two start from the first page. *)
Theorem links_lead_to now now' q key :
  ValidString (Get q (bs "user")) = true -> ValidString (Get q (bs "catalog")) = true -> validSorts key = true ->
  let v := fst (buildListView now q) in
  let sorted := follow now' (page_href (fst (sort_values v key))) in
  let toggled := follow now' (failedHref v) in
  (1 < v_Page v -> same_listing (follow now' (prevHref v)) v /\ v_Page (follow now' (prevHref v)) = v_Page v - 1)
  /\ (v_Page v < maxUIPages -> same_listing (follow now' (nextHref v)) v /\ v_Page (follow now' (nextHref v)) = v_Page v + 1)
  /\ (v_State sorted = v_State v /\ v_Sort sorted = key /\ v_Page sorted = 1
      /\ (v_Dir sorted = bs "asc" <-> v_Sort v = key /\ v_Dir v = bs "desc"))
  /\ (v_FailedOnly toggled = negb (v_FailedOnly v) /\ v_User toggled = v_User v /\ v_Sort toggled = v_Sort v
      /\ v_Dir toggled = v_Dir v /\ v_Page toggled = 1).
Proof.
  intros Hu Hc Hkey v sorted toggled. pose proof (view_of_request now q Hu Hc) as Hv. fold v in Hv.
  pose proof Hv as [Hv1 Hv2 Hv3 Hv4 Hv5 Hv6 Hv7 Hv8]. unfold follow, prevHref, nextHref, prevValues, nextValues.
  rewrite !requested_page by apply query_ok_page. split; [|split; [|split]].
  - intros Hp. apply page_link; [done|done|fold v; lia].
  - intros Hp. apply page_link; [done|done|fold v; lia].
  - pose (dir := if decide (v_Sort v = key) then (if decide (v_Dir v = bs "desc") then bs "asc" else bs "desc") else bs "desc").
    assert (Hd : fst (sort_values v key) = Set_ (bs "dir") dir (Set_ (bs "sort") key (baseValues v))).
    { unfold sort_values, dir. by repeat case_decide. }
    unfold sorted, follow. rewrite requested_page by apply query_ok_sort.
    destruct (request_of_view now' v (fst (sort_values v key)) (v_State v) key dir [] Hv)
      as (_ & _ & _ & _ & H5 & H6 & H7 & _ & H9); [rewrite Hd; by get_eval..|done| |].
    { unfold dir. repeat case_decide; auto. }
    rewrite H5, H6, H7, H9. split_and!; try done. unfold dir.
    destruct (decide (v_Sort v = key)), (decide (v_Dir v = bs "desc")); split; done || by intros [? ?].
  - pose (state := if v_FailedOnly v then [] else bs "FAILED").
    unfold toggled, follow, failedHref. rewrite requested_page by apply query_ok_failed.
    destruct (request_of_view now' v (failedValues v) state (v_Sort v) (v_Dir v) [] Hv)
      as (_ & _ & H3 & _ & _ & H6 & H7 & H8 & H9);
      [unfold failedValues, state; destruct (v_FailedOnly v); by get_eval..|done|done|].
    rewrite H3, H6, H7, H8, H9. split_and!; try done. unfold state. by destruct (v_FailedOnly v).
Qed.

(** The dashboard shows page [p] of the listing, a hundred rows to the page;
    it offers the previous page from the second on, and the next one while
    there are rows left and the last page it serves is not reached. *)
Theorem dashboard_page {W} `{Reader W} (steady : W -> Prop) now q rows (w : W) :
  store_lists steady (buildQueryFilter now q) rows -> steady w ->
  let v := snd (handleDashboard now q w) in
  let first := (v_Page v - 1) * uiLimit in
  v_Rows v = slice_to (slice_from rows first) uiLimit /\ v_Count v = len (v_Rows v)
  /\ v_HasPrev v = (1 <? v_Page v)
  /\ v_HasNext v = (first + uiLimit <? len rows) && (v_Page v <? maxUIPages)
  /\ v_Error v = [] /\ v_Page v = v_Page (fst (buildListView now q)).
Proof.
  intros Hl Hw. unfold handleDashboard. destruct (buildListView now q) as [v g] eqn:Ev.
  apply build_view_page in Ev as (-> & Hp & He). unfold populateRows.
  destruct (list_and_trim steady _ rows uiLimit ((v_Page v - 1) * uiLimit) w Hl Hw) as (w' & _ & ->); [done|].
  cbn [snd fst v_Rows v_Count v_HasPrev v_HasNext v_Error v_Page]. split_and!; try done. f_equal.
  destruct (Z.ltb_spec uiLimit (len (slice_from rows ((v_Page v - 1) * uiLimit)))),
    (Z.ltb_spec ((v_Page v - 1) * uiLimit + uiLimit) (len rows)); try done; unfold uiLimit in *; llia.
Qed.

(** The answer for one query: 404 exactly when the store has no such row, 500
    exactly when the store failed, and otherwise the row itself, without inputs
    when none were stored. *)
Theorem query_answer {W} `{Reader W} unmarshal_inputs id (w : W) :
  match snd (GetQuery id w), snd (handleAPIGetQuery unmarshal_inputs id w) with
  | (_, Some _), WriteError status _ => status = 500
  | (None, None), WriteError status msg => status = 404 /\ msg = bs "query not found: " ++ id
  | (Some r, None), WriteJSON status v =>
      status = 200 /\ qr_Row v = r /\ (InputsJSON r = [] -> qr_Inputs v = [])
  | _, _ => False
  end
  /\ fst (handleAPIGetQuery unmarshal_inputs id w) = fst (GetQuery id w).
Proof.
  unfold handleAPIGetQuery. destruct (GetQuery id w) as [w' [[r|] [e|]]]; cbn [fst snd]; split; try done.
  split_and!; try done. intros ->. done.
Qed.

(** ** A concrete store *)

Definition listing_store (rows : list QuerySummary) : Reader unit := {|
  ListQueries f w := (w, (slice_to (slice_from rows (Offset f)) (pageLimit f), None));
  GetQuery _ w := (w, (None, None))
|}.

Lemma listing_store_lists rows f : store_lists (H := listing_store rows) (fun _ => True) f rows.
Proof. intros limit offset w. by exists w. Qed.

Definition demo_summary (id : string) : QuerySummary :=
  mkSummary (bs id) 0 None [] [] [] [] [] [] 0 0 0 0 0 0 [].
Definition demo_summaries : list QuerySummary := demo_summary <$> ["a"; "b"; "c"; "d"; "e"]%string.
Definition two_per_page : Values := Set_ (bs "limit") (bs "2") ∅.

Lemma api_walk_complete_witness :
  walk (H := listing_store demo_summaries) 6 (fun _ => 0) two_per_page 0 () = demo_summaries.
Proof.
  apply (api_walk_complete (H := listing_store demo_summaries) (fun _ => True) (fun _ => 0) two_per_page demo_summaries () 6).
  - intros i _. apply listing_store_lists.
  - exact I.
  - vm_compute. discriminate.
  - simpl. lia.
Defined.

Definition many_summaries : list QuerySummary := replicate (Z.to_nat 100600) (demo_summary "a").

Lemma api_walk_stalls_witness :
  walk (H := listing_store many_summaries) 2 (fun i => Z.of_nat i) two_per_page 100002 ()
  = mjoin (replicate 2 (slice_to (slice_from many_summaries apiMaxOffset) (clampLimit (bs "2")))).
Proof.
  apply (api_walk_stalls (H := listing_store many_summaries) (fun _ => True) (fun i => Z.of_nat i) two_per_page many_summaries () 2 100002).
  - intros i _. apply listing_store_lists.
  - exact I.
  - unfold many_summaries, len. rewrite length_replicate, Z2Nat.id by done. reflexivity.
  - vm_compute. split; [discriminate|reflexivity].
Defined.

Lemma links_lead_to_witness :
  let v := fst (buildListView 0 two_per_page) in
  nextHref v = bs "/?dir=desc&page=2&range=24h&sort=start" /\ v_Page (follow 5 (nextHref v)) = 2.
Proof. split; [by vm_compute|]. apply (links_lead_to 0 5 two_per_page (bs "cpu")); vm_compute; done. Defined.

Lemma dashboard_page_witness :
  let v := snd (handleDashboard (H := listing_store demo_summaries) 0 two_per_page ()) in
  v_Rows v = slice_to (slice_from demo_summaries ((v_Page v - 1) * uiLimit)) uiLimit /\ v_Rows v = demo_summaries.
Proof.
  split; [|reflexivity].
  apply (dashboard_page (H := listing_store demo_summaries) (fun _ => True) 0 two_per_page demo_summaries ()), I.
  apply listing_store_lists.
Defined.
