(* ===== verification/Cache.v ===== *)
(** * Cache: [internal/store/cache.go]

    The read-through cache in front of a store's reads.  The cache backend (the
    [Cache] interface, over Redis) is a record of operations on an abstract
    state, a call that times out being one that fails; the JSON forms of the
    cached values and [%q] are parameters. *)

From S2P Require Import Prelude Errors GoTime Row Query Metrics Sha256.

Definition cacheSchemaVersion : Z := 2.
Definition cacheKeyPrefix : gostring := bs "qls".

(** The outcomes of [Cache.Get]: the bytes, [ErrMiss], or any other error. *)
Inductive cache_result := Hit (b : gostring) | Miss | Unavailable (err : gerror).

Record Cache (C : Type) := mkCache {
  cache_Get : gostring -> C -> C * cache_result;
  cache_Set : gostring -> gostring -> Duration -> C -> C * option gerror
}.
Arguments mkCache {C}.
Arguments cache_Get {C}.
Arguments cache_Set {C}.

Record cachedStore := mkCachedStore { listTTL : Duration; queryTTL : Duration }.

Section keys.
Context (quote : gostring -> gostring).

Definition bar : gostring := bs "|".
Definition format_bool (b : bool) : gostring := if b then bs "true" else bs "false".

(** [t.Unix()]. *)
Definition Unix (t : time) : Z := t / Second.

(** What [listKey] hashes. *)
Definition canonical (s : cachedStore) (f : QueryFilter) : gostring :=
  let width := Sub (Until f) (Since f) in
  let bUntil := Truncate (Until f) (listTTL s) in
  let bSince := bUntil + wrap64 (- width) in
  itoa (Unix bSince) ++ bar ++ itoa (Unix bUntil) ++ bar ++ quote (User f) ++ bar ++ quote (FilterCatalog f) ++ bar
  ++ quote (State f) ++ bar ++ Sort f ++ bar ++ format_bool (Desc f) ++ bar ++ itoa (Limit f) ++ bar ++ itoa (Offset f).

Definition key_head : gostring := cacheKeyPrefix ++ bs ":v" ++ itoa cacheSchemaVersion ++ bs ":".

Definition listKey (s : cachedStore) (f : QueryFilter) : gostring :=
  key_head ++ bs "list:" ++ hex_string (sha256 (canonical s f)).

Definition queryKey (queryID : gostring) : gostring := key_head ++ bs "query:" ++ queryID.
End keys.

(** The store behind the cache, the cache, and the observer. *)
Record cached (W C : Type) := mkCached { c_inner : W; c_cache : C; c_obs : Metrics }.
Arguments mkCached {W C}.
Arguments c_inner {W C}.
Arguments c_cache {W C}.
Arguments c_obs {W C}.

Section store.
Context {W C : Type} `{Reader W} (cache : Cache C) (s : cachedStore) (quote : gostring -> gostring).
Context (enc_list : list QuerySummary -> option gostring) (dec_list : gostring -> option (list QuerySummary)).
Context (enc_row : Row -> option gostring) (dec_row : gostring -> option Row).

Definition getCached {A} (dec : gostring -> option A) (key : gostring) (w : cached W C) : cached W C * option A :=
  match cache_Get cache key (c_cache w) with
  | (c, Miss) => (mkCached (c_inner w) c (CacheMiss (c_obs w)), None)
  | (c, Unavailable _) => (mkCached (c_inner w) c (CacheError (c_obs w)), None)
  | (c, Hit b) =>
      match dec b with
      | None => (mkCached (c_inner w) c (CacheError (c_obs w)), None)
      | Some v => (mkCached (c_inner w) c (CacheHit (c_obs w)), Some v)
      end
  end.

Definition setCached {A} (enc : A -> option gostring) (key : gostring) (val : A) (ttl : Duration) (w : cached W C)
    : cached W C :=
  match enc val with
  | None => w
  | Some b =>
      match cache_Set cache key b ttl (c_cache w) with
      | (c, Some _) => mkCached (c_inner w) c (CacheError (c_obs w))
      | (c, None) => mkCached (c_inner w) c (c_obs w)
      end
  end.

Definition cached_ListQueries (f : QueryFilter) (w : cached W C)
    : cached W C * (list QuerySummary * option gerror) :=
  let key := listKey quote s f in
  match getCached dec_list key w with
  | (w, Some out) => (w, (out, None))
  | (w, None) =>
      match ListQueries f (c_inner w) with
      | (i, (_, Some err)) => (mkCached i (c_cache w) (c_obs w), ([], Some err))
      | (i, (rows, None)) => (setCached enc_list key rows (listTTL s) (mkCached i (c_cache w) (c_obs w)), (rows, None))
      end
  end.

Definition cached_GetQuery (queryID : gostring) (w : cached W C) : cached W C * (option Row * option gerror) :=
  let key := queryKey queryID in
  match getCached dec_row key w with
  | (w, Some row) => (w, (Some row, None))
  | (w, None) =>
      match GetQuery queryID (c_inner w) with
      | (i, (_, Some err)) => (mkCached i (c_cache w) (c_obs w), (None, Some err))
      | (i, (Some got, None)) =>
          (setCached enc_row key got (queryTTL s) (mkCached i (c_cache w) (c_obs w)), (Some got, None))
      | (i, (None, None)) => (mkCached i (c_cache w) (c_obs w), (None, None))
      end
  end.

(** [NewCached]: the cached store is a store to read from. *)
Definition NewCached : Reader (cached W C) := {| ListQueries := cached_ListQueries; GetQuery := cached_GetQuery |}.
End store.
