(* ===== verification/CacheTheorems.v ===== *)
(** * CacheTheorems: what the cached reads promise

    One call on every outcome of the cache, the age of what it answers with, and
    which requests share a list entry. *)

From S2P Require Import Prelude Errors GoTime Row Query Metrics Sha256 Cache.

(** ** Keys *)

Lemma split_first (c : byte) a b x y : c ∉ a -> c ∉ b -> a ++ c :: x = b ++ c :: y -> a = b /\ x = y.
Proof.
  revert b. induction a as [|h a IH]; intros [|k b] Ha Hb; cbn.
  - by intros [= ->].
  - intros [= -> _]. destruct Hb. by left.
  - intros [= <- _]. destruct Ha. by left.
  - intros [= -> E]. apply not_elem_of_cons in Ha as [_ Ha]. apply not_elem_of_cons in Hb as [_ Hb].
    by apply IH in E as [-> ->].
Qed.

Lemma split_last (c : byte) a b x y : c ∉ x -> c ∉ y -> a ++ c :: x = b ++ c :: y -> a = b /\ x = y.
Proof.
  intros Hx Hy E. apply (f_equal reverse) in E. rewrite !reverse_app, !reverse_cons, <- !app_assoc in E.
  cbn [app] in E. apply split_first in E as [E1 E2]; [|by rewrite elem_of_reverse..].
  split; by apply (inj reverse).
Qed.

Lemma itoa_no_bar n : x7c ∉ itoa n.
Proof.
  assert (H : forall z, 0 <= z -> x7c ∉ udec z).
  { intros z Hz Hin. pose proof (udec_digits z Hz) as Hd. rewrite forallb_forall in Hd.
    apply list_elem_of_In in Hin. specialize (Hd _ Hin). discriminate Hd. }
  unfold itoa. destruct (Z.ltb_spec n 0); [|by apply H]. rewrite not_elem_of_cons. split; [done|apply H; lia].
Qed.

Lemma itoa_inj a b : itoa a = itoa b -> a = b.
Proof.
  assert (Hs : forall z, 0 <= z -> forall t, udec z = x2d :: t -> False).
  { intros z Hz t E. pose proof (udec_digits z Hz) as Hd. rewrite E in Hd. discriminate Hd. }
  unfold itoa. destruct (Z.ltb_spec a 0), (Z.ltb_spec b 0); intros E.
  - injection E as E. apply udec_inj in E; lia.
  - symmetry in E. by apply Hs in E.
  - by apply Hs in E.
  - by apply udec_inj in E.
Qed.

Section keys.
Context (quote : gostring -> gostring).
(** A quoted text ends where its closing quote is: [%q] can be read back. *)
Context (quote_reads_back : forall a b x y, quote a ++ x = quote b ++ y -> a = b /\ x = y).

Definition bucket (s : cachedStore) (f : QueryFilter) : time := Truncate (Until f) (listTTL s).

Lemma canonical_inj s f g :
  canonical quote s f = canonical quote s g ->
  User f = User g /\ FilterCatalog f = FilterCatalog g /\ State f = State g /\ Sort f = Sort g /\ Desc f = Desc g
  /\ Limit f = Limit g /\ Offset f = Offset g /\ Unix (bucket s f) = Unix (bucket s g)
  /\ Unix (bucket s f + wrap64 (- Sub (Until f) (Since f))) = Unix (bucket s g + wrap64 (- Sub (Until g) (Since g))).
Proof using quote_reads_back.
  unfold canonical, bucket. change (bar ++ ?l) with (x7c :: l). intros E.
  apply split_first in E as [E1 E]; [|apply itoa_no_bar..]. apply itoa_inj in E1.
  apply split_first in E as [E2 E]; [|apply itoa_no_bar..]. apply itoa_inj in E2.
  apply quote_reads_back in E as [E3 E]. change (bar ++ ?l) with (x7c :: l) in E. injection E as E.
  apply quote_reads_back in E as [E4 E]. change (bar ++ ?l) with (x7c :: l) in E. injection E as E.
  apply quote_reads_back in E as [E5 E]. change (bar ++ ?l) with (x7c :: l) in E. injection E as E.
  assert (E' : ((Sort f ++ x7c :: format_bool (Desc f)) ++ x7c :: itoa (Limit f)) ++ x7c :: itoa (Offset f)
             = ((Sort g ++ x7c :: format_bool (Desc g)) ++ x7c :: itoa (Limit g)) ++ x7c :: itoa (Offset g))
    by (rewrite <- !app_assoc; cbn [app]; rewrite <- ?app_assoc; exact E).
  apply split_last in E' as [E' Ho%itoa_inj]; [|apply itoa_no_bar..].
  apply split_last in E' as [E' Hl%itoa_inj]; [|apply itoa_no_bar..].
  assert (Hbar : forall b, x7c ∉ format_bool b)
    by (intros []; apply (bool_decide_unpack (_ ∉ _)); vm_compute; exact I).
  apply split_last in E' as [Hs Hd]; [|apply Hbar..].
  split_and!; try done. by destruct (Desc f), (Desc g).
Qed.

Lemma queryKey_inj a b : queryKey a = queryKey b -> a = b.
Proof. unfold queryKey. intros H. by do 2 apply app_inv_head in H. Qed.

Lemma queryKey_listKey s id f : queryKey id <> listKey quote s f.
Proof. unfold queryKey, listKey. intros H. apply app_inv_head in H. discriminate H. Qed.

Lemma unix_close a b : Unix a = Unix b -> Z.abs (a - b) < Second.
Proof.
  unfold Unix. intros E. pose proof (Z.div_mod a Second ltac:(done)). pose proof (Z.div_mod b Second ltac:(done)).
  pose proof (Z.mod_pos_bound a Second eq_refl). pose proof (Z.mod_pos_bound b Second eq_refl). rewrite E in *. lia.
Qed.

Lemma bucket_bound s f : 0 < listTTL s -> bucket s f <= Until f < bucket s f + listTTL s.
Proof.
  intros Hp. unfold bucket, Truncate. destruct (Z.leb_spec (listTTL s) 0); [lia|].
  pose proof (Z.mod_pos_bound (Until f - zero_time) (listTTL s) Hp). lia.
Qed.

(** C17. Requests that share a list entry ask for the same thing: equal filters,
    order and page, windows that end less than a TTL (and a second) apart and
    are equally long up to two seconds, unless SHA-256 collides on their
    canonical texts. *)
Theorem list_key_identifies s f g :
  0 < listTTL s -> 0 <= Until f - Since f < 2 ^ 62 -> 0 <= Until g - Since g < 2 ^ 62 ->
  listKey quote s f = listKey quote s g ->
  (User f = User g /\ FilterCatalog f = FilterCatalog g /\ State f = State g /\ Sort f = Sort g
   /\ Desc f = Desc g /\ Limit f = Limit g /\ Offset f = Offset g
   /\ Z.abs (Until f - Until g) < listTTL s + Second
   /\ Z.abs ((Until f - Since f) - (Until g - Since g)) < 2 * Second)
  \/ canonical quote s f <> canonical quote s g /\ sha256 (canonical quote s f) = sha256 (canonical quote s g).
Proof using quote_reads_back.
  intros Ht Hf Hg E. unfold listKey in E. do 2 apply app_inv_head in E. apply hex_string_inj in E.
  destruct (decide (canonical quote s f = canonical quote s g)) as [Ec|Ec]; [left|by right].
  apply canonical_inj in Ec as (H1 & H2 & H3 & H4 & H5 & H6 & H7 & H8%unix_close & H9%unix_close).
  pose proof (bucket_bound s f Ht). pose proof (bucket_bound s g Ht).
  assert (Hw : forall h, 0 <= Until h - Since h < 2 ^ 62 ->
            wrap64 (- Sub (Until h) (Since h)) = - (Until h - Since h)).
  { intros h Hh. unfold Sub, max_int64, min_int64. rewrite wrap64_id by (unfold int64; lia). lia. }
  rewrite !Hw in H9 by done. split_and!; try done; lia.
Qed.
End keys.

(** ** One call *)

Section store.
Context {W C : Type} `{Reader W} (cache : Cache C) (s : cachedStore) (quote : gostring -> gostring).
Context (enc_list : list QuerySummary -> option gostring) (dec_list : gostring -> option (list QuerySummary)).
Context (enc_row : Row -> option gostring) (dec_row : gostring -> option Row).
#[local] Abbreviation cachedList := (cached_ListQueries cache s quote enc_list dec_list).
#[local] Abbreviation cachedGet := (cached_GetQuery cache s enc_row dec_row).

(** C18. Reads never break on the cache: an answer is either what the cache held
    under the key, decoded, with the store not asked at all and one hit counted,
    or exactly the store's own answer, errors included, whatever the cache
    replied and whether or not it could be filled. *)
Theorem cache_fails_open f id (w : cached W C) :
  ((exists c b v, cache_Get cache (listKey quote s f) (c_cache w) = (c, Hit b) /\ dec_list b = Some v
      /\ cachedList f w = (mkCached (c_inner w) c (CacheHit (c_obs w)), (v, None)))
   \/ (c_inner (fst (cachedList f w)) = fst (ListQueries f (c_inner w))
       /\ snd (snd (cachedList f w)) = snd (snd (ListQueries f (c_inner w)))
       /\ (snd (snd (ListQueries f (c_inner w))) = None -> snd (cachedList f w) = snd (ListQueries f (c_inner w)))
       /\ cacheHits (c_obs (fst (cachedList f w))) = cacheHits (c_obs w)))
  /\ ((exists c b r, cache_Get cache (queryKey id) (c_cache w) = (c, Hit b) /\ dec_row b = Some r
         /\ cachedGet id w = (mkCached (c_inner w) c (CacheHit (c_obs w)), (Some r, None)))
      \/ (c_inner (fst (cachedGet id w)) = fst (GetQuery id (c_inner w))
          /\ snd (snd (cachedGet id w)) = snd (snd (GetQuery id (c_inner w)))
          /\ (snd (snd (GetQuery id (c_inner w))) = None -> snd (cachedGet id w) = snd (GetQuery id (c_inner w)))
          /\ cacheHits (c_obs (fst (cachedGet id w))) = cacheHits (c_obs w))).
Proof.
  split.
  - unfold cached_ListQueries, getCached. destruct (cache_Get _ _ _) as [c [b| |e]] eqn:Ec; [destruct (dec_list b) as [v|] eqn:Ed|..].
    { left. by exists c, b, v. }
    all: right; cbn [c_inner c_cache c_obs]; destruct (ListQueries f (c_inner w)) as [i [rows [err|]]]; cbn; try done.
    all: unfold setCached; destruct (enc_list rows); [|done]; destruct (cache_Set _ _ _ _ _) as [c' [e'|]]; done.
  - unfold cached_GetQuery, getCached. destruct (cache_Get _ _ _) as [c [b| |e]] eqn:Ec; [destruct (dec_row b) as [v|] eqn:Ed|..].
    { left. by exists c, b, v. }
    all: right; cbn [c_inner c_cache c_obs]; destruct (GetQuery id (c_inner w)) as [i [[r|] [err|]]]; cbn; try done.
    all: unfold setCached; destruct (enc_row r); [|done]; destruct (cache_Set _ _ _ _ _) as [c' [e'|]]; done.
Qed.

(** ** Runs *)

(** The entries of the cache, with their expiry, and its clock: a hit is an entry
    that has not expired, a [Set] adds at most its own entry, and entries only
    go away otherwise. *)
Record cache_laws (entries : C -> list (gostring * gostring * time)) (clock : C -> time) : Prop := {
  cl_get : forall k c c' r, cache_Get cache k c = (c', r) ->
    clock c <= clock c' /\ entries c' ⊆ entries c
    /\ forall b, r = Hit b -> exists exp, (k, b, exp) ∈ entries c /\ clock c' < exp;
  cl_set : forall k b ttl c c' e, cache_Set cache k b ttl c = (c', e) ->
    clock c <= clock c' /\ entries c' ⊆ (k, b, clock c' + ttl) :: entries c;
}.

Context (entries : C -> list (gostring * gostring * time)) (clock : C -> time).
Context (laws : cache_laws entries clock).
(** Decoding gives back what was encoded, in the form JSON can carry. *)
Context (norm_list : list QuerySummary -> list QuerySummary) (norm_row : Row -> Row).
Context (list_roundtrip : forall l b, enc_list l = Some b -> dec_list b = Some (norm_list l)).
Context (row_roundtrip : forall r b, enc_row r = Some b -> dec_row b = Some (norm_row r)).

(** An answer the store gave, and when the cache was done with it. *)
Inductive reading := ListAnswer (f : QueryFilter) (rows : list QuerySummary) | RowAnswer (id : gostring) (r : Row).

Definition list_log (f : QueryFilter) (w : cached W C) : list (time * reading) :=
  match snd (getCached cache dec_list (listKey quote s f) w), snd (ListQueries f (c_inner w)) with
  | None, (rows, None) => [(clock (c_cache (fst (cachedList f w))), ListAnswer f rows)]
  | _, _ => []
  end.
Definition get_log (id : gostring) (w : cached W C) : list (time * reading) :=
  match snd (getCached cache dec_row (queryKey id) w), snd (GetQuery id (c_inner w)) with
  | None, (Some r, None) => [(clock (c_cache (fst (cachedGet id w))), RowAnswer id r)]
  | _, _ => []
  end.

(** Reads, in any order, between which the store and the clock move on and the
    cache forgets. *)
Inductive cached_run : cached W C -> list (time * reading) -> Prop :=
| run_new w : entries (c_cache w) = [] -> cached_run w []
| run_list f w log : cached_run w log -> cached_run (fst (cachedList f w)) (list_log f w ++ log)
| run_get id w log : cached_run w log -> cached_run (fst (cachedGet id w)) (get_log id w ++ log)
| run_env w w' log :
    cached_run w log -> clock (c_cache w) <= clock (c_cache w') -> entries (c_cache w') ⊆ entries (c_cache w) ->
    cached_run w' log.

(** Every entry was read from the store, under its key, and expires a TTL after
    it was stored. *)
Definition backed (log : list (time * reading)) (e : gostring * gostring * time) : Prop :=
  let '(k, b, exp) := e in
  exists t, (exists f rows, (t, ListAnswer f rows) ∈ log /\ k = listKey quote s f /\ enc_list rows = Some b
              /\ exp = t + listTTL s)
       \/ (exists id r, (t, RowAnswer id r) ∈ log /\ k = queryKey id /\ enc_row r = Some b /\ exp = t + queryTTL s).

Lemma backed_mono log log' e : log ⊆ log' -> backed log e -> backed log' e.
Proof.
  intros Hsub. destruct e as [[k b] exp]. intros [t [(f & rows & Hin & ?)|(id & r & Hin & ?)]]; exists t; [left|right].
  - exists f, rows. split; [by apply Hsub|done].
  - exists id, r. split; [by apply Hsub|done].
Qed.

Lemma getCached_entries {A} (dec : gostring -> option A) k (w : cached W C) :
  let w' := fst (getCached cache dec k w) in
  clock (c_cache w) <= clock (c_cache w') /\ entries (c_cache w') ⊆ entries (c_cache w) /\ c_inner w' = c_inner w
  /\ forall v, snd (getCached cache dec k w) = Some v ->
       exists b exp, (k, b, exp) ∈ entries (c_cache w) /\ clock (c_cache w') < exp /\ dec b = Some v.
Proof using laws.
  unfold getCached. destruct (cache_Get cache k (c_cache w)) as [c r] eqn:E.
  apply (cl_get _ _ laws) in E as (Hc & He & Hh). destruct r as [b| |err]; [|by split_and!..].
  destruct (Hh b eq_refl) as (exp & Hin & Hexp). destruct (dec b) eqn:Ed; split_and!; try done.
  cbn. intros v [= <-]. by exists b, exp.
Qed.

Lemma setCached_entries {A} (enc : A -> option gostring) k v ttl (w : cached W C) :
  let w' := setCached cache enc k v ttl w in
  clock (c_cache w) <= clock (c_cache w')
  /\ (entries (c_cache w') ⊆ entries (c_cache w)
      \/ exists b, enc v = Some b
           /\ entries (c_cache w') ⊆ (k, b, clock (c_cache w') + ttl) :: entries (c_cache w)).
Proof using laws.
  unfold setCached. destruct (enc v) as [b|]; [|split; [lia|by left]].
  destruct (cache_Set cache k b ttl (c_cache w)) as [c e] eqn:E. apply (cl_set _ _ laws) in E as [Hc He].
  destruct e; (split; [done|right; by exists b]).
Qed.

Lemma run_backed w log : cached_run w log -> forall e, e ∈ entries (c_cache w) -> backed log e.
Proof using laws.
  induction 1 as [w He|f w log _ IH|id w log _ IH|w w' log _ IH Hc He]; intros e Hin.
  - rewrite He in Hin. by apply elem_of_nil in Hin.
  - unfold list_log. unfold cached_ListQueries in *.
    pose proof (getCached_entries dec_list (listKey quote s f) w) as (_ & Hg & Hi & _).
    destruct (getCached cache dec_list (listKey quote s f) w) as [w1 [v|]]; cbn [fst snd] in *; [by apply IH, Hg|].
    rewrite <- Hi. destruct (ListQueries f (c_inner w1)) as [i [rows [err|]]]; cbn [fst snd] in *; [by apply IH, Hg|].
    destruct (setCached_entries enc_list (listKey quote s f) rows (listTTL s) (mkCached i (c_cache w1) (c_obs w1)))
      as [_ [Hs|(b & Hb & Hs)]].
    + eapply backed_mono; [|by apply IH, Hg, Hs]. intros x Hx. by right.
    + apply Hs in Hin. apply elem_of_cons in Hin as [->|Hin].
      * eexists. left. exists f, rows. split_and!; [by left|done..].
      * eapply backed_mono; [|by apply IH, Hg]. intros x Hx. by right.
  - unfold get_log. unfold cached_GetQuery in *.
    pose proof (getCached_entries dec_row (queryKey id) w) as (_ & Hg & Hi & _).
    destruct (getCached cache dec_row (queryKey id) w) as [w1 [v|]]; cbn [fst snd] in *; [by apply IH, Hg|].
    rewrite <- Hi. destruct (GetQuery id (c_inner w1)) as [i [[r|] [err|]]]; cbn [fst snd] in *; try (by apply IH, Hg).
    destruct (setCached_entries enc_row (queryKey id) r (queryTTL s) (mkCached i (c_cache w1) (c_obs w1)))
      as [_ [Hs|(b & Hb & Hs)]].
    + eapply backed_mono; [|by apply IH, Hg, Hs]. intros x Hx. by right.
    + apply Hs in Hin. apply elem_of_cons in Hin as [->|Hin].
      * eexists. right. exists id, r. split_and!; [by left|done..].
      * eapply backed_mono; [|by apply IH, Hg]. intros x Hx. by right.
  - by apply IH, He.
Qed.

(** C16. The cache answers with nothing older than its TTL: an answer is the
    store's own of this moment, or one it gave to a request with the same key,
    as JSON carried it, less than a TTL after it was stored; a query is answered
    with an earlier answer for that very id. *)
Theorem cached_answers_are_fresh w log f id :
  cached_run w log ->
  (forall rows, snd (cachedList f w) = (rows, None) ->
     snd (ListQueries f (c_inner w)) = (rows, None)
     \/ exists t g rows0, (t, ListAnswer g rows0) ∈ log /\ listKey quote s g = listKey quote s f
          /\ rows = norm_list rows0 /\ clock (c_cache (fst (cachedList f w))) < t + listTTL s)
  /\ (forall r, snd (cachedGet id w) = (Some r, None) ->
       snd (GetQuery id (c_inner w)) = (Some r, None)
       \/ exists t r0, (t, RowAnswer id r0) ∈ log /\ r = norm_row r0
            /\ clock (c_cache (fst (cachedGet id w))) < t + queryTTL s).
Proof using laws list_roundtrip row_roundtrip.
  intros Hrun. pose proof (run_backed w log Hrun) as Hb. split.
  - intros rows. unfold cached_ListQueries. pose proof (getCached_entries dec_list (listKey quote s f) w) as (_ & _ & Hi & Hh).
    destruct (getCached cache dec_list (listKey quote s f) w) as [w1 [v|]]; cbn [fst snd] in *.
    + intros [= ->]. right. destruct (Hh rows eq_refl) as (b & exp & Hin & Hexp & Hd).
      apply Hb in Hin as [t [(g & rows0 & Hin & Hk & He & ->)|(id' & r & _ & Hk & _)]].
      * exists t, g, rows0. split_and!; try done. apply list_roundtrip in He. congruence.
      * symmetry in Hk. by apply queryKey_listKey in Hk.
    + rewrite <- Hi. destruct (ListQueries f (c_inner w1)) as [i [rows' [err|]]]; [done|]. cbn. intros [= ->]. by left.
  - intros r. unfold cached_GetQuery. pose proof (getCached_entries dec_row (queryKey id) w) as (_ & _ & Hi & Hh).
    destruct (getCached cache dec_row (queryKey id) w) as [w1 [v|]]; cbn [fst snd] in *.
    + intros [= ->]. right. destruct (Hh r eq_refl) as (b & exp & Hin & Hexp & Hd).
      apply Hb in Hin as [t [(g & rows0 & _ & Hk & _)|(id' & r0 & Hin & Hk & He & ->)]].
      * by apply queryKey_listKey in Hk.
      * apply queryKey_inj in Hk. subst id'. exists t, r0. split_and!; try done. apply row_roundtrip in He. congruence.
    + rewrite <- Hi. destruct (GetQuery id (c_inner w1)) as [i [[r'|] [err|]]]; cbn; try done. intros [= ->]. by left.
Qed.
End store.

(** ** A concrete cache *)

(** [%q] on printable ASCII. *)
Definition demo_escape (b : byte) : gostring := if decide (b = x22 \/ b = x5c) then [x5c; b] else [b].
Definition demo_quote (s : gostring) : gostring := [x22] ++ mjoin (demo_escape <$> s) ++ [x22].

Lemma demo_escape_cases b :
  (b = x22 \/ b = x5c) /\ demo_escape b = [x5c; b] \/ (b <> x22 /\ b <> x5c) /\ demo_escape b = [b].
Proof. unfold demo_escape. case_decide; [by left|right]. split; [tauto|done]. Qed.

Lemma demo_quote_reads_back a b x y : demo_quote a ++ x = demo_quote b ++ y -> a = b /\ x = y.
Proof.
  unfold demo_quote. cbn [app]. intros [= E]. rewrite <- !app_assoc in E. cbn [app] in E. revert b E.
  induction a as [|h a IH]; intros [|k b]; rewrite ?fmap_cons, ?mjoin_cons; cbn [fmap list_fmap mjoin list_join app].
  - by intros [= ->].
  - destruct (demo_escape_cases k) as [[_ ->]|[[Hk _] ->]]; cbn [app]; intros E; [discriminate E|].
    injection E as E _. by destruct Hk.
  - destruct (demo_escape_cases h) as [[_ ->]|[[Hh _] ->]]; cbn [app]; intros E; [discriminate E|].
    injection E as E _. by destruct Hh.
  - destruct (demo_escape_cases h) as [[_ ->]|[[_ Hh] ->]], (demo_escape_cases k) as [[_ ->]|[[_ Hk] ->]];
      cbn [app]; intros E; injection E as E1 E2; try congruence;
      subst; by apply IH in E2 as [-> ->].
Qed.

Record ttl_cache := mkTtl { tc_clock : time; tc_entries : list (gostring * gostring * time) }.

Definition demo_cache : Cache ttl_cache := {|
  cache_Get k c :=
    (c, match list_find (fun e => fst (fst e) = k /\ tc_clock c < snd e) (tc_entries c) with
        | Some (_, e) => Hit (snd (fst e))
        | None => Miss
        end);
  cache_Set k b ttl c := (mkTtl (tc_clock c) ((k, b, tc_clock c + ttl) :: tc_entries c), None)
|}.

Lemma demo_cache_laws : cache_laws demo_cache tc_entries tc_clock.
Proof.
  split; cbn.
  - intros k c c' r [= <- <-]. split_and!; [lia|done|]. intros b Hb.
    destruct (list_find _ _) as [[i [[k' b'] exp]]|] eqn:E; [|done]. apply list_find_Some in E as (Hi & [Hk Hexp] & _).
    cbn in *. injection Hb as <-. subst k'. exists exp. split; [|done]. by eapply list_elem_of_lookup_2.
  - intros k b ttl c c' e [= <- _]. cbn. split; [lia|done].
Qed.

(** The values are cached by the query id alone. *)
Definition demo_enc (r : Row) : option gostring := Some (QueryID r).
Definition demo_dec (b : gostring) : option Row := Some (set_str FQueryID b zero_row).
Definition demo_norm (r : Row) : Row := set_str FQueryID (QueryID r) zero_row.
Definition demo_store : Reader (option Row) := {| ListQueries _ w := (w, ([], None)); GetQuery _ w := (w, (w, None)) |}.
Definition demo_ttls : cachedStore := mkCachedStore (10 * Minute) Hour.

Definition demo_fresh (w : cached (option Row) ttl_cache) : cached (option Row) ttl_cache * (option Row * option gerror) :=
  cached_GetQuery (H := demo_store) demo_cache demo_ttls demo_enc demo_dec (bs "q1") w.

(** The row is read at noon, dropped from the table, and asked for again. *)
Definition noon : cached (option Row) ttl_cache :=
  mkCached (Some (set_str FQueryID (bs "q1") zero_row)) (mkTtl (12 * Hour) []) NewMetrics.
Definition later (minutes : Z) : cached (option Row) ttl_cache :=
  let w := fst (demo_fresh noon) in
  mkCached None (mkTtl (12 * Hour + minutes * Minute) (tc_entries (c_cache w))) (c_obs w).

Lemma cached_answers_are_fresh_witness :
  snd (demo_fresh (later 59)) = (Some (demo_norm (set_str FQueryID (bs "q1") zero_row)), None)
  /\ snd (demo_fresh (later 60)) = (None, None)
  /\ exists t r0, 12 * Hour + 59 * Minute < t + Hour /\ set_str FQueryID (bs "q1") zero_row = demo_norm r0.
Proof.
  split; [vm_compute; reflexivity|]. split; [vm_compute; reflexivity|].
  destruct (cached_answers_are_fresh (H := demo_store) demo_cache demo_ttls demo_quote (fun _ => None) (fun _ => None) demo_enc demo_dec
    tc_entries tc_clock demo_cache_laws id demo_norm) with (w := later 59)
    (log := get_log (H := demo_store) demo_cache demo_ttls demo_enc demo_dec tc_clock (bs "q1") noon ++ []) (id := bs "q1")
    (f := mkFilter 0 0 [] [] [] [] false 0 0) as [_ Hget].
  - discriminate.
  - by intros r b [= <-].
  - apply (run_env _ _ _ _ _ _ _ _ _ (fst (demo_fresh noon))); [|vm_compute; discriminate|done].
    apply run_get, run_new. reflexivity.
  - destruct (Hget (demo_norm (set_str FQueryID (bs "q1") zero_row))) as [Hn|(t & r0 & _ & Hr & Ht)].
    + vm_compute. reflexivity.
    + discriminate Hn.
    + exists t, r0. split; [exact Ht|exact Hr].
Defined.

Lemma list_key_identifies_witness :
  let f := mkFilter 0 (Hour + Minute) (bs "alice") [] [] (bs "cpu") true 101 0 in
  let g := mkFilter Minute (Hour + 2 * Minute) (bs "alice") [] [] (bs "cpu") true 101 0 in
  listKey demo_quote demo_ttls f = listKey demo_quote demo_ttls g /\ User f = User g.
Proof.
  intros f g. split; [vm_compute; reflexivity|].
  destruct (list_key_identifies demo_quote demo_quote_reads_back demo_ttls f g) as [[Hu _]|[Hne _]].
  - reflexivity.
  - vm_compute. split; [discriminate|reflexivity].
  - vm_compute. split; [discriminate|reflexivity].
  - vm_compute. reflexivity.
  - exact Hu.
  - exfalso. apply Hne. vm_compute. reflexivity.
Defined.
