(* ===== verification/Sql.v ===== *)
(** * Sql: how the database reads the Trino store's statements

    A reader for the fragment of SQL the store writes, and what a statement of
    it means on a table of rows.  This is the specification side: the texts are
    those of [Trino], and the theorems show what they are read as. *)

From S2P Require Import Prelude Errors GoTime Row Store Query Trino.

(** ** Reading text *)

Definition parser (A : Type) : Type := gostring -> option (A * gostring).
#[export] Instance parser_ret : MRet parser := fun A a s => Some (a, s).
#[export] Instance parser_bind : MBind parser :=
  fun A B k p s => match p s with Some (a, s') => k a s' | None => None end.

Definition lit (t : string) : parser unit :=
  fun s => if has_prefix s (bs t) then Some (tt, drop (length (bs t)) s) else None.
Definition alt {A} (p q : parser A) : parser A :=
  fun s => match p s with Some r => Some r | None => q s end.

(** One or more, with a separator; the fuel is the length of the text. *)
Fixpoint sep_by {A} (fuel : nat) (sep : string) (p : parser A) (s : gostring) : option (list A * gostring) :=
  match p s with
  | None => None
  | Some (x, s1) =>
      match fuel, lit sep s1 with
      | S fuel, Some (_, s2) =>
          match sep_by fuel sep p s2 with Some (l, s3) => Some (x :: l, s3) | None => None end
      | _, _ => Some ([x], s1)
      end
  end.
Definition many {A} (sep : string) (p : parser A) : parser (list A) := fun s => sep_by (length s) sep p s.

Fixpoint digits (s : gostring) : gostring * gostring :=
  match s with
  | b :: t => if is_digit b then let '(d, rest) := digits t in (b :: d, rest) else ([], s)
  | [] => ([], [])
  end.
Definition number : parser Z :=
  fun s => match digits s with ([], _) => None | (d, rest) => Some (dec_val d, rest) end.

Definition ident : parser gostring := read_token dq.

(** ** Statements *)

Inductive item := Col (c : gostring) | Coalesce (c : gostring) (d : arg).

Record query := mkQuery {
  q_items : list item;
  q_table : list gostring;
  q_where : list (gostring * gostring);
  q_order : list (gostring * bool);
  q_offset : Z;
  q_limit : option Z
}.

Inductive statement :=
| Insert (table columns : list gostring) (groups : list nat)
| Delete (table : list gostring) (conds : list (gostring * gostring)).

Definition p_table : parser (list gostring) := many "." ident.
Definition p_item : parser item :=
  alt (_ ← lit "COALESCE("; c ← ident; _ ← lit ", ";
       d ← alt (_ ← lit "0"; mret (AInt 0)) (_ ← lit "''"; mret (AStr [])); _ ← lit ")"; mret (Coalesce c d))
      (c ← ident; mret (Col c)).
Definition p_comparison : parser gostring :=
  alt (_ ← lit "="; mret (bs "=")) (alt (_ ← lit "<"; mret (bs "<")) (_ ← lit ">="; mret (bs ">="))).
Definition p_cond : parser (gostring * gostring) :=
  c ← ident; _ ← lit " "; op ← p_comparison; _ ← lit " ?"; mret (c, op).
Definition p_where : parser (list (gostring * gostring)) :=
  alt (_ ← lit " WHERE "; many " AND " p_cond) (mret []).
Definition p_key : parser (gostring * bool) :=
  c ← ident; _ ← lit " "; d ← alt (_ ← lit "DESC"; mret true) (_ ← lit "ASC"; mret false); mret (c, d).
Definition p_order : parser (list (gostring * bool)) := alt (_ ← lit " ORDER BY "; many ", " p_key) (mret []).
Definition p_offset : parser Z := alt (_ ← lit " OFFSET "; number) (mret 0).
Definition p_limit : parser (option Z) := alt (_ ← lit " LIMIT "; n ← number; mret (Some n)) (mret None).

Definition p_query : parser query :=
  _ ← lit "SELECT "; items ← many ", " p_item; _ ← lit " FROM "; t ← p_table; conds ← p_where;
  keys ← p_order; off ← p_offset; n ← p_limit; mret (mkQuery items t conds keys off n).

Definition p_group : parser nat :=
  _ ← lit "("; l ← many "," (lit "?"); _ ← lit ")"; mret (length l).
Definition p_statement : parser statement :=
  alt (_ ← lit "INSERT INTO "; t ← p_table; _ ← lit " ("; cols ← many ", " ident; _ ← lit ") VALUES ";
       groups ← many ", " p_group; mret (Insert t cols groups))
      (_ ← lit "DELETE FROM "; t ← p_table; conds ← p_where; mret (Delete t conds)).

(** The whole text. *)
Definition read_all {A} (p : parser A) (s : gostring) : option A :=
  match p s with Some (a, []) => Some a | _ => None end.

(** ** Meaning *)

(** Placeholders take the values in order. *)
Definition with_values (conds : list (gostring * gostring)) (vals : list arg) : option (list predicate) :=
  if decide (length conds = length vals)
  then Some (zip_with (fun cond v => mkPred (fst cond) (snd cond) v) conds vals) else None.

Definition holds (preds : list predicate) (r : Row) : bool := forallb (pred_holds r) preds.

Definition item_value (r : Row) (i : item) : option arg :=
  match i with
  | Col c => column_value r c
  | Coalesce c d => (fun v => match v with ANil => d | _ => v end) <$> column_value r c
  end.

(** The order of one column, NULL last either way. *)
Definition arg_le (desc : bool) (a b : arg) : bool :=
  match a, b with
  | _, ANil => true
  | ANil, _ => false
  | AStr x, AStr y => if desc then negb (str_ltb x y) else negb (str_ltb y x)
  | AInt x, AInt y | ATime x, ATime y => if desc then y <=? x else x <=? y
  | AStr _, _ | AInt _, ATime _ => true
  | _, _ => false
  end.

(** The order of [ORDER BY], key by key. *)
Fixpoint keys_le (keys : list (gostring * bool)) (r1 r2 : Row) : bool :=
  match keys with
  | [] => true
  | (c, d) :: keys =>
      match column_value r1 c, column_value r2 c with
      | Some a, Some b => arg_le d a b && (negb (arg_le d b a) || keys_le keys r1 r2)
      | _, _ => keys_le keys r1 r2
      end
  end.

Definition page {A} (offset : Z) (limit : option Z) (l : list A) : list A :=
  let l := slice_from l offset in match limit with Some n => slice_to l n | None => l end.

(** The columns a query names exist. *)
Definition known (q : query) : bool :=
  let col c := bool_decide (is_Some (column_field c)) in
  forallb (fun i => match i with Col c | Coalesce c _ => col c end) (q_items q)
  && forallb (fun k => col (fst k)) (q_where q) && forallb (fun k => col (fst k)) (q_order q).

(** What a query may answer on a table: the page of some sorted arrangement of
    the rows that match. *)
Definition answers (q : query) (preds : list predicate) (t : list Row) (vs : list (list arg)) : Prop :=
  exists rows, rows ≡ₚ filter (fun r => holds preds r = true) t
    /\ StronglySorted (fun a b => keys_le (q_order q) a b = true) rows
    /\ mapM (fun r => mapM (item_value r) (q_items q)) (page (q_offset q) (q_limit q) rows) = Some vs.

(** Rows of the schema's columns, from the values of so many groups. *)
Fixpoint group_rows (groups : list nat) (vals : list arg) : option (list Row) :=
  match groups with
  | [] => if vals then Some [] else None
  | n :: groups =>
      r ← scan_row (take n vals);
      rows ← group_rows groups (drop n vals);
      Some (r :: rows)
  end.

(** The table after a statement, [None] for one that is not understood; [keep]
    is what the columns make of a row that is inserted. *)
Definition effect (keep : Row -> Row) (st : statement) (vals : list arg) (t : list Row) : option (list Row) :=
  match st with
  | Insert _ columns groups =>
      if decide (columns = name <$> schemaColumns) then (fun rows => t ++ (keep <$> rows)) <$> group_rows groups vals else None
  | Delete _ conds =>
      (fun preds => filter (fun r => holds preds r = false) t) <$> with_values conds vals
  end.
Definition statement_table (st : statement) : list gostring :=
  match st with Insert t _ _ | Delete t _ => t end.

(** A database whose table of that name is [table]: it carries out the
    statements of the fragment, as a whole.  One that is answered with an error
    (a timeout, a lost connection) may have been carried out too, now or when the
    server gets to it: [table] is read as holding what the statements sent so far
    come to.  [up] says that the database answers queries and that no statement
    is still running, so that a query sees that table. *)
Record sql_server {W} (exec : gostring -> list arg -> W -> W * option gerror)
    (ask : gostring -> list arg -> W -> gerror + (list (list arg) * option gerror))
    (names : list gostring) (table : W -> list Row) (keep : Row -> Row) (up : W -> Prop) : Prop := {
  ss_keep : forall r, stored_as r (keep r);
  ss_exec : forall text vals w w' st t',
    exec text vals w = (w', None) -> read_all p_statement text = Some st -> statement_table st = names ->
    effect keep st vals (table w) = Some t' -> table w' = t';
  ss_failed : forall text vals w w' err st t',
    exec text vals w = (w', Some err) -> read_all p_statement text = Some st -> statement_table st = names ->
    effect keep st vals (table w) = Some t' -> table w' = table w \/ table w' = t';
  ss_error : forall text vals w w' err, exec text vals w = (w', Some err) -> errors_As_partial err = None;
  ss_query : forall text vals w q preds,
    up w -> read_all p_query text = Some q -> q_table q = names -> known q = true ->
    with_values (q_where q) vals = Some preds ->
    exists vs, ask text vals w = inr (vs, None) /\ answers q preds (table w) vs
}.

(** ** Reading what was written *)

(** A text after which a token has ended. *)
Definition ends (rest : gostring) : Prop :=
  match rest with b :: _ => b <> dq /\ is_digit b = false | [] => True end.

Lemma lit_app t rest : lit t (bs t ++ rest) = Some (tt, rest).
Proof. unfold lit. by rewrite has_prefix_app, drop_app_length. Qed.

Lemma bind_some {A B} (p : parser A) (k : A -> parser B) s a s' : p s = Some (a, s') -> (p ≫= k) s = k a s'.
Proof. unfold mbind, parser_bind. by intros ->. Qed.

Lemma alt_some {A} (p q : parser A) s r : p s = Some r -> alt p q s = Some r.
Proof. unfold alt. by intros ->. Qed.
Lemma alt_none {A} (p q : parser A) s : p s = None -> alt p q s = q s.
Proof. unfold alt. by intros ->. Qed.

Lemma ident_app c rest : ends rest -> ident (quoteIdent c ++ rest) = Some (c, rest).
Proof. intros Hr. apply read_enquote. destruct rest as [|b rest]; [done|]. cbn. intros [= ->]. by destruct Hr. Qed.

Lemma digits_app d rest : forallb is_digit d = true -> ends rest -> digits (d ++ rest) = (d, rest).
Proof.
  intros Hd Hr. induction d as [|b d IH]; cbn [app digits].
  - destruct rest as [|b rest]; [done|]. cbn [digits]. destruct Hr as [_ Hb]. by rewrite Hb.
  - cbn [forallb] in Hd. apply andb_prop in Hd as [-> Hd]. by rewrite IH.
Qed.

Lemma number_app n rest : 0 <= n -> ends rest -> number (itoa n ++ rest) = Some (n, rest).
Proof.
  intros Hn Hr. unfold number, itoa. rewrite (proj2 (Z.ltb_ge n 0) Hn), digits_app by (done || by apply udec_digits).
  destruct (udec n) eqn:E; [by apply udec_nonempty in E|]. by rewrite <- E, dec_val_udec.
Qed.

Lemma length_join sep (l : list gostring) : sep <> [] -> (length l <= S (length (join sep l)))%nat.
Proof.
  intros Hs. induction l as [|x [|y l] IH]; [cbn; lia|cbn; lia|].
  rewrite join_cons2, !length_app. destruct sep; [done|]. cbn [length] in *. lia.
Qed.

Lemma many_app {A B} sep (p : parser A) (text : B -> gostring) (val : B -> A) l rest :
  l <> [] -> bs sep <> [] ->
  (forall b r, b ∈ l -> ends r -> p (text b ++ r) = Some (val b, r)) ->
  (forall r, ends (bs sep ++ r)) -> ends rest -> lit sep rest = None ->
  many sep p (join (bs sep) (text <$> l) ++ rest) = Some (val <$> l, rest).
Proof.
  intros Hne Hsep Hp Hs Hr Hl. unfold many.
  assert (Hfuel : (length l <= S (length (join (bs sep) (text <$> l) ++ rest)))%nat).
  { rewrite length_app. pose proof (length_join (bs sep) (text <$> l) Hsep) as H. rewrite length_fmap in H. lia. }
  revert Hfuel. generalize (length (join (bs sep) (text <$> l) ++ rest)) as fuel. revert Hne Hp.
  induction l as [|b [|c l] IH]; intros Hne Hp fuel Hf; [done|..].
  - cbn [fmap list_fmap join]. destruct fuel; cbn [sep_by]; rewrite (Hp b) by (done || by left); [done|]. by rewrite Hl.
  - rewrite !fmap_cons, join_cons2, <- !app_assoc. cbn [length] in Hf. destruct fuel as [|fuel]; [lia|].
    cbn [sep_by]. rewrite (Hp b) by (by left || apply Hs). rewrite lit_app.
    specialize (IH ltac:(done)). rewrite !fmap_cons in IH. rewrite IH; [done| |cbn [length]; lia].
    intros x r Hx. apply Hp. by right.
Qed.

Ltac apart := repeat split; (discriminate || reflexivity).
(** Reads a literal, then what is bound after it. *)
Ltac read_lit := rewrite (bind_some _ _ _ _ _ (lit_app _ _)); cbv beta.
Ltac read_ident := erewrite bind_some by (apply ident_app; apart); cbv beta.
Ltac read_by H := rewrite (bind_some _ _ _ _ _ H).

Lemma table_reads names rest :
  names <> [] -> ends rest -> lit "." rest = None -> p_table (join (bs ".") (quoteIdent <$> names) ++ rest) = Some (names, rest).
Proof.
  intros Hn Hr Hl. unfold p_table. rewrite (many_app "." ident quoteIdent id names) by (done || (intros; by apply ident_app)).
  by rewrite list_fmap_id.
Qed.

(** The item a column of the store's select lists is. *)
Definition item_of (c : column) : item :=
  if has_prefix (sqlType c) (bs "timestamp") then Col (name c)
  else if decide (sqlType c = bs "bigint") then Coalesce (name c) (AInt 0)
  else Coalesce (name c) (AStr []).

Lemma item_reads c rest : ends rest -> p_item (coalesced c (quoteIdent (name c)) ++ rest) = Some (item_of c, rest).
Proof.
  intros Hr. unfold p_item, coalesced, item_of. destruct (has_prefix _ _).
  - rewrite alt_none by reflexivity. read_by (ident_app (name c) rest Hr). done.
  - case_decide; apply alt_some; rewrite <- !app_assoc; read_lit; read_ident.
    + change (bs ", 0)" ++ rest) with (bs ", " ++ bs "0" ++ bs ")" ++ rest). read_lit. 
      rewrite (bind_some _ _ _ (AInt 0) (bs ")" ++ rest)) by (apply alt_some; by read_lit). by read_lit.
    + change (bs ", '')" ++ rest) with (bs ", " ++ bs "''" ++ bs ")" ++ rest). read_lit.
      rewrite (bind_some _ _ _ (AStr []) (bs ")" ++ rest)).
      * by read_lit.
      * rewrite alt_none by reflexivity. by read_lit.
Qed.

(** The comparisons of the store's conditions. *)
Definition comparison (p : predicate) : Prop := p_op p ∈ [bs "="; bs "<"; bs ">="].
Definition cond_of (p : predicate) : gostring * gostring := (p_column p, p_op p).

Lemma op_reads p rest : comparison p -> p_comparison (p_op p ++ bs " " ++ rest) = Some (p_op p, bs " " ++ rest).
Proof.
  intros Hop. unfold p_comparison. unfold comparison in Hop. rewrite !elem_of_cons in Hop. destruct Hop as [->|[->|[->|[]%elem_of_nil]]].
  - apply alt_some. by read_lit.
  - rewrite alt_none by reflexivity. apply alt_some. by read_lit.
  - rewrite alt_none, alt_none by reflexivity. by read_lit.
Qed.

Lemma cond_reads p rest :
  comparison p -> p_cond ((quoteIdent (p_column p) ++ bs " " ++ p_op p ++ bs " ?") ++ rest) = Some (cond_of p, rest).
Proof.
  intros Hop. unfold p_cond, cond_of. rewrite <- !app_assoc. read_ident. read_lit.
  change (bs " ?" ++ rest) with (bs " " ++ bs "?" ++ rest). read_by (op_reads p (bs "?" ++ rest) Hop).
  change (bs " " ++ bs "?" ++ rest) with (bs " ?" ++ rest). by read_lit.
Qed.

Lemma where_reads preds rest :
  Forall comparison preds -> ends rest -> lit " WHERE " rest = None -> lit " AND " rest = None ->
  p_where (fst (trinoWhere preds) ++ rest) = Some (cond_of <$> preds, rest).
Proof.
  intros Hp Hr H1 H2. unfold p_where, trinoWhere. destruct preds as [|p preds].
  - cbn [fst app]. rewrite alt_none; [done|]. unfold mbind, parser_bind. by rewrite H1.
  - cbn [fst]. apply alt_some. rewrite <- app_assoc. read_lit. set (l := p :: preds) in *.
    apply (many_app " AND " p_cond (fun p => quoteIdent (p_column p) ++ bs " " ++ p_op p ++ bs " ?")); try done.
    intros b r Hb _. apply cond_reads. by eapply Forall_forall in Hp.
Qed.

Definition key_text (k : gostring * bool) : gostring :=
  quoteIdent (fst k) ++ bs " " ++ (if snd k then bs "DESC" else bs "ASC").
Definition order_text (keys : list (gostring * bool)) : gostring :=
  match keys with [] => [] | _ => bs " ORDER BY " ++ join (bs ", ") (key_text <$> keys) end.

Lemma key_reads k rest : p_key (key_text k ++ rest) = Some (k, rest).
Proof.
  destruct k as [c d]. unfold p_key, key_text. cbn [fst snd]. rewrite <- !app_assoc.
  read_ident. read_lit.
  rewrite (bind_some _ _ _ d rest); [done|]. destruct d.
  - apply alt_some. by read_lit.
  - rewrite alt_none by reflexivity. by read_lit.
Qed.

Lemma order_reads keys rest :
  ends rest -> lit " ORDER BY " rest = None -> lit ", " rest = None ->
  p_order (order_text keys ++ rest) = Some (keys, rest).
Proof.
  intros Hr H1 H2. unfold p_order, order_text. destruct keys as [|k keys].
  - cbn [app]. rewrite alt_none; [done|]. unfold mbind, parser_bind. by rewrite H1.
  - apply alt_some. rewrite <- app_assoc. read_lit. rewrite <- (list_fmap_id (k :: keys)) at 2.
    apply (many_app ", " p_key key_text id); try done. intros b r _ _. apply key_reads.
Qed.

Definition offset_text (n : Z) : gostring := if 0 <? n then bs " OFFSET " ++ itoa n else [].
Lemma offset_reads n rest :
  ends rest -> lit " OFFSET " rest = None -> p_offset (offset_text n ++ rest) = Some (Z.max 0 n, rest).
Proof.
  intros Hr H1. unfold p_offset, offset_text. destruct (Z.ltb_spec 0 n).
  - apply alt_some. rewrite <- app_assoc. read_lit. rewrite number_app by (done || lia). do 2 f_equal. lia.
  - cbn [app]. rewrite alt_none by (unfold mbind, parser_bind; by rewrite H1). unfold mret, parser_ret. do 2 f_equal. lia.
Qed.

(** A query, clause by clause. *)
Lemma query_reads items names preds keys off n :
  items <> [] -> names <> [] -> Forall comparison preds -> 0 <= n ->
  read_all p_query
    (bs "SELECT " ++ join (bs ", ") ((fun c => coalesced c (quoteIdent (name c))) <$> items)
     ++ bs " FROM " ++ join (bs ".") (quoteIdent <$> names) ++ fst (trinoWhere preds) ++ order_text keys
     ++ offset_text off ++ bs " LIMIT " ++ itoa n)
  = Some (mkQuery (item_of <$> items) names (cond_of <$> preds) keys (Z.max 0 off) (Some n)).
Proof.
  intros Hi Hn Hp H0. unfold read_all, p_query. read_lit.
  set (l4 := bs " LIMIT " ++ itoa n). set (l3 := offset_text off ++ l4). set (l2 := order_text keys ++ l3).
  set (l1 := fst (trinoWhere preds) ++ l2).
  assert (E3 : ends l3 /\ lit " OFFSET " l4 = None /\ lit " WHERE " l3 = None /\ lit " AND " l3 = None
               /\ lit " ORDER BY " l3 = None /\ lit ", " l3 = None /\ lit "." l3 = None)
    by (unfold l3, l4, offset_text; destruct (0 <? off); apart).
  assert (E2 : ends l2 /\ lit " WHERE " l2 = None /\ lit " AND " l2 = None /\ lit "." l2 = None)
    by (unfold l2, order_text; destruct keys; [|apart]; cbn [app]; tauto).
  assert (E1 : ends l1 /\ lit "." l1 = None) by (unfold l1, trinoWhere; destruct preds; [|apart]; cbn [fst app]; tauto).
  destruct E3 as (? & ? & ? & ? & ? & ? & ?), E2 as (? & ? & ? & ?), E1 as (? & ?).
  read_by (many_app ", " p_item (fun c => coalesced c (quoteIdent (name c))) item_of items (bs " FROM " ++ join (bs ".") (quoteIdent <$> names) ++ l1)
    Hi ltac:(done) (fun b r _ Hr => item_reads b r Hr) ltac:(apart) ltac:(apart) ltac:(apart)).
  read_lit. read_by (table_reads names l1 Hn ltac:(done) ltac:(done)). unfold l1.
  read_by (where_reads preds l2 Hp ltac:(done) ltac:(done) ltac:(done)). unfold l2.
  read_by (order_reads keys l3 ltac:(done) ltac:(done) ltac:(done)). unfold l3.
  read_by (offset_reads off l4 ltac:(apart) ltac:(done)). unfold l4, p_limit.
  rewrite (bind_some _ _ _ (Some n) []); [done|]. apply alt_some. read_lit. rewrite <- (app_nil_r (itoa n)).
  by read_by (number_app n [] H0 I).
Qed.

(** ** The store's statements *)

Section statements.
Context (cfg : TrinoConfig).
#[local] Abbreviation s := (NewTrino cfg).

Definition table_names : list gostring := [tc_Catalog cfg; tc_Schema cfg; tc_Table cfg].

(** What [ListQueries] asks. *)
Definition list_query (f : QueryFilter) : query :=
  mkQuery (item_of ∘ byName <$> summaryColumns) table_names (cond_of <$> listPredicates f)
    [(sortColumn f, Desc f); (bs "query_id", Desc f)] (Z.max 0 (Offset f)) (Some (pageLimit f)).

(** What [GetQuery] asks. *)
Definition get_query (preds : list predicate) : query :=
  mkQuery (item_of <$> schemaColumns) table_names (cond_of <$> preds) [] 0 (Some 1).

Lemma byName_summary n : n ∈ summaryColumns -> name (byName n) = n.
Proof. revert n. apply Forall_forall. repeat (apply Forall_cons; split; [reflexivity|]). by apply Forall_nil. Qed.

Lemma listPredicates_comparison f : Forall comparison (listPredicates f).
Proof.
  unfold listPredicates. repeat apply Forall_app_2; repeat case_match; repeat apply Forall_cons_2; try apply Forall_nil;
    apply (bool_decide_unpack _); by vm_compute.
Qed.

Lemma summary_items : (fun n => coalesced (byName n) (quoteIdent n)) <$> summaryColumns
  = (fun c => coalesced c (quoteIdent (name c))) <$> (byName <$> summaryColumns).
Proof.
  rewrite <- list_fmap_compose. apply Forall_fmap_ext_1, Forall_forall. intros n Hn. cbn [compose].
  unfold compose. by rewrite byName_summary.
Qed.

Lemma list_stmt_reads f : read_all p_query (list_stmt s f) = Some (list_query f).
Proof.
  unfold list_query. rewrite list_fmap_compose, <- (query_reads (byName <$> summaryColumns) table_names (listPredicates f) _ (Offset f))
    by (done || apply listPredicates_comparison || (pose proof (pageLimit_range f); lia)).
  f_equal. unfold list_stmt, NewTrino. cbn [ts_summarySelect]. rewrite summary_items, orderBy_eq. unfold offset_text, comma, order_text.
  cbn [fmap list_fmap join table_names key_text fst snd]. unfold qualifiedName, key_text. cbn [fst snd]. by rewrite <- !app_assoc.
Qed.

Lemma get_stmt_reads preds : Forall comparison preds -> read_all p_query (get_stmt s preds) = Some (get_query preds).
Proof.
  intros Hp. unfold get_query. change 0 with (Z.max 0 0) at 1. rewrite <- (query_reads schemaColumns table_names preds [] 0 1) by done.
  by f_equal.
Qed.

Lemma group_reads n rest : (0 < n)%nat -> p_group (placeholder_of n ++ rest) = Some (n, rest).
Proof.
  intros Hn. unfold p_group, placeholder_of. rewrite <- !app_assoc. read_lit.
  pose proof (many_app "," (lit "?") (fun _ : unit => bs "?") (fun _ => tt) (replicate n tt) (bs ")" ++ rest)) as H.
  rewrite !fmap_replicate in H. read_by (H ltac:(destruct n; [lia|done]) ltac:(done) (fun _ _ _ _ => lit_app _ _) ltac:(apart) ltac:(apart) ltac:(apart)).
  read_lit. by rewrite length_replicate.
Qed.

Lemma insert_stmt_reads rows :
  rows <> [] ->
  read_all p_statement (insert_stmt s rows)
  = Some (Insert table_names (name <$> schemaColumns) (replicate (length rows) (length schemaColumns))).
Proof.
  intros Hne. unfold read_all, p_statement.
  set (groups := join (bs ", ") ((fun _ => placeholder_of (length schemaColumns)) <$> rows)).
  change (insert_stmt s rows)
    with ((bs "INSERT INTO " ++ join (bs ".") (quoteIdent <$> table_names) ++ bs " ("
           ++ join (bs ", ") (quoteIdent <$> (name <$> schemaColumns)) ++ bs ") VALUES ") ++ groups).
  rewrite <- !app_assoc. rewrite (alt_some _ _ _ (Insert table_names (name <$> schemaColumns) (replicate (length rows) (length schemaColumns)), [])); [done|].
  read_lit.
  read_by (table_reads table_names (bs " (" ++ join (bs ", ") (quoteIdent <$> (name <$> schemaColumns)) ++ bs ") VALUES " ++ groups)
    ltac:(done) ltac:(apart) ltac:(apart)).
  read_lit.
  rewrite (bind_some _ _ _ (name <$> schemaColumns) (bs ") VALUES " ++ groups)).
  2: { rewrite <- (list_fmap_id (name <$> schemaColumns)) at 2.
       apply (many_app ", " ident quoteIdent id); [discriminate|discriminate|intros; by apply ident_app|apart|apart|apart]. }
  read_lit. unfold groups. rewrite <- (app_nil_r (join _ _)).
  read_by (many_app ", " p_group (fun _ : Row => placeholder_of (length schemaColumns)) (fun _ => length schemaColumns) rows []
    Hne ltac:(done) (fun b r _ _ => group_reads (length schemaColumns) r ltac:(cbn; lia)) ltac:(apart) I ltac:(apart)).
  unfold mret, parser_ret. do 3 f_equal. by apply const_fmap.
Qed.

Lemma prune_stmt_reads : read_all p_statement (prune_stmt s) = Some (Delete table_names [(bs "create_time", bs "<")]).
Proof.
  unfold read_all, p_statement.
  change (prune_stmt s) with (bs "DELETE FROM " ++ join (bs ".") (quoteIdent <$> table_names)
    ++ fst (trinoWhere [mkPred (bs "create_time") (bs "<") (ATime 0)]) ++ []).
  rewrite alt_none by reflexivity. read_lit.
  read_by (table_reads table_names (fst (trinoWhere [mkPred (bs "create_time") (bs "<") (ATime 0)]) ++ [])
    ltac:(done) ltac:(apart) ltac:(apart)).
  read_by (where_reads [mkPred (bs "create_time") (bs "<") (ATime 0)] []
    ltac:(apply Forall_cons_2; [apply (bool_decide_unpack _); by vm_compute|by apply Forall_nil]) I ltac:(apart) ltac:(apart)).
  done.
Qed.
End statements.

(** ** Values *)

Lemma with_values_of preds : with_values (cond_of <$> preds) (p_value <$> preds) = Some preds.
Proof.
  unfold with_values. rewrite !length_fmap, decide_True by done. f_equal.
  induction preds as [|[c o v] preds IH]; [done|]. cbn [fmap list_fmap zip_with cond_of fst snd p_column p_op p_value]. by f_equal.
Qed.

Lemma group_rows_args rows : group_rows (replicate (length rows) (length schemaColumns)) (insert_args rows) = Some rows.
Proof.
  induction rows as [|r rows IH]; [done|]. change (insert_args (r :: rows)) with (args r ++ insert_args rows).
  cbn [length replicate group_rows]. rewrite take_app_length', drop_app_length' by reflexivity.
  rewrite scan_args. cbn [mbind option_bind]. by rewrite IH.
Qed.
