(* ===== verification/SqlTheorems.v ===== *)
(** * SqlTheorems: the Trino store over a database that reads its statements

    What listing, looking up, inserting and pruning do to the table, from the
    text of the statements; and a listing followed page by page. *)

From S2P Require Import Prelude Errors GoTime Row Store Query Trino TrinoTheorems Api ApiTheorems Sql.

(** ** Order *)

Lemma arg_le_total d a b : arg_le d a b = true \/ arg_le d b a = true.
Proof.
  destruct a as [x|x|x|], b as [y|y|y|], d; cbn; rewrite ?negb_true_iff, ?Z.leb_le; auto; try lia;
    change (str_le x y \/ str_le y x) || change (str_le y x \/ str_le x y); apply (total str_le).
Qed.

Lemma arg_le_trans d a b c : arg_le d a b = true -> arg_le d b c = true -> arg_le d a c = true.
Proof.
  destruct a as [x|x|x|], b as [y|y|y|], c as [z|z|z|], d; cbn; rewrite ?negb_true_iff, ?Z.leb_le; try done; try lia;
    intros H1 H2; change (str_le x z) || change (str_le z x); by eapply (transitivity (R := str_le)).
Qed.

Lemma arg_le_str d x y : arg_le d (AStr x) (AStr y) = true -> arg_le d (AStr y) (AStr x) = true -> x = y.
Proof. destruct d; cbn; rewrite !negb_true_iff; intros H1 H2; by apply (anti_symm str_le). Qed.

Lemma keys_le_total keys r1 r2 : keys_le keys r1 r2 = true \/ keys_le keys r2 r1 = true.
Proof.
  induction keys as [|[c d] keys IH]; cbn; [by left|]. destruct (column_value r1 c) as [a|] eqn:Ea, (column_value r2 c) as [b|] eqn:Eb; try done.
  destruct (arg_le_total d a b) as [H|H]; rewrite H; [destruct (arg_le d b a)|destruct (arg_le d a b)]; cbn; tauto.
Qed.

Lemma column_some r1 r2 c : is_Some (column_value r1 c) -> is_Some (column_value r2 c).
Proof. unfold column_value. rewrite !fmap_is_Some. done. Qed.

Lemma keys_le_trans keys r1 r2 r3 : keys_le keys r1 r2 = true -> keys_le keys r2 r3 = true -> keys_le keys r1 r3 = true.
Proof.
  induction keys as [|[c d] keys IH]; cbn; [done|].
  destruct (column_value r1 c) as [a1|] eqn:E1, (column_value r2 c) as [a2|] eqn:E2, (column_value r3 c) as [a3|] eqn:E3; try done;
    try (exfalso; clear IH; (assert (H : is_Some (column_value r1 c)) by (by rewrite E1)) || (assert (H : is_Some (column_value r2 c)) by (by rewrite E2))
         || (assert (H : is_Some (column_value r3 c)) by (by rewrite E3));
         pose proof (column_some _ r1 c H) as [? F1]; pose proof (column_some _ r2 c H) as [? F2]; pose proof (column_some _ r3 c H) as [? F3]; congruence).
  intros [H1 H1']%andb_prop [H2 H2']%andb_prop. rewrite (arg_le_trans d a1 a2 a3) by done. cbn.
  destruct (arg_le d a3 a1) eqn:E; [cbn|done].
  rewrite (arg_le_trans d a2 a3 a1 H2 E) in H1'. rewrite (arg_le_trans d a3 a1 a2 E H1) in H2'. by apply IH.
Qed.

Definition in_order (keys : list (gostring * bool)) (r1 r2 : Row) : Prop := keys_le keys r1 r2 = true.
#[export] Instance in_order_dec keys r1 r2 : Decision (in_order keys r1 r2) := decide (_ = true).
#[export] Instance in_order_trans keys : Transitive (in_order keys).
Proof. intros r1 r2 r3. apply keys_le_trans. Qed.
#[export] Instance in_order_total keys : Total (in_order keys).
Proof. intros r1 r2. apply keys_le_total. Qed.

Lemma same_id (t : list Row) r1 r2 : NoDup (QueryID <$> t) -> r1 ∈ t -> r2 ∈ t -> QueryID r1 = QueryID r2 -> r1 = r2.
Proof.
  intros Hnd [i Hi]%list_elem_of_lookup [j Hj]%list_elem_of_lookup E. assert (i = j) as ->; [|congruence].
  apply (NoDup_lookup _ _ _ (QueryID r1) Hnd); rewrite list_lookup_fmap; [by rewrite Hi|by rewrite Hj, E].
Qed.

(** With the query id among the keys, distinct ids have one arrangement. *)
Lemma order_unique keys d l1 l2 :
  (bs "query_id", d) ∈ keys -> NoDup (QueryID <$> l1) ->
  StronglySorted (in_order keys) l1 -> StronglySorted (in_order keys) l2 -> l1 ≡ₚ l2 -> l1 = l2.
Proof.
  intros Hk Hnd H1 H2 Hp. apply (StronglySorted_unique_strong (in_order keys)); try done.
  intros r1 r2 Hr1 Hr2 L1 L2. rewrite <- Hp in Hr2. eapply same_id; [done..|].
  clear -Hk L1 L2. unfold in_order in *. induction keys as [|[c d'] keys IH]; [by apply elem_of_nil in Hk|]. cbn [keys_le] in *.
  destruct (decide ((bs "query_id", d) = (c, d'))) as [[= <- <-]|Hne].
  - change (column_value r1 (bs "query_id")) with (Some (AStr (QueryID r1))) in *.
    change (column_value r2 (bs "query_id")) with (Some (AStr (QueryID r2))) in *.
    apply andb_prop in L1 as [L1 _], L2 as [L2 _]. by eapply arg_le_str.
  - apply elem_of_cons in Hk as [Hk|Hk]; [done|]. specialize (IH Hk).
    destruct (column_value r1 c) as [a|], (column_value r2 c) as [b|]; auto.
    apply andb_prop in L1 as [A1 B1], L2 as [A2 B2]. rewrite A1 in B2. rewrite A2 in B1. auto.
Qed.

(** ** Reading the table *)

(** The order of a listing, and the rows a filter lists: those that match, in
    that order. *)
Definition list_keys (f : QueryFilter) : list (gostring * bool) := [(sortColumn f, Desc f); (bs "query_id", Desc f)].
Definition listing (f : QueryFilter) (t : list Row) : list Row :=
  merge_sort (in_order (list_keys f)) (filter (fun r => filter_matches f r = true) t).

Lemma listing_perm f t : listing f t ≡ₚ filter (fun r => filter_matches f r = true) t.
Proof. apply merge_sort_Permutation. Qed.
Lemma listing_sorted f t : StronglySorted (in_order (list_keys f)) (listing f t).
Proof. apply StronglySorted_merge_sort; apply _. Qed.

(** The listing depends on the filter through its matches and its order. *)
Lemma listing_ext f g t :
  Sort f = Sort g -> Desc f = Desc g ->
  (forall r, r ∈ t -> filter_matches f r = filter_matches g r) -> listing f t = listing g t.
Proof.
  intros Hs Hd Hm. unfold listing, list_keys, sortColumn. rewrite Hs, Hd. f_equal.
  apply list_filter_iff'. intros r Hr. by rewrite Hm.
Qed.

Lemma NoDup_ids_perm (t1 t2 : list Row) : t1 ≡ₚ t2 -> NoDup (QueryID <$> t2) -> NoDup (QueryID <$> t1).
Proof. intros Hp. by rewrite Hp. Qed.
Lemma NoDup_ids_filter (P : Row -> Prop) `{!forall r, Decision (P r)} (t : list Row) :
  NoDup (QueryID <$> t) -> NoDup (QueryID <$> filter P t).
Proof.
  induction t as [|r t IH]; [done|]. rewrite fmap_cons, NoDup_cons. intros [Hr Ht]. rewrite filter_cons. case_decide; [|by apply IH].
  rewrite fmap_cons, NoDup_cons. split; [|by apply IH]. contradict Hr. apply list_elem_of_fmap in Hr as (r' & E & [_ Hr']%list_elem_of_filter).
  rewrite E. by apply list_elem_of_fmap_2.
Qed.

Lemma where_values preds : snd (trinoWhere preds) = p_value <$> preds.
Proof. by destruct preds. Qed.

Lemma sorted_known f : is_Some (column_field (sortColumn f)).
Proof.
  pose proof (sortColumn_cases f) as H. revert H. generalize (sortColumn f). apply Forall_forall.
  repeat (apply Forall_cons; split; [by eexists|]). by apply Forall_nil.
Qed.

Lemma predicates_known f : forallb (fun k => bool_decide (is_Some (column_field (fst k)))) (cond_of <$> listPredicates f) = true.
Proof.
  apply forallb_forall. intros k Hk%list_elem_of_In%list_elem_of_fmap. destruct Hk as (p & -> & Hp). revert p Hp.
  apply Forall_forall. unfold listPredicates. repeat apply Forall_app_2; repeat case_match; repeat apply Forall_cons_2;
    try apply Forall_nil; by vm_compute.
Qed.

Lemma list_answers q f t vs :
  q_order q = list_keys f -> (forall r, mapM (item_value r) (q_items q) = mapM (column_value r) summaryColumns) ->
  NoDup (QueryID <$> t) -> answers q (listPredicates f) t vs ->
  Forall2 (fun v r => mapM (column_value r) summaryColumns = Some v) vs
    (page (q_offset q) (q_limit q) (listing f t)).
Proof.
  intros Ho Hi Hnd (rows & Hp & Hs & Hm). rewrite Ho in Hs.
  assert (E : rows = listing f t).
  { apply (order_unique (list_keys f) (Desc f)); [by right; left| |exact Hs|apply listing_sorted|].
    - eapply NoDup_ids_perm; [exact Hp|]. by apply NoDup_ids_filter.
    - rewrite listing_perm, Hp. apply reflexive_eq, list_filter_iff'. intros r _. unfold holds. by rewrite listPredicates_filter. }
  subst rows. apply mapM_Some in Hm. apply Forall2_flip. eapply Forall2_impl; [exact Hm|]. intros r v H. by rewrite <- Hi.
Qed.

(** Looking up a query. *)
Lemma find_answers q preds t vs :
  (forall r, mapM (item_value r) (q_items q) = Some (args r)) -> q_offset q = 0 -> q_limit q = Some 1 ->
  NoDup (QueryID <$> t) -> (forall r1 r2, holds preds r1 = true -> holds preds r2 = true -> QueryID r1 = QueryID r2) ->
  answers q preds t vs -> vs = args <$> filter (fun r => holds preds r = true) t.
Proof.
  intros Hi Ho Hl1 Hnd Hone (rows & Hp & _ & Hm). rewrite Ho, Hl1 in Hm. cbn [page] in Hm.
  set (l := filter _ t) in *.
  assert (E : rows = l /\ (length l <= 1)%nat).
  { assert (Hall : forall r1 r2, r1 ∈ l -> r2 ∈ l -> r1 = r2).
    { intros r1 r2 [H1 H1']%list_elem_of_filter [H2 H2']%list_elem_of_filter. apply (same_id t); auto. }
    assert (Hl : NoDup l) by (apply (NoDup_fmap_1 QueryID), NoDup_ids_filter, Hnd).
    destruct l as [|r [|r' l]]; [apply Permutation_nil_r in Hp; cbn; by split; [|lia]|apply Permutation_singleton_r in Hp; cbn; by split; [|lia]|exfalso].
    apply NoDup_cons in Hl as [Hl _]. apply Hl. rewrite (Hall r r') by (rewrite ?elem_of_cons; auto). by left. }
  destruct E as [-> Hl]. unfold slice_from, slice_to in Hm. rewrite drop_0, take_ge in Hm by (cbn; lia).
  apply mapM_Some in Hm. clear -Hm Hi. induction Hm as [|r v l vs Hv _ IH]; [done|]. rewrite fmap_cons, <- IH.
  rewrite Hi in Hv. by injection Hv as <-.
Qed.

Lemma find_by_window q id from to t vs :
  let preds := [mkPred (bs "query_id") (bs "=") (AStr id); mkPred (bs "create_time") (bs ">=") (ATime from);
                mkPred (bs "create_time") (bs "<") (ATime to)] in
  (forall r, mapM (item_value r) (q_items q) = Some (args r)) -> q_offset q = 0 -> q_limit q = Some 1 ->
  NoDup (QueryID <$> t) -> answers q preds t vs ->
  (vs = [] /\ forall r, None = Some r <-> r ∈ t /\ QueryID r = id /\ from <= CreateTime r < to)
  \/ exists r0 l, vs = args r0 :: l /\ forall r, Some r0 = Some r <-> r ∈ t /\ QueryID r = id /\ from <= CreateTime r < to.
Proof.
  intros preds Hi Ho Hl Hnd Ha.
  assert (Hh : forall r, holds preds r = true <-> QueryID r = id /\ from <= CreateTime r < to).
  { intros r. unfold holds, preds. cbn [forallb]. rewrite (pred_string r _ (QueryID r)) by reflexivity.
    rewrite pred_since, pred_until, !andb_true_iff, bool_decide_eq_true, Z.leb_le, Z.ltb_lt. tauto. }
  apply find_answers in Ha as ->; [|done..|]. 2: { intros r1 r2 [-> _]%Hh [-> _]%Hh. done. }
  assert (Hin : forall r, r ∈ filter (fun r => holds preds r = true) t <-> r ∈ t /\ QueryID r = id /\ from <= CreateTime r < to).
  { intros r. rewrite list_elem_of_filter, Hh. tauto. }
  assert (Hf : NoDup (QueryID <$> filter (fun r => holds preds r = true) t)) by by apply NoDup_ids_filter.
  revert Hin Hf. generalize (filter (fun r => holds preds r = true) t) as l. intros l Hin Hf. destruct l as [|r0 l].
  - left. split; [done|]. intros r. rewrite <- Hin. split; [done|]. by intros ?%elem_of_nil.
  - right. exists r0, (args <$> l). split; [done|]. intros r. rewrite <- Hin. split; [intros [= <-]; by left|].
    intros Hr. f_equal. apply (same_id (r0 :: l)); [done|by left|done|]. apply Hin in Hr as (_ & -> & _).
    by destruct (proj1 (Hin r0) ltac:(by left)) as (_ & -> & _).
Qed.

Lemma in_window id from to (t : list Row) r :
  queryIDWindow id = Some (from, to) ->
  (r ∈ t /\ QueryID r = id /\ from <= CreateTime r < to)
  <-> r ∈ t /\ QueryID r = id /\ exists from to, queryIDWindow id = Some (from, to) /\ from <= CreateTime r < to.
Proof.
  intros Hw. split; intros (H1 & H2 & H3); (split; [exact H1|split; [exact H2|]]); [by exists from, to|].
  destruct H3 as (from' & to' & E & H3). rewrite Hw in E. by injection E as <- <-.
Qed.

Section reading.
Context {W : Type} (exec : gostring -> list arg -> W -> W * option gerror).
Context (ask : gostring -> list arg -> W -> gerror + (list (list arg) * option gerror)) (scan_err : gerror).
Context (cfg : TrinoConfig) (table : W -> list Row) (keep : Row -> Row) (up : W -> Prop).
Context (server : sql_server exec ask (table_names cfg) table keep up).
#[local] Abbreviation s := (NewTrino cfg).


Lemma ask_list f w :
  up w -> exists vs, ask (list_stmt s f) (snd (trinoWhere (listPredicates f))) w = inr (vs, None)
    /\ answers (list_query cfg f) (listPredicates f) (table w) vs.
Proof using server.
  intros Hu. apply (ss_query _ _ _ _ _ _ server); [done|apply list_stmt_reads|done| |rewrite where_values; apply with_values_of].
  unfold known. cbn [q_items q_where q_order list_query list_keys]. rewrite predicates_known, andb_true_r.
  cbn [forallb fst]. rewrite bool_decide_eq_true_2 by apply sorted_known. by vm_compute.
Qed.

Lemma trino_lists f w :
  up w -> NoDup (QueryID <$> table w) ->
  trino_ListQueries ask scan_err s f w
  = (summary_of_row <$> slice_to (slice_from (listing f (table w)) (Offset f)) (pageLimit f), None).
Proof using server.
  intros Hu Hnd. unfold trino_ListQueries. destruct (ask_list f w Hu) as (vs & -> & Ha).
  apply (list_answers _ f) in Ha; [|reflexivity|intros r; reflexivity|exact Hnd].
  rewrite (scan_summaries_rows scan_err vs _ [] Ha). unfold page. cbn [app q_offset q_limit list_query].
  replace (slice_from (listing f (table w)) (Z.max 0 (Offset f))) with (slice_from (listing f (table w)) (Offset f)); [done|].
  unfold slice_from. f_equal. lia.
Qed.

(** C26. A listing is what it says: while the database is up and holds each query
    once, [ListQueries] returns, for any filter, the summaries of the rows that
    match it, sorted by its column (ties by query id), from the offset and up
    to the page size. *)
Theorem trino_listing f w :
  up w -> NoDup (QueryID <$> table w) ->
  trino_ListQueries ask scan_err s f w
  = (summary_of_row <$> slice_to (slice_from (listing f (table w)) (Offset f)) (pageLimit f), None).
Proof using server. apply trino_lists. Qed.


Lemma trino_finds id w :
  up w -> NoDup (QueryID <$> table w) ->
  snd (trino_GetQuery ask scan_err s id w) = None
  /\ forall r, fst (trino_GetQuery ask scan_err s id w) = Some r
       <-> r ∈ table w /\ QueryID r = id
           /\ exists from to, queryIDWindow id = Some (from, to) /\ from <= CreateTime r < to.
Proof using server.
  intros Hu Hnd. unfold trino_GetQuery, queryIDPredicates. destruct (queryIDWindow id) as [[from to]|] eqn:Ew.
  2: { split; [done|]. intros r. split; [done|]. by intros (_ & _ & from & to & ? & _). }
  set (preds := [_; _; _]).
  destruct (ss_query _ _ _ _ _ _ server (get_stmt s preds) (snd (trinoWhere preds)) w (get_query cfg preds) preds) as (vs & -> & Ha).
  { done. }
  { apply get_stmt_reads. repeat apply Forall_cons_2; try apply Forall_nil; apply (bool_decide_unpack _); by vm_compute. }
  { done. }
  { by vm_compute. }
  { rewrite where_values. apply with_values_of. }
  apply (find_by_window _ id from to) in Ha; [|intros r; reflexivity|reflexivity|reflexivity|exact Hnd].
  split; [by destruct Ha as [[-> _]|(r0 & l & -> & _)]; [|rewrite scan_args]|]. intros r.
  transitivity (r ∈ table w /\ QueryID r = id /\ from <= CreateTime r < to); [|rewrite <- Ew; by apply in_window].
  destruct Ha as [[-> Hno]|(r0 & l & -> & Hr0)]; [|rewrite scan_args]; cbn [fst]; [apply Hno|apply Hr0].
Qed.

(** C31. [GetQuery] finds a query exactly when the table holds it: a row with that
    id, created within a day of the date the id begins with.  It returns that
    row, every column of it, and nothing (and no error) otherwise. *)
Theorem trino_lookup id w :
  up w -> NoDup (QueryID <$> table w) ->
  snd (trino_GetQuery ask scan_err s id w) = None
  /\ forall r, fst (trino_GetQuery ask scan_err s id w) = Some r
       <-> r ∈ table w /\ QueryID r = id
           /\ exists from to, queryIDWindow id = Some (from, to) /\ from <= CreateTime r < to.
Proof using server. apply trino_finds. Qed.
End reading.

(** ** Writing the table *)

Section writing.
Context {W : Type} (exec : gostring -> list arg -> W -> W * option gerror).
Context (ask : gostring -> list arg -> W -> gerror + (list (list arg) * option gerror)).
Context (cfg : TrinoConfig) (table : W -> list Row) (keep : Row -> Row) (up : W -> Prop).
Context (server : sql_server exec ask (table_names cfg) table keep up).
#[local] Abbreviation s := (NewTrino cfg).

Lemma insert_effect rows t :
  effect keep (Insert (table_names cfg) (name <$> schemaColumns) (replicate (length rows) (length schemaColumns)))
    (insert_args rows) t = Some (t ++ (keep <$> rows)).
Proof. cbn [effect]. rewrite decide_True by done. by rewrite group_rows_args. Qed.

Lemma prune_effect cutoff t :
  effect keep (Delete (table_names cfg) [(bs "create_time", bs "<")]) [ATime cutoff] t
  = Some (filter (fun r => cutoff <= CreateTime r) t).
Proof.
  cbn [effect]. change (with_values _ _) with (Some [mkPred (bs "create_time") (bs "<") (ATime cutoff)]).
  cbn [fmap option_fmap option_map]. f_equal. apply list_filter_iff'. intros r _. unfold holds. cbn [forallb].
  rewrite pred_until, andb_true_r, Z.ltb_ge. done.
Qed.

Lemma server_exec_laws : trino_exec_laws exec cfg table keep.
Proof using server.
  split.
  - apply (ss_keep _ _ _ _ _ _ server).
  - intros rows w w' Hne H.
    by apply (ss_exec _ _ _ _ _ _ server _ _ _ _ _ _ H (insert_stmt_reads cfg rows Hne)); [|apply insert_effect].
  - intros rows w w' err Hne H.
    by apply (ss_failed _ _ _ _ _ _ server _ _ _ _ _ _ _ H (insert_stmt_reads cfg rows Hne)); [|apply insert_effect].
  - intros rows w w' err. apply (ss_error _ _ _ _ _ _ server).
Qed.

Lemma trino_prunes cutoff w w' e :
  trino_Prune exec s cutoff w = (w', e) ->
  let pruned := filter (fun r => cutoff <= CreateTime r) (table w) in
  match e with None => table w' = pruned | Some _ => table w' = table w \/ table w' = pruned end.
Proof using server.
  unfold trino_Prune, exec_wrap. destruct (exec _ _ w) as [w1 [err|]] eqn:E; intros [= <- <-].
  - by apply (ss_failed _ _ _ _ _ _ server _ _ _ _ _ _ _ E (prune_stmt_reads cfg)); [|apply prune_effect].
  - by apply (ss_exec _ _ _ _ _ _ server _ _ _ _ _ _ E (prune_stmt_reads cfg)); [|apply prune_effect].
Qed.

(** [Prune] on the table leaves exactly the rows created at or after the cutoff,
    in place; when it fails, the table is either that or what it was. *)
Theorem trino_prune_exact cutoff w w' e :
  trino_Prune exec s cutoff w = (w', e) ->
  let pruned := filter (fun r => cutoff <= CreateTime r) (table w) in
  match e with None => table w' = pruned | Some _ => table w' = table w \/ table w' = pruned end.
Proof using server. apply trino_prunes. Qed.
End writing.

(** ** A database that reads its statements *)

(** One answer to a query. *)
Definition run_query (q : query) (preds : list predicate) (t : list Row) : option (list (list arg)) :=
  mapM (fun r => mapM (item_value r) (q_items q))
    (page (q_offset q) (q_limit q) (merge_sort (in_order (q_order q)) (filter (fun r => holds preds r = true) t))).

Lemma known_values q r : known q = true -> is_Some (mapM (item_value r) (q_items q)).
Proof.
  unfold known. intros [[Hi _]%andb_prop _]%andb_prop. apply mapM_is_Some, Forall_forall. intros i Hin.
  rewrite forallb_forall in Hi. apply list_elem_of_In, Hi in Hin.
  destruct i as [c|c d]; cbn in *; unfold column_value; apply bool_decide_eq_true in Hin as [p ->]; by eexists.
Qed.

Lemma run_query_answers q preds t : known q = true -> exists vs, run_query q preds t = Some vs /\ answers q preds t vs.
Proof.
  intros Hk. unfold run_query. set (rows := merge_sort _ _).
  assert (is_Some (mapM (fun r => mapM (item_value r) (q_items q)) (page (q_offset q) (q_limit q) rows))) as [vs E].
  { apply mapM_is_Some, Forall_forall. intros r _. by apply known_values. }
  exists vs. split; [done|]. exists rows. split_and!; [apply merge_sort_Permutation| |done]. apply StronglySorted_merge_sort; apply _.
Qed.

Definition not_understood : gerror := Leaf (EText (bs "line 1:1: not understood")).

Section reference.
Context (names : list gostring).

Definition ref_exec (text : gostring) (vals : list arg) (t : list Row) : list Row * option gerror :=
  match read_all p_statement text with
  | Some st => if decide (statement_table st = names) then
                 match effect micros_row st vals t with Some t' => (t', None) | None => (t, Some not_understood) end
               else (t, Some not_understood)
  | None => (t, Some not_understood)
  end.

Definition ref_ask (text : gostring) (vals : list arg) (t : list Row) : gerror + (list (list arg) * option gerror) :=
  default (inl not_understood)
    (q ← read_all p_query text;
     preds ← (if decide (q_table q = names) then with_values (q_where q) vals else None);
     vs ← run_query q preds t;
     Some (inr (vs, None))).

Lemma reference_server : sql_server ref_exec ref_ask names id micros_row (fun _ => True).
Proof.
  split; unfold id; [apply micros_row_stored|..].
  - intros text vals w w' st t' H Hst Ht He. unfold ref_exec in H. rewrite Hst, decide_True, He in H by done. by injection H as <-.
  - intros text vals w w' err st t' H Hst Ht He. unfold ref_exec in H. rewrite Hst, decide_True, He in H by done. done.
  - intros text vals w w' err H. unfold ref_exec in H. repeat case_match; simplify_eq; done.
  - intros text vals w q preds _ Hq Ht Hk Hv. destruct (run_query_answers q preds w Hk) as (vs & E & Ha). exists vs. split; [|done].
    unfold ref_ask. rewrite Hq. cbn [mbind option_bind]. rewrite decide_True, Hv by done. cbn [mbind option_bind]. by rewrite E.
Qed.
End reference.

(** ** A concrete table *)

Definition demo_row (id : string) (t : time) (cpu : Z) : Row :=
  set_int FCPUMS cpu (set_time FCreateTime (Some t) (set_str FQueryID (bs id) zero_row)).
Definition demo_table : list Row :=
  [demo_row "19700102_000000_00001_aaaaa" Day 7; demo_row "19700102_000000_00002_aaaaa" (Day + Hour) 9;
   demo_row "19700103_000000_00003_aaaaa" (2 * Day) 7].
Definition by_cpu : QueryFilter := mkFilter 0 (2 * Day + 1) [] [] [] (bs "cpu") true 2 1.
Definition demo_server := reference_server (table_names demo_trino).

Lemma demo_table_ids : NoDup (QueryID <$> demo_table).
Proof. apply (bool_decide_unpack _). by vm_compute. Qed.

(** By descending CPU time, ties by descending id, from the second on. *)
Lemma trino_listing_witness :
  let names := table_names demo_trino in
  fst (trino_ListQueries (ref_ask names) (errText "scan") (NewTrino demo_trino) by_cpu demo_table)
  = summary_of_row <$> [demo_row "19700103_000000_00003_aaaaa" (2 * Day) 7; demo_row "19700102_000000_00001_aaaaa" Day 7].
Proof.
  cbv zeta. rewrite (trino_listing _ _ (errText "scan") demo_trino id micros_row (fun _ => True) demo_server by_cpu demo_table I demo_table_ids).
  by vm_compute.
Defined.

Lemma trino_lookup_witness :
  let get id := trino_GetQuery (ref_ask (table_names demo_trino)) (errText "scan") (NewTrino demo_trino) (bs id) demo_table in
  fst (get "19700102_000000_00002_aaaaa"%string) = Some (demo_row "19700102_000000_00002_aaaaa" (Day + Hour) 9)
  /\ snd (get "19700102_000000_00002_aaaaa"%string) = None.
Proof.
  cbv zeta. destruct (trino_lookup _ _ (errText "scan") demo_trino id micros_row (fun _ => True) demo_server (bs "19700102_000000_00002_aaaaa")
    demo_table I demo_table_ids) as [He Hr].
  split; [|exact He]. apply Hr. split; [right; left|]. split; [reflexivity|].
  exists 0, (3 * Day). split; [vm_compute; reflexivity|]. vm_compute. split; [discriminate|reflexivity].
Defined.

Lemma trino_prune_exact_witness :
  let '(w', e) := trino_Prune (ref_exec (table_names demo_trino)) (NewTrino demo_trino) (2 * Day) demo_table in
  e = None /\ w' = [demo_row "19700103_000000_00003_aaaaa" (2 * Day) 7].
Proof.
  destruct (trino_Prune _ _ _ _) as [w' e] eqn:E.
  pose proof (trino_prune_exact _ _ demo_trino id micros_row (fun _ => True) demo_server (2 * Day) demo_table w' e E) as Ht. unfold id in Ht.
  assert (He : e = None) by (revert E; vm_compute; congruence). subst e. split; [done|]. rewrite Ht. by vm_compute.
Defined.
