(* ===== verification/ClickHouseSql.v ===== *)
(** * ClickHouseSql: the reads of the ClickHouse store over a database that reads them

    As [Sql] and [SqlTheorems] for the queries of [internal/store/clickhouse.go]:
    [FROM t FINAL], typed placeholders whose values travel as text parameters,
    and times that are cut to microseconds on the way. *)

From S2P Require Import Prelude Errors GoTime Row Store Query Trino TrinoTheorems ClickHouse ClickHouseTheorems Sql SqlTheorems.

(** ** Reading text *)

(** A placeholder: a name and a type. *)
Definition p_upto (c : byte) : parser gostring :=
  fun s => match cut c s with (a, Some rest) => Some (a, rest) | _ => None end.
Definition p_hole : parser (gostring * gostring) :=
  _ ← lit "{"; n ← p_upto x3a; t ← p_upto x7d; mret (n, t).
Definition p_typed_cond : parser ((gostring * gostring) * (gostring * gostring)) :=
  c ← ident; _ ← lit " "; op ← p_comparison; _ ← lit " "; h ← p_hole; mret ((c, op), h).
Definition p_typed_where : parser (list ((gostring * gostring) * (gostring * gostring))) :=
  alt (_ ← lit " WHERE "; many " AND " p_typed_cond) (mret []).

(** A query and what fills its conditions. *)
Definition p_typed_query : parser (query * list (gostring * gostring)) :=
  _ ← lit "SELECT "; items ← many ", " ident; _ ← lit " FROM "; t ← p_table; _ ← lit " FINAL"; conds ← p_typed_where;
  keys ← p_order; n ← p_limit; off ← p_offset;
  mret (mkQuery (Col <$> items) t (fst <$> conds) keys off n, snd <$> conds).

(** ** Parameters *)

Definition p_fixed (n : nat) : parser Z :=
  fun s => let d := take n s in
    if (length d =? n)%nat && forallb is_digit d then Some (dec_val d, drop n s) else None.
Definition p_micros : parser time :=
  y ← p_fixed 4; _ ← lit "-"; m ← p_fixed 2; _ ← lit "-"; d ← p_fixed 2; _ ← lit " ";
  h ← p_fixed 2; _ ← lit ":"; mi ← p_fixed 2; _ ← lit ":"; sec ← p_fixed 2; _ ← lit "."; us ← p_fixed 6;
  mret (days_of_date (mkDate y m d) * Day + (h * 3600 + mi * 60 + sec) * Second + us * 1000).

(** The value a parameter's text is read as, by its type. *)
Definition read_param (type text : gostring) : option arg :=
  if decide (type = bs "String") then Some (AStr (tsv_unescape text))
  else if decide (type = bs "Int64") then AInt <$> atoi text
  else if decide (type = clickhouseTimestampType) then ATime <$> read_all p_micros text
  else None.
Definition hole_value (params : Parameters) (h : gostring * gostring) : option arg :=
  params !! fst h ≫= read_param (snd h).

(** A database whose table of that name, with duplicates merged ([FINAL]), is
    [table]. *)
Definition typed_server {W} (conn : chConn W) (names : list gostring) (table : W -> list Row) (up : W -> Prop) : Prop :=
  forall text params w q holes vals preds,
    up w -> read_all p_typed_query text = Some (q, holes) -> q_table q = names -> known q = true ->
    mapM (hole_value params) holes = Some vals -> with_values (q_where q) vals = Some preds ->
    exists vs, ch_query conn text params w = inr (vs, None) /\ answers q preds (table w) vs.

(** ** Times as parameters *)

Lemma fixed_app n v rest : 0 <= v < 10 ^ Z.of_nat n -> (0 < n)%nat -> p_fixed n (pad_dec n v ++ rest) = Some (v, rest).
Proof.
  intros Hv Hn. destruct (pad_dec_small n v Hv Hn) as (Hl & Hd & Hval). unfold p_fixed.
  rewrite take_app_length', drop_app_length' by done. rewrite Hl, Nat.eqb_refl, Hd, Hval. done.
Qed.

Ltac read_fixed := erewrite bind_some by (apply fixed_app;
  try change (10 ^ Z.of_nat 4) with 10000; try change (10 ^ Z.of_nat 2) with 100; try change (10 ^ Z.of_nat 6) with (10 ^ 6); lia);
  cbv beta.

Lemma micros_clock t : t / Day * Day + (clock_sec t / 3600 * 3600 + clock_sec t / 60 mod 60 * 60 + clock_sec t mod 60) * Second
  + clock_nano t / 1000 * 1000 = micros t.
Proof.
  unfold clock_sec, clock_nano, micros. change Day with (86400 * Second). change Second with 1000000000.
  Z.div_mod_to_equations. lia.
Qed.

Lemma micros_read t : year4 (utc_date t) -> read_all p_micros (format_micros t) = Some (micros t).
Proof.
  intros Hy. unfold year4 in Hy. pose proof (valid_date_bounds _ (proj2 (civil_of_days_spec (utc_days t)))) as [Hm Hd].
  fold (utc_date t) in Hm, Hd.
  assert (Hs : 0 <= clock_sec t < 86400).
  { unfold clock_sec. pose proof (Z.mod_pos_bound t Day Day_pos). change Day with (86400 * Second) in *.
    change Second with 1000000000 in *. Z.div_mod_to_equations. lia. }
  assert (Hn : 0 <= clock_nano t < 10 ^ 9) by (apply Z.mod_pos_bound; done).
  unfold read_all, p_micros, format_micros, format_datetime. rewrite <- !app_assoc.
  assert (Hb : 0 <= clock_sec t / 3600 < 100 /\ 0 <= clock_sec t / 60 mod 60 < 100 /\ 0 <= clock_sec t mod 60 < 100
               /\ 0 <= clock_nano t / 1000 < 10 ^ 6) by (change (10 ^ 9) with 1000000000 in Hn; change (10 ^ 6) with 1000000;
    Z.div_mod_to_equations; lia).
  destruct Hb as (H1 & H2 & H3 & H4). rewrite <- (app_nil_r (pad_dec 6 _)).
  read_fixed. do 5 (read_lit; read_fixed). read_lit. read_fixed. unfold mret, parser_ret. f_equal.
  rewrite <- micros_clock. f_equal. f_equal. f_equal.
  transitivity (days_of_date (utc_date t)); [reflexivity|]. apply civil_of_days_spec.
Qed.

(** ** The store's queries *)

Lemma upto_app c a rest : c ∉ a -> p_upto c (a ++ c :: rest) = Some (a, rest).
Proof. intros Ha. unfold p_upto. by rewrite cut_app. Qed.

Definition hole_type (v : arg) : gostring :=
  match v with ATime _ => clickhouseTimestampType | AInt _ => bs "Int64" | _ => bs "String" end.
Definition hole (i : nat) (p : predicate) : gostring * gostring := (param_name i, hole_type (p_value p)).

Lemma param_name_plain i : x3a ∉ param_name i.
Proof.
  unfold param_name. intros [Hp|Hin]%elem_of_app; [by apply list_elem_of_singleton in Hp|].
  unfold itoa in Hin. rewrite (proj2 (Z.ltb_ge _ _)) in Hin by lia.
  pose proof (udec_digits (Z.of_nat i) ltac:(lia)) as Hd. rewrite forallb_forall in Hd.
  apply list_elem_of_In, Hd in Hin. discriminate Hin.
Qed.

Lemma hole_type_plain v : x7d ∉ hole_type v.
Proof. destruct v; apply (bool_decide_unpack (_ ∉ _)); vm_compute; exact I. Qed.

Lemma typed_cond_reads i p rest :
  comparison p ->
  p_typed_cond ((quoteIdent (p_column p) ++ bs " " ++ p_op p ++ bs " " ++ placeholder i (p_value p)) ++ rest)
  = Some ((cond_of p, hole i p), rest).
Proof.
  intros Hop. unfold p_typed_cond, cond_of, hole. rewrite <- !app_assoc. read_ident. read_lit.
  read_by (op_reads p (placeholder i (p_value p) ++ rest) Hop). read_lit.
  rewrite (bind_some _ _ _ (param_name i, hole_type (p_value p)) rest); [done|].
  unfold p_hole, placeholder. rewrite <- !app_assoc. read_lit.
  change (bs ":" ++ ?l) with (x3a :: l). read_by (upto_app x3a (param_name i) (hole_type (p_value p) ++ x7d :: rest) (param_name_plain i)).
  by read_by (upto_app x7d (hole_type (p_value p)) rest (hole_type_plain _)).
Qed.

Definition typed_conds (preds : list predicate) : list ((gostring * gostring) * (gostring * gostring)) :=
  imap (fun i p => (cond_of p, hole i p)) preds.

Lemma typed_where_reads preds rest :
  Forall comparison preds -> ends rest -> lit " WHERE " rest = None -> lit " AND " rest = None ->
  p_typed_where (fst (clickhouseWhere preds ∅) ++ rest) = Some (typed_conds preds, rest).
Proof.
  intros Hp Hr H1 H2. unfold p_typed_where, clickhouseWhere. destruct preds as [|p preds].
  { cbn [fst app]. rewrite alt_none; [done|]. unfold mbind, parser_bind. by rewrite H1. }
  destruct (where_parts_spec 0 (p :: preds) ∅) as (params & -> & _ & _). cbn [fst]. apply alt_some. rewrite <- app_assoc. read_lit.
  set (l := p :: preds) in *. unfold typed_conds.
  pose proof (many_app " AND " p_typed_cond
    (fun ip : nat * predicate => quoteIdent (p_column (snd ip)) ++ bs " " ++ p_op (snd ip) ++ bs " " ++ placeholder (fst ip) (p_value (snd ip)))
    (fun ip => (cond_of (snd ip), hole (fst ip) (snd ip))) (imap pair l) rest) as H.
  rewrite !fmap_imap in H. apply H; try done.
  intros [i x] r Hin _. apply typed_cond_reads. apply elem_of_lookup_imap in Hin as (j & y & [= -> ->] & Hy).
  by eapply Forall_lookup in Hp.
Qed.

Lemma typed_query_reads items names preds keys n off :
  items <> [] -> names <> [] -> Forall comparison preds -> 0 <= n ->
  read_all p_typed_query
    (bs "SELECT " ++ join (bs ", ") (quoteIdent <$> items) ++ bs " FROM " ++ join (bs ".") (quoteIdent <$> names) ++ bs " FINAL"
     ++ fst (clickhouseWhere preds ∅) ++ order_text keys ++ bs " LIMIT " ++ itoa n ++ offset_text off)
  = Some (mkQuery (Col <$> items) names (cond_of <$> preds) keys (Z.max 0 off) (Some n), imap hole preds).
Proof.
  intros Hi Hn Hp H0. unfold read_all, p_typed_query. read_lit.
  set (l3 := bs " LIMIT " ++ itoa n ++ offset_text off). set (l2 := order_text keys ++ l3).
  assert (E2 : ends l2 /\ lit " WHERE " l2 = None /\ lit " AND " l2 = None)
    by (unfold l2, l3, order_text; destruct keys; apart).
  assert (E1 : lit "." (bs " FINAL" ++ fst (clickhouseWhere preds ∅) ++ l2) = None) by reflexivity.
  destruct E2 as (? & ? & ?).
  rewrite (bind_some _ _ _ items (bs " FROM " ++ join (bs ".") (quoteIdent <$> names) ++ bs " FINAL" ++ fst (clickhouseWhere preds ∅) ++ l2)).
  2: { rewrite <- (list_fmap_id items) at 2.
       apply (many_app ", " ident quoteIdent id); [done|discriminate|intros; by apply ident_app|apart|apart|apart]. }
  read_lit. read_by (table_reads names (bs " FINAL" ++ fst (clickhouseWhere preds ∅) ++ l2) Hn ltac:(apart) E1). read_lit.
  read_by (typed_where_reads preds l2 Hp ltac:(done) ltac:(done) ltac:(done)). unfold l2.
  read_by (order_reads keys l3 ltac:(apart) ltac:(apart) ltac:(apart)). unfold l3.
  assert (Eo : ends (offset_text off)) by (unfold offset_text; destruct (0 <? off); apart).
  rewrite (bind_some _ _ _ (Some n) (offset_text off)).
  2: { unfold p_limit. apply alt_some. read_lit. by read_by (number_app n (offset_text off) H0 Eo). }
  rewrite <- (app_nil_r (offset_text off)). read_by (offset_reads off [] I ltac:(done)).
  unfold mret, parser_ret, typed_conds. by rewrite !fmap_imap, <- (imap_const cond_of).
Qed.

(** What a value is when it arrives: a time cut to microseconds. *)
Definition received (v : arg) : arg :=
  match v with ATime t => ATime (micros t) | ANil => AStr (bs "<nil>") | v => v end.
Definition arrived (p : predicate) : predicate := mkPred (p_column p) (p_op p) (received (p_value p)).
(** The values the parameter texts can carry. *)
Definition sendable (v : arg) : Prop :=
  match v with ATime t => year4 (utc_date t) | AInt z => int64 z | _ => True end.

Lemma hole_reads params i v text :
  params !! param_name i = Some text -> param_means v text -> sendable v ->
  hole_value params (param_name i, hole_type v) = Some (received v).
Proof.
  intros Hl Hm Hs. unfold hole_value. cbn [fst snd]. rewrite Hl. cbn [mbind option_bind].
  destruct v as [x|z|t|]; cbn [hole_type read_param param_means sendable received] in *; unfold read_param.
  - rewrite decide_True by done. by rewrite Hm.
  - rewrite decide_False, decide_True by done. rewrite Hm, atoi_itoa by done. done.
  - rewrite !decide_False, decide_True by done. rewrite Hm, micros_read by done. done.
  - rewrite decide_True by done. by rewrite Hm.
Qed.

Lemma holes_read preds :
  Forall (fun p => sendable (p_value p)) preds ->
  mapM (hole_value (snd (clickhouseWhere preds ∅))) (imap hole preds) = Some (p_value <$> (arrived <$> preds)).
Proof.
  intros Hs. unfold clickhouseWhere. destruct preds as [|p preds]; [done|].
  destruct (where_parts_spec 0 (p :: preds) ∅) as (params & -> & Hin & _). cbn [snd]. set (l := p :: preds) in *.
  apply mapM_Some. rewrite <- list_fmap_compose. apply Forall2_same_length_lookup_2; [by rewrite length_imap, length_fmap|].
  intros i h v. rewrite list_lookup_imap, list_lookup_fmap. destruct (l !! i) as [x|] eqn:Hx; [|done]. cbn. intros [= <-] [= <-].
  destruct (Hin i x Hx) as (text & Ht & Hm). eapply hole_reads; [exact Ht|exact Hm|]. by eapply Forall_lookup in Hs.
Qed.

Lemma conds_arrived (preds : list predicate) : cond_of <$> preds = cond_of <$> (arrived <$> preds).
Proof. rewrite <- list_fmap_compose. by apply list_fmap_ext. Qed.

(** ** The store over the database *)

(** The filter as it arrives. *)
Definition cut_filter (f : QueryFilter) : QueryFilter :=
  mkFilter (micros (Since f)) (micros (Until f)) (User f) (FilterCatalog f) (State f) (Sort f) (Desc f) (Limit f) (Offset f).
(** A bound that is unset, or a time the parameters can carry. *)
Definition bound_ok (t : time) : Prop := IsZero t = true \/ 0 <= t /\ year4 (utc_date t).

Lemma micros_bounds t : t - 1000 < micros t <= t.
Proof. unfold micros. pose proof (Z.mod_pos_bound t 1000). lia. Qed.

Lemma cut_zero t : bound_ok t -> IsZero (micros t) = IsZero t.
Proof.
  unfold bound_ok, IsZero. intros [E%Z.eqb_eq|[H _]]; [by subst t|].
  assert (0 <= micros t) by (unfold micros; pose proof (Z.mod_le t 1000); lia).
  assert (Hz : zero_time < 0) by done. rewrite !(proj2 (Z.eqb_neq _ _)) by lia. done.
Qed.

Lemma arrived_filter f :
  bound_ok (Since f) -> bound_ok (Until f) -> arrived <$> listPredicates f = listPredicates (cut_filter f).
Proof.
  intros Hs Hu. unfold listPredicates. cbn [Since Until User FilterCatalog State cut_filter]. rewrite !cut_zero by done.
  rewrite !fmap_app. repeat f_equal; by case_match.
Qed.

Lemma sendable_filter f :
  bound_ok (Since f) -> bound_ok (Until f) -> Forall (fun p => sendable (p_value p)) (listPredicates f).
Proof.
  intros Hs Hu. unfold listPredicates.
  repeat apply Forall_app_2; repeat case_match; repeat apply Forall_cons_2; try apply Forall_nil; try exact I; cbn.
  - destruct Hs as [E|[_ Hy]]; [by rewrite E in *|exact Hy].
  - destruct Hu as [E|[_ Hy]]; [by rewrite E in *|exact Hy].
Qed.

Section reading.
Context {W : Type} (conn : chConn W) (scan_err : gerror) (cfg : ClickHouseConfig) (table : W -> list Row) (up : W -> Prop).
#[local] Abbreviation s := (newClickHouseStore cfg).

Definition ch_names : list gostring := [cc_Database cfg; cc_Table cfg].
Context (server : typed_server conn ch_names table up).

(** What [ListQueries] and [GetQuery] ask. *)
Definition ch_list_query (f : QueryFilter) : query :=
  mkQuery (Col <$> summaryColumns) ch_names (cond_of <$> listPredicates f) (list_keys f) (Z.max 0 (Offset f)) (Some (pageLimit f)).
Definition ch_get_query (preds : list predicate) : query :=
  mkQuery (Col <$> (name <$> schemaColumns)) ch_names (cond_of <$> preds) [] 0 (Some 1).

Lemma ch_list_stmt_reads f :
  read_all p_typed_query (ch_list_stmt s f) = Some (ch_list_query f, imap hole (listPredicates f)).
Proof.
  unfold ch_list_query. rewrite <- (typed_query_reads summaryColumns ch_names (listPredicates f) (list_keys f) (pageLimit f) (Offset f))
    by (done || apply listPredicates_comparison || (pose proof (pageLimit_range f); lia)).
  f_equal. unfold ch_list_stmt, newClickHouseStore. cbn [cs_summarySelect]. rewrite orderBy_eq. unfold offset_text, comma, order_text, list_keys.
  cbn [fmap list_fmap join ch_names]. unfold key_text. cbn [fst snd]. by rewrite <- !app_assoc.
Qed.

Lemma ch_get_stmt_reads preds :
  Forall comparison preds ->
  read_all p_typed_query (cs_rowSelect s ++ fst (clickhouseWhere preds ∅) ++ bs " LIMIT 1") = Some (ch_get_query preds, imap hole preds).
Proof.
  intros Hp. unfold ch_get_query. change 0 with (Z.max 0 0) at 1.
  rewrite <- (typed_query_reads (name <$> schemaColumns) ch_names preds [] 1 0) by (done || discriminate).
  apply (f_equal (read_all p_typed_query)). unfold newClickHouseStore. cbn [cs_rowSelect order_text offset_text ch_names].
  rewrite <- list_fmap_compose. change (join (bs ".") _) with (quoteIdent (cc_Database cfg) ++ bs "." ++ quoteIdent (cc_Table cfg)).
  change (offset_text 0) with (@nil byte). rewrite app_nil_r. rewrite <- !app_assoc. unfold compose, comma. reflexivity.
Qed.

Lemma ch_asks text q preds w :
  up w -> read_all p_typed_query text = Some (q, imap hole preds) -> q_table q = ch_names -> known q = true ->
  q_where q = cond_of <$> preds -> Forall (fun p => sendable (p_value p)) preds ->
  exists vs, ch_query conn text (snd (clickhouseWhere preds ∅)) w = inr (vs, None) /\ answers q (arrived <$> preds) (table w) vs.
Proof using server.
  intros Hu Hq Ht Hk Hw Hs. eapply server; [done|exact Hq|done|done|by apply holes_read|].
  rewrite Hw, conds_arrived. apply with_values_of.
Qed.

(** C27. A listing from ClickHouse, whose values travel beside the text: with the
    bounds of the filter cut to microseconds, as the parameters carry them, it
    is the summaries of the rows that match, sorted by the filter's column (ties
    by query id), from the offset and up to the page size. *)
Theorem ch_listing f w :
  up w -> NoDup (QueryID <$> table w) -> bound_ok (Since f) -> bound_ok (Until f) ->
  ch_ListQueries conn s scan_err f w
  = (summary_of_row <$> slice_to (slice_from (listing (cut_filter f) (table w)) (Offset f)) (pageLimit f), None).
Proof using server.
  intros Hu Hnd Hs Hn. unfold ch_ListQueries.
  destruct (ch_asks (ch_list_stmt s f) (ch_list_query f) (listPredicates f) w Hu (ch_list_stmt_reads f) eq_refl) as (vs & -> & Ha).
  { unfold known. cbn [q_items q_where q_order ch_list_query list_keys]. rewrite predicates_known, andb_true_r.
    unfold list_keys. cbn [forallb fst]. rewrite (bool_decide_eq_true_2 (is_Some (column_field (sortColumn f)))) by apply sorted_known. by vm_compute. }
  { done. }
  { by apply sendable_filter. }
  rewrite arrived_filter in Ha by done. apply (list_answers _ (cut_filter f)) in Ha; [|reflexivity|intros r; reflexivity|exact Hnd].
  rewrite (scan_summaries_rows scan_err vs _ [] Ha). unfold page. cbn [app q_offset q_limit ch_list_query].
  replace (slice_from (listing (cut_filter f) (table w)) (Z.max 0 (Offset f)))
    with (slice_from (listing (cut_filter f) (table w)) (Offset f)); [done|].
  unfold slice_from. f_equal. lia.
Qed.

Lemma window_midnights id from to :
  queryIDWindow id = Some (from, to) -> from mod 1000 = 0 /\ to mod 1000 = 0.
Proof.
  unfold queryIDWindow, queryIDDay. destruct (len id <? 8); [done|]. destruct (parse_yyyymmdd _) as [day|] eqn:E; [|done].
  apply parse_yyyymmdd_inv in E as E'. destruct E' as (c & Hv & Hy & Hs). rewrite Hs, parse_format_date in E by done.
  injection E as <-. intros [= <- <-]. rewrite !AddDays_add. change Day with (86400000000 * 1000).
  split; (replace (_ + _) with ((days_of_date c * 86400000000 - 86400000000) * 1000) by ring)
      || (replace (_ + _) with ((days_of_date c * 86400000000 + 2 * 86400000000) * 1000) by ring); apply Z_mod_mult.
Qed.

(** C28. [GetQuery] on ClickHouse finds a query exactly when the table holds it:
    a row with that id, created within a day of the date the id begins with
    (a date whose neighbours have four-digit years). *)
Theorem ch_lookup id w :
  up w -> NoDup (QueryID <$> table w) ->
  (forall from to, queryIDWindow id = Some (from, to) -> year4 (utc_date from) /\ year4 (utc_date to)) ->
  snd (ch_GetQuery conn s scan_err id w) = None
  /\ forall r, fst (ch_GetQuery conn s scan_err id w) = Some r
       <-> r ∈ table w /\ QueryID r = id
           /\ exists from to, queryIDWindow id = Some (from, to) /\ from <= CreateTime r < to.
Proof using server.
  intros Hu Hnd Hy. unfold ch_GetQuery, queryIDPredicates. destruct (queryIDWindow id) as [[from to]|] eqn:Ew.
  2: { split; [done|]. intros r. split; [done|]. by intros (_ & _ & from & to & ? & _). }
  destruct (Hy from to eq_refl) as [Hyf Hyt]. destruct (window_midnights id from to Ew) as [Hmf Hmt].
  set (preds := [_; _; _]).
  assert (Ha : arrived <$> preds = preds).
  { unfold preds, arrived. cbn [fmap list_fmap p_column p_op p_value received]. unfold micros. rewrite Hmf, Hmt. by rewrite !Z.sub_0_r. }
  destruct (clickhouseWhere preds ∅) as [where_ params] eqn:Ec.
  destruct (ch_asks (cs_rowSelect s ++ fst (clickhouseWhere preds ∅) ++ bs " LIMIT 1") (ch_get_query preds) preds w Hu) as (vs & Hq & Hans).
  { apply ch_get_stmt_reads. repeat apply Forall_cons_2; try apply Forall_nil; apply (bool_decide_unpack _); by vm_compute. }
  { done. }
  { by vm_compute. }
  { done. }
  { unfold preds. repeat apply Forall_cons_2; try apply Forall_nil; try exact I; done. }
  rewrite Ec in Hq. cbn [fst snd] in Hq. rewrite Hq. rewrite Ha in Hans.
  apply (find_by_window _ id from to) in Hans; [|intros r; reflexivity|reflexivity|reflexivity|exact Hnd].
  split; [by destruct Hans as [[-> _]|(r0 & l & -> & _)]; [|rewrite scan_args]|]. intros r.
  transitivity (r ∈ table w /\ QueryID r = id /\ from <= CreateTime r < to); [|rewrite <- Ew; by apply in_window].
  destruct Hans as [[-> Hno]|(r0 & l & -> & Hr0)]; [|rewrite scan_args]; cbn [fst]; [apply Hno|apply Hr0].
Qed.
End reading.

(** ** A database that reads its queries *)

Definition ref_conn (names : list gostring) : chConn (list Row) := {|
  ch_exec _ t := (t, None);
  ch_query text params t :=
    default (inl not_understood)
      (qh ← read_all p_typed_query text;
       vals ← mapM (hole_value params) (snd qh);
       preds ← (if decide (q_table (fst qh) = names) then with_values (q_where (fst qh)) vals else None);
       vs ← run_query (fst qh) preds t;
       Some (inr (vs, None)));
  ch_rows_close _ := None;
  ch_prepare _ _ t := (t, None);
  ch_append _ t := (t, None);
  ch_abort t := t;
  ch_send t := (t, None)
|}.

Lemma reference_typed_server names : typed_server (ref_conn names) names id (fun _ => True).
Proof.
  intros text params w q holes vals preds _ Hq Ht Hk Hv Hw. destruct (run_query_answers q preds w Hk) as (vs & E & Ha).
  exists vs. split; [|exact Ha]. cbn [ch_query ref_conn]. rewrite Hq. cbn [mbind option_bind snd fst]. rewrite Hv.
  cbn [mbind option_bind]. rewrite decide_True, Hw by done. cbn [mbind option_bind]. by rewrite E.
Qed.

Definition demo_click : ClickHouseConfig := mkClickHouseConfig (bs "logs") (bs "queries") 0.

(** The row created a nanosecond before the bound is cut off with it. *)
Lemma ch_listing_witness :
  fst (ch_ListQueries (ref_conn (ch_names demo_click)) (newClickHouseStore demo_click) (errText "scan") by_cpu demo_table)
  = summary_of_row <$> [demo_row "19700102_000000_00001_aaaaa" Day 7].
Proof.
  rewrite (ch_listing _ (errText "scan") demo_click id (fun _ => True) (reference_typed_server _) by_cpu demo_table I demo_table_ids).
  - by vm_compute.
  - right. split; [by vm_compute|]. vm_compute. split; discriminate.
  - right. split; [by vm_compute|]. vm_compute. split; discriminate.
Defined.

Lemma ch_lookup_witness :
  let get id := ch_GetQuery (ref_conn (ch_names demo_click)) (newClickHouseStore demo_click) (errText "scan") (bs id) demo_table in
  fst (get "19700102_000000_00002_aaaaa"%string) = Some (demo_row "19700102_000000_00002_aaaaa" (Day + Hour) 9)
  /\ snd (get "19700102_000000_00002_aaaaa"%string) = None.
Proof.
  cbv zeta. assert (Hw : queryIDWindow (bs "19700102_000000_00002_aaaaa") = Some (0, 3 * Day)) by (vm_compute; reflexivity).
  destruct (ch_lookup _ (errText "scan") demo_click id (fun _ => True) (reference_typed_server _) (bs "19700102_000000_00002_aaaaa")
    demo_table I demo_table_ids) as [He Hr].
  { intros from to H. rewrite Hw in H. injection H as <- <-. split; vm_compute; split; discriminate. }
  split; [|exact He]. apply Hr. split; [right; left|]. split; [reflexivity|].
  exists 0, (3 * Day). split; [exact Hw|]. vm_compute. split; [discriminate|reflexivity].
Defined.
