(* ===== verification/EndToEnd.v ===== *)
(** * EndToEnd: from a received event to the answers of the API

    The ingest handler, the buffer, the Trino store, a database that reads its
    statements, and the JSON API, in one run. *)

From S2P Require Import Prelude Errors GoTime Row Event EventRow Store Query Trino Metrics Buffer BufferSpec BufferTheorems TrinoTheorems Ingest IngestTheorems Url Api ApiTheorems Sql SqlTheorems.

Section run.
Context {W : Type} (exec : gostring -> list arg -> W -> W * option gerror).
Context (ask : gostring -> list arg -> W -> gerror + (list (list arg) * option gerror)) (scan_err : gerror).
Context (cfg : TrinoConfig) (table : W -> list Row) (keep : Row -> Row) (up : W -> Prop).
Context (server : sql_server exec ask (table_names cfg) table keep up).
#[local] Abbreviation s := (NewTrino cfg).
#[local] Abbreviation clamp := (fun r => clampRow s r (stmt_budget s)).

(** The reads of the store, as [Backend.trino_backend] wires them. *)
Definition trino_reader : Reader W := {|
  ListQueries f w := (w, trino_ListQueries ask scan_err s f w);
  GetQuery id w := (w, trino_GetQuery ask scan_err s id w)
|}.
#[local] Existing Instance trino_reader.

Lemma trino_store_lists f w :
  up w -> NoDup (QueryID <$> table w) ->
  store_lists (fun w' => w' = w) f (summary_of_row <$> listing f (table w)).
Proof using server.
  intros Hu Hnd limit offset w' ->. exists w. split; [done|]. cbn [ListQueries trino_reader].
  rewrite (trino_lists exec ask scan_err cfg table keep up server _ w Hu Hnd). do 3 f_equal.
  unfold slice_to, slice_from. by rewrite fmap_take, fmap_drop.
Qed.

Context (icfg : IngestConfig) (Decode : gostring * bool -> option Event) (unmarshal_inputs : gostring -> list InputMetadata).
Context (bcfg : Config) (w0 : W).

(** C4. What goes in comes out.  At any moment of any run of the sink, while the
    database is up (it answers, and runs no statement any more) and its table
    holds each query once and no more than 100,000 of them (the largest offset
    the API accepts): the table is what it started
    with, the clamped rows counted as flushed, none more often than it was sent,
    and rows of INSERTs that were carried out although they failed, if any; a
    client that follows the pages of the listing API, each resolved at its own
    time, while nothing is written and no row enters or leaves the range it asks
    for, gets exactly the rows of the table that match its filter, in the order
    it asked for; and each row is answered under its query id, if it was created
    within a day of the date in that id. *)
Theorem events_come_back sk h clock q fuel :
  let w := world (buffer sk) in
  0 < ig_MaxFieldBytes icfg < 2 ^ 47 ->
  sink_reachable (H := trino_writer exec cfg) icfg Decode bcfg w0 sk h ->
  up w -> NoDup (QueryID <$> table w) -> len (table w) <= apiMaxOffset -> (length (table w) < fuel)%nat ->
  (forall i r, (i < fuel)%nat -> r ∈ table w ->
     filter_matches (buildQueryFilter (clock i) q) r = filter_matches (buildQueryFilter (clock 0%nat) q) r) ->
  exists rows hidden,
    table w ≡ₚ table w0 ++ (keep <$> (clamp <$> rows ++ hidden))
    /\ rowsFlushed (metrics (buffer sk)) = wrap64 (len rows)
    /\ rows ⊆+ offered icfg Decode (answered sk)
    /\ hidden ⊆+ copies (attempts_max bcfg) (offered icfg Decode (answered sk))
    /\ (nothing_hidden exec cfg table -> hidden = [])
    /\ walk fuel clock q 0 w = summary_of_row <$> listing (buildQueryFilter (clock 0%nat) q) (table w)
    /\ forall r from to, r ∈ table w -> queryIDWindow (QueryID r) = Some (from, to) -> from <= CreateTime r < to ->
         exists d, handleAPIGetQuery unmarshal_inputs (QueryID r) w = (w, WriteJSON 200 d) /\ qr_Row d = r.
Proof using server.
  intros w Hm Hr Hu Hnd Hlen Hf Hclock.
  destruct (sink_table icfg Decode exec cfg table keep (server_exec_laws exec ask cfg table keep up server) bcfg w0 sk h Hm Hr)
    as (rows & hidden & Ht & Hfl & Hrows & Hhid & Hs).
  exists rows, hidden. split_and!; [exact Ht|done..|intros sure; by apply Hs| |].
  - set (l := listing (buildQueryFilter (clock 0%nat) q) (table w)).
    assert (Hl : (length (summary_of_row <$> l) <= length (table w))%nat).
    { unfold l. rewrite length_fmap, (Permutation_length (listing_perm _ _)). apply length_filter. }
    rewrite (walk_from (fun w' => w' = w) fuel clock q (summary_of_row <$> l)); try done.
    + intros i Hi. unfold l. rewrite <- (listing_ext (buildQueryFilter (clock i) q)); [by apply trino_store_lists|..|auto];
        unfold buildQueryFilter; by destruct (resolveRange q) as [[? ?] ?].
    + unfold len in *. lia.
    + pose proof (len_nonneg (summary_of_row <$> l)). lia.
    + unfold len. lia.
  - intros r from to Hin Hw Hc. unfold handleAPIGetQuery. cbn [GetQuery trino_reader].
    destruct (trino_finds exec ask scan_err cfg table keep up server (QueryID r) w Hu Hnd) as [He Hg].
    pose proof (proj2 (Hg r) (conj Hin (conj eq_refl (ex_intro _ from (ex_intro _ to (conj Hw Hc)))))) as Hfst.
    destruct (trino_GetQuery _ _ _ _ _) as [o e]. cbn [fst snd] in *. subst o e. by eexists.
Qed.
End run.

(** ** A concrete run

    Two events are received and flushed together, over the database that reads
    its statements. *)

Definition demo_names : list gostring := table_names demo_trino.
Definition id1 : gostring := bs "19700102_000000_00001_aaaaa".
Definition id2 : gostring := bs "19700102_000000_00002_aaaaa".
Definition two_requests : list sink_label :=
  [Arrive id1; Arrive id2; Answer 0 Sent; Answer 0 Sent; Inner Recv; Inner Recv; Inner (Attempt 0 5)].
Definition demo_run : sink (list Row) * history :=
  default (new_sink [], no_history)
    (sink_trace (H := trino_writer (ref_exec demo_names) demo_trino) demo_ingest demo_decode demo_cfg two_requests (new_sink []) no_history).
Definition newest_first : Values := Set_ (bs "dir") (bs "desc") (Set_ (bs "limit") (bs "1") ∅).

(** The requests of the client, a second apart. *)
Definition page_clock (i : nat) : time := Day + Hour + Z.of_nat i * Second.

Lemma checked_all (P : nat -> Row -> bool) n l :
  forallb (fun i => forallb (P i) l) (seq 0 n) = true -> forall i r, (i < n)%nat -> r ∈ l -> P i r = true.
Proof.
  rewrite forallb_forall. intros H i r Hi Hr. specialize (H i). rewrite forallb_forall in H.
  apply H; [apply in_seq; lia|by apply list_elem_of_In].
Qed.

Lemma events_come_back_witness :
  let w := world (buffer (fst demo_run)) in
  let reader := trino_reader (ref_ask demo_names) (errText "scan") demo_trino in
  qs_QueryID <$> walk (H := reader) 3 page_clock newest_first 0 w = [id2; id1]
  /\ exists d, handleAPIGetQuery (H := reader) (fun _ => []) id2 w = (w, WriteJSON 200 d) /\ QueryID (qr_Row d) = id2.
Proof.
  cbv zeta.
  destruct (events_come_back (ref_exec demo_names) (ref_ask demo_names) (errText "scan") demo_trino id micros_row (fun _ => True)
    (reference_server demo_names) demo_ingest demo_decode (fun _ => []) demo_cfg [] (fst demo_run) (snd demo_run) page_clock newest_first 3)
    as (rows & hidden & _ & _ & _ & _ & _ & Hwalk & Hget).
  - vm_compute. split; reflexivity.
  - apply (sink_trace_reachable (H := trino_writer (ref_exec demo_names) demo_trino) _ _ _ _ two_requests (new_sink []) no_history);
      [constructor|]. vm_compute. reflexivity.
  - exact I.
  - apply (bool_decide_unpack _). vm_compute. exact I.
  - vm_compute. discriminate.
  - vm_compute. lia.
  - intros i r Hi Hr. refine (eqb_prop _ _ (checked_all (fun i r =>
      Bool.eqb (filter_matches (buildQueryFilter (page_clock i) newest_first) r)
               (filter_matches (buildQueryFilter (page_clock 0) newest_first) r)) 3 _ _ i r Hi Hr)).
    vm_compute. reflexivity.
  - split; [rewrite Hwalk; vm_compute; reflexivity|].
    destruct (world (buffer (fst demo_run))) as [|r1 [|r2 l]] eqn:E;
      [apply (f_equal length) in E; vm_compute in E; discriminate E..|].
    assert (Hid : QueryID r2 = id2) by (apply (f_equal (fun w => QueryID (nth 1 w zero_row))) in E; cbn [nth] in E; rewrite <- E; vm_compute; reflexivity).
    assert (Hc : CreateTime r2 = Day) by (apply (f_equal (fun w => CreateTime (nth 1 w zero_row))) in E; cbn [nth] in E; rewrite <- E; vm_compute; reflexivity).
    destruct (Hget r2 0 (3 * Day)) as (d & Hd & Hr).
    + right. left.
    + rewrite Hid. vm_compute. reflexivity.
    + rewrite Hc. vm_compute. split; [discriminate|reflexivity].
    + rewrite Hid in Hd. exists d. split; [exact Hd|]. by rewrite Hr.
Defined.
