(* ===== verification/Config.v ===== *)
(** * Config: [internal/config/config.go]

    Loading the configuration from the environment: every variable is read and
    parsed, all the errors are collected, and the result is validated.  [%q] of
    a raw value is a parameter. *)

From S2P Require Import Prelude Errors GoTime Utf8 Float64 EventRow Api.

Definition BackendTrino : gostring := bs "trino".
Definition BackendClickHouse : gostring := bs "clickhouse".
Definition ReadinessConnection : gostring := bs "connection".
Definition ReadinessTable : gostring := bs "table".

Record Trino_ := mkTrino {
  tr_Host : gostring;
  tr_Port : Z;
  tr_User : gostring;
  tr_Source : gostring;
  tr_Catalog : gostring;
  tr_Schema : gostring;
  tr_Table : gostring;
  tr_Password : gostring;
  tr_AccessToken : gostring;
  tr_SSL : bool;
  tr_QueryTimeout : Duration;
  tr_MaxStatementBytes : Z;
  tr_IcebergLocation : gostring
}.

Record ClickHouse_ := mkClickHouse {
  chc_Addr : gostring;
  chc_Database : gostring;
  chc_Table : gostring;
  chc_User : gostring;
  chc_Password : gostring;
  chc_TLS : bool;
  chc_TLSInsecure : bool;
  chc_TLSCA : gostring;
  chc_DialTimeout : Duration;
  chc_QueryTimeout : Duration;
  chc_MaxBatchBytes : Z
}.

Record Cache_ := mkCache {
  ca_Addr : gostring;
  ca_Password : gostring;
  ca_DB : Z;
  ca_TLS : bool;
  ca_ListTTL : Duration;
  ca_QueryTTL : Duration;
  ca_Timeout : Duration
}.

Record Readiness_ := mkReadiness {
  rd_Mode : gostring;
  rd_Interval : Duration;
  rd_FailInterval : Duration;
  rd_Timeout : Duration
}.

Record Config := mkConfig {
  cf_ListenAddr : gostring;
  cf_StoreBackend : gostring;
  cf_Trino : Trino_;
  cf_ClickHouse : ClickHouse_;
  cf_Cache : Cache_;
  cf_Readiness : Readiness_;
  cf_BatchSize : Z;
  cf_FlushInterval : Duration;
  cf_BufferCapacity : Z;
  cf_FlushMaxRetries : Z;
  cf_FlushRetryBackoff : Duration;
  cf_FlushRetryMaxBackoff : Duration;
  cf_MaxFieldBytes : Z;
  cf_PlanCapture : gostring;
  cf_PlanCaptureMinWall : Duration;
  cf_PreviewBytes : Z;
  cf_RetentionDays : Z;
  cf_MaintainRetention : gostring;
  cf_OptimizeDays : Z;
  cf_MetricsEnabled : bool;
  cf_LogLevel : gostring
}.

Definition minClickHouseBatchBytes : Z := Z.shiftl 1 20.

(** [^[A-Za-z_][A-Za-z0-9_]{0,63}$]. *)
Definition is_letter (b : byte) : bool :=
  in_range 65 90 (bv b) || in_range 97 122 (bv b) || (bv b =? 95).
Definition identifierPattern (s : gostring) : bool :=
  match s with
  | [] => false
  | b :: t => is_letter b && forallb (fun c => is_letter c || is_digit c) t && (len t <=? 63)
  end.

(** ** The standard library's parsers *)

(** [strconv.ParseBool]. *)
Definition ParseBool (s : gostring) : option bool :=
  if decide (s ∈ [bs "1"; bs "t"; bs "T"; bs "TRUE"; bs "true"; bs "True"]) then Some true
  else if decide (s ∈ [bs "0"; bs "f"; bs "F"; bs "FALSE"; bs "false"; bs "False"]) then Some false
  else None.

(** [unitMap] of [time.ParseDuration]; the two spellings of the micro sign. *)
Definition unitMap (u : gostring) : option Duration :=
  if decide (u = bs "ns") then Some Nanosecond
  else if decide (u = bs "us" \/ u = [xc2; xb5; x73] \/ u = [xce; xbc; x73]) then Some Microsecond
  else if decide (u = bs "ms") then Some Millisecond
  else if decide (u = bs "s") then Some Second
  else if decide (u = bs "m") then Some Minute
  else if decide (u = bs "h") then Some Hour
  else None.

(** [leadingInt]: the digits' value, or overflow. *)
Fixpoint leadingInt (x : Z) (s : gostring) : option (Z * gostring) :=
  match s with
  | b :: t =>
      if is_digit b then
        if 2 ^ 63 / 10 <? x then None
        else let x := x * 10 + (bv b - 48) in if 2 ^ 63 <? x then None else leadingInt x t
      else Some (x, s)
  | [] => Some (x, [])
  end.

(** [leadingFraction]: digits past the precision are skipped; the scale is a
    power of ten, exact as a double. *)
Fixpoint leadingFraction (x scale : Z) (overflow : bool) (s : gostring) : Z * Z * gostring :=
  match s with
  | b :: t =>
      if is_digit b then
        if overflow then leadingFraction x scale true t
        else if (2 ^ 63 - 1) / 10 <? x then leadingFraction x scale true t
        else
          let y := x * 10 + (bv b - 48) in
          if 2 ^ 63 <? y then leadingFraction x scale true t else leadingFraction y (scale * 10) false t
      else (x, scale, s)
  | [] => (x, scale, [])
  end.

(** [uint64(float64(f) * (float64(unit) / scale))]. *)
Definition fmul (a b : float) : float :=
  match a, b with
  | Finite n1 m1 e1, Finite n2 m2 e2 =>
      round (xorb n1 n2) (m1 * m2 * 2 ^ Z.max 0 (e1 + e2)) (2 ^ Z.max 0 (- (e1 + e2)))
  | _, _ => Inf false
  end.
Definition fraction_of (f unit scale : Z) : Z :=
  default 0 (trunc (fmul (round false f 1) (round false unit scale))).

(** The unit: everything up to the next digit or period. *)
Fixpoint span_unit (s : gostring) : gostring * gostring :=
  match s with
  | [] => ([], [])
  | b :: t => if bool_decide (b = x2e) || is_digit b then ([], s) else let '(u, rest) := span_unit t in (b :: u, rest)
  end.

(** The loop of [time.ParseDuration]; every pass consumes a unit. *)
Fixpoint duration_loop (fuel : nat) (s : gostring) (d : Z) : option Z :=
  match fuel, s with
  | _, [] => Some d
  | O, _ => None
  | S fuel, b :: _ =>
      if negb (bool_decide (b = x2e) || is_digit b) then None
      else
        match leadingInt 0 s with
        | None => None
        | Some (v, s1) =>
            let pre := len s1 <? len s in
            let '(f, scale, s2, post) :=
              match s1 with
              | x2e :: t => let '(f, scale, s2) := leadingFraction 0 1 false t in (f, scale, s2, len s2 <? len t)
              | _ => (0, 1, s1, false)
              end in
            if negb pre && negb post then None
            else
              match span_unit s2 with
              | ([], _) => None
              | (u, s3) =>
                  match unitMap u with
                  | None => None
                  | Some unit =>
                      if 2 ^ 63 / unit <? v then None
                      else
                        let v := v * unit in
                        let v := if 0 <? f then v + fraction_of f unit scale else v in
                        if 2 ^ 63 <? v then None
                        else
                          let d := (d + v) mod 2 ^ 64 in
                          if 2 ^ 63 <? d then None else duration_loop fuel s3 d
                  end
              end
        end
  end.

Definition ParseDuration (s : gostring) : option Duration :=
  let '(neg, s) := span_sign s in
  if decide (s = bs "0") then Some 0
  else
    match s with
    | [] => None
    | _ =>
        match duration_loop (length s) s 0 with
        | None => None
        | Some d =>
            if (neg : bool) then Some (- d)
            else if 2 ^ 63 - 1 <? d then None
            else Some d
        end
    end.

(** The first and last index of a byte. *)
Definition index_byte (c : byte) (s : gostring) : option nat := fst <$> list_find (fun b => b = c) s.
Definition last_index_byte (c : byte) (s : gostring) : option nat :=
  match index_byte c (reverse s) with None => None | Some i => Some (length s - 1 - i)%nat end.
Definition has_byte (c : byte) (s : gostring) : bool :=
  match index_byte c s with None => false | Some _ => true end.

(** [net.SplitHostPort]. *)
Definition SplitHostPort (hostport : gostring) : option (gostring * gostring) :=
  match last_index_byte x3a hostport with
  | None => None
  | Some i =>
      let parts :=
        if decide (head hostport = Some x5b) then
          match index_byte x5d hostport with
          | None => None
          | Some e => if decide ((e + 1)%nat = i) then Some (drop 1 (take e hostport), 1%nat, (e + 1)%nat) else None
          end
        else
          let host := take i hostport in
          if has_byte x3a host then None else Some (host, 0%nat, 0%nat) in
      match parts with
      | None => None
      | Some (host, j, k) =>
          if has_byte x5b (drop j hostport) || has_byte x5d (drop k hostport) then None
          else Some (host, drop (S i) hostport)
      end
  end.

Definition validHostPort (addr : gostring) : bool :=
  match SplitHostPort addr with
  | None => false
  | Some (host, port) =>
      if decide (host = []) then false
      else match atoi port with None => false | Some n => (1 <=? n) && (n <=? 65535) end
  end.

(** ** Validation *)

Definition add (cond : bool) (msg : string) : list gerror := if cond then [errText msg] else [].

Definition Enabled (c : Cache_) : bool := negb (bool_decide (ca_Addr c = [])).

Definition validate_backend (c : Config) : list gerror :=
  if decide (cf_StoreBackend c = BackendTrino) then []
  else if decide (cf_StoreBackend c = BackendClickHouse) then
    let ch := cf_ClickHouse c in
    add (negb (validHostPort (chc_Addr ch))) "CLICKHOUSE_ADDR must be set to host:port when STORE_BACKEND=clickhouse" ++
    add (negb (identifierPattern (chc_Database ch))) "CLICKHOUSE_DATABASE must be a plain identifier (letters, digits, underscore)" ++
    add (negb (identifierPattern (chc_Table ch))) "CLICKHOUSE_TABLE must be a plain identifier (letters, digits, underscore)" ++
    add (bool_decide (chc_User ch = [])) "CLICKHOUSE_USER must not be empty" ++
    add (chc_DialTimeout ch <=? 0) "CLICKHOUSE_DIAL_TIMEOUT must be > 0" ++
    add (chc_QueryTimeout ch <=? 0) "CLICKHOUSE_QUERY_TIMEOUT must be > 0" ++
    add (chc_MaxBatchBytes ch <? minClickHouseBatchBytes) "CLICKHOUSE_MAX_BATCH_BYTES must be >= 1048576" ++
    add (chc_TLSInsecure ch && negb (chc_TLS ch)) "CLICKHOUSE_TLS_INSECURE requires CLICKHOUSE_TLS=true" ++
    add (negb (bool_decide (chc_TLSCA ch = [])) && negb (chc_TLS ch)) "CLICKHOUSE_TLS_CA requires CLICKHOUSE_TLS=true"
  else add true "STORE_BACKEND must be one of trino, clickhouse".

Definition validate (c : Config) : list gerror :=
  add (bool_decide (tr_Host (cf_Trino c) = [])) "TRINO_HOST must not be empty" ++
  add ((tr_Port (cf_Trino c) <? 1) || (65535 <? tr_Port (cf_Trino c))) "TRINO_PORT must be in 1..65535" ++
  add (bool_decide (tr_User (cf_Trino c) = [])) "TRINO_USER must not be empty" ++
  add (bool_decide (tr_Source (cf_Trino c) = [])) "TRINO_SOURCE must not be empty" ++
  add (bool_decide (tr_Catalog (cf_Trino c) = [])) "TRINO_CATALOG must not be empty" ++
  add (bool_decide (tr_Schema (cf_Trino c) = [])) "TRINO_SCHEMA must not be empty" ++
  add (bool_decide (tr_Table (cf_Trino c) = [])) "TRINO_TABLE must not be empty" ++
  add (cf_BatchSize c <? 1) "BATCH_SIZE must be >= 1" ++
  add (cf_FlushInterval c <=? 0) "FLUSH_INTERVAL must be > 0" ++
  add (cf_BufferCapacity c <? 1) "BUFFER_CAPACITY must be >= 1" ++
  add (cf_FlushMaxRetries c <? 0) "FLUSH_MAX_RETRIES must be >= 0" ++
  add (cf_FlushRetryBackoff c <=? 0) "FLUSH_RETRY_BACKOFF must be > 0" ++
  add (cf_FlushRetryMaxBackoff c <? cf_FlushRetryBackoff c) "FLUSH_RETRY_MAX_BACKOFF must be >= FLUSH_RETRY_BACKOFF" ++
  add (tr_MaxStatementBytes (cf_Trino c) <? 16384) "MAX_STATEMENT_BYTES must be >= 16384" ++
  add (cf_MaxFieldBytes c <? 1024) "MAX_FIELD_BYTES must be >= 1024" ++
  add (cf_RetentionDays c <? 0) "RETENTION_DAYS must be >= 0" ++
  add (cf_OptimizeDays c <? 0) "OPTIMIZE_DAYS must be >= 0" ++
  add (rd_Interval (cf_Readiness c) <=? 0) "READINESS_INTERVAL must be > 0" ++
  add (rd_FailInterval (cf_Readiness c) <=? 0) "READINESS_FAIL_INTERVAL must be > 0" ++
  add (rd_Timeout (cf_Readiness c) <=? 0) "READINESS_TIMEOUT must be > 0" ++
  add (cf_PlanCaptureMinWall c <? 0) "PLAN_CAPTURE_MIN_WALL must be >= 0" ++
  add (cf_PreviewBytes c <? 1) "QUERY_PREVIEW_BYTES must be >= 1" ++
  validate_backend c ++
  add (negb (bool_decide (rd_Mode (cf_Readiness c) ∈ [ReadinessConnection; ReadinessTable])))
    "READINESS_MODE must be one of connection, table" ++
  add (negb (bool_decide (cf_PlanCapture c ∈ [PlanCaptureAll; PlanCaptureSlowOrFailed; PlanCaptureNone])))
    "PLAN_CAPTURE must be one of all, slow_or_failed, none" ++
  (if Enabled (cf_Cache c) then
     add (ca_DB (cf_Cache c) <? 0) "REDIS_DB must be >= 0" ++
     add (ca_ListTTL (cf_Cache c) <=? 0) "CACHE_LIST_TTL must be > 0 when REDIS_ADDR is set" ++
     add (ca_QueryTTL (cf_Cache c) <=? 0) "CACHE_QUERY_TTL must be > 0 when REDIS_ADDR is set" ++
     add (ca_Timeout (cf_Cache c) <=? 0) "CACHE_TIMEOUT must be > 0 when REDIS_ADDR is set"
   else []) ++
  add (negb (bool_decide (cf_LogLevel c ∈ [bs "debug"; bs "info"; bs "warn"; bs "error"])))
    "LOG_LEVEL must be one of debug, info, warn, error".

(** ** Reading the environment *)

(** [env]: the errors so far, threaded through the reads. *)
Definition env (A : Type) : Type := list gerror -> A * list gerror.
#[export] Instance env_ret : MRet env := fun A a errs => (a, errs).
#[export] Instance env_bind : MBind env := fun A B k m errs => let '(a, errs) := m errs in k a errs.

Section load.
(** [os.LookupEnv], and [%q]. *)
Context (LookupEnv : gostring -> option gostring) (quote : gostring -> gostring).

Definition env_str (key def : gostring) : gostring :=
  match LookupEnv key with Some v => if decide (v = []) then def else v | None => def end.

Definition env_parse {A} (parse : gostring -> option A) (what : string) (key : gostring) (def : A) : env A :=
  fun errs =>
    match LookupEnv key with
    | None | Some [] => (def, errs)
    | Some raw =>
        match parse (TrimSpace raw) with
        | Some v => (v, errs)
        | None => (def, errs ++ [Leaf (EText (key ++ bs ": invalid " ++ bs what ++ bs " " ++ quote raw))])
        end
    end.
Definition env_intVal : gostring -> Z -> env Z := env_parse atoi "integer".
Definition env_boolVal : gostring -> bool -> env bool := env_parse ParseBool "boolean".
Definition env_duration : gostring -> Duration -> env Duration := env_parse ParseDuration "duration".

(** The literal of [Load], field by field. *)
Definition read_config : env Config :=
  let xListenAddr := env_str (bs "LISTEN_ADDR") (bs ":8080") in
  let xStoreBackend := env_str (bs "STORE_BACKEND") BackendTrino in
  let xTrinoHost := env_str (bs "TRINO_HOST") (bs "trino-cluster-trino.trino") in
  xTrinoPort ← env_intVal (bs "TRINO_PORT") 8080;
  let xTrinoUser := env_str (bs "TRINO_USER") (bs "trino-query-log") in
  let xTrinoSource := env_str (bs "TRINO_SOURCE") (bs "trino-query-log") in
  let xTrinoCatalog := env_str (bs "TRINO_CATALOG") (bs "gravitino") in
  let xTrinoSchema := env_str (bs "TRINO_SCHEMA") (bs "observability") in
  let xTrinoTable := env_str (bs "TRINO_TABLE") (bs "trino_query_log") in
  let xTrinoPassword := env_str (bs "TRINO_PASSWORD") [] in
  let xTrinoAccessToken := env_str (bs "TRINO_ACCESS_TOKEN") [] in
  xTrinoSSL ← env_boolVal (bs "TRINO_SSL") false;
  xTrinoQueryTimeout ← env_duration (bs "TRINO_QUERY_TIMEOUT") (60 * Second);
  xTrinoMaxStatementBytes ← env_intVal (bs "MAX_STATEMENT_BYTES") 700000;
  let xTrinoIcebergLocation := env_str (bs "ICEBERG_LOCATION") [] in
  let vTrino := mkTrino xTrinoHost xTrinoPort xTrinoUser xTrinoSource xTrinoCatalog xTrinoSchema xTrinoTable
      xTrinoPassword xTrinoAccessToken xTrinoSSL xTrinoQueryTimeout xTrinoMaxStatementBytes
      xTrinoIcebergLocation in
  let xClickHouseAddr := env_str (bs "CLICKHOUSE_ADDR") [] in
  let xClickHouseDatabase := env_str (bs "CLICKHOUSE_DATABASE") (bs "observability") in
  let xClickHouseTable := env_str (bs "CLICKHOUSE_TABLE") (bs "trino_query_log") in
  let xClickHouseUser := env_str (bs "CLICKHOUSE_USER") (bs "default") in
  let xClickHousePassword := env_str (bs "CLICKHOUSE_PASSWORD") [] in
  xClickHouseTLS ← env_boolVal (bs "CLICKHOUSE_TLS") false;
  xClickHouseTLSInsecure ← env_boolVal (bs "CLICKHOUSE_TLS_INSECURE") false;
  let xClickHouseTLSCA := env_str (bs "CLICKHOUSE_TLS_CA") [] in
  xClickHouseDialTimeout ← env_duration (bs "CLICKHOUSE_DIAL_TIMEOUT") (5 * Second);
  xClickHouseQueryTimeout ← env_duration (bs "CLICKHOUSE_QUERY_TIMEOUT") (60 * Second);
  xClickHouseMaxBatchBytes ← env_intVal (bs "CLICKHOUSE_MAX_BATCH_BYTES") (Z.shiftl 8 20);
  let vClickHouse := mkClickHouse xClickHouseAddr xClickHouseDatabase xClickHouseTable xClickHouseUser
      xClickHousePassword xClickHouseTLS xClickHouseTLSInsecure xClickHouseTLSCA xClickHouseDialTimeout
      xClickHouseQueryTimeout xClickHouseMaxBatchBytes in
  let xCacheAddr := env_str (bs "REDIS_ADDR") [] in
  let xCachePassword := env_str (bs "REDIS_PASSWORD") [] in
  xCacheDB ← env_intVal (bs "REDIS_DB") 0;
  xCacheTLS ← env_boolVal (bs "REDIS_TLS") false;
  xCacheListTTL ← env_duration (bs "CACHE_LIST_TTL") (10 * Minute);
  xCacheQueryTTL ← env_duration (bs "CACHE_QUERY_TTL") Hour;
  xCacheTimeout ← env_duration (bs "CACHE_TIMEOUT") (250 * Millisecond);
  let vCache := mkCache xCacheAddr xCachePassword xCacheDB xCacheTLS xCacheListTTL xCacheQueryTTL xCacheTimeout in
  let xReadinessMode := env_str (bs "READINESS_MODE") ReadinessConnection in
  xReadinessInterval ← env_duration (bs "READINESS_INTERVAL") (30 * Second);
  xReadinessFailInterval ← env_duration (bs "READINESS_FAIL_INTERVAL") (30 * Second);
  xReadinessTimeout ← env_duration (bs "READINESS_TIMEOUT") (10 * Second);
  let vReadiness := mkReadiness xReadinessMode xReadinessInterval xReadinessFailInterval xReadinessTimeout in
  xBatchSize ← env_intVal (bs "BATCH_SIZE") 100;
  xFlushInterval ← env_duration (bs "FLUSH_INTERVAL") (5 * Second);
  xBufferCapacity ← env_intVal (bs "BUFFER_CAPACITY") 10000;
  xFlushMaxRetries ← env_intVal (bs "FLUSH_MAX_RETRIES") 3;
  xFlushRetryBackoff ← env_duration (bs "FLUSH_RETRY_BACKOFF") Second;
  xFlushRetryMaxBackoff ← env_duration (bs "FLUSH_RETRY_MAX_BACKOFF") (30 * Second);
  xMaxFieldBytes ← env_intVal (bs "MAX_FIELD_BYTES") 300000;
  let xPlanCapture := env_str (bs "PLAN_CAPTURE") PlanCaptureSlowOrFailed in
  xPlanCaptureMinWall ← env_duration (bs "PLAN_CAPTURE_MIN_WALL") (10 * Second);
  xPreviewBytes ← env_intVal (bs "QUERY_PREVIEW_BYTES") 200;
  xRetentionDays ← env_intVal (bs "RETENTION_DAYS") 7;
  let xMaintainRetention := env_str (bs "MAINTAIN_RETENTION") (bs "7d") in
  xOptimizeDays ← env_intVal (bs "OPTIMIZE_DAYS") 1;
  xMetricsEnabled ← env_boolVal (bs "METRICS_ENABLED") true;
  let xLogLevel := env_str (bs "LOG_LEVEL") (bs "info") in
  mret (mkConfig xListenAddr xStoreBackend vTrino vClickHouse vCache vReadiness xBatchSize xFlushInterval
      xBufferCapacity xFlushMaxRetries xFlushRetryBackoff xFlushRetryMaxBackoff xMaxFieldBytes xPlanCapture
      xPlanCaptureMinWall xPreviewBytes xRetentionDays xMaintainRetention xOptimizeDays xMetricsEnabled
      xLogLevel).

(** [Load]: the configuration, or all the errors joined. *)
Definition Load : Config + gerror :=
  let '(cfg, errs) := read_config [] in
  match errors_Join (errs ++ validate cfg) with
  | Some err => inr err
  | None => inl cfg
  end.
End load.

Definition StoreQueryTimeout (c : Config) : Duration :=
  if decide (cf_StoreBackend c = BackendClickHouse) then chc_QueryTimeout (cf_ClickHouse c)
  else tr_QueryTimeout (cf_Trino c).

Definition StoreTarget (c : Config) : gostring :=
  let ch := cf_ClickHouse c in
  let t := cf_Trino c in
  if decide (cf_StoreBackend c = BackendClickHouse) then
    bs "clickhouse://" ++ chc_Addr ch ++ bs "/" ++ chc_Database ch ++ bs "." ++ chc_Table ch
  else
    bs "trino://" ++ tr_Host t ++ bs ":" ++ itoa (tr_Port t) ++ bs "/" ++ tr_Catalog t ++ bs "." ++ tr_Schema t
    ++ bs "." ++ tr_Table t.
