(* ===== verification/ConfigTheorems.v ===== *)
(** * ConfigTheorems: what a loaded configuration guarantees

    Validation against its readable form, the errors [Load] reports, and the
    duration syntax of the variables. *)

From S2P Require Import Prelude Errors GoTime Utf8 Float64 EventRow Api Config.

(** ** Validation *)

Record clickhouse_ok (c : ClickHouse_) : Prop := {
  ok_addr : validHostPort (chc_Addr c) = true;
  ok_database : identifierPattern (chc_Database c) = true;
  ok_ch_table : identifierPattern (chc_Table c) = true;
  ok_ch_user : chc_User c <> [];
  ok_dial : 0 < chc_DialTimeout c;
  ok_ch_timeout : 0 < chc_QueryTimeout c;
  ok_batch_bytes : minClickHouseBatchBytes <= chc_MaxBatchBytes c;
  ok_insecure : chc_TLSInsecure c = true -> chc_TLS c = true;
  ok_ca : chc_TLSCA c <> [] -> chc_TLS c = true;
}.

Record cache_ok (c : Cache_) : Prop := {
  ok_db : 0 <= ca_DB c;
  ok_list_ttl : 0 < ca_ListTTL c;
  ok_query_ttl : 0 < ca_QueryTTL c;
  ok_cache_timeout : 0 < ca_Timeout c;
}.

(** What the service relies on. *)
Record config_ok (c : Config) : Prop := {
  ok_host : tr_Host (cf_Trino c) <> [];
  ok_port : 1 <= tr_Port (cf_Trino c) <= 65535;
  ok_user : tr_User (cf_Trino c) <> [];
  ok_source : tr_Source (cf_Trino c) <> [];
  ok_catalog : tr_Catalog (cf_Trino c) <> [];
  ok_schema : tr_Schema (cf_Trino c) <> [];
  ok_table : tr_Table (cf_Trino c) <> [];
  ok_batch : 1 <= cf_BatchSize c;
  ok_flush : 0 < cf_FlushInterval c;
  ok_capacity : 1 <= cf_BufferCapacity c;
  ok_retries : 0 <= cf_FlushMaxRetries c;
  ok_backoff : 0 < cf_FlushRetryBackoff c <= cf_FlushRetryMaxBackoff c;
  ok_statement : 16384 <= tr_MaxStatementBytes (cf_Trino c);
  ok_field : 1024 <= cf_MaxFieldBytes c;
  ok_retention : 0 <= cf_RetentionDays c;
  ok_optimize : 0 <= cf_OptimizeDays c;
  ok_readiness : 0 < rd_Interval (cf_Readiness c) /\ 0 < rd_FailInterval (cf_Readiness c) /\ 0 < rd_Timeout (cf_Readiness c);
  ok_min_wall : 0 <= cf_PlanCaptureMinWall c;
  ok_preview : 1 <= cf_PreviewBytes c;
  ok_backend : cf_StoreBackend c = BackendTrino
               \/ cf_StoreBackend c = BackendClickHouse /\ clickhouse_ok (cf_ClickHouse c);
  ok_mode : rd_Mode (cf_Readiness c) = ReadinessConnection \/ rd_Mode (cf_Readiness c) = ReadinessTable;
  ok_plan : cf_PlanCapture c ∈ [PlanCaptureAll; PlanCaptureSlowOrFailed; PlanCaptureNone];
  ok_cache : ca_Addr (cf_Cache c) <> [] -> cache_ok (cf_Cache c);
  ok_log : cf_LogLevel c ∈ [bs "debug"; bs "info"; bs "warn"; bs "error"];
}.

Lemma add_nil b msg : add b msg = [] <-> b = false.
Proof. by destruct b. Qed.

(** The checks that passed, as propositions, in a hypothesis and in the goal. *)
Ltac passed :=
  repeat match goal with
  | H : _ ++ _ = [] |- _ => apply app_nil in H as [? H]
  | H : add _ _ = [] |- _ => apply add_nil in H
  | H : (_ || _) = false |- _ => apply orb_false_iff in H as [? H]
  | H : negb _ = false |- _ => apply negb_false_iff in H
  | H : bool_decide _ = true |- _ => apply bool_decide_eq_true in H
  | H : bool_decide _ = false |- _ => apply bool_decide_eq_false in H
  | H : (_ <? _) = false |- _ => apply Z.ltb_ge in H
  | H : (_ <=? _) = false |- _ => apply Z.leb_gt in H
  end.
Ltac pass :=
  repeat match goal with
  | |- _ ++ _ = [] => apply app_nil; split
  | |- add _ _ = [] => apply add_nil
  | |- (_ || _) = false => apply orb_false_iff; split
  | |- negb _ = false => apply negb_false_iff
  | |- bool_decide _ = true => apply bool_decide_eq_true
  | |- bool_decide _ = false => apply bool_decide_eq_false
  | |- (_ <? _) = false => apply Z.ltb_ge
  | |- (_ <=? _) = false => apply Z.leb_gt
  end.

Lemma validate_backend_ok c :
  validate_backend c = []
  <-> cf_StoreBackend c = BackendTrino \/ cf_StoreBackend c = BackendClickHouse /\ clickhouse_ok (cf_ClickHouse c).
Proof.
  unfold validate_backend. case_decide as E1; [tauto|]. case_decide as E2; [|naive_solver]. split.
  - intros H. passed. right. split; [done|]. split; try assumption.
    + intros Hi. match goal with Hx : chc_TLSInsecure _ && _ = false |- _ => rewrite Hi in Hx; by destruct (chc_TLS _) end.
    + intros Hi. rewrite bool_decide_eq_false_2 in H by done. by destruct (chc_TLS _).
  - intros [?|[_ []]]; [done|]. pass; try assumption.
    + destruct (chc_TLSInsecure _); [|done]. by rewrite ok_insecure0.
    + case_bool_decide; [done|]. by rewrite ok_ca0.
Qed.

Lemma validate_rules c : validate c = [] <-> config_ok c.
Proof.
  unfold validate, Enabled. split.
  - intros H. passed. split; try assumption; try (split; assumption).
    + split_and!; assumption.
    + by apply validate_backend_ok.
    + match goal with Hx : rd_Mode _ ∈ _ |- _ => rewrite !elem_of_cons, elem_of_nil in Hx; tauto end.
    + intros Hne. match goal with Hx : (if _ then _ else _) = [] |- _ => rewrite bool_decide_eq_false_2 in Hx by done; cbn [negb] in Hx end.
      passed. by split.
  - intros []. pass; try assumption; try lia.
    + by apply validate_backend_ok.
    + destruct ok_mode0 as [-> | ->]; apply (bool_decide_unpack (_ ∈ _)); vm_compute; exact I.
    + case_bool_decide as E; [done|]. cbn [negb]. destruct (ok_cache0 E). by pass.
Qed.

(** ** Errors *)

(** The variables that are parsed, in the order they are read. *)
Inductive kind := KInt | KBool | KDuration.
Definition variables : list (gostring * kind) :=
  [
    (bs "TRINO_PORT", KInt); (bs "TRINO_SSL", KBool); (bs "TRINO_QUERY_TIMEOUT", KDuration);
    (bs "MAX_STATEMENT_BYTES", KInt); (bs "CLICKHOUSE_TLS", KBool); (bs "CLICKHOUSE_TLS_INSECURE", KBool);
    (bs "CLICKHOUSE_DIAL_TIMEOUT", KDuration); (bs "CLICKHOUSE_QUERY_TIMEOUT", KDuration);
    (bs "CLICKHOUSE_MAX_BATCH_BYTES", KInt); (bs "REDIS_DB", KInt); (bs "REDIS_TLS", KBool);
    (bs "CACHE_LIST_TTL", KDuration); (bs "CACHE_QUERY_TTL", KDuration); (bs "CACHE_TIMEOUT", KDuration);
    (bs "READINESS_INTERVAL", KDuration); (bs "READINESS_FAIL_INTERVAL", KDuration);
    (bs "READINESS_TIMEOUT", KDuration); (bs "BATCH_SIZE", KInt); (bs "FLUSH_INTERVAL", KDuration);
    (bs "BUFFER_CAPACITY", KInt); (bs "FLUSH_MAX_RETRIES", KInt); (bs "FLUSH_RETRY_BACKOFF", KDuration);
    (bs "FLUSH_RETRY_MAX_BACKOFF", KDuration); (bs "MAX_FIELD_BYTES", KInt);
    (bs "PLAN_CAPTURE_MIN_WALL", KDuration); (bs "QUERY_PREVIEW_BYTES", KInt); (bs "RETENTION_DAYS", KInt);
    (bs "OPTIMIZE_DAYS", KInt); (bs "METRICS_ENABLED", KBool)].

Section load.
Context (LookupEnv : gostring -> option gostring) (quote : gostring -> gostring).

Definition parses (k : kind) (s : gostring) : bool :=
  match k with
  | KInt => bool_decide (is_Some (atoi s))
  | KBool => bool_decide (is_Some (ParseBool s))
  | KDuration => bool_decide (is_Some (ParseDuration s))
  end.
Definition kind_name (k : kind) : string :=
  match k with KInt => "integer" | KBool => "boolean" | KDuration => "duration" end.

(** The complaint about one variable, when it is set and does not parse. *)
Definition complaint (v : gostring * kind) : list gerror :=
  match LookupEnv (fst v) with
  | None | Some [] => []
  | Some raw =>
      if parses (snd v) (TrimSpace raw) then []
      else [Leaf (EText (fst v ++ bs ": invalid " ++ bs (kind_name (snd v)) ++ bs " " ++ quote raw))]
  end.

Lemma env_parse_complaint {A} (parse : gostring -> option A) k key def errs :
  (forall s, parses k s = bool_decide (is_Some (parse s))) ->
  env_parse LookupEnv quote parse (kind_name k) key def errs
  = (fst (env_parse LookupEnv quote parse (kind_name k) key def []), errs ++ complaint (key, k)).
Proof.
  intros Hp. unfold env_parse, complaint. cbn [fst snd].
  destruct (LookupEnv key) as [[|b raw]|]; [by rewrite app_nil_r| |by rewrite app_nil_r].
  generalize (TrimSpace (b :: raw)) as x. intros x. rewrite Hp. destruct (parse x) as [v|].
  - by rewrite bool_decide_eq_true_2, app_nil_r by by eexists.
  - by rewrite bool_decide_eq_false_2 by apply is_Some_None.
Qed.

Lemma env_int_complaint key def errs :
  env_intVal LookupEnv quote key def errs
  = (fst (env_intVal LookupEnv quote key def []), errs ++ complaint (key, KInt)).
Proof. by apply (env_parse_complaint atoi KInt). Qed.
Lemma env_bool_complaint key def errs :
  env_boolVal LookupEnv quote key def errs
  = (fst (env_boolVal LookupEnv quote key def []), errs ++ complaint (key, KBool)).
Proof. by apply (env_parse_complaint ParseBool KBool). Qed.
Lemma env_duration_complaint key def errs :
  env_duration LookupEnv quote key def errs
  = (fst (env_duration LookupEnv quote key def []), errs ++ complaint (key, KDuration)).
Proof. by apply (env_parse_complaint ParseDuration KDuration). Qed.

Lemma bind_int {B} key def (k : Z -> env B) errs :
  mbind k (env_intVal LookupEnv quote key def) errs
  = k (fst (env_intVal LookupEnv quote key def [])) (errs ++ complaint (key, KInt)).
Proof. unfold mbind, env_bind. by rewrite env_int_complaint. Qed.
Lemma bind_bool {B} key def (k : bool -> env B) errs :
  mbind k (env_boolVal LookupEnv quote key def) errs
  = k (fst (env_boolVal LookupEnv quote key def [])) (errs ++ complaint (key, KBool)).
Proof. unfold mbind, env_bind. by rewrite env_bool_complaint. Qed.
Lemma bind_duration {B} key def (k : Duration -> env B) errs :
  mbind k (env_duration LookupEnv quote key def) errs
  = k (fst (env_duration LookupEnv quote key def [])) (errs ++ complaint (key, KDuration)).
Proof. unfold mbind, env_bind. by rewrite env_duration_complaint. Qed.

Lemma read_config_errors : snd (read_config LookupEnv quote []) = mjoin (complaint <$> variables).
Proof.
  unfold read_config. cbn zeta. repeat first [rewrite bind_int | rewrite bind_bool | rewrite bind_duration].
  unfold mret, env_ret. cbn [snd]. unfold variables. rewrite !fmap_cons, !mjoin_cons. cbn [fmap list_fmap mjoin list_join].
  rewrite app_nil_r, !app_nil_l. by rewrite <- ?app_assoc.
Qed.

(** C14. Loading succeeds exactly when every set variable parses and the
    configuration is one the service can rely on; otherwise the error joins
    every complaint, about each variable that does not parse and each rule that
    is broken, so none hides another. *)
Theorem load_reports_everything :
  let c := fst (read_config LookupEnv quote []) in
  let complaints := mjoin (complaint <$> variables) in
  match Load LookupEnv quote with
  | inl cfg => cfg = c /\ config_ok c /\ forall v, v ∈ variables -> complaint v = []
  | inr err => err = Joined (complaints ++ validate c) /\ (complaints <> [] \/ ~ config_ok c)
  end.
Proof.
  cbn zeta. unfold Load. pose proof read_config_errors as He. destruct (read_config LookupEnv quote []) as [c errs].
  cbn [fst snd] in *. subst errs. destruct (mjoin (complaint <$> variables)) as [|e l] eqn:El.
  - cbn [app]. destruct (validate c) as [|e l] eqn:Ev; cbn [errors_Join].
    + apply validate_rules in Ev. split_and!; [done|done|]. intros v Hv. destruct (complaint v) as [|x m] eqn:Ec; [done|].
      assert (Hx : x ∈ mjoin (complaint <$> variables)).
      { apply list_elem_of_join. exists (complaint v). split; [rewrite Ec; by left|by apply list_elem_of_fmap_2]. }
      rewrite El in Hx. by apply elem_of_nil in Hx.
    + split; [done|right]. intros Hok%validate_rules. congruence.
  - cbn. split; [done|by left].
Qed.

Lemma load_ok c : Load LookupEnv quote = inl c -> config_ok c.
Proof.
  unfold Load. destruct (read_config LookupEnv quote []) as [c' errs].
  destruct (errors_Join (errs ++ validate c')) eqn:E; [done|]. intros [= <-].
  destruct errs as [|x l]; [|done]. cbn [app] in E. destruct (validate c') eqn:Ev; [|done]. by apply validate_rules.
Qed.
End load.

(** ** Durations *)

Lemma leadingInt_digits ds rest x :
  forallb is_digit ds = true -> match rest with b :: _ => is_digit b = false | [] => True end -> 0 <= x ->
  foldl (fun a b => a * 10 + (bv b - 48)) x ds <= 2 ^ 63 ->
  leadingInt x (ds ++ rest) = Some (foldl (fun a b => a * 10 + (bv b - 48)) x ds, rest).
Proof.
  assert (Hmono : forall l a, forallb is_digit l = true -> 0 <= a -> a <= foldl (fun a b => a * 10 + (bv b - 48)) a l).
  { induction l as [|b l IH]; intros a Hl Ha; [simpl; lia|]. cbn in Hl |- *. apply andb_prop in Hl as [Hb Hl].
    unfold is_digit in Hb. specialize (IH (a * 10 + (bv b - 48)) Hl ltac:(lia)). lia. }
  intros Hd Hr. revert x. induction ds as [|b ds IH]; intros x Hx Hb.
  - destruct rest as [|c rest]; [done|]. cbn. by rewrite Hr.
  - cbn [forallb] in Hd. apply andb_prop in Hd as [Hc Hd]. cbn [foldl] in Hb |- *. cbn [app leadingInt]. rewrite Hc.
    unfold is_digit in Hc. pose proof (Hmono ds (x * 10 + (bv b - 48)) Hd ltac:(lia)).
    destruct (Z.ltb_spec (2 ^ 63 / 10) x); [Z.to_euclidean_division_equations; lia|]. cbn zeta.
    destruct (Z.ltb_spec (2 ^ 63) (x * 10 + (bv b - 48))); [lia|]. apply IH; [done|lia|done].
Qed.

Lemma span_unit_app u rest :
  forallb (fun b => negb (bool_decide (b = x2e) || is_digit b)) u = true ->
  match rest with b :: _ => is_digit b = true | [] => True end -> span_unit (u ++ rest) = (u, rest).
Proof.
  intros Hu Hr. induction u as [|b u IH]; cbn.
  - destruct rest as [|c rest]; [done|]. cbn. by rewrite Hr, orb_true_r.
  - cbn in Hu. apply andb_prop in Hu as [Hb Hu]. apply negb_true_iff in Hb. rewrite Hb. by rewrite IH.
Qed.

(** The units, and what the loop reads of one. *)
Lemma unit_text u unit :
  unitMap u = Some unit ->
  1 <= unit <= Hour /\ forallb (fun b => negb (bool_decide (b = x2e) || is_digit b)) u = true
  /\ exists b t, u = b :: t /\ is_digit b = false /\ b <> x2e.
Proof.
  unfold unitMap. repeat case_decide; intros [= <-]; subst; try (destruct_or!; subst);
    (split; [vm_compute; split; discriminate|split; [reflexivity|eexists _, _; split_and!; [reflexivity|reflexivity|done]]]).
Qed.

(** A number of one unit. *)
Record term := mkTerm { t_count : Z; t_unit : gostring }.
Definition term_text (t : term) : gostring := udec (t_count t) ++ t_unit t.
Definition term_value (t : term) : Z := t_count t * default 0 (unitMap (t_unit t)).
Definition term_ok (t : term) : Prop := 0 <= t_count t /\ is_Some (unitMap (t_unit t)).

Lemma udec_head n : 0 <= n -> exists b t, udec n = b :: t /\ is_digit b = true.
Proof.
  intros Hn. pose proof (udec_nonempty n Hn). pose proof (udec_digits n Hn) as Hd. destruct (udec n) as [|b t]; [done|].
  apply andb_prop in Hd as [? _]. by exists b, t.
Qed.

Lemma terms_head ts : Forall term_ok ts -> match mjoin (term_text <$> ts) with b :: _ => is_digit b = true | [] => True end.
Proof.
  destruct 1 as [|t ts [Ht _] _]; [done|]. rewrite fmap_cons, mjoin_cons. unfold term_text.
  destruct (udec_head _ Ht) as (b & l & -> & Hb). done.
Qed.

Lemma term_value_nonneg t : term_ok t -> 0 <= term_value t.
Proof. intros [Hc [unit Hu]]. unfold term_value. rewrite Hu. apply unit_text in Hu as [Hr _]. cbn. nia. Qed.

Lemma duration_loop_terms fuel ts d :
  Forall term_ok ts -> (length ts <= fuel)%nat -> 0 <= d -> d + sumZ (term_value <$> ts) <= 2 ^ 63 ->
  duration_loop fuel (mjoin (term_text <$> ts)) d = Some (d + sumZ (term_value <$> ts)).
Proof.
  intros Hts. revert fuel d. induction Hts as [|t ts Ht Hts IH]; intros fuel d Hf Hd Hb.
  { destruct fuel; cbn; by rewrite Z.add_0_r. }
  destruct fuel as [|fuel]; [simpl in Hf; lia|]. rewrite fmap_cons, mjoin_cons. rewrite sumZ_fmap_cons in Hb |- *.
  pose proof (terms_head ts Hts) as Hrest. pose proof (term_value_nonneg t Ht) as Hv.
  assert (Hs : 0 <= sumZ (term_value <$> ts)).
  { apply sumZ_nonneg, Forall_fmap. eapply Forall_impl; [exact Hts|]. intros q. apply term_value_nonneg. }
  destruct Ht as [Hc [unit Hu]]. pose proof (unit_text _ _ Hu) as (Hr & Hun & b & u & Eu & Hb1 & Hb2).
  assert (Ev : term_value t = t_count t * unit) by (unfold term_value; by rewrite Hu). rewrite Ev in Hv, Hb |- *.
  assert (Hcu : t_count t <= t_count t * unit) by nia.
  set (rest := mjoin (term_text <$> ts)) in *. unfold term_text. rewrite <- app_assoc.
  destruct (udec_head _ Hc) as (c & l & El & Hdc).
  assert (Hlead : leadingInt 0 (udec (t_count t) ++ t_unit t ++ rest) = Some (t_count t, t_unit t ++ rest)).
  { pose proof (leadingInt_digits (udec (t_count t)) (t_unit t ++ rest) 0) as Hl.
    change (foldl _ 0 (udec (t_count t))) with (dec_val (udec (t_count t))) in Hl. rewrite dec_val_udec in Hl by done.
    apply Hl; [by apply udec_digits|by rewrite Eu|lia|lia]. }
  assert (Hlen : len (t_unit t ++ rest) <? len (udec (t_count t) ++ t_unit t ++ rest) = true).
  { apply Z.ltb_lt. rewrite (len_app (udec _)). pose proof (udec_len_pos _ Hc). lia. }
  set (s := udec (t_count t) ++ t_unit t ++ rest) in *.
  assert (Hs0 : exists l', s = c :: l') by (unfold s; rewrite El; by eexists). destruct Hs0 as [l' Hs0].
  cbn [duration_loop]. rewrite Hs0. rewrite <- Hs0, Hdc, orb_true_r. cbn [negb]. rewrite Hlead. cbn zeta. rewrite Hlen.
  assert (Hp : match t_unit t ++ rest with
               | x2e :: t0 => let '(f, scale, s2) := leadingFraction 0 1 false t0 in (f, scale, s2, len s2 <? len t0)
               | _ => (0, 1, t_unit t ++ rest, false)
               end = (0, 1, t_unit t ++ rest, false)) by (rewrite Eu; cbn [app]; by destruct b).
  rewrite Hp. cbn [negb andb]. rewrite span_unit_app by done. rewrite Eu. rewrite <- Eu, Hu.
  destruct (Z.ltb_spec (2 ^ 63 / unit) (t_count t)); [Z.to_euclidean_division_equations; nia|].
  change (0 <? 0) with false. cbn match. destruct (Z.ltb_spec (2 ^ 63) (t_count t * unit)); [lia|].
  rewrite Z.mod_small by lia. destruct (Z.ltb_spec (2 ^ 63) (d + t_count t * unit)); [lia|].
  unfold rest. rewrite IH; [f_equal; lia|simpl in Hf; lia|lia|lia].
Qed.

Lemma terms_len ts : Forall term_ok ts -> (length ts <= length (mjoin (term_text <$> ts)))%nat.
Proof.
  induction 1 as [|t ts [Ht _] _ IH]; [done|]. rewrite fmap_cons, mjoin_cons, length_app.
  assert (1 <= length (term_text t))%nat; [|simpl; lia].
  unfold term_text. destruct (udec_head _ Ht) as (b & l & -> & _). simpl. lia.
Qed.

(** A duration written as whole numbers of units, like [1h30m] or [-250ms],
    is read as their sum, when that fits an int64. *)
Theorem durations_read ts neg :
  Forall term_ok ts -> ts <> [] -> sumZ (term_value <$> ts) <= max_int64 ->
  ParseDuration ((if (neg : bool) then bs "-" else []) ++ mjoin (term_text <$> ts))
  = Some (if neg then - sumZ (term_value <$> ts) else sumZ (term_value <$> ts)).
Proof.
  intros Hts Hne Hb. unfold max_int64 in Hb. set (s := mjoin (term_text <$> ts)).
  assert (Hh : exists b l, s = b :: l /\ is_digit b = true).
  { pose proof (terms_head ts Hts) as Hh. fold s in Hh. pose proof (terms_len ts Hts) as Hl. fold s in Hl.
    destruct s as [|b l]; [destruct ts; [done|simpl in Hl; lia]|]. by exists b, l. }
  destruct Hh as (b & l & Es & Hb0).
  assert (Hz : s <> bs "0").
  { destruct Hts as [|t ts [Hc [unit Hu]] _]; [done|]. apply unit_text in Hu as (_ & _ & c & u & Eu & _).
    unfold s. rewrite fmap_cons, mjoin_cons. unfold term_text. destruct (udec_head _ Hc) as (b' & l' & -> & _).
    rewrite Eu. cbn. intros [= _ E]. by destruct l'. }
  assert (Hsign : span_sign ((if neg then bs "-" else []) ++ s) = (neg, s)).
  { destruct neg; [done|]. rewrite Es. cbn. destruct b; done. }
  unfold ParseDuration. rewrite Hsign, decide_False by done. rewrite Es. rewrite <- Es.
  unfold s. rewrite duration_loop_terms; [|done|by apply terms_len|done|lia].
  rewrite Z.add_0_l. destruct neg; [done|]. destruct (Z.ltb_spec (2 ^ 63 - 1) (sumZ (term_value <$> ts))); [lia|done].
Qed.

Lemma durations_read_witness : ParseDuration (bs "1h30m") = Some (90 * Minute).
Proof.
  apply (durations_read [mkTerm 1 (bs "h"); mkTerm 30 (bs "m")] false).
  - repeat (apply Forall_cons; split; [split; [discriminate|by eexists]|]). by apply Forall_nil.
  - discriminate.
  - vm_compute. discriminate.
Defined.
