(* ===== verification/Redis.v ===== *)
(** * Redis: [internal/cache/redis.go]

    The cache over a Redis server.  The commands of the go-redis client are
    parameters, with the error it reports for an absent key, [redis.Nil]. *)

From S2P Require Import Prelude Errors GoTime Cache CacheTheorems Config.

(** The client's options; [ro_TLS] holds the minimum TLS version, if any. *)
Record redis_Options := mkRedisOptions {
  ro_Addr : gostring;
  ro_Password : gostring;
  ro_DB : Z;
  ro_PoolSize : Z;
  ro_DialTimeout : Duration;
  ro_ReadTimeout : Duration;
  ro_WriteTimeout : Duration;
  ro_PoolTimeout : Duration;
  ro_MaxRetries : Z;
  ro_TLS : option gostring
}.

Definition NewRedis (c : Cache_) : redis_Options := {|
  ro_Addr := ca_Addr c;
  ro_Password := ca_Password c;
  ro_DB := ca_DB c;
  ro_PoolSize := 10;
  ro_DialTimeout := ca_Timeout c;
  ro_ReadTimeout := ca_Timeout c;
  ro_WriteTimeout := ca_Timeout c;
  ro_PoolTimeout := ca_Timeout c;
  ro_MaxRetries := -1;
  ro_TLS := if ca_TLS c then Some (bs "1.2") else None
|}.

Section redis.
Context {C : Type} (Nil : leaf).
(** The client's [GET] (the bytes or its error) and [SET]. *)
Context (cmd_Get : gostring -> C -> C * (gerror + gostring)) (cmd_Set : gostring -> gostring -> Duration -> C -> C * option gerror).

Definition redis_Get (key : gostring) (c : C) : C * cache_result :=
  match cmd_Get key c with
  | (c, inl err) => (c, if errors_Is Nil err then Miss else Unavailable err)
  | (c, inr b) => (c, Hit b)
  end.

Definition redis : Cache.Cache C := {| cache_Get := redis_Get; cache_Set := cmd_Set |}.

(** What the cached reads ask of a cache follows from what the server does: a
    [GET] returns live entries only, a [SET] adds at most its own. *)
Lemma redis_cache_laws (entries : C -> list (gostring * gostring * time)) (clock : C -> time) :
  (forall k c c' r, cmd_Get k c = (c', r) ->
     clock c <= clock c' /\ entries c' ⊆ entries c
     /\ forall b, r = inr b -> exists exp, (k, b, exp) ∈ entries c /\ clock c' < exp) ->
  (forall k b ttl c c' e, cmd_Set k b ttl c = (c', e) ->
     clock c <= clock c' /\ entries c' ⊆ (k, b, clock c' + ttl) :: entries c) ->
  cache_laws redis entries clock.
Proof.
  intros Hget Hset. split; [|exact Hset]. intros k c c' r. cbn [cache_Get redis]. unfold redis_Get.
  destruct (cmd_Get k c) as [c1 [err|b0]] eqn:E; apply Hget in E as (Hc & He & Hb); intros [= <- <-]; split_and!; try done;
    intros b Eb; [by destruct (errors_Is Nil err)|]. injection Eb as <-. by apply Hb.
Qed.
End redis.
