(* ===== verification/Backend.v ===== *)
(** * Backend: [internal/store/factory.go] and how the stores are opened

    The [Backend] that [Open] returns, over either store, with the settings of
    [config.Trino] and [config.ClickHouse] that reach each part of it.  What the
    drivers do with the options they are given is a parameter. *)

From S2P Require Import Prelude Errors GoTime Url Row Store Query Trino ClickHouse Float64 FloatFmt Config.

(** [store.Backend]: [Store] and [SchemaManager], over a world [W]. *)
Record Backend (W : Type) := mkBackend {
  be_writer : Writer W;
  be_reader : Reader W;
  be_Validate : W -> option gerror;
  be_ValidateTable : W -> option gerror;
  be_Prune : time -> W -> W * option gerror;
  be_Maintain : gostring -> W -> W * option gerror;
  be_Optimize : time -> W -> W * option gerror;
  be_Init : W -> W * option gerror;
  be_DDLScript : gostring;
  be_Close : W -> W * option gerror
}.
Arguments mkBackend {W}.
Arguments be_writer {W}.
Arguments be_reader {W}.
Arguments be_Validate {W}.
Arguments be_ValidateTable {W}.
Arguments be_Prune {W}.
Arguments be_Maintain {W}.
Arguments be_Optimize {W}.
Arguments be_Init {W}.
Arguments be_DDLScript {W}.
Arguments be_Close {W}.

(** ** Trino *)

(** The [trino.Config] that [NewTrino] formats into a DSN. *)
Record TrinoDSN := mkTrinoDSN {
  dsn_ServerURI : gostring;
  dsn_Source : gostring;
  dsn_Catalog : gostring;
  dsn_Schema : gostring;
  dsn_DisableExplicitPrepare : bool;
  dsn_AccessToken : gostring;
  dsn_QueryTimeout : option Duration
}.

(** [url.URL.String] for a scheme, a user and a host. *)
Definition userinfo (t : Trino_) : gostring :=
  escape encodeUserPassword (tr_User t)
  ++ (if decide (tr_Password t = []) then [] else bs ":" ++ escape encodeUserPassword (tr_Password t)).
Definition trino_uri (t : Trino_) : gostring :=
  (if tr_SSL t then bs "https" else bs "http") ++ bs "://" ++ userinfo t ++ bs "@"
  ++ escape encodeHost (tr_Host t ++ bs ":" ++ itoa (tr_Port t)).

Definition trino_dsn (t : Trino_) : TrinoDSN := {|
  dsn_ServerURI := trino_uri t;
  dsn_Source := tr_Source t;
  dsn_Catalog := tr_Catalog t;
  dsn_Schema := tr_Schema t;
  dsn_DisableExplicitPrepare := true;
  dsn_AccessToken := tr_AccessToken t;
  dsn_QueryTimeout := if 0 <? tr_QueryTimeout t then Some (tr_QueryTimeout t) else None
|}.

Definition trino_settings (t : Trino_) : TrinoConfig :=
  mkTrinoConfig (tr_Catalog t) (tr_Schema t) (tr_Table t) (tr_MaxStatementBytes t) (tr_IcebergLocation t).

(** [database/sql] over the driver. *)
Record sqlDB (W : Type) := mkSqlDB {
  db_exec : gostring -> list arg -> W -> W * option gerror;
  db_query : gostring -> list arg -> W -> gerror + (list (list arg) * option gerror);
  db_rows_close : W -> option gerror;
  db_close : W -> W * option gerror
}.
Arguments mkSqlDB {W}.
Arguments db_exec {W}.
Arguments db_query {W}.
Arguments db_rows_close {W}.
Arguments db_close {W}.

(** ** ClickHouse *)

(** The [clickhouse.Options] that [clickhouseOptions] fills in; [tls_RootCAs] is
    the text of [CLICKHOUSE_TLS_CA]. *)
Record ch_tls := mkChTLS { tls_ServerName : gostring; tls_InsecureSkipVerify : bool; tls_RootCAs : option gostring }.
Record ch_options := mkChOptions {
  opt_Addr : gostring;
  opt_Username : gostring;
  opt_Password : gostring;
  opt_DialTimeout : Duration;
  opt_ReadTimeout : Duration;
  opt_max_execution_time : Z;
  opt_max_result_rows : Z;
  opt_TLS : option ch_tls
}.

Definition clickhouseMaxResultRows : Z := 10000.

Section open.
Context {W : Type} (scan_err : gerror) (quote : gostring -> gostring).
(** [os.ReadFile], and whether a PEM text holds a certificate. *)
Context (ReadFile : gostring -> gerror + gostring) (pem_ok : gostring -> bool).
Context (FormatDSN : TrinoDSN -> gerror + gostring) (sql_Open : gostring -> gerror + sqlDB W).
Context (open_clickhouse : ch_options -> gerror + chConn W * (W -> W * option gerror)).
(** The error of [net.SplitHostPort]. *)
Context (addr_err : gostring -> gerror).

Definition trino_backend (db : sqlDB W) (cfg : TrinoConfig) : Backend W :=
  let s := NewTrino cfg in {|
  be_writer := {| InsertBatch := trino_InsertBatch (db_exec db) s; SplitBatch := Some (trino_SplitBatch s) |};
  be_reader := {| ListQueries f w := (w, trino_ListQueries (db_query db) scan_err s f w);
                  GetQuery id w := (w, trino_GetQuery (db_query db) scan_err s id w) |};
  be_Validate := trino_Validate (db_query db) (db_rows_close db);
  be_ValidateTable := trino_ValidateTable (db_query db) (db_rows_close db) s;
  be_Prune := trino_Prune (db_exec db) s;
  be_Maintain := trino_Maintain (db_exec db) s;
  be_Optimize := trino_Optimize (db_exec db) s;
  be_Init := trino_Init (db_exec db) s;
  be_DDLScript := trino_DDLScript s;
  be_Close := db_close db
|}.

(** [store.NewTrino]. *)
Definition open_trino_store (t : Trino_) : gerror + Backend W :=
  match FormatDSN (trino_dsn t) with
  | inl err => inl (Wrap (bs "build trino dsn: ") err)
  | inr dsn =>
      match sql_Open dsn with
      | inl err => inl (Wrap (bs "open trino: ") err)
      | inr db => inr (trino_backend db (trino_settings t))
      end
  end.

Definition clickhouseTLS (c : ClickHouse_) : gerror + ch_tls :=
  match SplitHostPort (chc_Addr c) with
  | None => inl (Wrap (bs "clickhouse addr: ") (addr_err (chc_Addr c)))
  | Some (host, _) =>
      if decide (chc_TLSCA c = []) then inr (mkChTLS host (chc_TLSInsecure c) None)
      else
        match ReadFile (chc_TLSCA c) with
        | inl err => inl (Wrap (bs "read CLICKHOUSE_TLS_CA: ") err)
        | inr pem =>
            if pem_ok pem then inr (mkChTLS host (chc_TLSInsecure c) (Some pem))
            else inl (errText "CLICKHOUSE_TLS_CA: no certificates found")
        end
  end.

Definition clickhouseOptions (c : ClickHouse_) : gerror + ch_options :=
  let opts := mkChOptions (chc_Addr c) (chc_User c) (chc_Password c) (chc_DialTimeout c) (chc_QueryTimeout c)
                (Z.max (int_of (Seconds (chc_QueryTimeout c))) 1) clickhouseMaxResultRows in
  if chc_TLS c then
    match clickhouseTLS c with inl err => inl err | inr tls => inr (opts (Some tls)) end
  else inr (opts None).

Definition clickhouse_settings (c : ClickHouse_) : ClickHouseConfig :=
  mkClickHouseConfig (chc_Database c) (chc_Table c) (chc_MaxBatchBytes c).

Definition clickhouse_backend (conn : chConn W) (close : W -> W * option gerror) (cfg : ClickHouseConfig) : Backend W :=
  let s := newClickHouseStore cfg in {|
  be_writer := {| InsertBatch := ch_InsertBatch conn s; SplitBatch := Some (ch_SplitBatch s) |};
  be_reader := {| ListQueries f w := (w, ch_ListQueries conn s scan_err f w);
                  GetQuery id w := (w, ch_GetQuery conn s scan_err id w) |};
  be_Validate := ch_Validate conn;
  be_ValidateTable := ch_ValidateTable conn s;
  be_Prune := ch_Prune conn s scan_err quote;
  be_Maintain := ch_Maintain;
  be_Optimize := ch_Optimize;
  be_Init := ch_Init conn s;
  be_DDLScript := ch_DDLScript s;
  be_Close := close
|}.

(** [store.NewClickHouse]. *)
Definition NewClickHouse (c : ClickHouse_) : gerror + Backend W :=
  match clickhouseOptions c with
  | inl err => inl err
  | inr opts =>
      match open_clickhouse opts with
      | inl err => inl (Wrap (bs "open clickhouse: ") err)
      | inr (conn, close) => inr (clickhouse_backend conn close (clickhouse_settings c))
      end
  end.

(** [store.Open]. *)
Definition Open (backend : gostring) (trino : Trino_) (clickhouse : ClickHouse_) : gerror + Backend W :=
  if decide (backend = BackendClickHouse) then NewClickHouse clickhouse
  else if bool_decide (backend = BackendTrino) || bool_decide (backend = []) then open_trino_store trino
  else inl (Leaf (EText (bs "unknown store backend " ++ quote backend))).
End open.
