(* ===== verification/Main.v ===== *)
(** * Main: [cmd/trino-query-log-sink/main.go] and [internal/observability/log.go]

    The subcommands, and how [runServer] wires the parts together: the store,
    the buffer in front of it, the cache in front of its reads, and the order in
    which they are shut down.  The HTTP server itself, signals and the clock are
    parameters. *)

From S2P Require Import Prelude Errors GoTime Row Event EventRow Store Query Metrics Buffer Ingest Cache Config Backend Prune.

(** ** What each part reads of the configuration *)

Definition buffer_config (c : Config) : Buffer.Config :=
  Buffer.mkConfig (cf_BatchSize c) (cf_FlushInterval c) (cf_BufferCapacity c) (cf_FlushMaxRetries c)
    (StoreQueryTimeout c) (cf_FlushRetryBackoff c) (cf_FlushRetryMaxBackoff c).

Definition ingest_config (c : Config) : IngestConfig :=
  mkIngestConfig (tr_Source (cf_Trino c)) (cf_PlanCapture c) (cf_PlanCaptureMinWall c) (cf_PreviewBytes c)
    (cf_MaxFieldBytes c).

Definition cache_config (c : Config) : cachedStore :=
  mkCachedStore (ca_ListTTL (cf_Cache c)) (ca_QueryTTL (cf_Cache c)).

Record Options := mkOptions { opt_Ingest : bool; opt_UI : bool }.

Definition rolesLabel (opts : Options) : gostring :=
  if opt_Ingest opts && opt_UI opts then bs "ingest,ui"
  else if opt_Ingest opts then bs "ingest"
  else bs "ui".

(** [observability.NewLogger]: the least level that is logged. *)
Inductive Level := LevelDebug | LevelInfo | LevelWarn | LevelError.
Definition NewLogger (level : gostring) : Level :=
  if decide (level = bs "debug") then LevelDebug
  else if decide (level = bs "warn") then LevelWarn
  else if decide (level = bs "error") then LevelError
  else LevelInfo.

(** [warnInsecureStore]: the warnings, in order. *)
Definition warnInsecureStore (c : Config) : list gostring :=
  let ch := cf_ClickHouse c in
  if decide (cf_StoreBackend c = BackendClickHouse) then
    (if negb (bool_decide (chc_Password ch = [])) && negb (chc_TLS ch)
     then [bs "CLICKHOUSE_PASSWORD is set but CLICKHOUSE_TLS is off; credentials travel in cleartext"] else [])
    ++ (if chc_TLS ch && chc_TLSInsecure ch
        then [bs "CLICKHOUSE_TLS_INSECURE is on; the server certificate is not verified"] else [])
  else [].

(** What [runServer] builds before it listens: [sv_buffer] with the ingest role,
    [sv_cached] when the reads go through the cache. *)
Record service := mkService {
  sv_opts : Options;
  sv_buffer : option Buffer.Config;
  sv_cached : option cachedStore;
  sv_ReadHeaderTimeout : Duration;
  sv_ReadTimeout : Duration;
  sv_WriteTimeout : Duration
}.

Definition build_service (c : Config) (opts : Options) : service := {|
  sv_opts := opts;
  sv_buffer := if opt_Ingest opts then Some (buffer_config c) else None;
  sv_cached := if opt_UI opts && Enabled (cf_Cache c) then Some (cache_config c) else None;
  sv_ReadHeaderTimeout := 10 * Second;
  sv_ReadTimeout := 30 * Second;
  sv_WriteTimeout := wrap64 (StoreQueryTimeout c + 15 * Second)
|}.

(** The steps of a shutdown, in the order [runServer] takes them. *)
Inductive shutdown_step :=
| StopReady
| StopHTTP (timeout : Duration)
| DrainBuffer (timeout : Duration)
| CloseCache
| CloseStore.
Definition shutdown_steps (s : service) : list shutdown_step :=
  [StopReady; StopHTTP (25 * Second)]
  ++ (if sv_buffer s then [DrainBuffer (20 * Second)] else [])
  ++ (if sv_cached s then [CloseCache] else [])
  ++ [CloseStore].

(** ** Subcommands *)

Section commands.
Context {W : Type} (quote : gostring -> gostring).
(** [store.Open], the wall clock, and standard output. *)
Context (Open : gostring -> Trino_ -> ClickHouse_ -> gerror + Backend W) (Now : W -> time).
Context (print : gostring -> W -> W).
(** The listener until it fails ([Some err]) or is told to stop, over the service
    it was given; and one step of a shutdown other than closing the store. *)
Context (listen : Backend W -> service -> W -> W * option gerror) (shut : shutdown_step -> W -> W).

(** [openStore], the deferred [Close], and [k] in between. *)
Definition with_store (c : Config) (k : Backend W -> W -> W * option gerror) (w : W) : W * option gerror :=
  match Open (cf_StoreBackend c) (cf_Trino c) (cf_ClickHouse c) with
  | inl err => (w, Some err)
  | inr st => let '(w', err) := k st w in (fst (be_Close st w'), err)
  end.

Definition shut_down (s : service) (w : W) : W :=
  foldl (fun w step => match step with CloseStore => w | _ => shut step w end) w (shutdown_steps s).

Definition runServer (c : Config) (opts : Options) : W -> W * option gerror :=
  with_store c (fun st w =>
    let s := build_service c opts in
    match listen st s w with
    | (w', Some err) =>
        ((if sv_cached s then shut CloseCache w' else w'), Some (Wrap (bs "http server: ") err))
    | (w', None) => (shut_down s w', None)
    end).

Definition initDDL (c : Config) : W -> W * option gerror := with_store c be_Init.

Definition runPrune (c : Config) : W -> W * option gerror :=
  with_store c (fun st w => Prune.Run (be_Prune st) (cf_RetentionDays c) (Now w) w).

Definition runMaintain (c : Config) (w : W) : W * option gerror :=
  if decide (cf_StoreBackend c = BackendTrino) then with_store c (fun st => be_Maintain st (cf_MaintainRetention c)) w
  else (w, None).

Definition runOptimize (c : Config) (w : W) : W * option gerror :=
  if decide (cf_StoreBackend c = BackendTrino)
  then with_store c (fun st w => be_Optimize st (optimizeWindowStart (Now w) (cf_OptimizeDays c)) w) w
  else (w, None).

Definition printDDL (c : Config) : W -> W * option gerror :=
  with_store c (fun st w => (print (be_DDLScript st) w, None)).

(** [run]; [args] are the arguments after the program's name. *)
Definition run (load : Config + gerror) (args : list gostring) (w : W) : W * option gerror :=
  let cmd := match args with c :: _ => c | [] => bs "serve" end in
  if bool_decide (cmd ∈ [bs "-h"; bs "--help"; bs "help"]) then (w, None)
  else
    match load with
    | inr err => (w, Some (Wrap (bs "load config: ") err))
    | inl c =>
        if decide (cmd = bs "serve") then runServer c (mkOptions true true) w
        else if decide (cmd = bs "ingest") then runServer c (mkOptions true false) w
        else if decide (cmd = bs "ui") then runServer c (mkOptions false true) w
        else if decide (cmd = bs "init") then initDDL c w
        else if decide (cmd = bs "prune") then runPrune c w
        else if decide (cmd = bs "optimize") then runOptimize c w
        else if decide (cmd = bs "maintain") then runMaintain c w
        else if decide (cmd = bs "ddl") then printDDL c w
        else (w, Some (Leaf (EText (bs "unknown subcommand " ++ quote cmd))))
    end.

(** [main]; [query] is [querycli.Main]. *)
Definition main (query : list gostring -> W -> W * Z) (load : Config + gerror) (args : list gostring) (w : W) : W * Z :=
  match args with
  | c :: rest =>
      if decide (c = bs "query") then query rest w
      else let '(w', err) := run load args w in (w', if err then 1 else 0)
  | [] => let '(w', err) := run load args w in (w', if err then 1 else 0)
  end.
End commands.
