(* ===== verification/MainTheorems.v ===== *)
(** * MainTheorems: a loaded configuration, put to work

    What [Load] promises to the parts [main.go] wires together, the statements
    and the retention of a running service, and what the subcommands leave
    alone. *)

From S2P Require Import Prelude Errors GoTime Row Chunk Truncate Store Query Event EventRow Trino TrinoTheorems ClickHouse Metrics Buffer Ingest IngestTheorems Cache Api Sql SqlTheorems Config ConfigTheorems Float64 FloatFmt Backend Prune Main.

(** ** Hosts and identifiers *)

Lemma host_port_split addr :
  validHostPort addr = true -> exists host port, SplitHostPort addr = Some (host, port) /\ host <> [].
Proof.
  unfold validHostPort. destruct (SplitHostPort addr) as [[host port]|]; [|done].
  case_decide; [done|]. intros _. by exists host, port.
Qed.

Lemma replace_absent c new s : c ∉ s -> replace_byte c new s = s.
Proof.
  induction s as [|b s IH]; intros H; [done|]. apply not_elem_of_cons in H as [Hb H].
  rewrite replace_byte_cons, decide_False by done. by rewrite IH.
Qed.

Lemma identifier_plain s : identifierPattern s = true -> quoteIdent s = [dq] ++ s ++ [dq].
Proof.
  intros H. unfold quoteIdent, enquote. rewrite replace_absent; [done|]. intros Hin.
  assert (Hall : forallb (fun c => is_letter c || is_digit c) s = true).
  { destruct s as [|b s]; [done|]. cbn in H. apply andb_true_iff in H as [H _]. apply andb_true_iff in H as [Hb H].
    cbn [forallb]. by rewrite Hb, H. }
  rewrite forallb_forall in Hall. apply list_elem_of_In in Hin. by specialize (Hall dq Hin).
Qed.

(** ** The settings that reach each part *)

(** What the wiring relies on, for either backend. *)
Record wired (c : Config) : Prop := {
  wired_buffer : 0 < StoreQueryTimeout c -> normalize (buffer_config c) = buffer_config c;
  wired_statement : ts_maxStmtBytes (NewTrino (trino_settings (cf_Trino c))) = tr_MaxStatementBytes (cf_Trino c);
  wired_policy : ig_PlanCapture (ingest_config c) ∈ [PlanCaptureAll; PlanCaptureSlowOrFailed; PlanCaptureNone];
  wired_fields : 1024 <= ig_MaxFieldBytes (ingest_config c) /\ 1 <= ig_PreviewBytes (ingest_config c);
  wired_cache : forall s, sv_cached (build_service c (mkOptions true true)) = Some s -> 0 < listTTL s /\ 0 < queryTTL s;
}.

(** What opening ClickHouse relies on. *)
Record ch_wired (c : ClickHouse_) : Prop := {
  ch_table_plain : cs_table (newClickHouseStore (clickhouse_settings c))
                   = [dq] ++ chc_Database c ++ [dq] ++ bs "." ++ [dq] ++ chc_Table c ++ [dq];
  ch_batch : cs_maxBatchBytes (newClickHouseStore (clickhouse_settings c)) = chc_MaxBatchBytes c;
  ch_host : exists host port, SplitHostPort (chc_Addr c) = Some (host, port) /\ host <> []
            /\ forall ReadFile pem_ok addr_err opts,
                 clickhouseOptions ReadFile pem_ok addr_err c = inr opts ->
                 (chc_TLS c = false -> opt_TLS opts = None)
                 /\ (chc_TLS c = true -> exists roots,
                       opt_TLS opts = Some (mkChTLS host (chc_TLSInsecure c) roots) /\ (chc_TLSCA c = [] <-> roots = None));
  ch_no_ca_no_error : forall ReadFile pem_ok addr_err,
      chc_TLSCA c = [] -> exists opts, clickhouseOptions ReadFile pem_ok addr_err c = inr opts;
}.

Lemma config_wired c : config_ok c -> wired c.
Proof.
  intros []. split.
  - intros Ht. unfold normalize, buffer_config. cbn [FlushTimeout BufferCapacity RetryBackoff RetryMaxBackoff BatchSize FlushInterval MaxRetries].
    bcase; try lia. done.
  - cbn. destruct (Z.leb_spec (tr_MaxStatementBytes (cf_Trino c)) 0); [lia|done].
  - done.
  - done.
  - intros s. cbn. unfold Enabled. case_bool_decide as E; [done|]. intros [= <-]. cbn.
    destruct (ok_cache E). done.
Qed.

Lemma ch_config_wired c : clickhouse_ok c -> ch_wired c.
Proof.
  intros []. destruct (host_port_split _ ok_addr) as (host & port & Hs & Hh). split.
  - cbn [cs_table newClickHouseStore clickhouse_settings cc_Database cc_Table].
    rewrite !identifier_plain by done. by rewrite <- !app_assoc.
  - cbn. unfold minClickHouseBatchBytes in *. destruct (Z.leb_spec (chc_MaxBatchBytes c) 0); [|done].
    change (Z.shiftl 1 20) with 1048576 in *. lia.
  - exists host, port. split; [done|]. split; [done|]. intros ReadFile pem_ok addr_err opts.
    unfold clickhouseOptions, clickhouseTLS. rewrite Hs. destruct (chc_TLS c); [|by intros [= <-]].
    case_decide as Eca; [intros [= <-]; split; [done|]; intros _; by exists None|].
    destruct (ReadFile _) as [err|pem]; [done|]. destruct (pem_ok pem); [|done]. intros [= <-].
    split; [done|]. intros _. exists (Some pem). split; [done|]. done.
  - intros ReadFile pem_ok addr_err Eca. unfold clickhouseOptions, clickhouseTLS. rewrite Hs.
    destruct (chc_TLS c); [|by eexists]. rewrite decide_True by done. by eexists.
Qed.

(** C13. A configuration that loads is one the service can use as it stands: the
    buffer overrides none of its settings (given a positive query timeout), the
    Trino statement limit and the field limits are in force, the plan policy
    and the cache lifetimes are meaningful, and with ClickHouse the query
    timeout is positive, names need no quoting beyond their quotes, the batch
    limit is in force and TLS names the configured host. *)
Theorem loaded_config_serves LookupEnv quote c :
  Load LookupEnv quote = inl c ->
  wired c
  /\ (cf_StoreBackend c = BackendClickHouse -> 0 < StoreQueryTimeout c /\ ch_wired (cf_ClickHouse c))
  /\ (cf_StoreBackend c = BackendTrino \/ cf_StoreBackend c = BackendClickHouse).
Proof.
  intros Hl. apply load_ok in Hl. split; [by apply config_wired|]. destruct Hl. split.
  - intros E. destruct ok_backend as [F|[_ Hch]]; [by rewrite F in E|]. split; [|by apply ch_config_wired].
    unfold StoreQueryTimeout. rewrite decide_True by done. by destruct Hch.
  - destruct ok_backend as [|[]]; auto.
Qed.

(** ** Statements of a running service *)

Lemma count_replace b c new s :
  count_byte b (replace_byte c new s) <= count_byte b s + count_byte c s * count_byte b new.
Proof.
  induction s as [|x s IH]; [done|]. rewrite replace_byte_cons, !count_byte_cons, count_byte_app.
  pose proof (count_byte_cons b x []) as E. change (count_byte b []) with 0 in E.
  destruct (decide (x = c)), (decide (x = b)); lia.
Qed.

Lemma quoted_len s : len (quoteIdent s) <= 2 * len s + 2 /\ count_byte sq (quoteIdent s) <= len s.
Proof.
  unfold quoteIdent. split; [rewrite len_enquote; pose proof (count_byte_le dq s); lia|].
  unfold enquote. rewrite !count_byte_app. change (count_byte sq [dq]) with 0.
  pose proof (count_replace sq dq [dq; dq] s) as H. change (count_byte sq [dq; dq]) with 0 in H.
  pose proof (count_byte_le sq s). lia.
Qed.

Definition names_len (t : Trino_) : Z := len (tr_Catalog t) + len (tr_Schema t) + len (tr_Table t).

(** The text around the rows of an INSERT, for the configured names. *)
Lemma overhead_le t : ts_stmtOverhead (NewTrino (trino_settings t)) <= 3 * names_len t + 1000.
Proof.
  change (ts_stmtOverhead (NewTrino (trino_settings t)))
    with (27 + len (ts_insertPrefix (NewTrino (trino_settings t))) + count_byte sq (ts_insertPrefix (NewTrino (trino_settings t)))).
  set (cols := ts_insertColumns (NewTrino (trino_settings t))).
  change (ts_insertPrefix (NewTrino (trino_settings t)))
    with (bs "INSERT INTO " ++ qualifiedName (tr_Catalog t) (tr_Schema t) (tr_Table t) ++ bs " (" ++ cols ++ bs ") VALUES ").
  unfold qualifiedName. rewrite !len_app, !count_byte_app.
  assert (Hc : len cols + count_byte sq cols <= 800) by (by vm_compute).
  destruct (quoted_len (tr_Catalog t)), (quoted_len (tr_Schema t)), (quoted_len (tr_Table t)).
  repeat match goal with |- context [len (bs ?s)] => change (len (bs s)) with (Z.of_nat (String.length s)) end.
  cbn [String.length]. repeat match goal with |- context [count_byte sq (bs ?s)] => change (count_byte sq (bs s)) with 0 end.
  unfold names_len. lia.
Qed.

(** C6. With a loaded configuration whose catalog, schema and table names total
    at most 3700 bytes, every INSERT that a batch of received events becomes is
    shipped in a text within MAX_STATEMENT_BYTES. *)
Theorem configured_statements_fit LookupEnv quote c lit events chunk :
  let s := NewTrino (trino_settings (cf_Trino c)) in
  let rows := row_of_event (ingest_config c) <$> events in
  Load LookupEnv quote = inl c -> cf_MaxFieldBytes c < 2 ^ 47 -> names_len (cf_Trino c) <= 3700 ->
  literal_laws lit -> Forall args_ok rows -> chunk ∈ trino_SplitBatch s rows ->
  len (execute_immediate lit (insert_stmt s chunk) (insert_args chunk)) <= tr_MaxStatementBytes (cf_Trino c).
Proof.
  intros s rows Hl Hm Hn Hlit Hargs Hc. apply load_ok in Hl as Hok. pose proof (ok_field _ Hok). pose proof (ok_statement _ Hok).
  assert (Hb : Forall fields_below rows).
  { apply Forall_fmap, Forall_forall. intros e _. apply row_of_event_below. cbn. lia. }
  pose proof (insert_statement_fits (trino_settings (cf_Trino c)) lit rows chunk Hlit Hb Hargs Hc) as H1.
  rewrite (wired_statement _ (config_wired c Hok)) in H1. pose proof (overhead_le (cf_Trino c)).
  unfold minStatementBudget in H1. subst s. lia.
Qed.

(** ** Subcommands *)

Section commands.
Context {W : Type} (LookupEnv : gostring -> option gostring) (quote : gostring -> gostring) (scan_err : gerror).
Context (ReadFile : gostring -> gerror + gostring) (pem_ok : gostring -> bool) (addr_err : gostring -> gerror).
Context (FormatDSN : TrinoDSN -> gerror + gostring) (sql_Open : gostring -> gerror + sqlDB W).
Context (open_clickhouse : ch_options -> gerror + chConn W * (W -> W * option gerror)).
Context (Now : W -> time) (print : gostring -> W -> W).
Context (listen : Backend W -> service -> W -> W * option gerror) (shut : shutdown_step -> W -> W).

Definition open_store := Open scan_err quote ReadFile pem_ok FormatDSN sql_Open open_clickhouse addr_err.
Definition run_command := run quote open_store Now print listen shut.

(** A statement of a maintenance command: it runs, then the store is closed. *)
Definition one_statement (db : sqlDB W) (stmt : gostring) (as_ : list arg) (wrap : gerror -> gerror) (w : W) : W * option gerror :=
  let '(w', err) := db_exec db stmt as_ w in (fst (db_close db w'), wrap <$> err).

Lemma open_trino c dsn db :
  cf_StoreBackend c = BackendTrino -> FormatDSN (trino_dsn (cf_Trino c)) = inr dsn -> sql_Open dsn = inr db ->
  open_store (cf_StoreBackend c) (cf_Trino c) (cf_ClickHouse c) = inr (trino_backend scan_err db (trino_settings (cf_Trino c))).
Proof.
  intros Hb Hd Ho. unfold open_store, Open. rewrite Hb, decide_False by done. cbn. unfold open_trino_store. by rewrite Hd, Ho.
Qed.

Lemma exec_wrap_eq (exec : gostring -> list arg -> W -> W * option gerror) stmt as_ wrap w :
  exec_wrap exec stmt as_ wrap w = (fst (exec stmt as_ w), wrap <$> snd (exec stmt as_ w)).
Proof. unfold exec_wrap. by destruct (exec stmt as_ w) as [w' [err|]]. Qed.

(** The subcommands [run] knows, one equation each. *)
Ltac dispatch :=
  unfold run_command, run;
  match goal with |- context [bool_decide ?P] => replace (bool_decide P) with false by (vm_compute; reflexivity) end;
  repeat (rewrite decide_False by done); rewrite decide_True by done; reflexivity.

Lemma run_prune c w : run_command (inl c) [bs "prune"] w = runPrune open_store Now c w.
Proof. dispatch. Qed.
Lemma run_optimize c w : run_command (inl c) [bs "optimize"] w = runOptimize open_store Now c w.
Proof. dispatch. Qed.
Lemma run_maintain c w : run_command (inl c) [bs "maintain"] w = runMaintain open_store c w.
Proof. dispatch. Qed.
Lemma run_init c w : run_command (inl c) [bs "init"] w = initDDL open_store c w.
Proof. dispatch. Qed.

(** Retention and compaction of the Trino table, end to end: [prune] runs one
    DELETE and [optimize] one ALTER TABLE, then the store is closed; the DELETE
    takes exactly the UTC days more than RETENTION_DAYS before today, the
    compaction the last OPTIMIZE_DAYS days, and both cut at a UTC midnight. *)
Theorem retention_commands c dsn db w :
  Load LookupEnv quote = inl c -> cf_StoreBackend c = BackendTrino ->
  FormatDSN (trino_dsn (cf_Trino c)) = inr dsn -> sql_Open dsn = inr db ->
  let s := NewTrino (trino_settings (cf_Trino c)) in
  exists cutoff since (wrap1 wrap2 : gerror -> gerror),
    run_command (inl c) [bs "prune"] w = one_statement db (prune_stmt s) [ATime cutoff] wrap1 w
    /\ run_command (inl c) [bs "optimize"] w = one_statement db (optimize_stmt s (format_millis since)) [] wrap2 w
    /\ cutoff mod Day = 0 /\ since mod Day = 0
    /\ (forall t, t < cutoff <-> utc_days t < utc_days (Now w) - cf_RetentionDays c)
    /\ (forall t, since <= t <-> utc_days (Now w) - utc_days t < Z.max 1 (cf_OptimizeDays c)).
Proof.
  intros Hl Hb Hd Ho s. apply load_ok in Hl as Hok. pose proof (ok_retention _ Hok).
  destruct (cutoff_days (Now w) (cf_RetentionDays c)) as [Hc1 Hc2].
  destruct (window_days (Now w) (cf_OptimizeDays c)) as [Hw1 Hw2].
  exists (partitionAlignedCutoff (Now w) (cf_RetentionDays c)), (optimizeWindowStart (Now w) (cf_OptimizeDays c)).
  eexists _, _. split; [|split; [|exact (conj Hc1 (conj Hw1 (conj Hc2 Hw2)))]].
  - rewrite run_prune. unfold runPrune, with_store. rewrite (open_trino c dsn db Hb Hd Ho). rewrite run_prunes by assumption.
    cbn [be_Prune trino_backend be_Close fst snd]. unfold trino_Prune. rewrite exec_wrap_eq. unfold one_statement.
    destruct (db_exec _ _ _ _) as [w' err]. cbn [fst snd]. by rewrite <- option_fmap_compose.
  - rewrite run_optimize. unfold runOptimize, with_store. rewrite (decide_True _ _ Hb), (open_trino c dsn db Hb Hd Ho).
    cbn [be_Optimize trino_backend be_Close]. unfold trino_Optimize. rewrite exec_wrap_eq. unfold one_statement.
    destruct (db_exec _ _ _ _) as [w' err]. cbn [fst snd]. done.
Qed.

(** C24. Retention on the table itself: over a database that carries out the
    store's statements, a [prune] that succeeds leaves exactly the rows created on
    the last RETENTION_DAYS whole UTC days and today, in place.  One that fails
    leaves the table as it was or exactly so, since a DELETE whose answer is lost
    may have run: in no case is a row within the retention lost, or a row added. *)
Theorem prune_command_keeps c dsn db (table : W -> list Row) (keep : Row -> Row) (up : W -> Prop) w w' e :
  Load LookupEnv quote = inl c -> cf_StoreBackend c = BackendTrino ->
  FormatDSN (trino_dsn (cf_Trino c)) = inr dsn -> sql_Open dsn = inr db ->
  sql_server (db_exec db) (db_query db) (table_names (trino_settings (cf_Trino c))) table keep up ->
  (forall w, table (fst (db_close db w)) = table w) ->
  run_command (inl c) [bs "prune"] w = (w', e) ->
  let recent r := utc_days (Now w) - cf_RetentionDays c <= utc_days (CreateTime r) in
  match e with
  | None => table w' = filter recent (table w)
  | Some _ => table w' = table w \/ table w' = filter recent (table w)
  end
  /\ (forall r, r ∈ table w -> recent r -> r ∈ table w') /\ table w' `sublist_of` table w.
Proof.
  intros Hl Hb Hd Ho Hs Hclose H recent. apply load_ok in Hl as Hok. pose proof (ok_retention _ Hok).
  destruct (cutoff_days (Now w) (cf_RetentionDays c)) as [_ Hcut]. revert H.
  rewrite run_prune. unfold runPrune, with_store. rewrite (open_trino c dsn db Hb Hd Ho). rewrite run_prunes by assumption.
  cbn [be_Prune trino_backend be_Close]. destruct (trino_Prune _ _ _ _) as [w1 e1] eqn:E. cbn [fst snd]. intros [= <- <-].
  apply (trino_prunes _ _ _ _ _ _ Hs) in E. cbn zeta in E.
  assert (Hf : forall t : list Row, filter (fun r => partitionAlignedCutoff (Now w) (cf_RetentionDays c) <= CreateTime r) t = filter recent t).
  { intros t. apply list_filter_iff'. intros r _. unfold recent. specialize (Hcut (CreateTime r)). lia. }
  rewrite Hf in E. rewrite Hclose. split; [by destruct e1|].
  assert (Hor : table w1 = table w \/ table w1 = filter recent (table w)) by (destruct e1; auto).
  destruct Hor as [-> | ->]; (split; [|auto using sublist_filter]).
  - done.
  - intros r Hr Hrec. by apply list_elem_of_filter.
Qed.

(** What the subcommands leave alone: help, a configuration that does not load
    and an unknown subcommand never reach a store; with ClickHouse, which
    merges and expires on its own, neither do [maintain] and [optimize]. *)
Theorem commands_without_effect c w :
  (forall load cmd rest, cmd ∈ [bs "-h"; bs "--help"; bs "help"] -> run_command load (cmd :: rest) w = (w, None))
  /\ (forall err args, head args ∉ (Some <$> [bs "-h"; bs "--help"; bs "help"]) ->
        run_command (inr err) args w = (w, Some (Wrap (bs "load config: ") err)))
  /\ (forall cmd rest, cmd ∉ [bs "-h"; bs "--help"; bs "help"; bs "serve"; bs "ingest"; bs "ui"; bs "init"; bs "prune";
                             bs "optimize"; bs "maintain"; bs "ddl"] ->
        exists text, run_command (inl c) (cmd :: rest) w = (w, Some (Leaf (EText text))))
  /\ (cf_StoreBackend c <> BackendTrino ->
      run_command (inl c) [bs "maintain"] w = (w, None) /\ run_command (inl c) [bs "optimize"] w = (w, None)).
Proof.
  clear LookupEnv. split_and!.
  - intros load cmd rest H. unfold run_command, run. by rewrite bool_decide_eq_true_2.
  - intros err args H. unfold run_command, run. rewrite bool_decide_eq_false_2; [done|].
    intros Hin. apply H. destruct args as [|a args].
    { match type of Hin with ?P => assert (F : bool_decide P = false) by (by vm_compute) end. by apply bool_decide_eq_false in F. }
    exact (list_elem_of_fmap_2 Some _ a Hin).
  - intros cmd rest H. unfold run_command, run. rewrite bool_decide_eq_false_2 by (intros Hin; apply H; set_solver).
    repeat (rewrite decide_False by (intros ->; apply H; set_solver)). by eexists.
  - intros H. rewrite run_maintain, run_optimize. unfold runMaintain, runOptimize. by rewrite !decide_False.
Qed.
End commands.

(** ** The defaults, and a store that records its statements *)

Definition no_env : gostring -> option gostring := fun _ => None.
Definition default_config : Config := fst (read_config no_env id []).

Lemma default_loads : Load no_env id = inl default_config.
Proof. vm_compute. reflexivity. Qed.

Definition recorded : Type := list (gostring * list arg).
Definition recording_db : sqlDB recorded := {|
  db_exec stmt as_ w := (w ++ [(stmt, as_)], None);
  db_query _ _ _ := inr ([], None);
  db_rows_close _ := None;
  db_close w := (w ++ [(bs "close", [])], None)
|}.

Lemma loaded_config_serves_witness :
  wired default_config /\ cf_StoreBackend default_config = BackendTrino.
Proof. split; [apply (loaded_config_serves no_env id default_config default_loads)|reflexivity]. Defined.

Definition demo_literal (a : arg) : gostring :=
  match a with AStr v => enquote sq v | AInt z => itoa z | ATime _ => bs "TIMESTAMP" | ANil => bs "NULL" end.

Lemma demo_literal_laws : literal_laws demo_literal.
Proof.
  split.
  - intros v. unfold demo_literal. rewrite len_enquote. lia.
  - by vm_compute.
  - exact itoa_len_int64.
  - intros t _. by vm_compute.
Qed.

Lemma configured_statements_fit_witness :
  let s := NewTrino (trino_settings (cf_Trino default_config)) in
  let rows := row_of_event (ingest_config default_config) <$> [demo_event (bs "q1"); demo_event (bs "q2")] in
  Forall (fun chunk => len (execute_immediate demo_literal (insert_stmt s chunk) (insert_args chunk)) <= 700000)
    (trino_SplitBatch s rows)
  /\ length (trino_SplitBatch s rows) = 1%nat.
Proof.
  intros s rows. split; [|by vm_compute]. apply Forall_forall. intros chunk Hc.
  apply (configured_statements_fit no_env id default_config demo_literal [demo_event (bs "q1"); demo_event (bs "q2")] chunk
           default_loads); [by vm_compute|by vm_compute|exact demo_literal_laws| |exact Hc].
  repeat constructor; by vm_compute.
Defined.

Lemma retention_commands_witness :
  exists cutoff since (wrap1 wrap2 : gerror -> gerror),
    run_command (W := recorded) id (errText "scan") (fun _ => inl (errText "no file")) (fun _ => false) (fun _ => errText "addr")
      (fun _ => inr (bs "dsn")) (fun _ => inr recording_db) (fun _ => inl (errText "no server")) (fun _ => 100 * Day + Hour)
      (fun _ w => w) (fun _ _ w => (w, None)) (fun _ w => w) (inl default_config) [bs "prune"] []
    = one_statement recording_db (prune_stmt (NewTrino (trino_settings (cf_Trino default_config)))) [ATime cutoff] wrap1 []
    /\ since mod Day = 0 /\ cutoff <= 93 * Day.
Proof.
  pose proof (retention_commands (W := recorded) no_env id (errText "scan") (fun _ => inl (errText "no file")) (fun _ => false)
    (fun _ => errText "addr") (fun _ => inr (bs "dsn")) (fun _ => inr recording_db) (fun _ => inl (errText "no server"))
    (fun _ => 100 * Day + Hour) (fun _ w => w) (fun _ _ w => (w, None)) (fun _ w => w)
    default_config (bs "dsn") recording_db [] default_loads eq_refl eq_refl eq_refl) as H.
  cbv zeta in H. destruct H as (cutoff & since & w1 & w2 & H1 & _ & _ & Hs & Hc & _).
  exists cutoff, since, w1, w2. split; [exact H1|]. split; [exact Hs|].
  destruct (Z.le_gt_cases cutoff (93 * Day)) as [|Hgt]; [assumption|]. apply (Hc (93 * Day)) in Hgt. by vm_compute in Hgt.
Defined.

(** The database that reads its statements, holding the rows of three days. *)
Definition reading_db : sqlDB (list Row) := {|
  db_exec := ref_exec (table_names (trino_settings (cf_Trino default_config)));
  db_query := ref_ask (table_names (trino_settings (cf_Trino default_config)));
  db_rows_close _ := None;
  db_close w := (w, None)
|}.

Lemma prune_command_keeps_witness :
  let '(w', e) := run_command (W := list Row) id (errText "scan") (fun _ => inl (errText "no file")) (fun _ => false)
    (fun _ => errText "addr") (fun _ => inr (bs "dsn")) (fun _ => inr reading_db) (fun _ => inl (errText "no server"))
    (fun _ => 9 * Day + Hour) (fun _ w => w) (fun _ _ w => (w, None)) (fun _ w => w) (inl default_config) [bs "prune"] demo_table in
  e = None /\ QueryID <$> w' = [bs "19700103_000000_00003_aaaaa"].
Proof.
  destruct (run_command _ _ _ _ _ _ _ _ _ _ _ _ _ _ _) as [w' e] eqn:E.
  pose proof (prune_command_keeps (W := list Row) no_env id (errText "scan") (fun _ => inl (errText "no file")) (fun _ => false)
    (fun _ => errText "addr") (fun _ => inr (bs "dsn")) (fun _ => inr reading_db) (fun _ => inl (errText "no server"))
    (fun _ => 9 * Day + Hour) (fun _ w => w) (fun _ _ w => (w, None)) (fun _ w => w)
    default_config (bs "dsn") reading_db id micros_row (fun _ => True) demo_table w' e default_loads eq_refl eq_refl eq_refl
    (reference_server _) (fun _ => eq_refl) E) as [H _].
  assert (He : e = None) by (apply (f_equal snd) in E; cbn [snd] in E; rewrite <- E; vm_compute; reflexivity).
  subst e. split; [reflexivity|]. unfold id in H. rewrite H. vm_compute. reflexivity.
Defined.
