(* ===== verification/Server.v ===== *)
(** * Server: [internal/server/server.go]

    The routes of each role, the health endpoints, and the readiness loop with
    its timers.  Handlers are modelled in [Ingest] and [Api]; request logging
    and rendering are left out. *)

From S2P Require Import Prelude Errors GoTime Url Config Backend Main.

(** ** Routes *)

Inductive handler :=
| handleHealthz | handleReadyz | handleIngest
| handleDashboard | handleQueriesPartial | handleQueryDetail (id : gostring)
| handleAPIListQueries | handleAPIGetQuery (id : gostring)
| fileServer | serveMetrics.

#[export] Instance handler_eq_dec : EqDecision handler.
Proof. solve_decision. Defined.

(** A pattern of [http.ServeMux]: literal segments, one wildcard, the end of the
    path after a slash ([{$}]), or everything below. *)
Inductive segment := Lit (s : string) | Wild | End_ | Below.
Record pattern := mkPattern { p_method : string; p_segments : list segment; p_handler : gostring -> handler }.

(** [Handler]: what is registered, in order. *)
Definition routes (opts : Options) (metrics : bool) : list pattern :=
  [mkPattern "GET" [Lit "healthz"] (fun _ => handleHealthz);
   mkPattern "GET" [Lit "readyz"] (fun _ => handleReadyz)]
  ++ (if opt_Ingest opts then [mkPattern "POST" [Lit "ingest"] (fun _ => handleIngest)] else [])
  ++ (if opt_UI opts then
        [mkPattern "GET" [End_] (fun _ => handleDashboard);
         mkPattern "GET" [Lit "partials"; Lit "queries"] (fun _ => handleQueriesPartial);
         mkPattern "GET" [Lit "query"; Wild] handleQueryDetail;
         mkPattern "GET" [Lit "api"; Lit "v1"; Lit "queries"] (fun _ => handleAPIListQueries);
         mkPattern "GET" [Lit "api"; Lit "v1"; Lit "queries"; Wild] handleAPIGetQuery;
         mkPattern "GET" [Lit "static"; Below] (fun _ => fileServer)]
      else [])
  ++ (if metrics then [mkPattern "GET" [Lit "metrics"] (fun _ => serveMetrics)] else []).

(** The wildcard a pattern binds in the segments of a path, if it matches. *)
Fixpoint match_segments (ps : list segment) (ss : list gostring) (id : gostring) : option gostring :=
  match ps, ss with
  | [], [] => Some id
  | [End_], [x] => if decide (x = []) then Some id else None
  | [Below], _ :: _ => Some id
  | Lit l :: ps, x :: ss => if decide (x = bs l) then match_segments ps ss id else None
  | Wild :: ps, x :: ss => if decide (x = []) then None else match_segments ps ss x
  | _, _ => None
  end.

Definition method_matches (m : string) (method : gostring) : bool :=
  bool_decide (method = bs m) || (String.eqb m "GET" && bool_decide (method = bs "HEAD")).

Inductive routed := Handle (h : handler) | Redirect | MethodNotAllowed | NotFound.

(** The unescaped segments of an escaped path; a segment that does not unescape
    stands for itself. *)
Definition segments (path : gostring) : list gostring :=
  (fun s => default s (unescape encodePathSegment s)) <$> split_byte x2f (slice_from path 1).

(** [cleanPath] leaves the path alone. *)
Definition clean (path : gostring) : bool :=
  let raw := split_byte x2f (slice_from path 1) in
  bool_decide (head path = Some x2f)
  && forallb (fun s => negb (bool_decide (s ∈ [bs "."; bs ".."]))) raw
  && forallb (fun s => negb (bool_decide (s = []))) (take (length raw - 1) raw).

Definition first_match (method : gostring) (ss : list gostring) (ps : list pattern) : option handler :=
  head (omap (fun p => if method_matches (p_method p) method then p_handler p <$> match_segments (p_segments p) ss [] else None) ps).
Definition path_known (ss : list gostring) (ps : list pattern) : bool :=
  existsb (fun p => match match_segments (p_segments p) ss [] with Some _ => true | None => false end) ps.

(** [ServeMux.ServeHTTP]: the patterns of the source do not overlap. *)
Definition route (opts : Options) (metrics : bool) (method path : gostring) : routed :=
  let ps := routes opts metrics in
  let ss := segments path in
  if negb (clean path) then Redirect
  else
    match first_match method ss ps with
    | Some h => Handle h
    | None =>
        match first_match method (ss ++ [[]]) ps with
        | Some _ => if decide (last ss = Some []) then (if path_known ss ps then MethodNotAllowed else NotFound) else Redirect
        | None => if path_known ss ps then MethodNotAllowed else NotFound
        end
    end.

(** [securityHeaders]: set on every answer, before the handler runs. *)
Definition securityHeaders : list (gostring * gostring) :=
  [(bs "Content-Security-Policy", bs "default-src 'self'; frame-ancestors 'none'; base-uri 'self'");
   (bs "X-Content-Type-Options", bs "nosniff");
   (bs "X-Frame-Options", bs "DENY");
   (bs "Referrer-Policy", bs "same-origin")].

(** [noDirListing]. *)
Definition noDirListing (path : gostring) (next : Z) : Z :=
  if bool_decide (last path = Some x2f) then 404 else next.

(** ** Health *)

Definition healthz : Z * gostring := (200, bs "ok").
Definition readyz (ready : bool) : Z * gostring :=
  if ready then (200, bs "ok") else (503, bs "not ready: store unreachable").

(** ** [RunReadiness] *)

(** The check the mode selects, and its outcome. *)
Definition readiness_validate {W} (mode : gostring) (st : Backend W) : W -> option gerror :=
  if decide (mode = ReadinessTable) then be_ValidateTable st else be_Validate st.
Definition check_passes {W} (mode : gostring) (st : Backend W) (w : W) : bool :=
  match readiness_validate mode st w with None => true | Some _ => false end.

(** Where the loop is: in a check (with the instant it began and whether the
    context was already done), about to read the flag, in the [select], or
    returned. *)
Inductive phase := Checking (since : time) (late : bool) | AtLoop | Waiting (until : time) | Returned.

Record rstate := mkR { r_now : time; r_ready : bool; r_phase : phase; r_cancelled : bool }.

Inductive rlabel :=
| Elapse (d : Duration)
| CheckDone (ok : bool)
| ReadFlag
| TimerFires
| SeesDone
| Cancel
| MarkNotReady.

Section readiness.
Context (cfg : Readiness_).

(** One step: a check ends within its timeout, and fails when its context was
    done before it began; timers are exact; the flag may be cleared and the
    context cancelled at any moment. *)
Definition rstep (l : rlabel) (s : rstate) : option rstate :=
  let '(mkR now ready ph cancelled) := s in
  match l with
  | Elapse d =>
      let limit := match ph with
                   | Checking since _ => Some (since + rd_Timeout cfg)
                   | AtLoop => Some now
                   | Waiting until => Some (Z.max now until)
                   | Returned => None
                   end in
      if (0 <=? d) && match limit with Some t => now + d <=? t | None => true end
      then Some (mkR (now + d) ready ph cancelled) else None
  | CheckDone ok =>
      match ph with
      | Checking _ late => if late && ok then None else Some (mkR now ok AtLoop cancelled)
      | _ => None
      end
  | ReadFlag =>
      match ph with
      | AtLoop => Some (mkR now ready (Waiting (now + if ready then rd_Interval cfg else rd_FailInterval cfg)) cancelled)
      | _ => None
      end
  | TimerFires =>
      match ph with
      | Waiting until => if until <=? now then Some (mkR now ready (Checking now cancelled) cancelled) else None
      | _ => None
      end
  | SeesDone =>
      match ph with Waiting _ => if cancelled then Some (mkR now ready Returned cancelled) else None | _ => None end
  | Cancel => Some (mkR now ready ph true)
  | MarkNotReady => Some (mkR now false ph cancelled)
  end.

Definition start (t : time) : rstate := mkR t false (Checking t false) false.

Fixpoint rrun (ls : list rlabel) (s : rstate) : option rstate :=
  match ls with
  | [] => Some s
  | l :: ls => match rstep l s with Some s => rrun ls s | None => None end
  end.
End readiness.
