(* ===== verification/ServerTheorems.v ===== *)
(** * ServerTheorems: routes by role, and readiness

    Which requests each role serves, and how the readiness flag follows the
    store. *)

From S2P Require Import Prelude Errors GoTime Url Config Backend Main Server.

(** ** Readiness *)

Section readiness.
Context (cfg : Readiness_).
Hypothesis timeout_pos : 0 < rd_Timeout cfg.
Hypothesis interval_pos : 0 < rd_Interval cfg.
Hypothesis fail_pos : 0 < rd_FailInterval cfg.

Definition longest_wait : Duration := Z.max (rd_Interval cfg) (rd_FailInterval cfg).
Definition settle_time : Duration := 2 * rd_Timeout cfg + longest_wait.

(** Steps in which every check that began at [t0] or later has the outcome [up];
    the flag is left to the loop. *)
Definition follows (t0 : time) (up : bool) (s s' : rstate) : Prop :=
  exists l, rstep cfg l s = Some s'
    /\ match l with
       | CheckDone ok => match r_phase s with Checking since _ => t0 <= since -> ok = up | _ => True end
       | Cancel | MarkNotReady => False
       | _ => True
       end.
Definition steady (t0 : time) (up : bool) (begin : time) : rstate -> Prop := rtc (follows t0 up) (start begin).

Lemma steady_trans t0 up begin s s' : steady t0 up begin s -> rtc (follows t0 up) s s' -> steady t0 up begin s'.
Proof. unfold steady. intros. by etrans. Qed.

(** The flag is settled, or the clock says when it will be. *)
Definition settles (t0 : time) (up : bool) (s : rstate) : Prop :=
  r_cancelled s = false
  /\ match r_phase s with
     | Checking since late =>
         late = false /\ since <= r_now s <= since + rd_Timeout cfg
         /\ (t0 <= since -> r_ready s = up \/ since <= t0 + rd_Timeout cfg + longest_wait)
     | AtLoop => t0 <= r_now s -> r_ready s = up \/ r_now s <= t0 + rd_Timeout cfg
     | Waiting until =>
         until <= r_now s + longest_wait /\ r_now s <= until
         /\ (t0 <= r_now s -> r_ready s = up \/ until <= t0 + rd_Timeout cfg + longest_wait)
     | Returned => False
     end.

Lemma steady_settles t0 up begin s : begin <= t0 -> steady t0 up begin s -> settles t0 up s.
Proof using timeout_pos interval_pos fail_pos.
  unfold settles, longest_wait, steady. intros Hb. revert s. apply (rtc_ind_r _ (start begin)).
  { cbn. split_and!; lia || done || (right; lia). }
  intros s s' _ (l & Hs & Hl) IH.
  destruct s as [now ready ph cancelled], IH as [Hc IH]; cbn [r_now r_ready r_phase r_cancelled] in *. subst cancelled.
  destruct l as [d|ok| | | | |]; cbn [rstep] in Hs; try done.
  - destruct (Z.leb_spec 0 d) as [Hd|]; [|done]. destruct ph as [since late| |until|]; cbn [andb] in Hs; try done.
    + destruct (Z.leb_spec (now + d) (since + rd_Timeout cfg)); [|done]. injection Hs as <-.
      cbn [r_now r_ready r_phase r_cancelled]. split; [done|]. destruct IH as (-> & ? & ?). split_and!; done || lia.
    + destruct (Z.leb_spec (now + d) now); [|done]. injection Hs as <-. cbn [r_now r_ready r_phase r_cancelled].
      split; [done|]. intros ?. destruct IH as [|]; [lia|by left|right; lia].
    + destruct (Z.leb_spec (now + d) (Z.max now until)); [|done]. injection Hs as <-. cbn [r_now r_ready r_phase r_cancelled].
      split; [done|]. destruct IH as (? & ? & Hi). split_and!; try lia. intros ?.
      destruct (Z.le_gt_cases t0 now); [by apply Hi|right; lia].
  - destruct ph as [since late| |until|]; try done. destruct IH as (-> & ? & Hi). cbn [andb] in Hs. injection Hs as <-.
    cbn [r_now r_ready r_phase r_cancelled]. split; [done|]. intros ?.
    destruct (Z.le_gt_cases t0 since); [left; by apply Hl|right; lia].
  - destruct ph as [since late| |until|]; try done. injection Hs as <-. cbn [r_now r_ready r_phase r_cancelled].
    split; [done|]. split_and!; [destruct ready; lia|destruct ready; lia|]. intros ?.
    destruct IH as [|]; [done|by left|right; destruct ready; lia].
  - destruct ph as [since late| |until|]; try done. destruct (Z.leb_spec until now); [|done]. injection Hs as <-.
    cbn [r_now r_ready r_phase r_cancelled]. split; [done|]. destruct IH as (? & ? & Hi). split_and!; try done || lia.
    intros ?. destruct Hi as [|]; [done|by left|right; lia].
  - by destruct ph.
Qed.

(** Time passes: the loop can always go on, and a full turn takes an interval. *)
Lemma next_check t0 up begin s :
  begin <= t0 -> steady t0 up begin s -> exists s' since, rtc (follows t0 up) s s' /\ r_phase s' = Checking since false /\ r_now s <= r_now s'.
Proof using timeout_pos interval_pos fail_pos.
  intros Hb H%(steady_settles _ _ _ _ Hb). destruct s as [now ready ph cancelled], H as [Hc H]; cbn [r_now r_ready r_phase r_cancelled] in *.
  subst. assert (Hw : forall u, exists s' since, rtc (follows t0 up) (mkR now ready (Waiting u) false) s'
                                /\ r_phase s' = Checking since false /\ now <= r_now s').
  { intros u. exists (mkR (Z.max now u) ready (Checking (Z.max now u) false) false). eexists. split; [|split; [done|cbn; lia]].
    eapply rtc_l; [exists (Elapse (Z.max now u - now)); cbn [rstep]|].
    { rewrite (proj2 (Z.leb_le 0 _)), (proj2 (Z.leb_le (_ + _) _)) by lia. done. }
    replace (now + (Z.max now u - now)) with (Z.max now u) by lia.
    apply rtc_once. exists TimerFires. cbn [rstep]. by rewrite (proj2 (Z.leb_le _ _)) by lia. }
  destruct ph as [since late| |until|]; [| | |done].
  - destruct H as (-> & _). eexists _, since. split; [reflexivity|done].
  - destruct (Hw (now + if ready then rd_Interval cfg else rd_FailInterval cfg)) as (s' & since & Hr & Hp & Hn).
    exists s', since. split; [|done]. eapply rtc_l; [|exact Hr]. by exists ReadFlag.
  - apply Hw.
Qed.

Lemma turn t0 up begin s since :
  begin <= t0 -> steady t0 up begin s -> r_phase s = Checking since false ->
  exists s' since', rtc (follows t0 up) s s' /\ r_phase s' = Checking since' false
    /\ r_now s + Z.min (rd_Interval cfg) (rd_FailInterval cfg) <= r_now s'.
Proof using timeout_pos interval_pos fail_pos.
  intros Hb H Hp. pose proof (steady_settles _ _ _ _ Hb H) as [Hc _]. destruct s as [now ready ph cancelled].
  cbn [r_now r_phase r_cancelled] in *. subst. set (i := if up then rd_Interval cfg else rd_FailInterval cfg).
  assert (Hi : Z.min (rd_Interval cfg) (rd_FailInterval cfg) <= i /\ 0 < i) by (unfold i; destruct up; lia).
  exists (mkR (now + i) up (Checking (now + i) false) false), (now + i). split; [|split; [done|cbn; lia]].
  eapply rtc_l; [exists (CheckDone up); cbn; done|]. eapply rtc_l; [exists ReadFlag; cbn; done|]. fold i.
  eapply rtc_l; [exists (Elapse i); cbn [rstep]|].
  { rewrite (proj2 (Z.leb_le 0 _)), (proj2 (Z.leb_le (_ + _) _)) by lia. done. }
  apply rtc_once. exists TimerFires. cbn [rstep]. by rewrite (proj2 (Z.leb_le _ _)) by lia.
Qed.

Lemma time_diverges t0 up begin s T :
  begin <= t0 -> steady t0 up begin s -> exists s', rtc (follows t0 up) s s' /\ T < r_now s'.
Proof using timeout_pos interval_pos fail_pos.
  intros Hb H. destruct (next_check _ _ _ _ Hb H) as (s1 & since & H1 & Hp & _).
  assert (G : forall n s since, steady t0 up begin s -> r_phase s = Checking since false ->
    exists s', rtc (follows t0 up) s s' /\ r_now s + Z.of_nat n <= r_now s').
  { induction n as [|n IH]; intros s2 since2 H2 Hp2; [exists s2; split; [done|lia]|].
    destruct (turn _ _ _ _ _ Hb H2 Hp2) as (s3 & since3 & H3 & Hp3 & Hn3).
    destruct (IH s3 since3) as (s4 & H4 & Hn4); [by eapply steady_trans|done|]. exists s4. split; [by etrans|lia]. }
  destruct (G (Z.to_nat (T + 1 - r_now s1)) s1 since) as (s2 & H2 & Hn); [by eapply steady_trans|done|].
  exists s2. split; [by etrans|lia].
Qed.

Lemma settled t0 up begin s :
  begin <= t0 -> steady t0 up begin s -> t0 + settle_time < r_now s -> r_ready s = up.
Proof using timeout_pos interval_pos fail_pos.
  intros Hb H%(steady_settles _ _ _ _ Hb) Ht. destruct s as [now ready ph cancelled], H as [Hc H].
  cbn [r_now r_ready r_phase r_cancelled] in *. unfold settle_time, longest_wait in *.
  destruct ph; try done; [destruct H as (_ & ? & [|])|destruct H as [|]|destruct H as (? & ? & [|])]; done || lia.
Qed.

(** C15. Readiness follows the store: when from some instant on every check that
    begins has the same outcome, the flag agrees with it after at most two probe
    timeouts and the longer of the two intervals, from any state the loop can be
    in and for good; and the loop gets there, since time always moves on. *)
Theorem readiness_follows_store t0 up begin s :
  begin <= t0 -> steady t0 up begin s ->
  (t0 + settle_time < r_now s -> r_ready s = up)
  /\ exists s', rtc (follows t0 up) s s' /\ t0 + settle_time < r_now s'
       /\ forall s'', rtc (follows t0 up) s' s'' -> t0 + settle_time < r_now s'' ->
            fst (readyz (r_ready s'')) = if up then 200 else 503.
Proof using timeout_pos interval_pos fail_pos.
  intros Hb H. split; [by eapply settled|].
  destruct (time_diverges _ _ _ _ (t0 + settle_time) Hb H) as (s' & Hr & Hn). exists s'. split; [done|]. split; [done|].
  intros s'' Hr' Hn'. rewrite (settled t0 up begin s''); [by destruct up|done| |done].
  do 2 (eapply steady_trans; [|eassumption]). done.
Qed.
End readiness.

(** ** Routes *)

(** The role a handler belongs to. *)
Definition in_role (opts : Options) (metrics : bool) (h : handler) : bool :=
  match h with
  | handleHealthz | handleReadyz => true
  | handleIngest => opt_Ingest opts
  | serveMetrics => metrics
  | _ => opt_UI opts
  end.

Lemma routes_in_role opts metrics p id : p ∈ routes opts metrics -> in_role opts metrics (p_handler p id) = true.
Proof.
  destruct opts as [[] []], metrics; unfold routes; cbn [opt_Ingest opt_UI app];
    rewrite !elem_of_cons, elem_of_nil; naive_solver.
Qed.

Lemma first_match_in opts metrics method ss h :
  first_match method ss (routes opts metrics) = Some h -> in_role opts metrics h = true.
Proof.
  unfold first_match. intros H. apply head_Some_elem_of in H. apply list_elem_of_omap in H as (p & Hp & H).
  destruct (method_matches _ _); [|done]. destruct (match_segments _ _ _); [|done]. injection H as <-.
  by apply routes_in_role.
Qed.

Lemma id_segment id : id <> [] -> id ∉ [bs "."; bs ".."] ->
  PathEscape id <> [] /\ PathEscape id ∉ [bs "."; bs ".."].
Proof.
  intros Hne Hd. assert (U : unescape encodePathSegment (PathEscape id) = Some id) by (apply unescape_escape; by left).
  split; [intros E; rewrite E in U; by injection U as <-|].
  intros Hin. apply Hd. rewrite !elem_of_cons, elem_of_nil in *.
  destruct Hin as [E|[E|[]]]; rewrite E in U; injection U as <-; auto.
Qed.

(** An id in the last place of a path of plain segments. *)
Lemma id_path (plain : list gostring) id :
  Forall (fun s => x2f ∉ s /\ s <> [] /\ s ∉ [bs "."; bs ".."] /\ unescape encodePathSegment s = Some s) plain ->
  id <> [] -> id ∉ [bs "."; bs ".."] ->
  let path := x2f :: join [x2f] (plain ++ [PathEscape id]) in segments path = plain ++ [id] /\ clean path = true.
Proof.
  intros Hp Hne Hd path. destruct (id_segment id Hne Hd) as [He1 He2].
  assert (Hs : split_byte x2f (slice_from path 1) = plain ++ [PathEscape id]).
  { change (slice_from path 1) with (join [x2f] (plain ++ [PathEscape id])). apply split_byte_join; [by destruct plain|].
    apply Forall_app. split; [eapply Forall_impl; [exact Hp|]; by intros s []|].
    constructor; [|done]. apply escape_free. set_solver. }
  unfold segments, clean. rewrite Hs. split.
  - rewrite fmap_app. f_equal.
    + rewrite <- (list_fmap_id plain) at 2. apply list_fmap_ext. intros i s Hi.
      rewrite Forall_forall in Hp. destruct (Hp s) as (_ & _ & _ & ->); [by eapply list_elem_of_lookup_2|done].
    + cbn. unfold PathEscape. by rewrite unescape_escape by (by left).
  - rewrite length_app, Nat.add_sub, take_app_length. cbn [head path]. rewrite bool_decide_eq_true_2 by done. cbn [andb].
    apply andb_true_iff. split; apply forallb_forall; intros s Hin; apply list_elem_of_In in Hin; apply negb_true_iff, bool_decide_eq_false.
    + apply elem_of_app in Hin as [Hin|Hin%list_elem_of_singleton]; [|by subst].
      rewrite Forall_forall in Hp. by destruct (Hp s Hin) as (_ & _ & ? & _).
    + rewrite Forall_forall in Hp. by destruct (Hp s Hin) as (_ & ? & _).
Qed.

Lemma query_routes opts metrics id :
  id <> [] -> id ∉ [bs "."; bs ".."] -> opt_UI opts = true ->
  route opts metrics (bs "GET") (bs "/api/v1/queries/" ++ PathEscape id) = Handle (handleAPIGetQuery id)
  /\ route opts metrics (bs "GET") (bs "/query/" ++ PathEscape id) = Handle (handleQueryDetail id).
Proof.
  intros Hne Hd Hui.
  destruct (id_path [bs "api"; bs "v1"; bs "queries"] id) as [Hs Hc];
    [repeat constructor; (done || set_solver)|done|done|].
  destruct (id_path [bs "query"] id) as [Hs2 Hc2]; [repeat constructor; (done || set_solver)|done|done|].
  change (bs "/api/v1/queries/" ++ PathEscape id) with (x2f :: join [x2f] ([bs "api"; bs "v1"; bs "queries"] ++ [PathEscape id])).
  change (bs "/query/" ++ PathEscape id) with (x2f :: join [x2f] ([bs "query"] ++ [PathEscape id])).
  unfold route. rewrite Hs, Hc, Hs2, Hc2. destruct id as [|b t]; [done|].
  destruct opts as [[] []], metrics; done.
Qed.

Lemma list_route opts metrics :
  opt_UI opts = true -> route opts metrics (bs "GET") (bs "/api/v1/queries") = Handle handleAPIListQueries.
Proof. destruct opts as [[] []], metrics; try done; by vm_compute. Qed.

(** Each role serves its own routes and no other: whatever the request, the
    handler that answers belongs to a configured role, health is always served,
    and with the UI the address of a query, whatever its id, reaches the
    handler with that id ("." and ".." are not paths of their own). *)
Theorem routes_by_role opts metrics method path id :
  id <> [] -> id ∉ [bs "."; bs ".."] ->
  (forall h, route opts metrics method path = Handle h -> in_role opts metrics h = true)
  /\ route opts metrics (bs "GET") (bs "/healthz") = Handle handleHealthz
  /\ route opts metrics (bs "GET") (bs "/readyz") = Handle handleReadyz
  /\ (opt_UI opts = true ->
      route opts metrics (bs "GET") (bs "/api/v1/queries/" ++ PathEscape id) = Handle (handleAPIGetQuery id)
      /\ route opts metrics (bs "GET") (bs "/query/" ++ PathEscape id) = Handle (handleQueryDetail id)).
Proof.
  intros Hne Hd. split; [|split; [|split]].
  - intros h. unfold route. destruct (negb _); [done|]. destruct (first_match method (segments path) _) eqn:E.
    + intros [= <-]. by eapply first_match_in.
    + by repeat case_match.
  - by destruct opts as [[] []], metrics; vm_compute.
  - by destruct opts as [[] []], metrics; vm_compute.
  - by apply query_routes.
Qed.

(** ** Shutdown *)

Definition no_early_check (s : rstate) : Prop :=
  r_cancelled s = true /\ match r_phase s with Checking _ late => late = true | _ => True end.

Lemma stays_down cfg ls s s' :
  no_early_check s -> r_ready s = false -> rrun cfg ls s = Some s' -> r_ready s' = false.
Proof.
  revert s. induction ls as [|l ls IH]; intros s Hn Hr H; [by injection H as <-|].
  cbn [rrun] in H. destruct (rstep cfg l s) as [s1|] eqn:E; [|done]. destruct s as [now ready ph cancelled], Hn as [Hc Hp].
  cbn [r_cancelled r_phase r_ready] in *. subst. apply (IH s1); [| |done]; destruct l, ph; cbn [rstep] in E;
    repeat case_match; simplify_eq; done.
Qed.

(** C37. Once a shutdown has been signalled and the server marked not ready, it never
    reports ready again, provided no check was in flight when it was marked: a
    check that begins after the signal fails, and every later one is such. *)
Theorem not_ready_after_stop cfg s s1 ls s' :
  r_cancelled s = true -> (forall since, r_phase s <> Checking since false) ->
  rstep cfg MarkNotReady s = Some s1 -> rrun cfg ls s1 = Some s' ->
  fst (readyz (r_ready s')) = 503.
Proof.
  intros Hc Hp Hm Hr. destruct s as [now ready ph cancelled]. cbn [r_cancelled r_phase rstep] in *. injection Hm as <-.
  rewrite (stays_down cfg ls (mkR now false ph cancelled) s'); [done| |done|done]. split; [done|]. cbn.
  destruct ph as [since []| | |]; try done. by destruct (Hp since).
Qed.

(** ** Witnesses *)

Definition demo_readiness : Readiness_ := mkReadiness ReadinessConnection (30 * Second) (5 * Second) (10 * Second).

Lemma readiness_follows_store_witness :
  exists s', rtc (follows demo_readiness 0 true) (start 0) s' /\ settle_time demo_readiness < r_now s'
    /\ fst (readyz (r_ready s')) = 200.
Proof.
  destruct (readiness_follows_store demo_readiness eq_refl eq_refl eq_refl 0 true 0 (start 0)) as [_ (s' & Hr & Hn & Hs)];
    [discriminate|apply rtc_refl|].
  exists s'. split; [exact Hr|]. split; [exact Hn|]. apply (Hs s'); [apply rtc_refl|exact Hn].
Defined.

Lemma routes_by_role_witness :
  route (mkOptions false true) true (bs "GET") (bs "/api/v1/queries/20240101_a%2Fb") = Handle (handleAPIGetQuery (bs "20240101_a/b"))
  /\ route (mkOptions true false) true (bs "GET") (bs "/") = NotFound.
Proof.
  split; [|by vm_compute].
  apply (routes_by_role (mkOptions false true) true (bs "GET") [] (bs "20240101_a/b")); [discriminate| |reflexivity].
  intros H. apply (bool_decide_eq_true_2 (bs "20240101_a/b" ∈ [bs "."; bs ".."])) in H. by vm_compute in H.
Defined.

Lemma not_ready_after_stop_witness :
  fst (readyz (r_ready (mkR 7 false (Checking 7 true) true))) = 503
  /\ rrun demo_readiness [TimerFires] (mkR 7 false (Waiting 7) true) = Some (mkR 7 false (Checking 7 true) true).
Proof.
  split; [|reflexivity].
  apply (not_ready_after_stop demo_readiness (mkR 7 true (Waiting 7) true) (mkR 7 false (Waiting 7) true) [TimerFires]);
    [reflexivity|discriminate|reflexivity|reflexivity].
Defined.
