(* ===== verification/Flag.v ===== *)
(** * Flag: the [flag] package as the query client uses it

    Parsing of command lines into a state [S] of settings: each flag is boolean
    or takes a value, and sets the state from a text or refuses it.  The texts
    of the messages are left out: the caller replaces every error but
    [flag.ErrHelp] by [errUsage]. *)

From S2P Require Import Prelude Errors.

(** A registered flag. *)
Record flag (S : Type) := mkFlag { fl_bool : bool; fl_set : gostring -> S -> option S }.
Arguments mkFlag {S}.
Arguments fl_bool {S}.
Arguments fl_set {S}.

Inductive flag_error := FlagHelp | FlagBad.

Section parse.
Context {S : Type} (formal : gostring -> option (flag S)).

Inductive parsed := Parsed (st : S) (rest : list gostring) | Failed (e : flag_error).

(** The name of an argument that is a flag and the value after its [=], if any;
    [None] for the bad syntax. *)
Definition flag_name (s : gostring) : option (gostring * option gostring) :=
  let name := match s with x2d :: x2d :: t => t | _ :: t => t | [] => [] end in
  match name with
  | [] => None
  | b :: t =>
      if bool_decide (b = x2d) || bool_decide (b = x3d) then None
      else let '(n, v) := cut x3d t in Some (b :: n, v)
  end.

(** [FlagSet.Parse], with [ContinueOnError]: what is left are the arguments from
    the first that is not a flag. *)
Fixpoint Parse (args : list gostring) (st : S) : parsed :=
  match args with
  | [] => Parsed st []
  | s :: rest =>
      if (len s <? 2) || negb (bool_decide (head s = Some x2d)) then Parsed st args
      else if decide (s = bs "--") then Parsed st rest
      else
        match flag_name s with
        | None => Failed FlagBad
        | Some (n, v) =>
            match formal n with
            | None => if bool_decide (n ∈ [bs "help"; bs "h"]) then Failed FlagHelp else Failed FlagBad
            | Some f =>
                if fl_bool f then
                  match fl_set f (default (bs "true") v) st with Some st => Parse rest st | None => Failed FlagBad end
                else
                  match v, rest with
                  | Some v, _ => match fl_set f v st with Some st => Parse rest st | None => Failed FlagBad end
                  | None, v :: rest => match fl_set f v st with Some st => Parse rest st | None => Failed FlagBad end
                  | None, [] => Failed FlagBad
                  end
            end
        end
  end.
End parse.
Arguments Parsed {S}.
Arguments Failed {S}.

(** ** Integers: [strconv.ParseInt(s, 0, 64)] *)

Definition digit_val (b : byte) : option Z :=
  let z := bv b in
  if is_digit b then Some (z - 48)
  else if (97 <=? z) && (z <=? 122) then Some (z - 87)
  else if (65 <=? z) && (z <=? 90) then Some (z - 55)
  else None.

(** The base and the digits; "0" reads the same in any base. *)
Definition int_base (s : gostring) : Z * gostring :=
  match s with
  | x30 :: x :: _ :: _ =>
      if bool_decide (x ∈ [x62; x42]) then (2, drop 2 s)
      else if bool_decide (x ∈ [x6f; x4f]) then (8, drop 2 s)
      else if bool_decide (x ∈ [x78; x58]) then (16, drop 2 s)
      else (8, drop 1 s)
  | x30 :: _ :: [] => (8, drop 1 s)
  | _ => (10, s)
  end.

(** [underscoreOK]: [prev] is ["^"] at the start, ["0"] after a digit or a base
    prefix, ["_"] after an underscore and ["!"] after anything else. *)
Fixpoint underscores_loop (hex : bool) (prev : byte) (s : gostring) : bool :=
  match s with
  | [] => negb (bool_decide (prev = x5f))
  | b :: t =>
      if is_digit b || (hex && match digit_val b with Some d => d <? 16 | None => false end)
      then underscores_loop hex x30 t
      else if decide (b = x5f) then bool_decide (prev = x30) && underscores_loop hex x5f t
      else negb (bool_decide (prev = x5f)) && underscores_loop hex x21 t
  end.
Definition underscoreOK (s : gostring) : bool :=
  match s with
  | x30 :: x :: t =>
      if bool_decide (x ∈ [x62; x42; x6f; x4f; x78; x58]) then underscores_loop (bool_decide (x ∈ [x78; x58])) x30 t
      else underscores_loop false x5e s
  | _ => underscores_loop false x5e s
  end.

Fixpoint int_digits (base acc : Z) (s : gostring) : option Z :=
  match s with
  | [] => Some acc
  | b :: t =>
      if decide (b = x5f) then int_digits base acc t
      else match digit_val b with
           | Some d => if d <? base then int_digits base (acc * base + d) t else None
           | None => None
           end
  end.

Definition ParseInt0 (s : gostring) : option Z :=
  let '(neg, t) := match s with x2d :: t => (true, t) | x2b :: t => (false, t) | _ => (false, s) end in
  let '(base, ds) := int_base t in
  if bool_decide (t = []) || (bool_decide (x5f ∈ t) && negb (underscoreOK t)) then None
  else
    match int_digits base 0 ds with
    | Some v =>
        let v := if (neg : bool) then - v else v in
        if (min_int64 <=? v) && (v <=? max_int64) then Some v else None
    | None => None
    end.

(** ** Lemmas *)

Section lemmas.
Context {S : Type} (formal : gostring -> option (flag S)).

(** Flags parsed to the end leave what follows them to be read on, as long as it
    starts with something that is not a flag. *)
Definition plain_arg (s : gostring) : bool := (len s <? 2) || negb (bool_decide (head s = Some x2d)).

Lemma Parse_plain s rest st : plain_arg s = true -> Parse formal (s :: rest) st = Parsed st (s :: rest).
Proof. intros H. cbn [Parse]. unfold plain_arg in H. by rewrite H. Qed.

Lemma Parse_app n g s rest st st' :
  (length g <= n)%nat -> plain_arg s = true ->
  Parse formal g st = Parsed st' [] -> Parse formal (g ++ s :: rest) st = Parsed st' (s :: rest).
Proof.
  revert g st. induction n as [|n IH]; intros [|a g] st Hl Hs H; cbn [length] in Hl; try lia.
  1,2: injection H as <-; by apply Parse_plain.
  cbn [app Parse] in *. destruct (_ || _); [done|]. destruct (decide (a = bs "--")); [by injection H as <- ->|].
  destruct (flag_name a) as [[nm v]|]; [|done]. destruct (formal nm) as [f|]; [|by destruct (bool_decide _)].
  destruct (fl_bool f); [destruct (fl_set f _ st); [|done]; apply IH; [lia|done|done]|].
  destruct v as [v|]; [destruct (fl_set f v st); [|done]; apply IH; [lia|done|done]|].
  destruct g as [|v g]; [done|]. cbn [app length] in *. destruct (fl_set f v st); [|done]. apply IH; [lia|done|done].
Qed.

(** A parse consumes its arguments from the front. *)
Lemma Parse_suffix n g st st' rest :
  (length g <= n)%nat -> Parse formal g st = Parsed st' rest -> exists used, g = used ++ rest.
Proof.
  revert g st. induction n as [|n IH]; intros [|a g] st Hl H; cbn [length] in Hl; try lia; cbn [Parse] in H.
  1,2: injection H as <- <-; by exists [].
  destruct (_ || _); [injection H as <- <-; by exists []|].
  destruct (decide (a = bs "--")); [injection H as <- <-; by exists [a]|].
  destruct (flag_name a) as [[nm v]|]; [|done]. destruct (formal nm) as [f|]; [|by destruct (bool_decide _)].
  assert (Hgo : forall st, Parse formal g st = Parsed st' rest -> exists used, a :: g = used ++ rest).
  { intros st1 H1. destruct (IH g st1 ltac:(lia) H1) as [used ->]. by exists (a :: used). }
  destruct (fl_bool f); [destruct (fl_set f _ st); [by eapply Hgo|done]|].
  destruct v as [v|]; [destruct (fl_set f v st); [by eapply Hgo|done]|].
  destruct g as [|v g]; [done|]. destruct (fl_set f v st) as [st1|]; [|done]. cbn [length] in Hl.
  destruct (IH g st1 ltac:(lia) H) as [used ->]. by exists (a :: v :: used).
Qed.
End lemmas.
