(* ===== verification/QueryCli.v ===== *)
(** * QueryCli: [internal/querycli]

    The [query] client: its subcommands and flags, the requests it makes, the
    exit codes, and the CPU hotspots it reads out of a text plan.  The HTTP
    transport, files, [encoding/json] and the column layout of [text/tabwriter]
    are parameters; what goes to standard error is left out. *)

From S2P Require Import Prelude Errors GoTime Utf8 Url Row Event EventRow Float64 FloatFmt Format Api Config Flag.

Definition exitOK : Z := 0.
Definition exitError : Z := 1.
Definition exitNotFound : Z := 4.

(** ** Flags *)

Record commonFlags := mkCommon {
  cm_url : gostring;
  cm_headers : list gostring;
  cm_tokenFile : gostring;
  cm_tokenHeader : gostring;
  cm_timeout : Duration;
  cm_insecure : bool;
  cm_output : gostring
}.
Definition default_common : commonFlags := mkCommon [] [] [] [] (30 * Second) false (bs "table").

Definition set_url v c := mkCommon v (cm_headers c) (cm_tokenFile c) (cm_tokenHeader c) (cm_timeout c) (cm_insecure c) (cm_output c).
Definition set_tokenFile v c := mkCommon (cm_url c) (cm_headers c) v (cm_tokenHeader c) (cm_timeout c) (cm_insecure c) (cm_output c).
Definition set_tokenHeader v c := mkCommon (cm_url c) (cm_headers c) (cm_tokenFile c) v (cm_timeout c) (cm_insecure c) (cm_output c).
Definition set_timeout v c := mkCommon (cm_url c) (cm_headers c) (cm_tokenFile c) (cm_tokenHeader c) v (cm_insecure c) (cm_output c).
Definition set_insecure v c := mkCommon (cm_url c) (cm_headers c) (cm_tokenFile c) (cm_tokenHeader c) (cm_timeout c) v (cm_output c).
Definition set_output v c := mkCommon (cm_url c) (cm_headers c) (cm_tokenFile c) (cm_tokenHeader c) (cm_timeout c) (cm_insecure c) v.

(** [headerList.Set]. *)
Definition add_header (v : gostring) (c : commonFlags) : option commonFlags :=
  if bool_decide (x3a ∈ v) then
    Some (mkCommon (cm_url c) (cm_headers c ++ [v]) (cm_tokenFile c) (cm_tokenHeader c) (cm_timeout c) (cm_insecure c) (cm_output c))
  else None.

(** Flags whose text is the value, and flags whose text is parsed. *)
Definition string_flag {S} (set : gostring -> S -> S) : flag S := mkFlag false (fun v st => Some (set v st)).
Definition parsed_flag {S A} (is_bool : bool) (parse : gostring -> option A) (set : A -> S -> S) : flag S :=
  mkFlag is_bool (fun v st => (fun a => set a st) <$> parse v).

Definition registerCommon (name : gostring) : option (flag commonFlags) :=
  if decide (name = bs "url") then Some (string_flag set_url)
  else if decide (name = bs "header" \/ name = bs "H") then Some (mkFlag false add_header)
  else if decide (name = bs "token-file") then Some (string_flag set_tokenFile)
  else if decide (name = bs "token-header") then Some (string_flag set_tokenHeader)
  else if decide (name = bs "timeout") then Some (parsed_flag false ParseDuration set_timeout)
  else if decide (name = bs "insecure") then Some (parsed_flag true ParseBool set_insecure)
  else if decide (name = bs "output" \/ name = bs "o") then Some (string_flag set_output)
  else None.

Record listFlags := mkListFlags {
  ls_range : gostring;
  ls_user : gostring;
  ls_catalog : gostring;
  ls_state : gostring;
  ls_sort : gostring;
  ls_desc : bool;
  ls_limit : Z;
  ls_offset : Z
}.
Definition default_list : listFlags := mkListFlags (bs "24h") [] [] [] (bs "start") true 20 0.

Record planFlags := mkPlanFlags { pl_top : Z; pl_raw : bool }.
Definition default_plan : planFlags := mkPlanFlags 10 false.

(** A flag of one half of the settings. *)
Definition on_common {S} (f : flag commonFlags) : flag (commonFlags * S) :=
  mkFlag (fl_bool f) (fun v st => (fun c => (c, snd st)) <$> fl_set f v (fst st)).
Definition on_own {S} (f : flag S) : flag (commonFlags * S) :=
  mkFlag (fl_bool f) (fun v st => (fun o => (fst st, o)) <$> fl_set f v (snd st)).

Definition list_flag (name : gostring) : option (flag listFlags) :=
  if decide (name = bs "range") then Some (string_flag (fun v l => mkListFlags v (ls_user l) (ls_catalog l) (ls_state l) (ls_sort l) (ls_desc l) (ls_limit l) (ls_offset l)))
  else if decide (name = bs "user") then Some (string_flag (fun v l => mkListFlags (ls_range l) v (ls_catalog l) (ls_state l) (ls_sort l) (ls_desc l) (ls_limit l) (ls_offset l)))
  else if decide (name = bs "catalog") then Some (string_flag (fun v l => mkListFlags (ls_range l) (ls_user l) v (ls_state l) (ls_sort l) (ls_desc l) (ls_limit l) (ls_offset l)))
  else if decide (name = bs "state") then Some (string_flag (fun v l => mkListFlags (ls_range l) (ls_user l) (ls_catalog l) v (ls_sort l) (ls_desc l) (ls_limit l) (ls_offset l)))
  else if decide (name = bs "sort") then Some (string_flag (fun v l => mkListFlags (ls_range l) (ls_user l) (ls_catalog l) (ls_state l) v (ls_desc l) (ls_limit l) (ls_offset l)))
  else if decide (name = bs "desc") then Some (parsed_flag true ParseBool (fun v l => mkListFlags (ls_range l) (ls_user l) (ls_catalog l) (ls_state l) (ls_sort l) v (ls_limit l) (ls_offset l)))
  else if decide (name = bs "limit") then Some (parsed_flag false ParseInt0 (fun v l => mkListFlags (ls_range l) (ls_user l) (ls_catalog l) (ls_state l) (ls_sort l) (ls_desc l) v (ls_offset l)))
  else if decide (name = bs "offset") then Some (parsed_flag false ParseInt0 (fun v l => mkListFlags (ls_range l) (ls_user l) (ls_catalog l) (ls_state l) (ls_sort l) (ls_desc l) (ls_limit l) v))
  else None.

Definition plan_flag (name : gostring) : option (flag planFlags) :=
  if decide (name = bs "top") then Some (parsed_flag false ParseInt0 (fun v p => mkPlanFlags v (pl_raw p)))
  else if decide (name = bs "raw") then Some (parsed_flag true ParseBool (fun v p => mkPlanFlags (pl_top p) v))
  else None.

(** The flag set of a subcommand with flags of its own. *)
Definition with_own {S} (own : gostring -> option (flag S)) (name : gostring) : option (flag (commonFlags * S)) :=
  match registerCommon name with Some f => Some (on_common f) | None => on_own <$> own name end.

(** [parseFlags]. *)
Definition parseFlags {S} (fs : gostring -> option (flag S)) (args : list gostring) (st : S) : gerror + S * list gostring :=
  match Parse fs args st with
  | Parsed st rest => inr (st, rest)
  | Failed FlagHelp => inl (Leaf EHelp)
  | Failed FlagBad => inl (Leaf EUsage)
  end.

(** The loop of [parseWithID]: flags may stand on both sides of the id. *)
Fixpoint id_loop {S} (fuel : nat) (fs : gostring -> option (flag S)) (rem : list gostring) (id : gostring) (st : S)
    : gerror + gostring * S :=
  match fuel with
  | O => inl (errText "out of fuel")
  | Datatypes.S fuel =>
      match parseFlags fs rem st with
      | inl err => inl err
      | inr (st, []) => if decide (id = []) then inl (errText "missing <queryId> argument") else inr (id, st)
      | inr (st, a :: rem) =>
          if decide (id = []) then id_loop fuel fs rem a st
          else inl (Leaf (EText (bs "unexpected argument: " ++ a)))
      end
  end.
Definition parseWithID {S} (fs : gostring -> option (flag S)) (args : list gostring) (st : S) : gerror + gostring * S :=
  id_loop (Datatypes.S (length args)) fs args [] st.

(** ** CPU hotspots: [plan.go] *)

Record hotspot := mkHotspot { h_Operator : gostring; h_CPUPct : float; h_CPU : gostring; h_Rows : Z }.

(** The classes of the regular expressions. *)
Definition is_ws (b : byte) : bool := bool_decide (b ∈ [x09; x0a; x0c; x0d; x20]).
Definition is_lower (b : byte) : bool := (97 <=? bv b) && (bv b <=? 122).
Definition is_upper (b : byte) : bool := (65 <=? bv b) && (bv b <=? 90).
Definition is_num (b : byte) : bool := is_digit b || bool_decide (b = x2e).

(** The longest run of a class, and what follows. *)
Fixpoint span (p : byte -> bool) (s : gostring) : gostring * gostring :=
  match s with
  | b :: t => if p b then let '(x, rest) := span p t in (b :: x, rest) else ([], s)
  | [] => ([], [])
  end.
Definition skip_ws (s : gostring) : gostring := snd (span is_ws s).

(** [p], then the rest of [s]. *)
Definition literal (p s : gostring) : option gostring := if has_prefix s p then Some (drop (length p) s) else None.

(** The leftmost position where [m] matches. *)
Fixpoint search {A} (m : gostring -> option A) (s : gostring) : option A :=
  match m s with
  | Some a => Some a
  | None => match s with [] => None | _ :: t => search m t end
  end.

(** [a run of a-z and the micro sign]. *)
Fixpoint span_unit_chars (s : gostring) : gostring * gostring :=
  match s with
  | xc2 :: xb5 :: t => let '(x, rest) := span_unit_chars t in (xc2 :: xb5 :: x, rest)
  | b :: t => if is_lower b then let '(x, rest) := span_unit_chars t in (b :: x, rest) else ([], s)
  | [] => ([], [])
  end.

(** [CPU:\s*([0-9.]+\s*[a-zµ]+)\s*\(([0-9.]+)%\)]: adjacent classes are disjoint,
    so the greedy match is the only one. *)
Definition match_cpu (s : gostring) : option (gostring * gostring) :=
  s ← literal (bs "CPU:") s;
  let s := skip_ws s in
  let '(num, s1) := span is_num s in
  let '(sp, s2) := span is_ws s1 in
  let '(un, s3) := span_unit_chars s2 in
  if bool_decide (num = []) || bool_decide (un = []) then None
  else
    s4 ← literal (bs "(") (skip_ws s3);
    let '(pct, s5) := span is_num s4 in
    if bool_decide (pct = []) then None
    else _ ← literal (bs "%)") s5; Some (num ++ sp ++ un, pct).
Definition reCPUPct : gostring -> option (gostring * gostring) := search match_cpu.

(** [Output:\s*([0-9,]+)\s+rows?]. *)
Definition match_rows (s : gostring) : option gostring :=
  s ← literal (bs "Output:") s;
  let '(num, s1) := span (fun b => is_digit b || bool_decide (b = x2c)) (skip_ws s) in
  let '(sp, s2) := span is_ws s1 in
  if bool_decide (num = []) || bool_decide (sp = []) then None
  else _ ← literal (bs "row") s2; Some num.
Definition reRows : gostring -> option gostring := search match_rows.

(** [[├└]─\s*(.+)$] on a line: the capture keeps one byte of a blank rest. *)
Definition match_branch (s : gostring) : option gostring :=
  let rest := match literal [xe2; x94; x9c] s with Some t => Some t | None => literal [xe2; x94; x94] s end in
  s ← rest;
  s ← literal [xe2; x94; x80] s;
  if decide (s = []) then None
  else Some (if decide (skip_ws s = []) then drop (length s - 1) s else skip_ws s).
Definition reOpBranch : gostring -> option gostring := search match_branch.

(** The pattern of a top operator: blanks, a capital, letters, an opening bracket,
    to the end of the line; the capture starts at the capital. *)
Definition reOpTop (s : gostring) : option gostring :=
  let s := skip_ws s in
  match s with
  | b :: t =>
      if is_upper b then
        let '(letters, rest) := span is_alpha t in
        if bool_decide (letters = []) || negb (bool_decide (head rest = Some x5b)) then None else Some s
      else None
  | [] => None
  end.

Definition normSpace (s : gostring) : gostring := join (bs " ") (Fields s).
Definition opName (s : gostring) : gostring := cli_trunc (normSpace s) 60.

(** [strconv.ParseFloat] of digits and dots with its error ignored: a malformed
    number is 0, one out of range is infinite. *)
Definition zero_float : float := Finite false 0 (- 1074).
Definition parse_pct (s : gostring) : float :=
  match ParseFloat s with
  | Some f => f
  | None => if (count_byte x2e s <=? 1) && existsb is_digit s then Inf false else zero_float
  end.

(** [strconv.ParseInt] of digits with its error ignored: out of range saturates. *)
Definition parseCommaInt (s : gostring) : Z :=
  let ds := filter (fun b => b <> x2c) s in Z.min (dec_val ds) max_int64.

(** [out[i].CPUPct > out[j].CPUPct], and [sort.SliceStable] by it. *)
Definition hotter (a b : hotspot) : bool := negb (fge (h_CPUPct b) (h_CPUPct a)).
Fixpoint insert_hot (h : hotspot) (l : list hotspot) : list hotspot :=
  match l with
  | [] => [h]
  | x :: t => if hotter h x then h :: l else x :: insert_hot h t
  end.
Definition sort_hot (l : list hotspot) : list hotspot := foldl (fun l h => insert_hot h l) [] l.

(** One line of a plan: the last operator seen, and the spots so far. *)
Definition plan_line (acc : gostring * list hotspot) (ln : gostring) : gostring * list hotspot :=
  let '(lastOp, out) := acc in
  match reOpBranch ln with
  | Some m => (opName m, out)
  | None =>
      match reOpTop ln with
      | Some m => (opName m, out)
      | None =>
          match reCPUPct ln with
          | Some (cpu, pct) =>
              let rows := match reRows ln with Some r => parseCommaInt r | None => 0 end in
              (lastOp, out ++ [mkHotspot lastOp (parse_pct pct) (normSpace cpu) rows])
          | None => (lastOp, out)
          end
      end
  end.
Definition found_spots (plan : gostring) : list hotspot := snd (foldl plan_line ([], []) (split_byte x0a plan)).
Definition parseHotspots (plan : gostring) : list hotspot := sort_hot (found_spots plan).

(** ** The client *)

(** [textproto.CanonicalMIMEHeaderKey]. *)
Definition header_byte (b : byte) : bool := is_alpha b || is_digit b || in_string b "!#$%&'*+-.^_`|~".
Fixpoint canonical_loop (upper : bool) (s : gostring) : gostring :=
  match s with
  | [] => []
  | b :: t =>
      let z := bv b in
      let c := if upper && (97 <=? z) && (z <=? 122) then byte_of (z - 32)
               else if negb upper && (65 <=? z) && (z <=? 90) then byte_of (z + 32)
               else b in
      c :: canonical_loop (bool_decide (c = x2d)) t
  end.
Definition CanonicalHeaderKey (k : gostring) : gostring :=
  if forallb header_byte k then canonical_loop true k else k.

(** [Header.Add] and [Header.Set]. *)
Definition header_add (k v : gostring) (h : Values) : Values :=
  let k := CanonicalHeaderKey k in <[k := default [] (h !! k) ++ [v]]> h.
Definition header_set (k v : gostring) (h : Values) : Values := <[CanonicalHeaderKey k := [v]]> h.

(** [strings.TrimRight(s, "/")]. *)
Fixpoint drop_slashes (s : gostring) : gostring :=
  match s with x2f :: t => drop_slashes t | _ => s end.
Definition TrimRightSlash (s : gostring) : gostring := reverse (drop_slashes (reverse s)).

Record client := mkClient { cl_base : gostring; cl_headers : Values; cl_timeout : Duration; cl_insecure : bool }.

Definition raw_header (h : Values) (raw : gostring) : Values :=
  let '(k, v) := cut x3a raw in header_add (TrimSpace k) (TrimSpace (default [] v)) h.

Section client.
Context {W : Type} (quote : gostring -> gostring) (ReadFile : gostring -> gerror + gostring).

Definition newClient (c : commonFlags) : gerror + client :=
  if decide (TrimSpace (cm_url c) = []) then inl (errText "--url is required")
  else if negb (bool_decide (cm_output c ∈ [bs "table"; bs "json"])) then
    inl (Leaf (EText (bs "--output must be " ++ [x22] ++ bs "table" ++ [x22] ++ bs " or " ++ [x22] ++ bs "json" ++ [x22]
           ++ bs ", got " ++ quote (cm_output c))))
  else if negb (bool_decide (cm_tokenHeader c = [])) && bool_decide (cm_tokenFile c = []) then
    inl (errText "--token-header requires --token-file")
  else
    let h := foldl raw_header ∅ (cm_headers c) in
    let made h := inr (mkClient (TrimRightSlash (cm_url c)) h (cm_timeout c) (cm_insecure c)) in
    if decide (cm_tokenFile c = []) then made h
    else
      match ReadFile (cm_tokenFile c) with
      | inl err => inl (Wrap (bs "read token file: ") err)
      | inr b =>
          let tok := TrimSpace b in
          if decide (tok = []) then inl (Leaf (EText (bs "token file " ++ cm_tokenFile c ++ bs " is empty")))
          else if decide (cm_tokenHeader c = []) then made (header_set (bs "Authorization") (bs "Bearer " ++ tok) h)
          else made (header_set (cm_tokenHeader c) tok h)
      end.

(** A request, and what comes back: the status code, the status line's text and
    the body. *)
Record request := mkRequest { rq_url : gostring; rq_headers : Values }.
Record answer := mkAnswer { an_code : Z; an_status : gostring; an_body : gostring }.

(** [url.Parse] in [http.NewRequest], and the transport, which does not follow
    redirects. *)
Context (bad_url : gostring -> option gerror) (Do : client -> request -> W -> W * (gerror + answer)).

Definition maxAnswerBytes : Z := Z.shiftl 64 20.

Definition getJSON {A} (decode : gostring -> gerror + A) (c : client) (path : gostring) (q : Values) (w : W) : W * (gerror + A) :=
  let u := cl_base c ++ path ++ (if decide (q = ∅) then [] else bs "?" ++ Encode q) in
  match bad_url u with
  | Some err => (w, inl err)
  | None =>
      let h := map_fold (fun k vs h => foldl (fun h v => header_add k v h) h vs) ∅ (cl_headers c) in
      let '(w, r) := Do c (mkRequest u (header_set (bs "Accept") (bs "application/json") h)) w in
      match r with
      | inl err => (w, inl err)
      | inr a =>
          if an_code a =? 404 then (w, inl (Leaf ENotFound))
          else if negb (Z.quot (an_code a) 100 =? 2) then
            let msg := TrimSpace (slice_to (an_body a) 512) in
            (w, inl (Leaf (EText (bs "server returned " ++ an_status a ++ (if decide (msg = []) then [] else bs ": " ++ msg)))))
          else (w, decode (if maxAnswerBytes <? len (an_body a) then slice_to (an_body a) maxAnswerBytes else an_body a))
      end
  end.

(** ** Requests *)

Abbreviation listEnvelope := listResponse.
Abbreviation queryDetail := queryResponse.
Context (decode_list : gostring -> gerror + listEnvelope) (decode_detail : gostring -> gerror + queryDetail).

Definition getQuery (c : client) (id : gostring) : W -> W * (gerror + queryDetail) :=
  getJSON decode_detail c (bs "/api/v1/queries/" ++ PathEscape id) ∅.

Definition list_values (l : listFlags) : Values :=
  let limit := if ls_limit l <? 1 then 1 else ls_limit l in
  let limit := if 500 <? limit then 500 else limit in
  let offset := if ls_offset l <? 0 then 0 else ls_offset l in
  let q := Set_ (bs "range") (ls_range l) ∅ in
  let q := if decide (ls_user l = []) then q else Set_ (bs "user") (ls_user l) q in
  let q := if decide (ls_catalog l = []) then q else Set_ (bs "catalog") (ls_catalog l) q in
  let q := if decide (ls_state l = []) then q else Set_ (bs "state") (ls_state l) q in
  let q := Set_ (bs "sort") (ls_sort l) q in
  let q := Set_ (bs "dir") (if ls_desc l then bs "desc" else bs "asc") q in
  Set_ (bs "offset") (itoa offset) (Set_ (bs "limit") (itoa limit) q).

(** ** Output *)

(** The indented JSON of each result, and [text/tabwriter] over rows of cells. *)
Context (json_list : listEnvelope -> gostring) (json_detail : queryDetail -> gostring)
  (json_hotspots : list hotspot -> gostring) (tabwrite : list (list gostring) -> gostring).

Definition line (s : gostring) : gostring := s ++ [x0a].
(** A size; it always has a text. *)
Definition size (n : Z) : gostring := default [] (cli_humanBytes n).
Definition size_opt (n : option Z) : gostring := default [] (cli_humanBytesPtr n).

Definition list_cells (qs : list QuerySummary) : list (list gostring) :=
  [bs "ID"; bs "STATE"; bs "TYPE"; bs "USER"; bs "CPU"; bs "WALL"; bs "ROWS"]
  :: ((fun s => [qs_QueryID s; qs_QueryState s; qs_QueryType s; cli_trunc (qs_UserName s) 20; humanMS (qs_CPUMS s);
                 humanMS (qs_WallMS s); humanCount (qs_OutputRows s)]) <$> qs).

Definition printList (env : listEnvelope) : gostring :=
  match lr_Queries env with
  | [] => line (bs "no queries")
  | qs =>
      tabwrite (list_cells qs)
      ++ (if lr_HasNext env
          then line [] ++ line (ellipsis ++ bs " more results (next: --offset " ++ itoa (lr_Offset env + len qs) ++ bs ")")
          else [])
  end.

(** [getProjection]: everything but the plans. *)
Definition getProjection (d : queryDetail) : queryDetail :=
  mkQueryResponse (set_str FPlan [] (set_str FJSONPlan [] (qr_Row d))) (qr_Inputs d).

Definition input_cells (inputs : list InputMetadata) : list (list gostring) :=
  [bs "  TABLE"; bs "ROWS"; bs "BYTES"]
  :: ((fun i => [bs "  " ++ in_CatalogName i ++ bs "." ++ in_Schema i ++ bs "." ++ in_Table i;
                 humanCountPtr (in_PhysicalInputRows i); size_opt (in_PhysicalInputBytes i)]) <$> inputs).

Definition printDetail (d : queryDetail) : gostring :=
  let r := qr_Row d in
  let state := QueryState r ++ (if decide (ErrorCode r = []) then []
                                else bs "  (" ++ ErrorCode r ++ bs " / " ++ ErrorType r ++ bs ")") in
  line (bs "Query    " ++ QueryID r)
  ++ line (bs "State    " ++ state)
  ++ line (bs "User     " ++ UserName r ++ bs "    Source " ++ Source r ++ bs "    Type " ++ QueryType r)
  ++ line (bs "Timings  queued " ++ humanMS (QueuedMS r) ++ bs "  planning " ++ humanMS (PlanningMS r)
           ++ bs "  exec " ++ humanMS (ExecutionMS r) ++ bs "  wall " ++ humanMS (WallMS r))
  ++ line (bs "CPU      " ++ humanMS (CPUMS r) ++ bs "    Peak mem " ++ size (PeakUserMemoryBytes r))
  ++ line (bs "IO       in " ++ size (PhysicalInputBytes r) ++ bs " / " ++ humanCount (PhysicalInputRows r)
           ++ bs " rows    out " ++ humanCount (OutputRows r) ++ bs " rows    written " ++ humanCount (WrittenRows r) ++ bs " rows")
  ++ (if decide (ErrorMessage r = []) then [] else line (bs "Error    " ++ cli_trunc (oneLine (ErrorMessage r)) 200))
  ++ (if decide (qr_Inputs d = []) then [] else line (bs "Inputs:") ++ tabwrite (input_cells (qr_Inputs d)))
  ++ (if decide (Plan r = [] /\ JSONPlan r = []) then []
      else line [] ++ line (bs "Plan     " ++ size (len (Plan r)) ++ bs " text / " ++ size (len (JSONPlan r)) ++ bs " json "
                            ++ em_dash ++ bs " run `query plan " ++ QueryID r ++ bs "` for CPU hotspots")).

Definition hotspot_cells (hs : list hotspot) : list (list gostring) :=
  [bs "CPU%"; bs "CPU"; bs "ROWS"; bs "OPERATOR"]
  :: ((fun h => [fixed 1 (h_CPUPct h) ++ bs "%"; h_CPU h; humanCount (h_Rows h); h_Operator h]) <$> hs).

Definition printHotspots (hs : list hotspot) : gostring :=
  match hs with
  | [] => line (bs "no per-operator CPU stats found in plan (the query may not have executed)")
  | _ => tabwrite (hotspot_cells hs) ++ line [] ++ line (bs "(use --raw for the full text plan)")
  end.

(** [render]: the encoded value, or the table. *)
Definition render (format json table : gostring) : gostring := if decide (format = bs "json") then json else table.

(** ** Subcommands *)

(** A subcommand's error, or what it printed. *)
Definition result : Type := gerror + gostring.

Definition runList (args : list gostring) (w : W) : W * result :=
  match parseFlags (with_own list_flag) args (default_common, default_list) with
  | inl err => (w, inl err)
  | inr ((common, l), rest) =>
      if negb (bool_decide (rest = [])) then
        (w, inl (Leaf (EText (bs "unexpected argument(s): " ++ join (bs " ") rest))))
      else
        match newClient common with
        | inl err => (w, inl err)
        | inr cl =>
            match getJSON decode_list cl (bs "/api/v1/queries") (list_values l) w with
            | (w, inl err) => (w, inl err)
            | (w, inr env) => (w, inr (render (cm_output common) (json_list env) (printList env)))
            end
        end
  end.

Definition runGet (args : list gostring) (w : W) : W * result :=
  match parseWithID registerCommon args default_common with
  | inl err => (w, inl err)
  | inr (id, common) =>
      match newClient common with
      | inl err => (w, inl err)
      | inr cl =>
          match getQuery cl id w with
          | (w, inl err) => (w, inl err)
          | (w, inr d) => (w, inr (render (cm_output common) (json_detail (getProjection d)) (printDetail d)))
          end
      end
  end.

Definition runPlan (args : list gostring) (w : W) : W * result :=
  match parseWithID (with_own plan_flag) args (default_common, default_plan) with
  | inl err => (w, inl err)
  | inr (id, (common, p)) =>
      match newClient common with
      | inl err => (w, inl err)
      | inr cl =>
          match getQuery cl id w with
          | (w, inl err) => (w, inl err)
          | (w, inr d) =>
              let plan := Plan (qr_Row d) in
              if pl_raw p then (w, inr (if decide (plan = []) then [] else line plan))
              else
                let hs := parseHotspots plan in
                let hs := if (0 <? pl_top p) && (pl_top p <? len hs) then slice_to hs (pl_top p) else hs in
                (w, inr (render (cm_output common) (json_hotspots hs) (printHotspots hs)))
          end
      end
  end.

(** The exit code of a subcommand's outcome. *)
Definition exit_code (r : result) : Z :=
  match r with
  | inr _ => exitOK
  | inl err =>
      if errors_Is EHelp err then exitOK
      else if errors_Is EUsage err then exitError
      else if errors_Is ENotFound err then exitNotFound
      else exitError
  end.

(** [Main]: what is printed on [out], and the exit code. *)
Definition Main (args : list gostring) (w : W) : W * (gostring * Z) :=
  let finish x := let '(w, r) := x in (w, (match r with inr out => out | inl _ => [] end, exit_code r)) in
  match args with
  | [] => (w, ([], exitError))
  | sub :: rest =>
      if decide (sub = bs "list") then finish (runList rest w)
      else if decide (sub = bs "get") then finish (runGet rest w)
      else if decide (sub = bs "plan") then finish (runPlan rest w)
      else if bool_decide (sub ∈ [bs "-h"; bs "--help"; bs "help"]) then (w, ([], exitOK))
      else (w, ([], exitError))
  end.
End client.
