(* ===== verification/QueryCliTheorems.v ===== *)
(** * QueryCliTheorems: command lines, requests that reach the server, hotspots

    The client against the models of the flag package, the server's routes and
    its JSON API. *)

From S2P Require Import Prelude Errors GoTime Utf8 Url Row Event EventRow Float64 FloatFmt Format FormatTheorems Query Api ApiTheorems Config Backend Main Server ServerTheorems Flag QueryCli.

(** ** Command lines *)

Section args.
Context {S : Type} (fs : gostring -> option (flag S)).

Lemma parseFlags_app g s rest st st' :
  plain_arg s = true -> parseFlags fs g st = inr (st', []) -> parseFlags fs (g ++ s :: rest) st = inr (st', s :: rest).
Proof.
  unfold parseFlags. intros Hs H. destruct (Parse fs g st) as [st1 r|[]] eqn:E; [|done..].
  injection H as -> ->. by rewrite (Parse_app fs (length g) g s rest st st').
Qed.

Lemma parseFlags_shorter g st st' a rest :
  parseFlags fs g st = inr (st', a :: rest) -> (length rest < length g)%nat.
Proof.
  unfold parseFlags. destruct (Parse fs g st) as [st1 r|[]] eqn:E; [|done..]. intros [= -> ->].
  destruct (Parse_suffix fs (length g) g st st' (a :: rest)) as [used ->]; [done|done|]. rewrite length_app. cbn. lia.
Qed.

Lemma id_loop_total fuel rem id st :
  (length rem < fuel)%nat -> id_loop fuel fs rem id st <> inl (errText "out of fuel").
Proof.
  revert rem id st. induction fuel as [|fuel IH]; intros rem id st Hl; [lia|]. cbn [id_loop].
  destruct (parseFlags fs rem st) as [err|[st1 [|a rest]]] eqn:E.
  - unfold parseFlags in E. by destruct (Parse fs rem st) as [|[]]; simplify_eq.
  - by case_decide.
  - case_decide; [|done]. apply IH. apply parseFlags_shorter in E. lia.
Qed.

(** The query id may stand anywhere among the flags: whatever complete flags
    come before and after it, the id and the settings are those of the flags in
    their order; a command line without an id or with a second one is refused;
    and reading the arguments ends. *)
Theorem id_among_flags g1 g2 g3 id id2 st st1 st2 st3 :
  plain_arg id = true -> id <> [] -> plain_arg id2 = true ->
  parseFlags fs g1 st = inr (st1, []) -> parseFlags fs g2 st1 = inr (st2, []) -> parseFlags fs g3 st2 = inr (st3, []) ->
  parseWithID fs (g1 ++ id :: g2) st = inr (id, st2)
  /\ parseWithID fs g1 st = inl (errText "missing <queryId> argument")
  /\ parseWithID fs (g1 ++ id :: g2 ++ id2 :: g3) st = inl (Leaf (EText (bs "unexpected argument: " ++ id2)))
  /\ forall args, parseWithID fs args st <> inl (errText "out of fuel").
Proof.
  intros Hid Hne Hid2 H1 H2 H3. unfold parseWithID. split_and!.
  - rewrite length_app. cbn [length id_loop]. rewrite (parseFlags_app g1 id g2 st st1) by done.
    rewrite decide_True by done. rewrite Nat.add_succ_r. cbn [id_loop]. rewrite H2. by rewrite decide_False.
  - cbn [id_loop]. rewrite H1. by rewrite decide_True.
  - rewrite length_app. cbn [length id_loop]. rewrite (parseFlags_app g1 id _ st st1) by done.
    rewrite decide_True by done. rewrite Nat.add_succ_r. cbn [id_loop].
    rewrite (parseFlags_app g2 id2 g3 st1 st2) by done. by rewrite decide_False.
  - intros args. apply id_loop_total. lia.
Qed.
End args.

(** ** Hotspots *)

Definition hot_ge (a b : hotspot) : Prop := fge (h_CPUPct a) (h_CPUPct b) = true.
Definition same_pct (p : float) (h : hotspot) : Prop := fge (h_CPUPct h) p && fge p (h_CPUPct h) = true.
#[export] Instance same_pct_dec p h : Decision (same_pct p h) := decide (_ = true).

Lemma insert_hot_perm h l : insert_hot h l ≡ₚ h :: l.
Proof.
  induction l as [|x l IH]; [done|]. cbn [insert_hot]. destruct (hotter h x); [done|]. rewrite IH. apply Permutation_swap.
Qed.

Lemma sort_hot_perm l : sort_hot l ≡ₚ l.
Proof.
  unfold sort_hot. assert (H : forall acc, foldl (fun l h => insert_hot h l) acc l ≡ₚ l ++ acc).
  { induction l as [|h l IH]; intros acc; [done|]. cbn [foldl app]. rewrite IH, insert_hot_perm.
    symmetry. apply Permutation_middle. }
  by rewrite H, app_nil_r.
Qed.

Lemma not_hotter a b : hotter a b = false <-> hot_ge b a.
Proof. unfold hotter, hot_ge. by rewrite negb_false_iff. Qed.
Lemma hotter_ge a b : hotter a b = true -> hot_ge a b.
Proof. unfold hotter, hot_ge. rewrite negb_true_iff. intros H. destruct (fge_total (h_CPUPct a) (h_CPUPct b)); congruence. Qed.

Lemma insert_hot_sorted h l : StronglySorted hot_ge l -> StronglySorted hot_ge (insert_hot h l).
Proof.
  induction 1 as [|x l Hs IH Hx]; [by repeat constructor|]. cbn [insert_hot]. destruct (hotter h x) eqn:E.
  - apply hotter_ge in E. constructor; [by constructor|]. constructor; [done|].
    eapply Forall_impl; [exact Hx|]. intros q Hq. by eapply fge_trans.
  - apply not_hotter in E. constructor; [done|]. rewrite insert_hot_perm. by constructor.
Qed.

Lemma filter_none {A} (P : A -> Prop) `{!forall x, Decision (P x)} (l : list A) : Forall (fun x => ~ P x) l -> filter P l = [].
Proof. induction 1 as [|x l Hx _ IH]; [done|]. by rewrite filter_cons, decide_False. Qed.

(** A new spot goes behind the spots of its percentage. *)
Lemma insert_hot_stable p h l :
  StronglySorted hot_ge l -> filter (same_pct p) (insert_hot h l) = filter (same_pct p) l ++ filter (same_pct p) [h].
Proof.
  induction 1 as [|x l Hs IH Hx]; [done|]. cbn [insert_hot]. destruct (hotter h x) eqn:E.
  - rewrite (filter_cons _ h (x :: l)). change [h] with ([h] : list hotspot). rewrite (filter_cons _ h []).
    destruct (decide (same_pct p h)) as [Hh|Hh]; [|by rewrite app_nil_r].
    assert (Hno : Forall (fun q => ~ same_pct p q) (x :: l)).
    { assert (Hx' : Forall (hot_ge x) (x :: l)) by (constructor; [destruct (fge_total (h_CPUPct x) (h_CPUPct x)); done|done]).
      eapply Forall_impl; [exact Hx'|]. intros q Hq [Hq1 Hq2]%andb_true_iff. apply andb_true_iff in Hh as [Hh1 Hh2].
      unfold hotter in E. apply negb_true_iff in E. assert (F : fge (h_CPUPct x) (h_CPUPct h) = true); [|congruence].
      eapply fge_trans; [exact Hq|]. eapply fge_trans; [exact Hq1|exact Hh2]. }
    by rewrite (filter_none _ (x :: l)).
  - rewrite !filter_cons, IH. by destruct (decide _).
Qed.

Lemma sort_hot_stable l :
  StronglySorted hot_ge (sort_hot l) /\ forall p, filter (same_pct p) (sort_hot l) = filter (same_pct p) l.
Proof.
  unfold sort_hot. assert (H : forall acc, StronglySorted hot_ge acc ->
    StronglySorted hot_ge (foldl (fun l h => insert_hot h l) acc l)
    /\ forall p, filter (same_pct p) (foldl (fun l h => insert_hot h l) acc l) = filter (same_pct p) acc ++ filter (same_pct p) l).
  { induction l as [|h l IH]; intros acc Ha; [split; [done|]; intros p; by rewrite app_nil_r|]. cbn [foldl].
    destruct (IH (insert_hot h acc)) as [Hs Hf]; [by apply insert_hot_sorted|]. split; [done|]. intros p.
    rewrite Hf, insert_hot_stable, <- app_assoc, <- filter_app by done. done. }
  destruct (H [] (SSorted_nil _)) as [Hs Hf]. split; [done|]. intros p. by rewrite Hf.
Qed.

(** The operator an operator line names, and the last one named above a line. *)
Definition op_of (ln : gostring) : option gostring :=
  match reOpBranch ln with Some m => Some (opName m) | None => opName <$> reOpTop ln end.
Definition op_above (above : list gostring) : gostring := default [] (last (omap op_of above)).

(** The spot on a line that is not an operator line. *)
Definition spot_of (op ln : gostring) : list hotspot :=
  match op_of ln, reCPUPct ln with
  | None, Some (cpu, pct) =>
      [mkHotspot op (parse_pct pct) (normSpace cpu) (match reRows ln with Some r => parseCommaInt r | None => 0 end)]
  | _, _ => []
  end.
Definition spots (lines : list gostring) : list hotspot :=
  mjoin (imap (fun i ln => spot_of (op_above (take i lines)) ln) lines).

Lemma spots_snoc lines ln : spots (lines ++ [ln]) = spots lines ++ spot_of (op_above lines) ln.
Proof.
  unfold spots. rewrite imap_app, join_app. cbn [imap]. rewrite mjoin_cons, app_nil_r, Nat.add_0_r, take_app_length. f_equal.
  f_equal. apply imap_ext. intros i x Hi. rewrite take_app_le; [done|]. apply lookup_lt_Some in Hi. lia.
Qed.

Lemma op_above_snoc lines ln : op_above (lines ++ [ln]) = default (op_above lines) (op_of ln).
Proof.
  unfold op_above. rewrite omap_app. cbn [omap list_omap]. destruct (op_of ln); [by rewrite last_snoc|by rewrite app_nil_r].
Qed.

Lemma plan_fold lines : foldl plan_line ([], []) lines = (op_above lines, spots lines).
Proof.
  induction lines as [|ln lines IH] using rev_ind; [done|].
  rewrite foldl_app, IH, spots_snoc, op_above_snoc. cbn [foldl plan_line]. unfold spot_of, op_of.
  destruct (reOpBranch ln); [by rewrite app_nil_r|]. destruct (reOpTop ln); [by rewrite app_nil_r|].
  cbn [fmap option_fmap option_map default from_option]. destruct (reCPUPct ln) as [[cpu pct]|]; [done|by rewrite app_nil_r].
Qed.

(** C34. The hotspots of a plan are the CPU statistics found on its lines, each
    under the last operator named above it, ranked by percentage from the
    highest down; spots of one percentage stay in the order of the plan. *)
Theorem hotspots_ranked plan :
  let found := spots (split_byte x0a plan) in
  parseHotspots plan ≡ₚ found
  /\ StronglySorted hot_ge (parseHotspots plan)
  /\ (forall p, filter (same_pct p) (parseHotspots plan) = filter (same_pct p) found).
Proof.
  cbn zeta. unfold parseHotspots, found_spots. rewrite plan_fold. cbn [snd].
  split; [apply sort_hot_perm|]. apply sort_hot_stable.
Qed.

(** A count reads back from the text the client prints for it, commas and all. *)
Theorem comma_count_reads_back n : 0 <= n < 2 ^ 63 -> parseCommaInt (humanCount n) = n.
Proof.
  intros Hn. assert (G : forall s i L, forallb is_digit s = true -> filter (fun b => b <> x2c) (group_loop i L s) = s).
  { induction s as [|c s IH]; intros i L Hs; [done|]. cbn in Hs. apply andb_true_iff in Hs as [Hc Hs]. cbn [group_loop].
    assert (E : forall x : bool, filter (fun b : byte => b <> x2c) (if x then [x2c] else []) = []) by (by intros []).
    rewrite filter_app, E. cbn [app]. rewrite filter_cons, decide_True, IH by (done || by intros ->). done. }
  unfold parseCommaInt, humanCount, itoa. destruct (Z.ltb_spec n 0); [lia|].
  rewrite G by (apply udec_digits; lia). rewrite dec_val_udec by lia. unfold max_int64. lia.
Qed.

(** ** The client against the server *)

Lemma path_no_query id : x3f ∉ bs "/api/v1/queries/" ++ PathEscape id.
Proof.
  rewrite elem_of_app. intros [Hin|Hin]; [set_solver|]. eapply (escape_free encodePathSegment id x3f); [set_solver|exact Hin].
Qed.

Section loopback.
Context {W : Type} `{Reader W} (unmarshal_inputs : gostring -> list InputMetadata).
Context (opts : Options) (metrics : bool) (now : time).
Context (enc_list : listResponse -> gostring) (enc_detail : queryResponse -> gostring) (enc_error : gostring -> gostring).
Context (decode_list : gostring -> gerror + listResponse) (decode_detail : gostring -> gerror + queryResponse).
Context (quote : gostring -> gostring) (ReadFile : gostring -> gerror + gostring).
Context (json_list : listResponse -> gostring) (json_detail : queryResponse -> gostring)
  (json_hotspots : list hotspot -> gostring) (tabwrite : list (list gostring) -> gostring).

(** The server's answer to a GET, as bytes. *)
Definition answer_of {A} (enc : A -> gostring) (r : response A) : answer :=
  match r with
  | WriteJSON st v => mkAnswer st [] (enc v)
  | WriteError st msg => mkAnswer st [] (enc_error msg)
  end.
Definition serve (path query : gostring) (w : W) : W * answer :=
  match route opts metrics (bs "GET") path with
  | Handle Server.handleAPIListQueries =>
      let '(w, r) := Api.handleAPIListQueries now (ParseQuery query) w in (w, answer_of enc_list r)
  | Handle (Server.handleAPIGetQuery id) =>
      let '(w, r) := Api.handleAPIGetQuery unmarshal_inputs id w in (w, answer_of enc_detail r)
  | _ => (w, mkAnswer 404 [] (enc_error (bs "not found")))
  end.

(** A transport to that server, mounted at the client's base. *)
Definition loopback (c : client) (rq : request) (w : W) : W * (gerror + answer) :=
  match literal (cl_base c) (rq_url rq) with
  | None => (w, inl (errText "no such host"))
  | Some target => let '(path, query) := cut x3f target in let '(w, a) := serve path (default [] query) w in (w, inr a)
  end.
Definition get_ (args : list gostring) (w : W) : W * result :=
  runGet quote ReadFile (fun _ => None) loopback decode_detail json_detail tabwrite args w.
Definition list_ (args : list gostring) (w : W) : W * result :=
  runList quote ReadFile (fun _ => None) loopback decode_list json_list tabwrite args w.

Lemma literal_app p s : literal p (p ++ s) = Some s.
Proof. unfold literal. rewrite has_prefix_app. by rewrite drop_app_length. Qed.

(** What a request for [path] and [q] brings back. *)
Lemma getJSON_loopback {A} (decode : gostring -> gerror + A) c path q w :
  x3f ∉ path -> query_ok q ->
  getJSON (fun _ => None) loopback decode c path q w =
  let '(w', a) := serve path (Encode q) w in
  (w', if an_code a =? 404 then inl (Leaf ENotFound)
       else if negb (Z.quot (an_code a) 100 =? 2) then
         let msg := TrimSpace (slice_to (an_body a) 512) in
         inl (Leaf (EText (bs "server returned " ++ an_status a ++ (if decide (msg = []) then [] else bs ": " ++ msg))))
       else decode (if maxAnswerBytes <? len (an_body a) then slice_to (an_body a) maxAnswerBytes else an_body a)).
Proof.
  intros Hp Hq. unfold getJSON, loopback. cbn [rq_url]. rewrite literal_app.
  assert (Hcut : cut x3f (path ++ (if decide (q = ∅) then [] else bs "?" ++ Encode q)) = (path, if decide (q = ∅) then None else Some (Encode q))).
  { case_decide; [rewrite app_nil_r; by apply cut_none|by apply cut_app]. }
  rewrite Hcut. assert (Hd : default [] (if decide (q = ∅) then None else Some (Encode q)) = Encode q).
  { case_decide as E; [by rewrite E|done]. }
  rewrite Hd. destruct (serve path (Encode q) w) as [w' a]. cbn [an_code]. by repeat case_match.
Qed.

(** The id of a query survives the trip. *)
Lemma get_served id w :
  opt_UI opts = true -> id <> [] -> id ∉ [bs "."; bs ".."] ->
  serve (bs "/api/v1/queries/" ++ PathEscape id) (Encode ∅) w =
  let '(w, r) := Api.handleAPIGetQuery unmarshal_inputs id w in (w, answer_of enc_detail r).
Proof. intros Hui Hne Hd. unfold serve. by destruct (query_routes opts metrics id Hne Hd Hui) as [-> _]. Qed.

(** C19. [query get] over the wire: for any id but "." and "..", the lookup that
    reaches the store is for exactly that id, and the client exits with 0 and
    prints the row without its plans (an answer of at most 64 MB that decodes), with 4 when there is no such query, and
    with 1 when the lookup fails. *)
Theorem get_over_the_wire g1 g2 id common common' cl w :
  opt_UI opts = true -> plain_arg id = true -> id <> [] -> id ∉ [bs "."; bs ".."] ->
  parseFlags registerCommon g1 default_common = inr (common', []) -> parseFlags registerCommon g2 common' = inr (common, []) ->
  newClient quote ReadFile common = inr cl ->
  (forall d, snd (Api.handleAPIGetQuery unmarshal_inputs id w) = WriteJSON 200 d ->
     decode_detail (enc_detail d) = inr d /\ len (enc_detail d) <= maxAnswerBytes) ->
  let '(w', r) := get_ (g1 ++ id :: g2) w in
  fst (GetQuery id w) = w'
  /\ match snd (GetQuery id w) with
     | (_, Some _) => exit_code r = exitError
     | (None, None) => exit_code r = exitNotFound
     | (Some row, None) =>
         exit_code r = exitOK /\ exists d, qr_Row d = row
           /\ r = inr (render (cm_output common) (json_detail (getProjection d)) (printDetail tabwrite d))
     end.
Proof.
  intros Hui Hp Hne Hd H1 H2 Hcl Hdec. unfold get_, runGet.
  assert (Hargs : parseWithID registerCommon (g1 ++ id :: g2) default_common = inr (id, common)).
  { unfold parseWithID. rewrite length_app. cbn [length id_loop]. rewrite (parseFlags_app _ g1 id g2 default_common common') by done.
    rewrite decide_True by done. rewrite Nat.add_succ_r. cbn [id_loop]. rewrite H2. by rewrite decide_False. }
  rewrite Hargs, Hcl. unfold getQuery.
  rewrite getJSON_loopback by (apply path_no_query || (intros k vs Hk; by rewrite lookup_empty in Hk)).
  rewrite get_served by done. unfold Api.handleAPIGetQuery in *.
  destruct (GetQuery id w) as [w' [[row|] [err|]]]; cbn [fst snd answer_of an_code an_body an_status] in *.
  - split; [done|]. done.
  - destruct (Hdec _ eq_refl) as [Hr Hl].
    change (200 =? 404) with false. change (negb (Z.quot 200 100 =? 2)) with false. cbn iota.
    rewrite (proj2 (Z.ltb_ge _ _)) by exact Hl. rewrite Hr. split; [done|]. split; [done|].
    eexists. split; [|reflexivity]. done.
  - split; [done|]. done.
  - split; [done|]. done.
Qed.

Definition cli_limit (l : listFlags) : Z := Z.min 500 (Z.max 1 (ls_limit l)).
Definition cli_offset (l : listFlags) : Z := Z.max 0 (ls_offset l).

Lemma Get_list_values l k :
  Get (list_values l) k =
  if decide (k = bs "limit") then itoa (cli_limit l)
  else if decide (k = bs "offset") then itoa (cli_offset l)
  else if decide (k = bs "dir") then (if ls_desc l then bs "desc" else bs "asc")
  else if decide (k = bs "sort") then ls_sort l
  else if decide (k = bs "state") then ls_state l
  else if decide (k = bs "catalog") then ls_catalog l
  else if decide (k = bs "user") then ls_user l
  else if decide (k = bs "range") then ls_range l
  else [].
Proof.
  unfold list_values.
  assert (El : (if 500 <? (if ls_limit l <? 1 then 1 else ls_limit l) then 500 else if ls_limit l <? 1 then 1 else ls_limit l) = cli_limit l).
  { unfold cli_limit. destruct (Z.ltb_spec (ls_limit l) 1); bcase; lia. }
  assert (Eo : (if ls_offset l <? 0 then 0 else ls_offset l) = cli_offset l) by (unfold cli_offset; bcase; lia).
  rewrite El, Eo.
  destruct (decide (ls_user l = [])) as [Eu|], (decide (ls_catalog l = [])) as [Ec|], (decide (ls_state l = [])) as [Es|];
    rewrite !Get_Set; unfold Get at 1; rewrite lookup_empty; repeat case_decide; subst; simplify_eq; try done; congruence.
Qed.

Lemma list_values_ok l : query_ok (list_values l).
Proof. unfold list_values. repeat case_decide; repeat apply query_ok_Set; by intros k vs Hk; rewrite lookup_empty in Hk. Qed.

(** The filter the flags ask for. *)
Definition asked (l : listFlags) (f : QueryFilter) : Prop :=
  Until f = now /\ User f = TrimSpace (ls_user l) /\ FilterCatalog f = TrimSpace (ls_catalog l) /\ State f = ls_state l
  /\ Sort f = (if validSorts (ls_sort l) then ls_sort l else bs "start") /\ Desc f = ls_desc l
  /\ (forall d, rangeDurations (ls_range l) = Some d -> Since f = now - d)
  /\ Limit f = cli_limit l + 1 /\ Offset f = Z.min (cli_offset l) apiMaxOffset.

Lemma asked_filter l :
  int64 (ls_offset l) ->
  clampLimit (Get (list_values l) (bs "limit")) = cli_limit l
  /\ parseOffset (Get (list_values l) (bs "offset")) = Z.min (cli_offset l) apiMaxOffset
  /\ asked l (with_page (cli_limit l + 1) (Z.min (cli_offset l) apiMaxOffset) (buildQueryFilter now (list_values l))).
Proof.
  intros Hi. assert (Hl : 1 <= cli_limit l <= 500) by (unfold cli_limit; lia).
  assert (Ho : 0 <= cli_offset l < 2 ^ 63) by (unfold cli_offset, int64 in *; lia).
  split; [|split].
  - rewrite Get_list_values, decide_True by done. unfold clampLimit. rewrite atoi_itoa by (unfold int64; lia).
    unfold apiMaxLimit. bcase; lia.
  - rewrite Get_list_values, decide_False, decide_True by done. unfold parseOffset. rewrite atoi_itoa by (unfold int64; lia).
    bcase; lia.
  - unfold asked, buildQueryFilter, resolveRange, rangeInfo. rewrite !Get_list_values.
    repeat first [rewrite decide_True by done | rewrite decide_False by done].
    destruct (rangeDurations (ls_range l)) as [d|]; cbn [with_page Until User FilterCatalog State Sort Desc Since Limit Offset];
      split_and!; try done; try (by destruct (validSorts (ls_sort l))); try (by destruct (ls_desc l)); by intros d' [= <-].
Qed.

(** C20. [query list] over the wire: the listing that reaches the store is the one
    the flags ask for, one row past the limit; the client prints its first rows
    up to the limit, knows whether there are more, and exits with 1 when the
    store fails.  Assumed of [encoding/json], as parameters on both sides: the
    client decodes the answer the server encoded to the same value, and it is no
    longer than the client reads (64 MB). *)
Theorem list_over_the_wire args common l cl w :
  opt_UI opts = true -> int64 (ls_offset l) ->
  parseFlags (with_own list_flag) args (default_common, default_list) = inr ((common, l), []) ->
  newClient quote ReadFile common = inr cl ->
  (forall v, snd (Api.handleAPIListQueries now (list_values l) w) = WriteJSON 200 v ->
     decode_list (enc_list v) = inr v /\ len (enc_list v) <= maxAnswerBytes) ->
  exists f, asked l f
  /\ let '(w', r) := list_ args w in
     fst (ListQueries f w) = w'
     /\ match snd (ListQueries f w) with
        | (_, Some _) => exit_code r = exitError
        | (rows, None) =>
            exists v, r = inr (render (cm_output common) (json_list v) (printList tabwrite v))
              /\ lr_Queries v = slice_to rows (cli_limit l) /\ lr_HasNext v = (cli_limit l <? len rows)
              /\ lr_Offset v = Offset f
        end.
Proof.
  intros Hui Hi Hargs Hcl Hdec. destruct (asked_filter l Hi) as (El & Eo & Hf).
  unfold Api.handleAPIListQueries in Hdec. rewrite El, Eo in Hdec.
  set (f := with_page _ _ _) in Hf. fold f in Hdec. exists f. split; [exact Hf|].
  assert (Hlim : 1 <= cli_limit l <= 500) by (unfold cli_limit; lia).
  unfold list_, runList. rewrite Hargs, bool_decide_eq_true_2 by done. cbn [negb]. rewrite Hcl.
  rewrite getJSON_loopback by (apply list_values_ok || by apply (bool_decide_eq_false_1 _)).
  unfold serve. rewrite list_route, parse_encode by (done || apply list_values_ok).
  unfold Api.handleAPIListQueries. rewrite El, Eo. fold f. unfold listAndTrim in *.
  destruct (ListQueries f w) as [w' [rows [err|]]]; cbn [fst snd answer_of an_code an_body an_status]; [done|].
  destruct (Z.ltb_spec (cli_limit l) (len rows)); cbn [snd answer_of an_code an_body an_status] in *;
    change (200 =? 404) with false; change (negb (Z.quot 200 100 =? 2)) with false; cbn iota;
    destruct (Hdec _ eq_refl) as [Hd Hl]; rewrite (proj2 (Z.ltb_ge _ _) Hl), Hd;
    (split; [reflexivity|]); eexists; (split; [reflexivity|]); cbn [lr_Queries lr_HasNext lr_Offset]; split_and!; try reflexivity.
  by rewrite slice_to_all by lia.
Qed.
End loopback.

(** ** Witnesses *)

Definition one_row (id : gostring) : Reader unit := {|
  ListQueries f w := (w, ([zero_summary], None));
  GetQuery i w := (w, (if decide (i = id) then Some (set_str FQueryID id zero_row) else None, None))
|}.
Definition no_file (_ : gostring) : gerror + gostring := inl (errText "no such file").
Definition demo_id : gostring := bs "20240101_120000_00001_abcde".

Lemma id_among_flags_witness :
  parseWithID registerCommon [bs "--url=http://h"; demo_id; bs "-o"; bs "json"] default_common
  = inr (demo_id, set_output (bs "json") (set_url (bs "http://h") default_common))
  /\ forall args, parseWithID registerCommon args default_common <> inl (errText "out of fuel").
Proof.
  pose proof (id_among_flags registerCommon [bs "--url=http://h"] [bs "-o"; bs "json"] [] demo_id (bs "x") default_common
    (set_url (bs "http://h") default_common) (set_output (bs "json") (set_url (bs "http://h") default_common))
    (set_output (bs "json") (set_url (bs "http://h") default_common))) as H.
  destruct H as (H1 & _ & _ & H4); [by vm_compute|discriminate|by vm_compute|by vm_compute|by vm_compute|by vm_compute|].
  split; [exact H1|exact H4].
Defined.

Lemma comma_count_reads_back_witness : parseCommaInt (humanCount 1234567) = 1234567 /\ humanCount 1234567 = bs "1,234,567".
Proof. split; [apply (comma_count_reads_back 1234567); lia|by vm_compute]. Defined.

(** A server with one row, and answers whose decoding is fixed. *)
Definition demo_detail : queryResponse := mkQueryResponse (set_str FQueryID demo_id zero_row) [].
Definition demo_page : listResponse := mkListResponse [zero_summary] 1 20 0 false.


Lemma get_over_the_wire_witness :
  exists r, get_ (H := one_row demo_id) (fun _ => []) (mkOptions false true) true 0 (fun _ => []) (fun _ => bs "row") (fun e => e)
    (fun _ => inr demo_detail) (fun s => s) no_file (fun _ => bs "json") (fun _ => bs "table")
    [bs "--url"; bs "http://h"; demo_id; bs "-o"; bs "json"] tt = (tt, r)
  /\ exit_code r = exitOK.
Proof.
  pose proof (get_over_the_wire (H := one_row demo_id) (fun _ => []) (mkOptions false true) true 0 (fun _ => []) (fun _ => bs "row")
    (fun e => e) (fun _ => inr demo_detail) (fun s => s) no_file (fun _ => bs "json") (fun _ => bs "table")
    [bs "--url"; bs "http://h"] [bs "-o"; bs "json"] demo_id (set_output (bs "json") (set_url (bs "http://h") default_common))
    (set_url (bs "http://h") default_common) (mkClient (bs "http://h") ∅ (30 * Second) false) tt
    eq_refl ltac:(by vm_compute) ltac:(discriminate)
    ltac:(by apply (bool_decide_eq_false_1 _); vm_compute) ltac:(by vm_compute) ltac:(by vm_compute) ltac:(by vm_compute)) as G.
  cbn [app] in G. destruct (get_ _ _ _ _ _ _ _ _ _ _ _ _ _ _) as [[] r]. exists r. split; [reflexivity|].
  destruct G as [_ G].
  { intros d Hd. split; [|vm_compute; discriminate].
    transitivity (inr (A := gerror) demo_detail); [reflexivity|]. f_equal. vm_compute in Hd. injection Hd as <-. by vm_compute. }
  cbn [GetQuery one_row snd] in G. rewrite decide_True in G by done. apply G.
Defined.

Lemma list_over_the_wire_witness :
  exists f r, asked 0 default_list f /\ Offset f = 0
  /\ list_ (H := one_row demo_id) (fun _ => []) (mkOptions false true) true 0 (fun _ => bs "page") (fun _ => []) (fun e => e)
    (fun _ => inr demo_page) (fun s => s) no_file (fun _ => bs "json") (fun _ => bs "table") [bs "--url"; bs "http://h"] tt = (tt, r)
  /\ exit_code r = exitOK.
Proof.
  pose proof (list_over_the_wire (H := one_row demo_id) (fun _ => []) (mkOptions false true) true 0 (fun _ => bs "page") (fun _ => [])
    (fun e => e) (fun _ => inr demo_page) (fun s => s) no_file (fun _ => bs "json") (fun _ => bs "table")
    [bs "--url"; bs "http://h"] (set_url (bs "http://h") default_common) default_list
    (mkClient (bs "http://h") ∅ (30 * Second) false) tt
    eq_refl ltac:(by vm_compute) ltac:(by vm_compute) ltac:(by vm_compute)) as G.
  destruct (list_ _ _ _ _ _ _ _ _ _ _ _ _ _ _) as [[] r].
  destruct G as (f & Hf & _ & G).
  { intros v Hv. split; [|vm_compute; discriminate].
    transitivity (inr (A := gerror) demo_page); [reflexivity|]. f_equal. vm_compute in Hv. injection Hv as <-. by vm_compute. }
  exists f, r. split; [exact Hf|]. cbn [ListQueries one_row snd] in G. destruct G as (v & -> & _).
  split_and!; [|reflexivity|reflexivity]. destruct Hf as (_ & _ & _ & _ & _ & _ & _ & _ & ->). reflexivity.
Defined.
